(* ===== verification/_CoqProject ===== *)
-Q . S2P
Prelude.v
RustStd.v
Proc.v
External.v
Json.v
Input.v
Model.v
ProbePlan.v
Policy.v
Crypto.v
EventLog.v
EventLogSpec.v
Manifest.v
Tasks.v
Timeline.v
StateGraph.v
Writer.v
WriterSpec.v
BlobStore.v
BlobStoreSpec.v
RunStore.v
TlsKeylog.v
TlsKeylogSpec.v
AuditLog.v
Sse.v
Erasure.v
Inspect.v
InspectSpec.v
Correlation.v
CorrelationSpec.v
CorrelationReport.v
Verify.v
UploadState.v
Migration.v
Retention.v
UploadStateSpec.v
RetentionSpec.v
Platform.v
Upload.v
UploadSpec.v
UploadExamples.v
UploadPrivacy.v
Replay.v
ReplaySpec.v
