(* ===== verification/Prelude.v ===== *)
(** * iorec: a verification development of the recorder

    iorec (the Rust crate under src/src/) runs an agent behind a recording
    proxy and keeps what it exchanged with model providers: sanitized events
    in an append-only log, payloads in a content-addressed blob store, both
    encrypted at rest when a key is given, a manifest that describes and
    authenticates the run, and a hash-chained audit log of destructive
    operations.  Finished runs are inspected, uploaded to platforms, and pruned
    or erased when they may be.  This library models the parts that decide what
    is recorded, what survives a crash, what can be read back, what is sent and
    what is removed.

    ** How the parts interact

    The proxy cuts provider responses into server-sent events (Sse.v) and
    sanitizes headers and JSON (Policy.v, with the bounds of Input.v) into
    events (Model.v).  The writer numbers them, appends them to the log in one
    of two formats and acknowledges them once they are synced (Writer.v over
    EventLog.v and Crypto.v); payloads go to the blob store (BlobStore.v).
    Collectors reach both through the handle of the run, which counts what was
    lost (RunStore.v); the one of TLS secrets is TlsKeylog.v.  The
    manifest (Manifest.v, with the probe plan of ProbePlan.v) selects and
    authenticates the key with which the analyses read the log back: tasks
    (Tasks.v), timeline (Timeline.v) and provider-side state (StateGraph.v).
    The inspection of a run (Inspect.v) reads all of it and derives the claims
    the manifest makes about its coverage, after the correlation of hooks and
    transcripts with the requests of the proxy (Correlation.v) was appended to
    the log; the verification (Verify.v) and the migration (Migration.v) of a run
    build on it, and so does the export of what an agent sent, for replay
    (Replay.v).  Uploads (UploadState.v for the state
    files and plans, Platform.v for the client, Upload.v for the operations)
    send the log in fixed batches with its ordinary payloads, and keep a spool
    of what was acknowledged.  Erasure of a payload class (Erasure.v) works on
    the manifest, the blob store and the audit log (AuditLog.v) together;
    pruning, deletion by request and expiry (Retention.v) work on the directory
    of all runs and ask the spool of a run whether everything was uploaded.

    ** Files

    - Prelude.v: results and their monad, [ensure], [ok_or], [try_fold],
      lengths as [N], tactics and hint databases.
    - Proc.v: procedures on a world that may be killed at any write, with
      their loops and the triples [holds], [yields] and [at_most].
    - RustStd.v: byte slices, [str] with UTF-8, integer parsing and encoding.
    - External.v: crates as classes: hashing, hex, base64, AEAD, zstd, each
      with a class of documented laws and a concrete instance for witnesses.
    - Json.v: [serde_json::Value] and ordered maps and sets.
    - Input.v: src/src/input.rs and metadata.rs.
    - Model.v: src/src/model.rs: [PendingEvent], [EventEnvelope], validation.
    - ProbePlan.v: probe_plan.rs ([build], [validate_plan]) and the policy
      validation and [select_probe_helper] of probe_policy.rs.
    - Policy.v: policy.rs: policies, [sanitize_headers], [sanitize_json].
    - Crypto.v: crypto.rs: keys, framing, associated data, key files.
    - EventLog.v: the codec, recovery and readers of storage.rs;
      EventLogSpec.v: their theorems.
    - Manifest.v: manifest.rs.  Tasks.v: tasks.rs.  Timeline.v: timeline.rs.
      StateGraph.v: state.rs.
    - Writer.v: [append_batch], [writer_loop] and the opening of the log in
      storage.rs; WriterSpec.v: the abstract log and the refinement.
    - BlobStore.v: blob_keys.rs and the blob half of storage.rs;
      BlobStoreSpec.v: its theorems.
    - RunStore.v: the handle [RunStore] of storage.rs with [append], [event] and
      the drop counter, over an oracle for clocks and answers.
    - TlsKeylog.v: the lines and the capture of tls_keylog.rs; TlsKeylogSpec.v:
      their theorems.
    - AuditLog.v: audit.rs.  Sse.v: sse.rs and its use on the chunks of a response in
      proxy.rs.
    - Erasure.v: the class erasure of retention.rs.
    - Inspect.v: inspect.rs; InspectSpec.v: its theorems.
    - Correlation.v: correlation.rs; CorrelationSpec.v: its decisions against a
      reference without indexes; CorrelationReport.v: its report against the
      inspection of the log it extended.
    - Verify.v: verify.rs and what a report that passes says.
    - Migration.v: migration.rs.
    - Replay.v: replay.rs; ReplaySpec.v: the bundle and its export.
    - UploadState.v: the state files, plans and retention gate of upload.rs;
      UploadStateSpec.v: their theorems.
    - Platform.v: [PlatformClient] of upload.rs and what a platform documents.
      Upload.v: [upload_run], flushes, seals and backfills.  UploadSpec.v: their
      theorems over histories of operations.  UploadExamples.v: a small honest
      platform that may also erase, and a run uploaded to it.  UploadPrivacy.v:
      which payloads are sent.
    - Retention.v: pruning, deletion by request and expiry in retention.rs;
      RetentionSpec.v: their theorems.

    ** State and effects

    Machine integers are [N] with saturating, checked and wrapping operations
    as the source uses them; bytes are [list byte].  Fallible code returns
    [result].  A file is its content; a directory is a finite map from names
    to contents ([RunDir]); the directory of the runs is one from names to
    entries with their identity ([Runs]).  The event file of the writer has a durable part
    and faults drawn from a [Disk]; concurrent stores are a step relation over
    tasks, each at its next atomic step ([task_step], [stores_step]); erasures,
    prunes, deletions, exports and uploads are procedures on a world that may be killed
    at any write, also in the middle of an audit record ([proc], [update_or]).
    The world of an upload contains the platform: a function from its state and
    a request to an answer, which may get lost, and the next state.  What it has
    received so far is a view of its state ([PlatformView]); [PlatformLaws] says
    that its answers about that are true and that nobody else writes into the
    recordings of the run.  They say nothing of what it still holds: the platform
    may expire or erase what it received.  Random values, times and identifiers
    are arguments.

    ** What the theorems show

    - Log: whatever writes and syncs fail and whenever the process stops, every
      acknowledged event is recovered, with consecutive numbers and within the
      budget ([acknowledged_events_survive], [history_invariant],
      [append_batch_refines]); a log cut at any byte recovers to its complete
      lines ([recover_cut]); reading visits exactly those ([read_cut]) and
      streaming ends ([run_reader_complete]).
    - Blobs: budgets hold under every interleaving and fault
      ([blob_budget_holds]); a returned reference can be read back
      ([stored_payload_readable]); keys and names round-trip.
    - Erasure: a receipt means that the class is unreadable and nothing else
      changed ([erase_removes_class]); no crash point loses other data or removes
      anything before the logged intent, and a later call that returns a
      receipt leaves what an uninterrupted one would ([erasure_crash_safe]).
    - Uploads: when the retention gate opens, every platform of the spool has
      received and acknowledged the events of the whole run with their ordinary
      payloads, whatever was killed or lost before ([retention_gate_sound]);
      payloads referred to as packet captures or TLS secrets are never sent,
      whatever the spool and the platform ([sensitive_payloads_stay]); a plan
      covers exactly the events up to its boundary ([upload_plan_exact]).
    - Retention: a prune removes exactly the finished runs that are due and, if
      they were sent anywhere, acknowledged, and says so before
      ([prune_only_due]); a deletion can be killed anywhere and repeated
      ([delete_crash_safe]); expiry makes only due payloads unreadable
      ([expire_only_due]).
    - Inspection: the claims of completeness are made exactly when the log and
      the files of the blob directory show them ([payload_claims_exact]); a run
      that passes the verification of the client profile has all it says, down to
      the payloads, which read back by a reference with the largest size that the
      log gives ([client_verification_sound]); a migration adds the missing
      authentication and nothing else, once ([migration_exact]).
    - Correlation: the decisions are those of a reference without indexes
      ([correlation_exact]), no request is given to two anchors that could both
      mean it ([claims_exclusive]), every event it appends is valid
      ([correlation_events_valid]) and the inspection counts what it reported
      ([inspection_counts_unresolved]).
    - Replay: an export that ends in any way leaves the run as it was and no
      output or a whole one ([replay_export_exact]); the bundle has the bytes of
      the log and calls complete only what is ([replay_bundle_faithful]); its
      headers are those of the requests but for secret, redacted and connection
      ones, those the connection header names included
      ([replay_no_credentials]).
    - Sanitizing: secrets do not influence the output
      ([sanitize_json_noninterference]), the output is bounded
      ([sanitize_json_safe]), and a change is always on record
      ([sanitize_json_accounted]).
    - TLS secrets: a capture that noted no drop kept every record it read,
      encrypted and readable ([keylog_capture_accounted]), and accepts the lines
      of the recorder's own client ([own_lines_accepted]).
    - Cryptographic framing: contexts are kept apart ([aad_injective]) and
      everything encrypted decrypts ([framed_roundtrips],
      [event_record_roundtrip], [written_opens], [key_file_roundtrip]).
    - Audit log: the last hash commits to the log ([head_hash_commits]),
      appends keep it verifiable, searches are exact.
    - Analyses: the task index, the timeline pages and the state graph are
      exactly what the events say ([task_index_exact],
      [timeline_pages_complete], [state_graph_exact],
      [zero_unresolved_self_contained]).
    - Probes: plans built from validated inputs validate ([build_valid]); a
      selected helper is unambiguous and pinned ([select_unambiguous]).
    - Parser, fed by the loop of the proxy over response chunks: no event is lost
      ([push_all_lossless]), chunking does not matter for streams with LF lines
      within the limit, but does at a split CR LF ([push_all_chunk_invariant],
      [split_crlf_leaves_fragment]).
    - Defects of the code, as theorems: [split_crlf_leaves_fragment],
      [append_past_limit], [marker_payload_unreadable],
      [failed_create_stays_charged], [stale_temporary_blocks],
      [large_state_unreadable], [interrupted_prune_leaks], and
      [torn_append_stops] for the audit log an erasure depends on.

    ** Fuel

    Loops that consume a file take the length of the file plus one as fuel;
    every round consumes at least one byte, and the lemmas of each loop
    ([verify_loop_fold], the recovery loops of EventLogSpec.v) show that it is
    enough.  The block loop of the writer takes the number of events, and
    writes at least one per round; the line loop of the key log takes the length
    of its buffer.  [follow_pages] takes the number of matching
    events plus one: each page but the last has at least one entry.  A loop of a
    procedure runs until it ends or the number of effects it may still make is
    used up, which is the process being killed ([repeat_until]).  The size of a
    run takes the number of its directories plus one ([directory_size_exact]).

    ** Not modelled

    - Code outside the crate: the AEAD, HKDF, SHA-256, zstd, base64, hex,
      serde, uuid and http crates are classes with the laws they document.  Values
      that serde_json does not reproduce (an optional value that is [Some] of null,
      floats that do not print exactly) are outside of the laws of serde.
    - File-system details: permissions, symlink checks, directory syncs, the
      temporary names of atomic writes, advisory locks.  They guard against
      other processes, which the models do not contain.
    - Asynchronous I/O: the proxy, the hook collector, control server and packet
      capture are drivers over tokio, hyper and the kernel; of the TLS key log,
      the creation of the pipe and the shutdown of its task.
    - Printing, argument parsing, exports to other formats, and sessions.
    - The platform service (iorec-platform/), a separate program: uploads see it
      through the class [Platform]. *)

From Stdlib Require Import Strings.Byte.
From Stdlib Require Export NArith Lia.
From stdpp Require Export base list strings gmap.
From stdpp Require Import options.

Open Scope N_scope.

(** ** Automation of the development *)

Create HintDb iorec.
Create Rewrite HintDb lengths.

(** Case analysis on the discriminee of a [match] or [if] in the goal or in a
    hypothesis, keeping the equation. *)
Ltac break_match :=
  match goal with
  | |- context [match ?x with _ => _ end] => destruct x eqn:?
  | H : context [match ?x with _ => _ end] |- _ => destruct x eqn:?
  end.

(** Reflect every boolean comparison on [N] in the context. *)
Ltac reflect_N :=
  repeat match goal with
  | H : (_ <? _) = true |- _ => apply N.ltb_lt in H
  | H : (_ <? _) = false |- _ => apply N.ltb_ge in H
  | H : (_ <=? _) = true |- _ => apply N.leb_le in H
  | H : (_ <=? _) = false |- _ => apply N.leb_gt in H
  | H : (_ =? _) = true |- _ => apply N.eqb_eq in H
  | H : (_ =? _) = false |- _ => apply N.eqb_neq in H
  | H : negb _ = true |- _ => apply negb_true_iff in H
  | H : negb _ = false |- _ => apply negb_false_iff in H
  | H : (_ && _) = true |- _ => apply andb_true_iff in H; destruct H
  | H : (_ || _) = false |- _ => apply orb_false_iff in H; destruct H
  end.

(** ** Record update

    [r <| field := v |>] and [r <| field ::= f |>] stand for Rust's assignment to
    a field.  A record type declares its eta expansion once ([Settable]); the
    setter of a field abstracts the projection from it. *)

Class Settable (R : Type) := eta_record : R -> R.
Class Setter {R T : Type} (field : R -> T) := set_field : (T -> T) -> R -> R.

Ltac derive_setter :=
  match goal with
  | |- @Setter ?R ?T ?field =>
      let eta := eval hnf in (@eta_record R ltac:(typeclasses eauto)) in
      lazymatch eval pattern field in eta with
      | (fun _ => ?eta') field => fail "no such field in the eta expansion"
      | ?body field => exact (fun f => body (fun r => f (field r)))
      end
  end.
#[export] Hint Extern 1 (Setter _) => derive_setter : typeclass_instances.

Arguments set_field {R T} field {_} f r /.

Notation "r <| field ::= f |>" := (set_field field f r)
  (at level 12, left associativity, format "r  <| field  ::=  f |>").
Notation "r <| field := v |>" := (set_field field (fun _ => v) r)
  (at level 12, left associativity, format "r  <| field  :=  v |>").

(** ** Machine integers

    [u64] and [usize] (64 bits wide on the supported x86-64 baseline) are
    values of [N]; the arithmetic the sources use is written out. *)

Definition u8_max : N := 255.
Definition u16_max : N := 65535.
Definition u32_max : N := 4294967295.
Definition u64_max : N := 18446744073709551615.

Definition sat_add (a b : N) : N := N.min u64_max (a + b).
Definition sat_sub (a b : N) : N := a - b.
Definition checked_add (a b : N) : option N :=
  if a + b <=? u64_max then Some (a + b) else None.
Definition checked_sub (a b : N) : option N :=
  if b <=? a then Some (a - b) else None.

Lemma sat_add_exact a b : a + b <= u64_max -> sat_add a b = a + b.
Proof. unfold sat_add. lia. Qed.

Lemma sat_add_le_max a b : sat_add a b <= u64_max.
Proof. unfold sat_add. lia. Qed.

Lemma checked_add_Some a b c :
  checked_add a b = Some c <-> c = a + b /\ a + b <= u64_max.
Proof. unfold checked_add. destruct (N.leb_spec (a + b) u64_max); naive_solver lia. Qed.

(** ** Rust [Result]

    The error monad of the development, an instance of stdpp's [MBind], so
    that [x ← c; k] is the [?] operator and [c;; k] a statement that may
    return early. *)

Inductive result (E A : Type) : Type :=
| Ok (a : A)
| Err (e : E).
Arguments Ok {E A} _.
Arguments Err {E A} _.

#[export] Instance result_ret {E} : MRet (result E) := fun A a => Ok a.
#[export] Instance result_bind {E} : MBind (result E) := fun A B f m =>
  match m with Ok a => f a | Err e => Err e end.

Definition is_ok {E A} (r : result E A) : bool :=
  match r with Ok _ => true | Err _ => false end.

(** [ensure!(condition, error)] *)
Definition ensure {E} (condition : bool) (e : E) : result E unit :=
  if condition then Ok tt else Err e.

Definition ok_or {E A} (o : option A) (e : E) : result E A :=
  match o with Some a => Ok a | None => Err e end.

Definition map_err {E F A} (f : E -> F) (r : result E A) : result F A :=
  match r with Ok a => Ok a | Err e => Err (f e) end.

Definition ok {E A} (r : result E A) : option A :=
  match r with Ok a => Some a | Err _ => None end.

Lemma bind_ok {E A B} (m : result E A) (f : A -> result E B) b :
  m ≫= f = Ok b <-> exists a, m = Ok a /\ f a = Ok b.
Proof. destruct m; cbn; naive_solver. Qed.

Lemma bind_err {E A B} (m : result E A) (f : A -> result E B) e :
  m ≫= f = Err e <-> m = Err e \/ exists a, m = Ok a /\ f a = Err e.
Proof. destruct m; cbn; naive_solver. Qed.

Lemma ensure_ok {E} b (e : E) u : ensure b e = Ok u <-> b = true.
Proof. destruct b, u; cbn; naive_solver. Qed.

Lemma ok_or_ok {E A} (o : option A) (e : E) a : ok_or o e = Ok a <-> o = Some a.
Proof. destruct o; cbn; naive_solver. Qed.

Lemma map_err_ok {E F A} (f : E -> F) (r : result E A) a :
  map_err f r = Ok a <-> r = Ok a.
Proof. destruct r; cbn; naive_solver. Qed.

(** Invert every successful monadic step of the hypotheses. *)
Ltac inv_ok :=
  repeat match goal with
  | H : _ ≫= _ = Ok _ |- _ => apply bind_ok in H as (? & ? & H)
  | H : ensure _ _ = Ok _ |- _ => apply ensure_ok in H
  | H : ok_or _ _ = Ok _ |- _ => apply ok_or_ok in H
  | H : map_err _ _ = Ok _ |- _ => apply map_err_ok in H
  | H : Ok _ = Ok _ |- _ => injection H as H; try subst
  | H : mret _ = Ok _ |- _ => injection H as H; try subst
  | H : Err _ = Ok _ |- _ => discriminate H
  | H : Ok _ = Err _ |- _ => discriminate H
  end.

(** ** Lists with [N] lengths

    Limits of the sources are tens of megabytes; lengths are compared in [N]
    so that definitions stay executable. *)

Definition nlen {A} (l : list A) : N := N.of_nat (length l).

(** [&l[..n]], for [n] at most the length; a larger [n] keeps the list. *)
Fixpoint ntake {A} (n : N) (l : list A) : list A :=
  match l with
  | [] => []
  | x :: l' => if n =? 0 then [] else x :: ntake (N.pred n) l'
  end.

(** [&l[n..]] *)
Fixpoint ndrop {A} (n : N) (l : list A) : list A :=
  match l with
  | [] => []
  | x :: l' => if n =? 0 then l else ndrop (N.pred n) l'
  end.

Lemma ntake_take {A} n (l : list A) : ntake n l = take (N.to_nat n) l.
Proof.
  revert n. induction l as [|x l IH]; intros n; [by destruct (N.to_nat n)|]. cbn.
  destruct (N.eqb_spec n 0) as [->|Hn]; [done|].
  rewrite IH. replace (N.to_nat n) with (S (N.to_nat (N.pred n))) by lia. done.
Qed.

Lemma ndrop_drop {A} n (l : list A) : ndrop n l = drop (N.to_nat n) l.
Proof.
  revert n. induction l as [|x l IH]; intros n; [by destruct (N.to_nat n)|]. cbn.
  destruct (N.eqb_spec n 0) as [->|Hn]; [done|].
  rewrite IH. replace (N.to_nat n) with (S (N.to_nat (N.pred n))) by lia. done.
Qed.

Lemma ntake_ndrop {A} n (l : list A) : ntake n l ++ ndrop n l = l.
Proof. rewrite ntake_take, ndrop_drop. apply take_drop. Qed.

Lemma nlen_ntake {A} n (l : list A) : nlen (ntake n l) = N.min n (nlen l).
Proof. unfold nlen. rewrite ntake_take, length_take. lia. Qed.

Lemma nlen_ndrop {A} n (l : list A) : nlen (ndrop n l) = nlen l - n.
Proof. unfold nlen. rewrite ndrop_drop, length_drop. lia. Qed.

Lemma nlen_app {A} (l k : list A) : nlen (l ++ k) = nlen l + nlen k.
Proof. unfold nlen. rewrite length_app. lia. Qed.

Lemma nlen_cons {A} x (l : list A) : nlen (x :: l) = nlen l + 1.
Proof. unfold nlen. cbn. lia. Qed.

Lemma nlen_nil {A} : nlen (@nil A) = 0.
Proof. done. Qed.

Lemma omap_snoc {A B} (f : A -> option B) l x : omap f (l ++ [x]) = omap f l ++ option_list (f x).
Proof. rewrite omap_app. cbn. by destruct (f x). Qed.

Lemma nlen_0 {A} (l : list A) : nlen l = 0 <-> l = [].
Proof. unfold nlen. destruct l; cbn; naive_solver lia. Qed.

Lemma ntake_all {A} n (l : list A) : nlen l <= n -> ntake n l = l.
Proof. intros. rewrite ntake_take. apply take_ge. unfold nlen in *. lia. Qed.

Lemma ntake_app_exact {A} (l k : list A) : ntake (nlen l) (l ++ k) = l.
Proof. rewrite ntake_take. unfold nlen. rewrite Nat2N.id. apply take_app_length. Qed.

Lemma ndrop_app_exact {A} (l k : list A) : ndrop (nlen l) (l ++ k) = k.
Proof. rewrite ndrop_drop. unfold nlen. rewrite Nat2N.id. apply drop_app_length. Qed.

#[export] Hint Rewrite @nlen_app @nlen_cons @nlen_nil @nlen_ntake @nlen_ndrop : lengths.

(** Solve goals on lengths: normalise [nlen] and call [lia]. *)
Ltac nlia := autorewrite with lengths in *; lia.

Lemma forallb_Forall {A} (f : A -> bool) l :
  forallb f l = true <-> Forall (fun x => f x = true) l.
Proof. rewrite forallb_forall, Forall_forall. by setoid_rewrite list_elem_of_In. Qed.

(** The last element, [slice::last]. *)
Definition slice_last {A} (l : list A) : option A := last l.

(** Elements paired with their index, [iter().enumerate()]. *)
Fixpoint enumerate_from {A} (i : N) (l : list A) : list (N * A) :=
  match l with
  | [] => []
  | x :: l' => (i, x) :: enumerate_from (i + 1) l'
  end.
Definition enumerate {A} (l : list A) : list (N * A) := enumerate_from 0 l.

Lemma enumerate_from_snd {A} i (l : list A) : (enumerate_from i l).*2 = l.
Proof. revert i. induction l; intros i; cbn; [done|]. by f_equal. Qed.

(** A fallible fold, the [for] loop whose body may return early. *)
Fixpoint try_fold {E A B} (f : A -> B -> result E A) (a : A) (l : list B) : result E A :=
  match l with
  | [] => Ok a
  | b :: l' => a' ← f a b; try_fold f a' l'
  end.

Lemma try_fold_app {E A B} (f : A -> B -> result E A) a l k :
  try_fold f a (l ++ k) = (a' ← try_fold f a l; try_fold f a' k).
Proof.
  revert a. induction l as [|b l IH]; intros a; [done|].
  cbn. destruct (f a b); cbn; [apply IH|done].
Qed.

(** An invariant of the loop body is an invariant of the loop. *)
Lemma try_fold_inv {E A B} (P : A -> Prop) (f : A -> B -> result E A) l a a' :
  (forall x b y, b ∈ l -> P x -> f x b = Ok y -> P y) ->
  P a -> try_fold f a l = Ok a' -> P a'.
Proof.
  revert a. induction l as [|b l IH]; cbn; intros a Hf Ha H; [by inv_ok|].
  inv_ok. eapply IH; [| |done].
  - intros; eapply Hf; [by right|done..].
  - eapply Hf; [by left|done..].
Qed.

(** The same with what was already folded. *)
Lemma try_fold_prefix {E A B} (P : list B -> A -> Prop) (f : A -> B -> result E A) l a a' :
  (forall before b x y, b ∈ l -> P before x -> f x b = Ok y -> P (before ++ [b]) y) ->
  P [] a -> try_fold f a l = Ok a' -> P l a'.
Proof.
  intros Hf Ha H. change l with ([] ++ l). revert Ha H. generalize (@nil B). revert a.
  induction l as [|b l IH]; cbn; intros a before Ha H; [inv_ok; by rewrite app_nil_r|].
  inv_ok. replace (before ++ b :: l) with ((before ++ [b]) ++ l) by by rewrite <-app_assoc.
  eapply IH; [|eapply Hf; [by left|done..]|done]. intros; eapply Hf; [by right|done..].
Qed.

(** A traversal that fails on the first failure, [iter().map(f).collect()]. *)
Fixpoint try_map {E A B} (f : A -> result E B) (l : list A) : result E (list B) :=
  match l with
  | [] => Ok []
  | a :: l' => b ← f a; bs ← try_map f l'; Ok (b :: bs)
  end.

Lemma try_map_Forall2 {E A B} (f : A -> result E B) l k :
  try_map f l = Ok k <-> Forall2 (fun a b => f a = Ok b) l k.
Proof.
  revert k. induction l as [|a l IH]; intros k; cbn.
  - split; [intros; inv_ok; constructor|]. by inversion 1.
  - rewrite bind_ok. setoid_rewrite bind_ok. setoid_rewrite IH. split.
    + intros (b & Hb & bs & Hbs & H). inv_ok. by constructor.
    + inversion 1; subst; eauto 6.
Qed.

Lemma try_map_length {E A B} (f : A -> result E B) l k :
  try_map f l = Ok k -> length k = length l.
Proof. rewrite try_map_Forall2. intros H. symmetry. eapply Forall2_length, H. Qed.
