(* ===== verification/RustStd.v ===== *)
(** * The parts of the Rust standard library the sources use

    Byte slices ([list byte]), [str] (a Stdlib [string] holding the UTF-8
    bytes), UTF-8 validation, [char::is_control], integer parsing and
    big-endian encodings, sorting. *)

From Stdlib Require Import Strings.Byte.
From S2P Require Import Prelude.
From stdpp Require Import pretty sorting options.
Local Open Scope N_scope.

Notation byte := Byte.byte.
Notation bytes := (list Byte.byte).

#[export] Instance byte_eq_dec : EqDecision byte := Byte.byte_eq_dec.

(** ** Bytes *)

Definition b2n (b : byte) : N := Byte.to_N b.
Definition n2b (n : N) : byte :=
  match Byte.of_N (n mod 256) with Some b => b | None => x00 end.

Definition beqb (a b : byte) : bool := bool_decide (a = b).

Lemma b2n_lt b : b2n b < 256.
Proof. unfold b2n. pose proof (Byte.to_N_bounded b). lia. Qed.

Lemma b2n_inj a b : b2n a = b2n b -> a = b.
Proof.
  unfold b2n. intros H. pose proof (Byte.of_to_N a) as Ha.
  rewrite H, Byte.of_to_N in Ha. congruence.
Qed.

Lemma b2n_n2b n : b2n (n2b n) = n mod 256.
Proof.
  unfold b2n, n2b. destruct (Byte.of_N (n mod 256)) eqn:E.
  - by apply Byte.to_of_N in E.
  - apply Byte.of_N_None_iff in E. pose proof (N.mod_lt n 256). lia.
Qed.

Lemma n2b_b2n b : n2b (b2n b) = b.
Proof. apply b2n_inj. rewrite b2n_n2b. apply N.mod_small, b2n_lt. Qed.

Lemma beqb_true a b : beqb a b = true <-> a = b.
Proof. unfold beqb. apply bool_decide_eq_true. Qed.

Lemma beqb_false a b : beqb a b = false <-> a <> b.
Proof. unfold beqb. apply bool_decide_eq_false. Qed.

Lemma beqb_refl a : beqb a a = true.
Proof. by apply beqb_true. Qed.

Definition LF : byte := x0a.
Definition CR : byte := x0d.

(** Inclusive range test, [(lo..=hi).contains(&b)]. *)
Definition in_range (lo hi : N) (b : byte) : bool := (lo <=? b2n b) && (b2n b <=? hi).

Definition is_ascii_digit (b : byte) : bool := in_range 48 57 b.
Definition is_ascii_lowercase (b : byte) : bool := in_range 97 122 b.
Definition is_ascii_uppercase (b : byte) : bool := in_range 65 90 b.
(** [byte.is_ascii_digit() || (b'a'..=b'f').contains(&byte)] *)
Definition is_lower_hex (b : byte) : bool := is_ascii_digit b || in_range 97 102 b.
(** [u8::is_ascii_hexdigit] *)
Definition is_ascii_hexdigit (b : byte) : bool :=
  is_ascii_digit b || in_range 97 102 b || in_range 65 70 b.
Definition is_ascii_alphanumeric (b : byte) : bool :=
  is_ascii_digit b || is_ascii_lowercase b || is_ascii_uppercase b.
Definition byte_to_lower (b : byte) : byte :=
  if is_ascii_uppercase b then n2b (b2n b + 32) else b.

(** ** Slices *)

(** [slice.starts_with(prefix)] *)
Fixpoint starts_with (prefix l : bytes) : bool :=
  match prefix, l with
  | [], _ => true
  | p :: prefix', b :: l' => beqb p b && starts_with prefix' l'
  | _ :: _, [] => false
  end.

(** [slice.strip_prefix(prefix)] *)
Fixpoint strip_prefix (prefix l : bytes) : option bytes :=
  match prefix, l with
  | [], _ => Some l
  | p :: prefix', b :: l' => if beqb p b then strip_prefix prefix' l' else None
  | _ :: _, [] => None
  end.

Definition ends_with (suffix l : bytes) : bool :=
  starts_with (reverse suffix) (reverse l).

Definition strip_suffix (suffix l : bytes) : option bytes :=
  reverse <$> strip_prefix (reverse suffix) (reverse l).

(** [slice.split(pred)]: the pieces between separators, one at least. *)
Fixpoint split_on (p : byte -> bool) (l : bytes) : list bytes :=
  match l with
  | [] => [[]]
  | b :: l' =>
      if p b then [] :: split_on p l'
      else match split_on p l' with
           | [] => [[b]]
           | piece :: rest => (b :: piece) :: rest
           end
  end.

(** [iter().position(pred)] *)
Fixpoint position (p : byte -> bool) (l : bytes) : option N :=
  match l with
  | [] => None
  | b :: l' => if p b then Some 0 else N.succ <$> position p l'
  end.

Lemma starts_with_spec prefix l : starts_with prefix l = true <-> exists k, l = prefix ++ k.
Proof.
  revert l. induction prefix as [|p prefix IH]; intros l; cbn; [naive_solver|].
  destruct l as [|b l]; [naive_solver|].
  rewrite andb_true_iff, beqb_true, IH. naive_solver.
Qed.

Lemma strip_prefix_spec prefix l k : strip_prefix prefix l = Some k <-> l = prefix ++ k.
Proof.
  revert l. induction prefix as [|p prefix IH]; intros l; cbn; [naive_solver|].
  destruct l as [|b l]; [naive_solver|].
  destruct (beqb p b) eqn:E.
  - apply beqb_true in E as ->. rewrite IH. naive_solver.
  - apply beqb_false in E. naive_solver.
Qed.

Lemma strip_suffix_app suffix l : strip_suffix suffix (l ++ suffix) = Some l.
Proof.
  unfold strip_suffix.
  rewrite reverse_app, (proj2 (strip_prefix_spec (reverse suffix) _ (reverse l)) eq_refl).
  cbn [fmap option_fmap option_map]. by rewrite reverse_involutive.
Qed.

Lemma strip_suffix_spec suffix l k : strip_suffix suffix l = Some k <-> l = k ++ suffix.
Proof.
  split; [|intros ->; apply strip_suffix_app].
  unfold strip_suffix. intros (r & Hr & ->)%fmap_Some. apply strip_prefix_spec in Hr.
  by rewrite <-(reverse_involutive l), Hr, reverse_app, reverse_involutive.
Qed.

Lemma split_on_nonempty p l : split_on p l <> [].
Proof. destruct l; cbn; [done|]. repeat case_match; done. Qed.

(** Pieces contain no separator. *)
Lemma split_on_Forall p l : Forall (Forall (fun b => p b = false)) (split_on p l).
Proof.
  induction l as [|b l IH]; cbn; [by repeat constructor|].
  destruct (p b) eqn:E; [by constructor|].
  destruct (split_on p l) as [|piece rest]; [by repeat constructor|].
  apply Forall_cons in IH as [? ?]. by repeat constructor.
Qed.

Lemma split_on_no_sep p l : Forall (fun b => p b = false) l -> split_on p l = [l].
Proof. induction 1 as [|b l Hb Hl IH]; cbn; [done|]. by rewrite Hb, IH. Qed.

Lemma split_on_app p l b k :
  Forall (fun x => p x = false) l -> p b = true ->
  split_on p (l ++ b :: k) = l :: split_on p k.
Proof.
  intros Hl Hb. induction Hl as [|x l Hx Hl IH]; cbn; [by rewrite Hb|].
  by rewrite Hx, IH.
Qed.

Lemma position_None p l : Forall (fun b => p b = false) l -> position p l = None.
Proof. induction 1 as [|b l Hb Hl IH]; cbn; [done|]. by rewrite Hb, IH. Qed.

Lemma position_app p l b k :
  Forall (fun x => p x = false) l -> p b = true ->
  position p (l ++ b :: k) = Some (nlen l).
Proof.
  intros Hl Hb. induction Hl as [|x l Hx Hl IH]; cbn; [by rewrite Hb|].
  rewrite Hx, IH. cbn. f_equal. nlia.
Qed.

(** ** UTF-8

    [core::str::from_utf8]: the byte ranges of the Unicode table of
    well-formed UTF-8 sequences. *)

Definition is_cont (b : byte) : bool := in_range 128 191 b.

Fixpoint utf8_valid (l : bytes) : bool :=
  match l with
  | [] => true
  | b :: l1 =>
      if b2n b <? 128 then utf8_valid l1
      else match l1 with
      | [] => false
      | c :: l2 =>
          if in_range 194 223 b then is_cont c && utf8_valid l2
          else match l2 with
          | [] => false
          | d :: l3 =>
              if (b2n b =? 224) then in_range 160 191 c && is_cont d && utf8_valid l3
              else if in_range 225 236 b || in_range 238 239 b then
                is_cont c && is_cont d && utf8_valid l3
              else if (b2n b =? 237) then in_range 128 159 c && is_cont d && utf8_valid l3
              else match l3 with
              | [] => false
              | e :: l4 =>
                  if (b2n b =? 240) then
                    in_range 144 191 c && is_cont d && is_cont e && utf8_valid l4
                  else if in_range 241 243 b then
                    is_cont c && is_cont d && is_cont e && utf8_valid l4
                  else if (b2n b =? 244) then
                    in_range 128 143 c && is_cont d && is_cont e && utf8_valid l4
                  else false
              end
          end
      end
  end.

(** [chars().any(char::is_control)]: the general category Cc is
    U+0000..U+001F, U+007F and U+0080..U+009F; the last range is the UTF-8
    pairs C2 80 .. C2 9F. *)
Fixpoint has_control (l : bytes) : bool :=
  match l with
  | [] => false
  | b :: l' =>
      (b2n b <? 32) || (b2n b =? 127)
      || ((b2n b =? 194) && match l' with c :: _ => in_range 128 159 c | [] => false end)
      || has_control l'
  end.

Lemma has_control_not_in b l :
  has_control l = false -> b2n b < 32 -> b ∉ l.
Proof.
  intros Hl Hb. induction l as [|c l IH]; [apply not_elem_of_nil|].
  cbn in Hl. reflect_N. rewrite not_elem_of_cons. split; [|auto].
  intros ->. lia.
Qed.

(** Printable ASCII, as most generated texts are. *)
Definition is_graphic (b : byte) : bool := in_range 32 126 b.

Lemma graphic_no_control l : forallb is_graphic l = true -> has_control l = false.
Proof.
  induction l as [|b l IH]; cbn [forallb has_control]; [done|].
  intros [Hb Hl]%andb_true_iff. rewrite (IH Hl). unfold is_graphic, in_range in Hb. reflect_N.
  rewrite (proj2 (N.ltb_ge _ _)), (proj2 (N.eqb_neq _ 127)), (proj2 (N.eqb_neq _ 194)) by lia. done.
Qed.

(** ** [str] *)

Definition as_bytes (s : string) : bytes := String.list_byte_of_string s.
Definition of_bytes (l : bytes) : string := String.string_of_list_byte l.

Lemma as_of_bytes l : as_bytes (of_bytes l) = l.
Proof. apply String.list_byte_of_string_of_list_byte. Qed.
Lemma of_as_bytes s : of_bytes (as_bytes s) = s.
Proof. apply String.string_of_list_byte_of_string. Qed.

#[export] Instance as_bytes_inj : Inj (=) (=) as_bytes.
Proof. intros s t H. rewrite <-(of_as_bytes s), <-(of_as_bytes t). by f_equal. Qed.

Lemma as_bytes_app s t : as_bytes (s +:+ t) = as_bytes s ++ as_bytes t.
Proof.
  unfold as_bytes, String.list_byte_of_string. rewrite <-map_app. f_equal.
  induction s as [|c s IH]; [done|]. exact (f_equal (cons c) IH).
Qed.

(** [str::len], in bytes. *)
Definition str_len (s : string) : N := nlen (as_bytes s).
Definition str_is_empty (s : string) : bool := bool_decide (s = "").
Definition str_has_control (s : string) : bool := has_control (as_bytes s).
Definition str_starts_with (prefix s : string) : bool :=
  starts_with (as_bytes prefix) (as_bytes s).
Definition str_ends_with (suffix s : string) : bool :=
  ends_with (as_bytes suffix) (as_bytes s).
(** [str::contains] *)
Fixpoint contains (needle l : bytes) : bool :=
  starts_with needle l || match l with [] => false | _ :: l' => contains needle l' end.
Definition str_contains (needle s : string) : bool := contains (as_bytes needle) (as_bytes s).
Definition str_strip_prefix (prefix s : string) : option string :=
  of_bytes <$> strip_prefix (as_bytes prefix) (as_bytes s).
Definition str_all (p : byte -> bool) (s : string) : bool := forallb p (as_bytes s).
Definition str_any (p : byte -> bool) (s : string) : bool := existsb p (as_bytes s).
Definition to_ascii_lowercase (s : string) : string :=
  of_bytes (byte_to_lower <$> as_bytes s).
Definition str_eqb (s t : string) : bool := bool_decide (s = t).
(** [str::split(char)], for an ASCII separator. *)
Definition str_split (sep : byte) (s : string) : list string :=
  of_bytes <$> split_on (beqb sep) (as_bytes s).
(** [str::split_once(char)] *)
Definition str_split_once (sep : byte) (s : string) : option (string * string) :=
  match position (beqb sep) (as_bytes s) with
  | Some i => Some (of_bytes (ntake i (as_bytes s)), of_bytes (ndrop (i + 1) (as_bytes s)))
  | None => None
  end.

(** [str::rsplit_once(char)] *)
Definition str_rsplit_once (sep : byte) (s : string) : option (string * string) :=
  match position (beqb sep) (reverse (as_bytes s)) with
  | Some i =>
      let k := str_len s - i in
      Some (of_bytes (ntake (k - 1) (as_bytes s)), of_bytes (ndrop k (as_bytes s)))
  | None => None
  end.
Definition str_strip_suffix (suffix s : string) : option string :=
  of_bytes <$> strip_suffix (as_bytes suffix) (as_bytes s).

(** [str::from_utf8] *)
Definition from_utf8 (l : bytes) : option string :=
  if utf8_valid l then Some (of_bytes l) else None.

Lemma str_strip_prefix_spec prefix s t :
  str_strip_prefix prefix s = Some t <-> s = prefix +:+ t.
Proof.
  unfold str_strip_prefix. split.
  - rewrite fmap_Some. intros (k & H & ->). apply strip_prefix_spec in H.
    apply (inj as_bytes). by rewrite as_bytes_app, as_of_bytes.
  - intros ->. rewrite as_bytes_app.
    rewrite (proj2 (strip_prefix_spec _ _ (as_bytes t)) eq_refl). cbn. by rewrite of_as_bytes.
Qed.

Lemma str_strip_suffix_spec suffix s t :
  str_strip_suffix suffix s = Some t <-> s = t +:+ suffix.
Proof.
  unfold str_strip_suffix. split.
  - rewrite fmap_Some. intros (k & H & ->). apply strip_suffix_spec in H.
    apply (inj as_bytes). by rewrite as_bytes_app, as_of_bytes.
  - intros ->. rewrite as_bytes_app, strip_suffix_app. cbn. by rewrite of_as_bytes.
Qed.

(** ** Integers *)

(** [format!("{n:0width$}")] *)
Definition format_padded (width : nat) (n : N) : string :=
  of_bytes (replicate (width - length (as_bytes (pretty n))) x30) +:+ pretty n.

(** The value of a digit in a radix up to 16, [char::to_digit]. *)
Definition to_digit (radix : N) (b : byte) : option N :=
  let d := if is_ascii_digit b then Some (b2n b - 48)
           else if in_range 97 122 b then Some (b2n b - 87)
           else if in_range 65 90 b then Some (b2n b - 55)
           else None in
  match d with
  | Some d => if d <? radix then Some d else None
  | None => None
  end.

Fixpoint parse_digits (radix max acc : N) (l : bytes) : option N :=
  match l with
  | [] => Some acc
  | b :: l' =>
      match to_digit radix b with
      | Some d =>
          if radix * acc + d <=? max then parse_digits radix max (radix * acc + d) l' else None
      | None => None
      end
  end.

(** [uN::from_str_radix]: an optional [+], at least one digit, no overflow. *)
Definition from_str_radix (radix max : N) (s : string) : option N :=
  match as_bytes s with
  | [] => None
  | b :: l =>
      if beqb b x2b then (if bool_decide (l = []) then None else parse_digits radix max 0 l)
      else parse_digits radix max 0 (b :: l)
  end.

(** [text.parse::<uN>()] *)
Definition parse_uint (max : N) (s : string) : option N := from_str_radix 10 max s.

(** [u64::to_be_bytes], at [k] bytes. *)
Fixpoint be_bytes (k : nat) (n : N) : bytes :=
  match k with
  | O => []
  | S k' => be_bytes k' (n / 256) ++ [n2b n]
  end.
Definition to_be_bytes (n : N) : bytes := be_bytes 8 n.

(** [u16::from_be_bytes] and [u64::from_be_bytes]. *)
Definition from_be_bytes (l : bytes) : N :=
  foldl (fun acc b => 256 * acc + b2n b) 0 l.

Definition from_le_bytes (l : bytes) : N := from_be_bytes (reverse l).

Lemma length_be_bytes k n : length (be_bytes k n) = k.
Proof. revert n. induction k; intros n; cbn; [done|]. rewrite length_app, IHk. cbn. lia. Qed.

Lemma from_be_bytes_app l b : from_be_bytes (l ++ [b]) = 256 * from_be_bytes l + b2n b.
Proof. unfold from_be_bytes. by rewrite foldl_app. Qed.

Lemma from_be_be_bytes k n : from_be_bytes (be_bytes k n) = n mod (256 ^ N.of_nat k).
Proof.
  revert n. induction k as [|k IH]; intros n; cbn [be_bytes].
  - cbn. by rewrite N.mod_1_r.
  - rewrite from_be_bytes_app, IH, b2n_n2b.
    replace (256 ^ N.of_nat (S k)) with (256 * 256 ^ N.of_nat k)
      by (rewrite <-N.pow_succ_r'; f_equal; lia).
    rewrite N.Div0.mod_mul_r. lia.
Qed.

Lemma to_be_bytes_inj m n :
  m <= u64_max -> n <= u64_max -> to_be_bytes m = to_be_bytes n -> m = n.
Proof.
  unfold to_be_bytes, u64_max. intros Hm Hn H.
  apply (f_equal from_be_bytes) in H. rewrite !from_be_be_bytes in H.
  change (256 ^ N.of_nat 8) with 18446744073709551616 in H.
  rewrite !N.mod_small in H by lia. done.
Qed.

Lemma nlen_to_be_bytes n : nlen (to_be_bytes n) = 8.
Proof. unfold nlen, to_be_bytes. by rewrite length_be_bytes. Qed.

#[export] Hint Rewrite nlen_to_be_bytes : lengths.

(** An ASCII byte never occurs inside a multi-byte sequence. *)
Lemma utf8_valid_app_ascii l b k :
  b2n b < 128 -> utf8_valid (l ++ b :: k) = utf8_valid l && utf8_valid k.
Proof.
  intros Hb. assert (forall lo hi, 128 <= lo -> in_range lo hi b = false) as Hr.
  { intros lo hi Hlo. unfold in_range. rewrite (proj2 (N.leb_gt _ _)); [done|lia]. }
  assert (is_cont b = false) as Hc by (apply Hr; lia).
  induction l as [l IH] using (induction_ltof1 _ (@length byte)). unfold ltof in IH.
  destruct l as [|c1 l1]; cbn.
  { by rewrite (proj2 (N.ltb_lt _ _) Hb). }
  destruct (b2n c1 <? 128); [apply IH; cbn; lia|].
  destruct l1 as [|c2 l2]; cbn.
  { destruct (in_range 194 223 c1); [by rewrite Hc|]. rewrite !Hr, Hc by lia. cbn.
    repeat case_match; done. }
  destruct (in_range 194 223 c1).
  { rewrite IH by (cbn; lia). by rewrite andb_assoc. }
  destruct l2 as [|c3 l3]; cbn.
  { rewrite !Hc, !andb_false_r. repeat case_match; done. }
  rewrite IH by (cbn; lia).
  destruct (b2n c1 =? 224); [by rewrite !andb_assoc|].
  destruct (in_range 225 236 c1 || in_range 238 239 c1); [by rewrite !andb_assoc|].
  destruct (b2n c1 =? 237); [by rewrite !andb_assoc|].
  destruct l3 as [|c4 l4]; cbn.
  { rewrite !Hc, !andb_false_r. cbn. repeat case_match; done. }
  rewrite IH by (cbn; lia). repeat case_match; by rewrite ?andb_assoc.
Qed.

Lemma utf8_valid_split b l :
  b2n b < 128 -> utf8_valid l = true ->
  Forall (fun piece => utf8_valid piece = true) (split_on (beqb b) l).
Proof.
  intros Hb. induction l as [l IH] using (induction_ltof1 _ (@length byte)). unfold ltof in IH.
  intros Hl. destruct (decide (Forall (fun x => beqb b x = false) l)) as [Hno|Hyes].
  { rewrite split_on_no_sep by done. by constructor. }
  assert (exists p k, l = p ++ b :: k /\ Forall (fun x => beqb b x = false) p) as (p & k & -> & Hp).
  { clear -Hyes. induction l as [|x l IH]; [by destruct Hyes|].
    destruct (beqb b x) eqn:E.
    - apply beqb_true in E as <-. by exists [], l.
    - destruct IH as (p & k & -> & Hp); [by intros ?; apply Hyes; constructor|].
      exists (x :: p), k. split; [done|]. by constructor. }
  rewrite split_on_app by (done || apply beqb_refl).
  rewrite utf8_valid_app_ascii in Hl by done. apply andb_true_iff in Hl as [? ?].
  constructor; [done|]. apply IH; [rewrite length_app; cbn; lia|done].
Qed.
(** ** [slice::sort_by], [sort_by_key] and [partition_point] *)

Definition not_after {A} (cmp : A -> A -> comparison) (a b : A) : Prop := cmp a b <> Gt.
#[export] Instance not_after_dec {A} (cmp : A -> A -> comparison) : RelDecision (not_after cmp).
Proof. intros a b. unfold not_after. apply _. Defined.
Definition sort_by {A} (cmp : A -> A -> comparison) (l : list A) : list A := merge_sort (not_after cmp) l.
Definition sort_by_key {A} (key : A -> N) (l : list A) : list A := sort_by (fun a b => key a ?= key b) l.

Lemma sort_by_unique {A} (cmp : A -> A -> comparison) (l l' : list A) :
  Transitive (not_after cmp) -> Total (not_after cmp) ->
  (forall a b, a ∈ l' -> b ∈ l' -> not_after cmp a b -> not_after cmp b a -> a = b) ->
  StronglySorted (not_after cmp) l' -> l ≡ₚ l' -> sort_by cmp l = l'.
Proof.
  intros Ht Htot Ha Hs Hp. unfold sort_by.
  assert (merge_sort (not_after cmp) l ≡ₚ l') as Hp' by (by rewrite merge_sort_Permutation).
  apply (StronglySorted_unique_strong (not_after cmp)); [|apply StronglySorted_merge_sort; apply _|done|done].
  intros x y Hx Hy. rewrite Hp' in Hx. by apply Ha.
Qed.

Lemma StronglySorted_weaken {A} (R S : A -> A -> Prop) (l : list A) :
  (forall a b, R a b -> S a b) -> StronglySorted R l -> StronglySorted S l.
Proof. intros HRS. induction 1; constructor; [done|]. eapply Forall_impl; eauto. Qed.

Lemma StronglySorted_filter {A} (R : A -> A -> Prop) p (l : list A) :
  StronglySorted R l -> StronglySorted R (List.filter p l).
Proof.
  induction 1 as [|a l Hs IH Hf]; [constructor|]. cbn. destruct (p a); [|done]. constructor; [done|].
  rewrite Forall_forall in Hf |- *. intros b Hb%list_elem_of_In%filter_In. apply Hf, list_elem_of_In, Hb.
Qed.

Lemma StronglySorted_omap {A B} (f : A -> option B) (key : A -> N) (key' : B -> N) l :
  (forall a b, f a = Some b -> key' b = key a) ->
  StronglySorted (fun a a' => key a < key a') l -> StronglySorted (fun b b' => key' b < key' b') (omap f l).
Proof.
  intros Hk. induction 1 as [|a l Hs IH Hf]; [constructor|]. cbn. destruct (f a) as [b|] eqn:E; [|done].
  constructor; [done|]. apply Forall_forall. intros b' (a' & Ha' & E')%list_elem_of_omap.
  rewrite Forall_forall in Hf. rewrite (Hk _ _ E), (Hk _ _ E'). auto.
Qed.

Lemma StronglySorted_fmap_iff {A B} (R : B -> B -> Prop) (f : A -> B) l :
  StronglySorted R (f <$> l) <-> StronglySorted (fun a a' => R (f a) (f a')) l.
Proof.
  induction l as [|a l IH]; [split; constructor|]. cbn. split; intros [Hs Hf]%StronglySorted_inv; constructor.
  - by apply IH.
  - rewrite Forall_fmap in Hf. exact Hf.
  - by apply IH.
  - by apply Forall_fmap.
Qed.

Lemma not_after_key {A} (key : A -> N) a b : not_after (fun a b => key a ?= key b) a b <-> key a <= key b.
Proof. done. Qed.

#[export] Instance key_transitive {A} (key : A -> N) : Transitive (not_after (fun a b => key a ?= key b)).
Proof. intros a b c. rewrite !not_after_key. lia. Qed.
#[export] Instance key_total {A} (key : A -> N) : Total (not_after (fun a b => key a ?= key b)).
Proof. intros a b. rewrite !not_after_key. lia. Qed.

(** Two lists with the same elements in the order of distinct keys. *)
Lemma sort_by_key_unique {A} (key : A -> N) (l l' : list A) :
  (forall a b, a ∈ l' -> b ∈ l' -> key a = key b -> a = b) ->
  StronglySorted (fun a b => key a <= key b) l' -> l ≡ₚ l' -> sort_by_key key l = l'.
Proof.
  intros Hk Hs Hp. unfold sort_by_key. apply sort_by_unique; try apply _; [|done|done].
  intros a b Ha Hb H1 H2. apply Hk; [done..|]. rewrite not_after_key in H1, H2. lia.
Qed.

Lemma sort_by_key_sorted {A} (key : A -> N) l :
  StronglySorted (fun a b => key a < key b) l -> sort_by_key key l = l.
Proof.
  intros Hs. apply sort_by_key_unique; [|eapply StronglySorted_weaken; [|exact Hs]; cbn; lia|done].
  induction Hs as [|x l Hs IH Hf]; [by intros ?? ?%not_elem_of_nil|]. rewrite Forall_forall in Hf.
  intros a b. rewrite !elem_of_cons. intros [->|Ha] [->|Hb] E; [done| | |auto].
  - specialize (Hf _ Hb). lia.
  - specialize (Hf _ Ha). lia.
Qed.

(** The number of elements before the first that fails [p], in a slice that has
    all those that pass first. *)
Fixpoint partition_point {A} (p : A -> bool) (l : list A) : nat :=
  match l with
  | [] => 0
  | a :: l' => if p a then S (partition_point p l') else 0
  end.


(** ** [str::trim] *)

(** [str::chars] of valid UTF-8, each character as its bytes. *)
Fixpoint chars (l : bytes) : list bytes :=
  match l with
  | [] => []
  | b :: l' =>
      match chars l' with
      | (c :: k) :: rest => if is_cont c then (b :: c :: k) :: rest else [b] :: (c :: k) :: rest
      | _ => [[b]]
      end
  end.

(** [char::is_whitespace]: the characters with the property White_Space. *)
Definition is_whitespace (c : bytes) : bool :=
  match b2n <$> c with
  | [x] => ((9 <=? x) && (x <=? 13)) || (x =? 32)
  | [x; y] => (x =? 194) && ((y =? 133) || (y =? 160))
  | [x; y; z] =>
      ((x =? 225) && (y =? 154) && (z =? 128))
      || ((x =? 226) && (y =? 128)
          && (((128 <=? z) && (z <=? 138)) || (z =? 168) || (z =? 169) || (z =? 175)))
      || ((x =? 226) && (y =? 129) && (z =? 159))
      || ((x =? 227) && (y =? 128) && (z =? 128))
  | _ => false
  end.

Fixpoint skip_while {A} (p : A -> bool) (l : list A) : list A :=
  match l with [] => [] | a :: l' => if p a then skip_while p l' else l end.

Definition str_trim (s : string) : string :=
  let start := skip_while is_whitespace (chars (as_bytes s)) in
  of_bytes (concat (reverse (skip_while is_whitespace (reverse start)))).
