(* ===== verification/Proc.v ===== *)
(** * Procedures that may be killed

    A procedure acts on a world and runs until it returns or the process is
    killed at one of its effects; [holds] is the triple with which its safety
    is proved.  Shared by the operations that write several files or talk to a
    server. *)

From S2P Require Import Prelude.
From stdpp Require Import options.
#[local] Unset Default Proof Using.

Inductive outcome (A : Type) :=
| Returned (r : result string A)
| Killed.
Arguments Returned {A} r.
Arguments Killed {A}.

(** A procedure on the world and the number of effects before the process is
    killed. *)
Definition proc (W A : Type) : Type := W * nat -> outcome A * (W * nat).

#[export] Instance proc_ret {W} : MRet (proc W) := fun A a s => (Returned (Ok a), s).
#[export] Instance proc_bind {W} : MBind (proc W) := fun A B k c s =>
  match c s with
  | (Returned (Ok a), s') => k a s'
  | (Returned (Err e), s') => (Returned (Err e), s')
  | (Killed, s') => (Killed, s')
  end.

(** A computation that only reads. *)
Definition look {W A} (f : W -> result string A) : proc W A := fun s => (Returned (f s.1), s).

(** One write; a process killed at it leaves [torn]. *)
Definition update_or {W} (f : W -> result string W) (torn : W -> W) : proc W unit :=
  fun '(w, n) =>
    match f w, n with
    | Err e, _ => (Returned (Err e), (w, n))
    | Ok _, O => (Killed, (torn w, O))
    | Ok w', S n' => (Returned (Ok tt), (w', n'))
    end.

(** An atomic one: the creation, renaming or removal of a file. *)
Definition update {W} (f : W -> result string W) : proc W unit := update_or f (fun w => w).

(** An exchange with another party, which may change the world whatever it
    answers. *)
Definition exchange {W A} (f : W -> result string A * W) : proc W A :=
  fun '(w, n) =>
    match n with
    | O => (Killed, (w, O))
    | S n' => let '(r, w') := f w in (Returned r, (w', n'))
    end.

(** A change of the world that is not an effect of the process: a reading of
    a clock. *)
Definition advance_world {W A} (f : W -> A * W) : proc W A :=
  fun '(w, n) => let '(a, w') := f w in (Returned (Ok a), (w', n)).

(** A pure computation. *)
Definition lift {W A} (r : result string A) : proc W A := fun s => (Returned r, s).

(** [loop]: the body goes on with [inl] and ends with [inr].  An iteration has
    an effect, so the number of effects left bounds the iterations: a loop that
    does not end is killed. *)
Fixpoint repeat_bounded {W St A} (fuel : nat) (body : St -> proc W (St + A)) (s : St) : proc W A :=
  match fuel with
  | O => fun st => (Killed, st)
  | S fuel' =>
      r ← body s;
      match r with
      | inl s' => repeat_bounded fuel' body s'
      | inr a => mret a
      end
  end.

Definition repeat_until {W St A} (body : St -> proc W (St + A)) (s : St) : proc W A :=
  fun st => repeat_bounded (S st.2) body s st.

(** [for x in list]: the fold that stops at the first error. *)
Fixpoint fold_proc {W A B} (f : A -> B -> proc W A) (a : A) (l : list B) : proc W A :=
  match l with
  | [] => mret a
  | b :: l' => a' ← f a b; fold_proc f a' l'
  end.

(** A procedure on a part of the world. *)
Definition zoom {V W A} (get : W -> V) (put : V -> W -> W) (c : proc V A) : proc W A :=
  fun '(w, n) => let '(out, (v, n')) := c (get w, n) in (out, (put v w, n')).

(** An error handled as a value. *)
Definition try_proc {W A} (c : proc W A) : proc W (result string A) := fun s =>
  match c s with
  | (Returned r, s') => (Returned (Ok r), s')
  | (Killed, s') => (Killed, s')
  end.

(** ** Reasoning about procedures *)

Section Rules.
Context {W : Type}.

(** From [P], every world the procedure leaves satisfies [I], and [Q] holds of
    its result if it returns one. *)
Definition holds {A} (P : W -> Prop) (c : proc W A) (I : W -> Prop) (Q : A -> W -> Prop) : Prop :=
  forall w n out w' n', P w -> c (w, n) = (out, (w', n')) ->
    I w' /\ forall a, out = Returned (Ok a) -> Q a w'.

Lemma holds_ret {A} (P I : W -> Prop) (Q : A -> W -> Prop) a :
  (forall w, P w -> I w /\ Q a w) -> holds P (mret a) I Q.
Proof. intros H w n out w' n' HP [= <- <- _]. destruct (H _ HP). split; [done|]. by intros ? [= <-]. Qed.

Lemma holds_bind {A B} (P I : W -> Prop) (R : A -> W -> Prop) (Q : B -> W -> Prop)
    (c : proc W A) (k : A -> proc W B) :
  holds P c I R -> (forall a, holds (R a) (k a) I Q) -> holds P (c ≫= k) I Q.
Proof.
  intros Hc Hk w n out w' n' HP H. unfold mbind, proc_bind in H.
  destruct (c (w, n)) as [o [w1 n1]] eqn:E. destruct (Hc _ _ _ _ _ HP E) as [HI HR].
  destruct o as [[a|e]|].
  - exact (Hk a _ _ _ _ _ (HR a eq_refl) H).
  - injection H as <- <- _. by split.
  - injection H as <- <- _. by split.
Qed.

Lemma holds_look {A} (P I : W -> Prop) (f : W -> result string A) :
  (forall w, P w -> I w) -> holds P (look f) I (fun a w => P w /\ f w = Ok a).
Proof.
  intros HI w n out w' n' HP [= <- <- _]. split; [by apply HI|]. intros a [= Ha]. by split.
Qed.

Lemma holds_update_or (P I : W -> Prop) (Q : W -> Prop) f torn :
  (forall w, P w -> I w) ->
  (forall w w', P w -> f w = Ok w' -> I w' /\ Q w' /\ I (torn w)) ->
  holds P (update_or f torn) I (fun _ => Q).
Proof.
  intros HI Hf w n out w' n' HP H. unfold update_or in H. destruct (f w) as [w1|e] eqn:E.
  - destruct (Hf _ _ HP E) as (H1 & H2 & H3). destruct n; injection H as <- <- _; by split.
  - injection H as <- <- _. split; [by apply HI|done].
Qed.

Lemma holds_update (P I : W -> Prop) (Q : W -> Prop) f :
  (forall w, P w -> I w) -> (forall w w', P w -> f w = Ok w' -> I w' /\ Q w') ->
  holds P (update f) I (fun _ => Q).
Proof.
  intros HI Hf. apply holds_update_or; [done|]. intros w w' HP H.
  destruct (Hf _ _ HP H). split; [done|]. split; [done|by apply HI].
Qed.

Lemma holds_pure {A} (phi : Prop) (P I : W -> Prop) (Q : A -> W -> Prop) c :
  (forall w, P w -> phi) -> (phi -> holds P c I Q) -> holds P c I Q.
Proof. intros Hphi H w n out w' n' HP. by apply H; [eapply Hphi|]. Qed.

Lemma holds_conseq {A} (P P' I : W -> Prop) (Q Q' : A -> W -> Prop) c :
  (forall w, P w -> P' w) -> (forall a w, Q' a w -> Q a w) -> holds P' c I Q' -> holds P c I Q.
Proof.
  intros HP HQ H w n out w' n' Hw Hc. destruct (H _ _ _ _ _ (HP _ Hw) Hc) as [HI Ha].
  split; [done|]. intros a Ho. by apply HQ, Ha.
Qed.

Lemma holds_exists {A B} (P : B -> W -> Prop) (c : proc W A) I Q :
  (forall b, holds (P b) c I Q) -> holds (fun w => exists b, P b w) c I Q.
Proof. intros H w n out w' n' [b Hb]. by apply (H b). Qed.

Lemma holds_before {A} (P P' : W -> Prop) (c : proc W A) I Q :
  (forall w, P w -> P' w) -> holds P' c I Q -> holds P c I Q.
Proof. intros HP H w n out w' n' Hw. by apply H, HP. Qed.

Lemma holds_given {A} (phi : Prop) (P : W -> Prop) (c : proc W A) I Q :
  (phi -> holds P c I Q) -> holds (fun w => phi /\ P w) c I Q.
Proof. intros H w n out w' n' [Hphi HP]. by apply H. Qed.

Lemma holds_exchange {A} (P I : W -> Prop) (Q : A -> W -> Prop) (f : W -> result string A * W) :
  (forall w, P w -> I w) ->
  (forall w r w', P w -> f w = (r, w') -> I w' /\ forall a, r = Ok a -> Q a w') ->
  holds P (exchange f) I Q.
Proof.
  intros HI Hf w n out w' n' HP H. unfold exchange in H. destruct n as [|n].
  - injection H as <- <- _. split; [by apply HI|done].
  - destruct (f w) as [r w1] eqn:E. injection H as <- <- _. destruct (Hf _ _ _ HP E) as [H1 H2].
    split; [done|]. intros a [= ->]. by apply H2.
Qed.

Lemma holds_advance {A} (P I : W -> Prop) (Q : A -> W -> Prop) (f : W -> A * W) :
  (forall w a w', P w -> f w = (a, w') -> I w' /\ Q a w') -> holds P (advance_world f) I Q.
Proof.
  intros Hf w n out w' n' HP H. unfold advance_world in H. destruct (f w) as [a w1] eqn:E.
  injection H as <- <- _. destruct (Hf _ _ _ HP E). split; [done|]. by intros ? [= <-].
Qed.

Lemma holds_lift {A} (P I : W -> Prop) (Q : A -> W -> Prop) r :
  (forall w, P w -> I w /\ forall a, r = Ok a -> Q a w) -> holds P (lift r) I Q.
Proof.
  intros H w n out w' n' HP [= <- <- _]. destruct (H _ HP). split; [done|]. intros a [= ->]. auto.
Qed.

Lemma holds_keep {A} (P I : W -> Prop) (r : result string A) :
  (forall w, P w -> I w) -> holds P (lift r) I (fun a w => P w /\ r = Ok a).
Proof. intros HI. apply holds_lift. intros w HP. split; [by apply HI|done]. Qed.

Lemma holds_inv {A} (P I : W -> Prop) (Q : A -> W -> Prop) c :
  holds P c I Q -> holds P c I (fun a w => I w /\ Q a w).
Proof. intros H w n out w' n' HP Hc. destruct (H _ _ _ _ _ HP Hc). split; [done|]. by split; auto. Qed.

Lemma holds_bounded {St A} (P : St -> W -> Prop) (I : W -> Prop) (Q : A -> W -> Prop)
    (body : St -> proc W (St + A)) fuel s :
  (forall s w, P s w -> I w) ->
  (forall s, holds (P s) (body s) I (fun r w => match r with inl s' => P s' w | inr a => Q a w end)) ->
  holds (P s) (repeat_bounded fuel body s) I Q.
Proof.
  intros HI Hb. revert s. induction fuel as [|fuel IH]; intros s.
  - intros w n out w' n' HP [= <- <- _]. split; [by eapply HI|done].
  - cbn [repeat_bounded]. eapply holds_bind; [apply holds_inv, Hb|]. intros [s'|a].
    + eapply holds_conseq; [|done|apply IH]. by intros w [_ H].
    + apply holds_ret. by intros w [H1 H2].
Qed.

Lemma holds_repeat {St A} (P : St -> W -> Prop) (I : W -> Prop) (Q : A -> W -> Prop)
    (body : St -> proc W (St + A)) s :
  (forall s w, P s w -> I w) ->
  (forall s, holds (P s) (body s) I (fun r w => match r with inl s' => P s' w | inr a => Q a w end)) ->
  holds (P s) (repeat_until body s) I Q.
Proof. intros HI Hb w n out w' n' HP H. by eapply (holds_bounded P I Q body). Qed.

(** More fuel changes nothing when every iteration that goes on has an effect. *)
Lemma repeat_bounded_enough {St A} (body : St -> proc W (St + A)) fuel fuel' s w n :
  (forall s w n s' w' n', body s (w, n) = (Returned (Ok (inl s')), (w', n')) -> (n' < n)%nat) ->
  (n < fuel)%nat -> (fuel <= fuel')%nat ->
  repeat_bounded fuel body s (w, n) = repeat_bounded fuel' body s (w, n).
Proof.
  intros Hb. revert fuel' s w n. induction fuel as [|fuel IH]; intros fuel' s w n Hn Hf; [lia|].
  destruct fuel' as [|fuel']; [lia|]. cbn [repeat_bounded]. unfold mbind, proc_bind.
  destruct (body s (w, n)) as [[[[s'|a]|e]|] [w' n']] eqn:E; try done.
  apply IH; [|lia]. apply Hb in E. lia.
Qed.

Lemma holds_fold {A B} (P : A -> W -> Prop) (I : W -> Prop) (f : A -> B -> proc W A) l a :
  (forall a w, P a w -> I w) ->
  (forall a b, b ∈ l -> holds (P a) (f a b) I P) ->
  holds (P a) (fold_proc f a l) I P.
Proof.
  intros HI. revert a. induction l as [|b l IH]; intros a Hf; cbn [fold_proc].
  - apply holds_ret. intros w H. split; [by eapply HI|done].
  - eapply holds_bind; [apply Hf; by left|]. intros a'. apply IH. intros a'' b' Hb'. apply Hf. by right.
Qed.

Lemma holds_try {A} (P I : W -> Prop) (Q : A -> W -> Prop) c :
  holds P c I Q -> holds P (try_proc c) I (fun r w => I w /\ forall a, r = Ok a -> Q a w).
Proof.
  intros H w n out w' n' HP Hc. unfold try_proc in Hc. destruct (c (w, n)) as [[r|] [w1 n1]] eqn:E;
    injection Hc as <- <- _; destruct (H _ _ _ _ _ HP E) as [HI HQ]; (split; [done|]); [|done].
  intros a [= <-]. split; [done|]. intros a ->. by apply HQ.
Qed.

(** The same with what is known of the errors. *)
Definition yields {A} (P : W -> Prop) (c : proc W A) (I : W -> Prop) (Q : A -> W -> Prop)
    (E : string -> Prop) : Prop :=
  forall w n out w' n', P w -> c (w, n) = (out, (w', n')) ->
    I w' /\ match out with Returned (Ok a) => Q a w' | Returned (Err e) => E e | Killed => True end.

Lemma yields_ret {A} (P I : W -> Prop) (Q : A -> W -> Prop) E a :
  (forall w, P w -> I w /\ Q a w) -> yields P (mret a) I Q E.
Proof. intros H w n out w' n' HP [= <- <- _]. by apply H. Qed.

Lemma yields_bind {A B} (P I : W -> Prop) (R : A -> W -> Prop) (Q : B -> W -> Prop) E
    (c : proc W A) (k : A -> proc W B) :
  yields P c I R E -> (forall a, yields (R a) (k a) I Q E) -> yields P (c ≫= k) I Q E.
Proof.
  intros Hc Hk w n out w' n' HP H. unfold mbind, proc_bind in H.
  destruct (c (w, n)) as [o [w1 n1]] eqn:Ec. destruct (Hc _ _ _ _ _ HP Ec) as [HI HR].
  destruct o as [[a|e]|].
  - exact (Hk a _ _ _ _ _ HR H).
  - injection H as <- <- _. by split.
  - injection H as <- <- _. by split.
Qed.

Lemma yields_look {A} (P I : W -> Prop) (E : string -> Prop) (f : W -> result string A) :
  (forall w, P w -> I w) -> (forall w e, P w -> f w = Err e -> E e) ->
  yields P (look f) I (fun a w => P w /\ f w = Ok a) E.
Proof.
  intros HI HE w n out w' n' HP [= <- <- _]. split; [by apply HI|]. cbn.
  destruct (f w) eqn:Ef; [done|]. by eapply HE.
Qed.

Lemma yields_keep {A} (P I : W -> Prop) (E : string -> Prop) (r : result string A) :
  (forall w, P w -> I w) -> (forall w e, P w -> r = Err e -> E e) ->
  yields P (lift r) I (fun a w => P w /\ r = Ok a) E.
Proof. exact (yields_look P I E (fun _ => r)). Qed.

Lemma yields_update_or (P I Q : W -> Prop) (E : string -> Prop) f torn :
  (forall w, P w -> I w) ->
  (forall w w', P w -> f w = Ok w' -> I w' /\ Q w' /\ I (torn w)) ->
  (forall w e, P w -> f w = Err e -> E e) ->
  yields P (update_or f torn) I (fun _ => Q) E.
Proof.
  intros HI Hf HE w n out w' n' HP H. unfold update_or in H. destruct (f w) as [w1|e] eqn:Ef.
  - destruct (Hf _ _ HP Ef) as (H1 & H2 & H3). destruct n; injection H as <- <- _; by split.
  - injection H as <- <- _. split; [by apply HI|by eapply HE].
Qed.

Lemma yields_conseq {A} (P P' I : W -> Prop) (Q Q' : A -> W -> Prop) E c :
  (forall w, P w -> P' w) -> (forall a w, Q' a w -> Q a w) -> yields P' c I Q' E -> yields P c I Q E.
Proof.
  intros HP HQ H w n out w' n' Hw Hc. destruct (H _ _ _ _ _ (HP _ Hw) Hc) as [HI Ha].
  split; [done|]. destruct out as [[a|e]|]; auto.
Qed.

Lemma yields_pure {A} (phi : Prop) (P I : W -> Prop) (Q : A -> W -> Prop) E c :
  (forall w, P w -> phi) -> (phi -> yields P c I Q E) -> yields P c I Q E.
Proof. intros Hphi H w n out w' n' HP. by apply H; [eapply Hphi|]. Qed.

Lemma yields_holds {A} (P I : W -> Prop) (Q : A -> W -> Prop) E c : yields P c I Q E -> holds P c I Q.
Proof. intros H w n out w' n' HP Hc. destruct (H _ _ _ _ _ HP Hc) as [HI HQ]. split; [done|]. by intros a ->. Qed.

(** A procedure of at most [k] effects: with as many left it is not killed. *)
Definition at_most {A} (k : nat) (c : proc W A) : Prop :=
  forall w n out w' n', c (w, n) = (out, (w', n')) -> (k <= n)%nat -> out <> Killed /\ (n <= n' + k)%nat.

Lemma at_most_ret {A} (a : A) : at_most 0 (mret a).
Proof. intros w n out w' n' [= <- _ <-] _. split; [done|lia]. Qed.

Lemma at_most_look {A} (f : W -> result string A) : at_most 0 (look f).
Proof. intros w n out w' n' [= <- _ <-] _. split; [done|lia]. Qed.

Lemma at_most_lift {A} (r : result string A) : at_most 0 (lift r).
Proof. intros w n out w' n' [= <- _ <-] _. split; [done|lia]. Qed.

Lemma at_most_update_or f torn : at_most 1 (update_or f torn).
Proof.
  intros w n out w' n' H Hn. unfold update_or in H. destruct (f w), n; try lia; injection H as <- _ <-;
    (split; [done|lia]).
Qed.

Lemma at_most_bind {A B} k k' (c : proc W A) (f : A -> proc W B) :
  at_most k c -> (forall a, at_most k' (f a)) -> at_most (k + k') (c ≫= f).
Proof.
  intros Hc Hf w n out w' n' H Hn. unfold mbind, proc_bind in H. destruct (c (w, n)) as [o [w1 n1]] eqn:E.
  destruct (Hc _ _ _ _ _ E ltac:(lia)) as [Ho H1]. destruct o as [[a|e]|]; [|injection H as <- _ <-; split; [done|lia]|done].
  destruct (Hf a _ _ _ _ _ H ltac:(lia)) as [H2 H3]. split; [done|lia].
Qed.

Lemma at_most_le {A} k k' (c : proc W A) : at_most k c -> (k <= k')%nat -> at_most k' c.
Proof. intros H Hk w n out w' n' Hc Hn. destruct (H _ _ _ _ _ Hc ltac:(lia)). split; [done|lia]. Qed.
End Rules.

Lemma holds_zoom {V W A} (get : W -> V) (put : V -> W -> W) (P I : W -> Prop) (Q : A -> W -> Prop) c :
  (forall w, P w -> exists (P' I' : V -> Prop) (Q' : A -> V -> Prop), P' (get w) /\ holds P' c I' Q' /\
     (forall v, I' v -> I (put v w)) /\ (forall a v, I' v -> Q' a v -> Q a (put v w))) ->
  holds P (zoom get put c) I Q.
Proof.
  intros H w n out w' n' HP Hc. unfold zoom in Hc. destruct (c (get w, n)) as [o [v m]] eqn:E.
  injection Hc as <- <- <-. destruct (H _ HP) as (P' & I' & Q' & HP' & Hh & HI & HQ).
  destruct (Hh _ _ _ _ _ HP' E) as [H1 H2]. split; [by apply HI|]. intros a Ha. apply HQ; auto.
Qed.
