(* ===== verification/External.v ===== *)
(** * Third-party code the sources call, as interfaces

    Each class holds the operations of one crate; the law classes state the
    documented behaviour the theorems rely on.  Definitions of the components
    take the operations as class arguments.  Concrete instances for the
    witnesses are at the end of the file. *)

From Stdlib Require Import Strings.Byte.
From S2P Require Import Prelude RustStd.
From stdpp Require Import options.

(** ** sha2, hex *)

Class Digest := {
  sha256 : bytes -> bytes;
}.

Class Hex := {
  hex_encode : bytes -> string;
  hex_decode : string -> option bytes;
}.

Class DigestLaws `{!Digest} := {
  sha256_length : forall l, nlen (sha256 l) = 32;
}.

Class HexLaws `{!Hex} := {
  hex_encode_length : forall l, str_len (hex_encode l) = 2 * nlen l;
  hex_encode_lower : forall l, str_all is_lower_hex (hex_encode l) = true;
  hex_decode_encode : forall l, hex_decode (hex_encode l) = Some l;
}.

(** ** base64 (the [STANDARD_NO_PAD] engine) *)

Class Base64 := {
  b64_encode : bytes -> string;
  b64_decode : string -> option bytes;
}.

Class Base64Laws `{!Base64} := {
  b64_decode_encode : forall l, b64_decode (b64_encode l) = Some l;
}.

(** ** chacha20poly1305 (XChaCha20-Poly1305 with a 24-byte nonce and a 16-byte
    tag) and hkdf *)

Class Aead := {
  aead_encrypt : bytes -> bytes -> bytes -> bytes -> option bytes;
  aead_decrypt : bytes -> bytes -> bytes -> bytes -> option bytes;
  hkdf_sha256 : bytes -> bytes -> bytes -> option bytes;
}.
(** Arguments: key, nonce, associated data, message; key material, salt, info. *)

Class AeadLaws `{!Aead} := {
  aead_decrypt_encrypt : forall key nonce aad m c,
    aead_encrypt key nonce aad m = Some c -> aead_decrypt key nonce aad c = Some m;
  aead_length : forall key nonce aad m c,
    aead_encrypt key nonce aad m = Some c -> nlen c = nlen m + 16;
  aead_decrypt_length : forall key nonce aad m c,
    aead_decrypt key nonce aad c = Some m -> nlen c = nlen m + 16;
}.

(** ** zstd *)

Class Zstd := {
  zstd_compress : bytes -> option bytes;
  (** Decompressed output, cut after the given number of bytes. *)
  zstd_decompress : bytes -> N -> option bytes;
}.

Class ZstdLaws `{!Zstd} := {
  zstd_decompress_compress : forall l c n,
    zstd_compress l = Some c -> zstd_decompress c n = Some (ntake n l);
}.

(** ** Concrete instances *)

Module Concrete.

Definition hex_char (n : N) : byte := n2b (if n <? 10 then 48 + n else 87 + n).
Definition hex_bytes (l : bytes) : bytes :=
  mjoin ((fun b => [hex_char (b2n b / 16); hex_char (b2n b mod 16)]) <$> l).

Fixpoint unhex_bytes (l : bytes) : option bytes :=
  match l with
  | [] => Some []
  | a :: b :: l' =>
      match to_digit 16 a, to_digit 16 b, unhex_bytes l' with
      | Some x, Some y, Some r => Some (n2b (16 * x + y) :: r)
      | _, _, _ => None
      end
  | [_] => None
  end.

#[export] Instance hex : Hex := {|
  hex_encode l := of_bytes (hex_bytes l);
  hex_decode s := unhex_bytes (as_bytes s);
|}.

Lemma hex_char_digit b : b2n b < 16 ->
  to_digit 16 (hex_char (b2n b)) = Some (b2n b) /\ is_lower_hex (hex_char (b2n b)) = true.
Proof. destruct b; vm_compute; intros; try discriminate; done. Qed.

Lemma hex_char_spec n : n < 16 ->
  to_digit 16 (hex_char n) = Some n /\ is_lower_hex (hex_char n) = true.
Proof.
  intros Hn. replace n with (b2n (n2b n)) by (rewrite b2n_n2b; apply N.mod_small; lia).
  apply hex_char_digit. rewrite b2n_n2b, N.mod_small; lia.
Qed.

Lemma byte_nibbles b : b2n b / 16 < 16 /\ b2n b mod 16 < 16.
Proof. destruct b; vm_compute; done. Qed.

Lemma hex_bytes_cons b l :
  hex_bytes (b :: l) = hex_char (b2n b / 16) :: hex_char (b2n b mod 16) :: hex_bytes l.
Proof. done. Qed.

#[export] Instance hex_laws : HexLaws.
Proof.
  split; intros l.
  - unfold str_len. cbn [hex_encode hex]. rewrite as_of_bytes.
    induction l as [|b l IH]; [done|]. rewrite hex_bytes_cons. nlia.
  - unfold str_all. cbn [hex_encode hex]. rewrite as_of_bytes.
    induction l as [|b l IH]; [done|]. rewrite hex_bytes_cons. cbn [forallb].
    destruct (byte_nibbles b) as [H1 H2]. by rewrite (proj2 (hex_char_spec _ H1)), (proj2 (hex_char_spec _ H2)).
  - cbn [hex_encode hex_decode hex]. rewrite as_of_bytes. induction l as [|b l IH]; [done|].
    rewrite hex_bytes_cons. cbn [unhex_bytes].
    destruct (byte_nibbles b) as [H1 H2].
    rewrite (proj1 (hex_char_spec _ H1)), (proj1 (hex_char_spec _ H2)).
    rewrite IH. do 2 f_equal. rewrite <-(n2b_b2n b) at 3. f_equal.
    pose proof (N.div_mod' (b2n b) 16). lia.
Qed.

(** A 32-byte checksum in the place of SHA-256. *)
#[export] Instance digest : Digest := {|
  sha256 l := be_bytes 32 (from_be_bytes (x01 :: l));
|}.
#[export] Instance digest_laws : DigestLaws.
Proof. split. intros l. unfold nlen. cbn [sha256 digest]. by rewrite length_be_bytes. Qed.

(** Hexadecimal in the place of base64. *)
#[export] Instance base64 : Base64 := {|
  b64_encode := hex_encode; b64_decode := hex_decode;
|}.
#[export] Instance base64_laws : Base64Laws.
Proof. split. apply hex_decode_encode. Qed.

(** A cipher that appends a tag computed from all its inputs. *)
Definition tag (key nonce aad m : bytes) : bytes :=
  be_bytes 16 (from_be_bytes (x01 :: key ++ nonce ++ aad ++ m)).

#[export] Instance aead : Aead := {|
  aead_encrypt key nonce aad m := Some (m ++ tag key nonce aad m);
  aead_decrypt key nonce aad c :=
    let m := ntake (nlen c - 16) c in
    if bool_decide (m ++ tag key nonce aad m = c) then Some m else None;
  hkdf_sha256 ikm salt info := Some (be_bytes 32 (from_be_bytes (x01 :: ikm ++ salt ++ info)));
|}.

#[export] Instance aead_laws : AeadLaws.
Proof.
  assert (forall key nonce aad m, nlen (tag key nonce aad m) = 16) as Ht.
  { intros. unfold nlen, tag. by rewrite length_be_bytes. }
  split; intros key nonce aad m c.
  3: { cbn [aead_decrypt aead]. case_bool_decide as Hc; [|done]. intros [= <-].
       apply (f_equal nlen) in Hc. by rewrite nlen_app, Ht in Hc. }
  all: intros [= <-].
  - cbn [aead_decrypt aead]. rewrite nlen_app, Ht. replace (nlen m + 16 - 16) with (nlen m) by lia.
    rewrite ntake_app_exact. by rewrite bool_decide_eq_true_2.
  - by rewrite nlen_app, Ht.
Qed.

#[export] Instance zstd : Zstd := {|
  zstd_compress l := Some l; zstd_decompress c n := Some (ntake n c);
|}.
#[export] Instance zstd_laws : ZstdLaws.
Proof. split. by intros l c n [= <-]. Qed.

End Concrete.
