(* ===== verification/Json.v ===== *)
(** * JSON values

    [serde_json::Value] as the sources take it apart.  The crate is built
    without [preserve_order], so an object is an ordered map: an association
    list sorted by key, with [map_insert] for [Map::insert].  Ordered string
    maps and sets of the standard library ([BTreeMap<String, V>],
    [BTreeSet<String>]) whose iteration order shows use the same lists. *)

From Stdlib Require Import Strings.Byte Sorted.
From S2P Require Import Prelude RustStd.
From stdpp Require Import options.

(** [serde_json::Number]: a [u64], a negative [i64], or a float that is
    neither. *)
Inductive Number :=
| PosInt (n : N)
| NegInt (z : Z)
| Float (text : string).

Inductive Value :=
| JNull
| JBool (b : bool)
| JNumber (n : Number)
| JString (s : string)
| JArray (l : list Value)
| JObject (m : list (string * Value)).

#[export] Instance Number_eq_dec : EqDecision Number.
Proof. solve_decision. Defined.

(** Induction through the arrays and objects. *)
Lemma Value_ind' (P : Value -> Prop) :
  P JNull -> (forall b, P (JBool b)) -> (forall n, P (JNumber n)) -> (forall s, P (JString s)) ->
  (forall l, Forall P l -> P (JArray l)) ->
  (forall m, Forall (fun kv => P (snd kv)) m -> P (JObject m)) ->
  forall v, P v.
Proof.
  intros Hnull Hbool Hnum Hstr Harr Hobj.
  fix IH 1. intros [ | b | n | s | l | m].
  - apply Hnull.
  - apply Hbool.
  - apply Hnum.
  - apply Hstr.
  - apply Harr. induction l as [|v l IHl]; constructor; [apply IH|apply IHl].
  - apply Hobj. induction m as [|[k v] m IHm]; constructor; [apply IH|apply IHm].
Qed.

(** ** Ordered string maps *)

Definition str_lt (s t : string) : Prop := String.compare s t = Lt.

Section OrderedMap.
Context {V : Type}.
Implicit Types (m : list (string * V)).

Fixpoint map_insert (k : string) (v : V) m : list (string * V) :=
  match m with
  | [] => [(k, v)]
  | (k', v') :: m' =>
      match String.compare k k' with
      | Lt => (k, v) :: m
      | Eq => (k, v) :: m'
      | Gt => (k', v') :: map_insert k v m'
      end
  end.

Fixpoint map_get (k : string) m : option V :=
  match m with
  | [] => None
  | (k', v') :: m' => if str_eqb k k' then Some v' else map_get k m'
  end.

Definition map_contains_key (k : string) m : bool :=
  match map_get k m with Some _ => true | None => false end.

Definition map_sorted m : Prop := StronglySorted (fun a b => str_lt (fst a) (fst b)) m.

Lemma str_compare_gt s t : str_lt t s -> String.compare s t = Gt.
Proof. unfold str_lt. rewrite String.compare_antisym. by destruct (String.compare s t). Qed.

Lemma str_compare_refl s : String.compare s s = Eq.
Proof. pose proof (String.compare_antisym s s). by destruct (String.compare s s). Qed.

(** Inserting in increasing key order appends. *)
Lemma map_insert_last k v m :
  Forall (fun kv => str_lt (fst kv) k) m -> map_insert k v m = m ++ [(k, v)].
Proof.
  induction 1 as [|[k' v'] m Hk Hm IH]; cbn; [done|].
  cbn in Hk. by rewrite (str_compare_gt _ _ Hk), IH.
Qed.

Lemma str_eqb_true s t : str_eqb s t = true <-> s = t.
Proof. unfold str_eqb. apply bool_decide_eq_true. Qed.

Lemma map_get_insert k v m : map_get k (map_insert k v m) = Some v.
Proof.
  induction m as [|[k' v'] m IH]; cbn; [by rewrite (proj2 (str_eqb_true k k))|].
  destruct (String.compare k k') eqn:E; cbn.
  - by rewrite (proj2 (str_eqb_true k k)).
  - by rewrite (proj2 (str_eqb_true k k)).
  - unfold str_eqb. case_bool_decide; [|done]. subst.
    by rewrite str_compare_refl in E.
Qed.

Lemma map_get_insert_ne k k' v m : k <> k' -> map_get k (map_insert k' v m) = map_get k m.
Proof.
  intros Hne. induction m as [|[j w] m IH]; cbn.
  - unfold str_eqb. by rewrite bool_decide_eq_false_2.
  - destruct (String.compare k' j) eqn:E; cbn.
    + apply String.compare_eq_iff in E as ->. unfold str_eqb. by rewrite bool_decide_eq_false_2.
    + unfold str_eqb at 1. by rewrite bool_decide_eq_false_2.
    + by rewrite IH.
Qed.

(** What precedes an entry of a sorted map has smaller keys. *)
Lemma map_sorted_before k v m m' :
  map_sorted (m ++ (k, v) :: m') -> Forall (fun kv => str_lt (fst kv) k) m.
Proof.
  induction m as [|[k' v'] m IH]; cbn; [constructor|]. inversion 1 as [|? ? Hs Hf]; subst.
  constructor; [|by apply IH]. apply Forall_app in Hf as [_ Hf]. by inversion Hf.
Qed.

(** Every entry of the result is the new one or an old one. *)
Lemma map_insert_Forall (P : string * V -> Prop) k v m :
  P (k, v) -> Forall P m -> Forall P (map_insert k v m).
Proof.
  intros Hkv. induction 1 as [|[k' v'] m Hk Hm IH]; cbn; [by constructor|].
  destruct (String.compare k k'); by repeat constructor.
Qed.

Lemma map_insert_length k v m : (length (map_insert k v m) <= S (length m))%nat.
Proof.
  induction m as [|[k' v'] m IH]; cbn; [done|]. destruct (String.compare k k'); cbn; lia.
Qed.
End OrderedMap.

(** Ordered sets of strings. *)
Definition set_insert (k : string) (s : list string) : list string :=
  fst <$> map_insert k tt ((fun x => (x, tt)) <$> s).

Lemma set_insert_elem k s x : x ∈ set_insert k s <-> x = k \/ x ∈ s.
Proof.
  unfold set_insert. induction s as [|y s IH]; cbn.
  - rewrite elem_of_cons, elem_of_nil. tauto.
  - destruct (String.compare k y) eqn:E; cbn.
    + apply String.compare_eq_iff in E as ->.
      replace (fst <$> ((fun x => (x, tt)) <$> s)) with s
        by (by rewrite <-list_fmap_compose; symmetry; apply list_fmap_id).
      rewrite !elem_of_cons. naive_solver.
    + replace (fst <$> ((fun x => (x, tt)) <$> s)) with s
        by (by rewrite <-list_fmap_compose; symmetry; apply list_fmap_id).
      rewrite !elem_of_cons. naive_solver.
    + cbn in IH. rewrite !elem_of_cons, IH. naive_solver.
Qed.

Lemma set_insert_length k s : k ∉ s -> length (set_insert k s) = S (length s).
Proof.
  unfold set_insert. rewrite length_fmap. induction s as [|y s IH]; [done|].
  rewrite not_elem_of_cons. intros [Hy Hs]. cbn. destruct (String.compare k y) eqn:E; cbn.
  - by apply String.compare_eq_iff in E.
  - by rewrite length_fmap.
  - by rewrite IH.
Qed.

(** [BTreeSet::from_iter]; also what [sort] and [dedup] make of a list. *)
Definition set_of_list (l : list string) : list string :=
  foldl (fun s x => set_insert x s) [] l.

Lemma set_of_list_snoc l x : set_of_list (l ++ [x]) = set_insert x (set_of_list l).
Proof. unfold set_of_list. by rewrite foldl_app. Qed.

Lemma set_of_list_elem l x : x ∈ set_of_list l <-> x ∈ l.
Proof.
  induction l as [|y l IH] using rev_ind; [done|].
  rewrite set_of_list_snoc, set_insert_elem, IH, elem_of_app, list_elem_of_singleton. tauto.
Qed.

Lemma set_of_list_length l : NoDup l -> length (set_of_list l) = length l.
Proof.
  induction l as [|y l IH] using rev_ind; [done|].
  rewrite NoDup_app, set_of_list_snoc, length_app. intros (Hl & Hy & _).
  rewrite set_insert_length; [rewrite IH by done; cbn; lia|].
  rewrite set_of_list_elem. intros H. by eapply (Hy y H), list_elem_of_singleton.
Qed.

#[export] Instance str_lt_trans : Transitive str_lt.
Proof.
  unfold str_lt. intros s. induction s as [|a s IH]; intros [|b t] [|c u]; cbn; try done.
  unfold Ascii.compare.
  destruct (N.compare_spec (Ascii.N_of_ascii a) (Ascii.N_of_ascii b)) as [E1|E1|E1]; try done;
    destruct (N.compare_spec (Ascii.N_of_ascii b) (Ascii.N_of_ascii c)) as [E2|E2|E2]; try done.
  - rewrite (proj2 (N.compare_eq_iff _ _)) by congruence. apply IH.
  - intros _ _. by rewrite (proj2 (N.compare_lt_iff _ _)) by lia.
  - intros _ _. by rewrite (proj2 (N.compare_lt_iff _ _)) by lia.
  - intros _ _. by rewrite (proj2 (N.compare_lt_iff _ _)) by lia.
Qed.

Lemma set_insert_cons k y s : set_insert k (y :: s) =
  match String.compare k y with
  | Lt => k :: y :: s | Eq => k :: s | Gt => y :: set_insert k s end.
Proof.
  assert (fst <$> ((fun x => (x, tt)) <$> s) = s) as Hs
    by (rewrite <-list_fmap_compose; apply list_fmap_id).
  unfold set_insert. cbn. destruct (String.compare k y); cbn; by rewrite ?Hs.
Qed.

Lemma set_insert_sorted k s :
  StronglySorted str_lt s -> StronglySorted str_lt (set_insert k s).
Proof.
  induction 1 as [|y s Hs IH Hy]; [by repeat constructor|]. rewrite set_insert_cons.
  destruct (String.compare k y) eqn:E.
  - apply String.compare_eq_iff in E as ->. by constructor.
  - constructor; [by constructor|]. constructor; [done|]. eapply Forall_impl; [done|].
    intros x Hx. by etrans.
  - constructor; [done|]. apply Forall_forall. intros x [->|Hx]%set_insert_elem.
    + unfold str_lt. rewrite String.compare_antisym, E. done.
    + by eapply Forall_forall in Hy.
Qed.

Lemma set_of_list_sorted l : StronglySorted str_lt (set_of_list l).
Proof.
  induction l as [|x l IH] using rev_ind; [constructor|].
  rewrite set_of_list_snoc. by apply set_insert_sorted.
Qed.

Lemma str_lt_irrefl s : ~ str_lt s s.
Proof. unfold str_lt. by rewrite str_compare_refl. Qed.

Lemma set_insert_existing k s : StronglySorted str_lt s -> k ∈ s -> set_insert k s = s.
Proof.
  induction 1 as [|y s Hs IH Hy]; intros Hk; [by apply elem_of_nil in Hk|].
  rewrite set_insert_cons. apply elem_of_cons in Hk as [->|Hk]; [by rewrite str_compare_refl|].
  eapply Forall_forall in Hy; [|done]. by rewrite (str_compare_gt _ _ Hy), IH.
Qed.

(** A map as a function on a sorted set of keys. *)
Lemma map_insert_fmap {V} (f : string -> V) k v s : StronglySorted str_lt s ->
  map_insert k v ((fun x => (x, f x)) <$> s) =
  (fun x => (x, if decide (x = k) then v else f x)) <$> set_insert k s.
Proof.
  assert (forall s : list string, k ∉ s -> (fun x => (x, f x)) <$> s =
            (fun x => (x, if decide (x = k) then v else f x)) <$> s) as Hsame.
  { intros l Hl. apply list_fmap_ext. intros i x Hx. case_decide; [|done]. subst.
    exfalso. by eapply Hl, list_elem_of_lookup_2. }
  induction 1 as [|y s Hs IH Hy]; [cbn; by rewrite decide_True|].
  rewrite set_insert_cons. cbn [fmap list_fmap map_insert].
  assert (k = y \/ String.compare k y = Lt -> k ∉ s) as Hk.
  { intros Hc Hin. eapply Forall_forall in Hy; [|done]. destruct Hc as [->|Hc].
    - by eapply str_lt_irrefl.
    - by rewrite (str_compare_gt _ _ Hy) in Hc. }
  destruct (String.compare k y) eqn:E; cbn [fmap list_fmap].
  - apply String.compare_eq_iff in E as ->. rewrite decide_True by done.
    f_equal. apply Hsame, Hk. by left.
  - rewrite decide_True by done. rewrite decide_False.
    + do 2 f_equal. apply Hsame, Hk. by right.
    + intros ->. by rewrite str_compare_refl in E.
  - rewrite decide_False, <-IH; [done|]. intros ->. by rewrite str_compare_refl in E.
Qed.

Lemma map_get_fmap {V} (f : string -> V) k s :
  map_get k ((fun x => (x, f x)) <$> s) = if decide (k ∈ s) then Some (f k) else None.
Proof.
  induction s as [|y s IH]; [done|]. cbn [fmap list_fmap map_get]. rewrite IH.
  unfold str_eqb. case_bool_decide as E; [subst; rewrite decide_True by left; done|].
  by do 2 case_decide; set_solver.
Qed.

(** ** Accessors *)

Definition as_str (v : Value) : option string :=
  match v with JString s => Some s | _ => None end.
Definition as_u64 (v : Value) : option N :=
  match v with JNumber (PosInt n) => Some n | _ => None end.
Definition as_bool (v : Value) : option bool :=
  match v with JBool b => Some b | _ => None end.
Definition as_object (v : Value) : option (list (string * Value)) :=
  match v with JObject m => Some m | _ => None end.
Definition as_array (v : Value) : option (list Value) :=
  match v with JArray l => Some l | _ => None end.

(** [value.get("key")] on any value; non-objects have no member. *)
Definition get (key : string) (v : Value) : option Value :=
  match v with JObject m => map_get key m | _ => None end.

(** [value.pointer("/a/b")], for pointers into objects. *)
Fixpoint pointer (path : list string) (v : Value) : option Value :=
  match path with
  | [] => Some v
  | key :: path' => get key v ≫= pointer path'
  end.

(** [serde_json::json!({..})] *)
Definition json_object (members : list (string * Value)) : Value :=
  JObject (foldl (fun m '(k, v) => map_insert k v m) [] members).
Definition json_u64 (n : N) : Value := JNumber (PosInt n).
Definition json_option {A} (f : A -> Value) (o : option A) : Value :=
  match o with Some a => f a | None => JNull end.

(** Objects sorted by key at every level, which [serde_json] maintains. *)
Fixpoint value_wf (v : Value) : Prop :=
  match v with
  | JArray l => (fix go l := match l with [] => True | x :: l' => value_wf x /\ go l' end) l
  | JObject m =>
      map_sorted m /\
      (fix go m := match m with [] => True | (_, x) :: m' => value_wf x /\ go m' end) m
  | _ => True
  end.

Lemma value_wf_array l : value_wf (JArray l) <-> Forall value_wf l.
Proof.
  induction l as [|v l IH]; [done|]. rewrite Forall_cons, <-IH. done.
Qed.

Lemma value_wf_object m :
  value_wf (JObject m) <-> map_sorted m /\ Forall (fun kv => value_wf (snd kv)) m.
Proof.
  cbn. apply and_iff_compat_l.
  induction m as [|[k v] m IH]; [done|]. rewrite Forall_cons, <-IH. done.
Qed.

(** Nesting depth: scalars have depth 0. *)
Fixpoint value_depth (v : Value) : N :=
  match v with
  | JArray l =>
      1 + (fix go l := match l with [] => 0 | x :: l' => N.max (value_depth x) (go l') end) l
  | JObject m =>
      1 + (fix go m := match m with [] => 0 | (_, x) :: m' => N.max (value_depth x) (go m') end) m
  | _ => 0
  end.

Lemma value_depth_array l d :
  Forall (fun v => value_depth v <= d) l -> value_depth (JArray l) <= 1 + d.
Proof.
  intros H. cbn [value_depth]. apply N.add_le_mono_l. induction H; [lia|]. apply N.max_lub; done.
Qed.

Lemma value_depth_object m d :
  Forall (fun kv => value_depth (snd kv) <= d) m -> value_depth (JObject m) <= 1 + d.
Proof.
  intros H. cbn [value_depth]. apply N.add_le_mono_l.
  induction H as [|[k v] m Hv Hm IH]; [lia|]. apply N.max_lub; done.
Qed.
