(* ===== verification/Input.v ===== *)
(** * src/input.rs and src/metadata.rs: bounds on untrusted text

    The preflight scan that bounds nesting and structural tokens of a JSON
    text before it is parsed, and the bounded form of metadata strings. *)

From Stdlib Require Import Strings.Byte.
From S2P Require Import Prelude RustStd External Json.
From stdpp Require Import options.
From stdpp Require Import pretty.
Local Open Scope N_scope.

(** ** [std::io::Error] *)

Inductive ErrorKind :=
| NotFound | PermissionDenied | InvalidInput | InvalidData | UnexpectedEof
| AlreadyExists | BrokenPipe | TimedOut | Other.

Record IoError := io_error {
  error_kind : ErrorKind;
  error_message : string;
}.

#[export] Instance ErrorKind_eq_dec : EqDecision ErrorKind.
Proof. solve_decision. Defined.

Notation io_result := (result IoError).

(** ** JSON complexity *)

Definition MAX_JSON_NESTING_DEPTH : N := 64.
Definition MAX_JSON_STRUCTURAL_TOKENS : N := 100000.
Definition MAX_STORED_JSON_NESTING_DEPTH : N := MAX_JSON_NESTING_DEPTH + 16.
Definition MAX_STORED_JSON_STRUCTURAL_TOKENS : N := MAX_JSON_STRUCTURAL_TOKENS + 4096.

(** The locals of the scan. *)
Record Scan := mkScan {
  in_string : bool;
  escaped : bool;
  depth : N;
  tokens : N;
}.

Definition scan_start : Scan := mkScan false false 0 0.

Definition is_open (b : byte) : bool := beqb b x7b || beqb b x5b.
Definition is_close (b : byte) : bool := beqb b x7d || beqb b x5d.
Definition is_separator (b : byte) : bool := beqb b x2c || beqb b x3a.

Definition scan_byte (maximum_depth maximum_tokens : N) (s : Scan) (b : byte) : io_result Scan :=
  if in_string s then
    Ok (if escaped s then mkScan true false (depth s) (tokens s)
        else if beqb b x5c then mkScan true true (depth s) (tokens s)
        else if beqb b x22 then mkScan false false (depth s) (tokens s)
        else s)
  else
    s' ← (if beqb b x22 then Ok (mkScan true (escaped s) (depth s) (tokens s))
          else if is_open b then
            if maximum_depth <? sat_add (depth s) 1
            then Err (io_error InvalidData "JSON exceeds the nesting safety limit")
            else Ok (mkScan false (escaped s) (sat_add (depth s) 1) (sat_add (tokens s) 1))
          else if is_close b then
            Ok (mkScan false (escaped s) (sat_sub (depth s) 1) (tokens s))
          else if is_separator b then
            Ok (mkScan false (escaped s) (depth s) (sat_add (tokens s) 1))
          else Ok s);
    if maximum_tokens <? tokens s'
    then Err (io_error InvalidData "JSON exceeds the structural safety limit")
    else Ok s'.

Definition validate_json_complexity_with_limits
    (l : bytes) (maximum_depth maximum_tokens : N) : io_result unit :=
  _ ← try_fold (scan_byte maximum_depth maximum_tokens) scan_start l; Ok tt.

Definition validate_json_complexity (l : bytes) : io_result unit :=
  validate_json_complexity_with_limits l MAX_JSON_NESTING_DEPTH MAX_JSON_STRUCTURAL_TOKENS.

Definition validate_stored_json_complexity (l : bytes) : io_result unit :=
  validate_json_complexity_with_limits l
    MAX_STORED_JSON_NESTING_DEPTH MAX_STORED_JSON_STRUCTURAL_TOKENS.

(** ** Bounded metadata strings *)

Definition MAX_NORMALIZED_STRING_BYTES : N := 1024.

Definition bounded_string `{!Digest, !Hex} (value : string) : string :=
  if (str_len value <=? MAX_NORMALIZED_STRING_BYTES) && negb (str_has_control value) then value
  else "[HASHED_METADATA sha256:" +:+ hex_encode (sha256 (as_bytes value)) +:+
       " bytes=" +:+ pretty (str_len value) +:+ "]".

Definition value_string `{!Digest, !Hex} (value : option Value) : option string :=
  bounded_string <$> (value ≫= as_str).

(** ** The scan against unbounded counters

    [scan_free] is the same automaton with unlimited counters: the nesting
    depth and the number of structural tokens outside strings. *)

Definition scan_free_byte (s : Scan) (b : byte) : Scan :=
  if in_string s then
    if escaped s then mkScan true false (depth s) (tokens s)
    else if beqb b x5c then mkScan true true (depth s) (tokens s)
    else if beqb b x22 then mkScan false false (depth s) (tokens s)
    else s
  else if beqb b x22 then mkScan true (escaped s) (depth s) (tokens s)
  else if is_open b then mkScan false (escaped s) (depth s + 1) (tokens s + 1)
  else if is_close b then mkScan false (escaped s) (depth s - 1) (tokens s)
  else if is_separator b then mkScan false (escaped s) (depth s) (tokens s + 1)
  else s.

Definition scan_free (l : bytes) : Scan := foldl scan_free_byte scan_start l.

Definition within (d t : N) (s : Scan) : Prop := depth s <= d /\ tokens s <= t.

Lemma scan_byte_free d t s b :
  d < u64_max -> t < u64_max -> within d t s ->
  match scan_byte d t s b with
  | Ok s' => s' = scan_free_byte s b /\ within d t s'
  | Err _ => ~ within d t (scan_free_byte s b)
  end.
Proof.
  intros Hd Ht [Hsd Hst]. unfold scan_byte, scan_free_byte, within.
  rewrite !sat_add_exact by lia. unfold sat_sub.
  destruct (in_string s); [repeat case_match; done|].
  repeat (case_match; cbn in *; reflect_N; simplify_eq; cbn in *);
    try done; try lia; try (split; [done|lia]).
Qed.

Lemma scan_fold_free d t l s :
  d < u64_max -> t < u64_max -> within d t s ->
  is_ok (try_fold (scan_byte d t) s l) = true <->
  forall p k, l = p ++ k -> within d t (foldl scan_free_byte s p).
Proof.
  intros Hd Ht. revert s. induction l as [|b l IH]; intros s Hs; cbn [try_fold].
  - split; [|done]. intros _ p k H. symmetry in H. by apply app_nil in H as [-> ->].
  - pose proof (scan_byte_free d t s b Hd Ht Hs) as Hb.
    destruct (scan_byte d t s b) as [s'|e]; cbn.
    + destruct Hb as [-> Hw]. rewrite IH by done. split.
      * intros H [|c p] k Hl; cbn in *; [done|]. simplify_eq. eauto.
      * intros H p k ->. by apply (H (b :: p) k).
    + split; [done|]. intros H. exfalso. by apply Hb, (H [b] l).
Qed.

Lemma validate_prefixes l d t :
  d < u64_max -> t < u64_max ->
  (validate_json_complexity_with_limits l d t = Ok tt <->
   forall p k, l = p ++ k -> within d t (scan_free p)).
Proof.
  intros Hd Ht. unfold validate_json_complexity_with_limits.
  rewrite <-(scan_fold_free d t l scan_start Hd Ht); [|split; cbn; lia].
  destruct (try_fold _ _ _) as [[]|]; done.
Qed.

(** [validate_json_complexity_with_limits] accepts a text exactly when, at
    every prefix, the bracket depth and the number of structural tokens
    outside string literals stay within the limits, counted without
    saturation; an escaped quote does not end a string. *)
Theorem validate_json_complexity_exact l d t :
  d < u64_max -> t < u64_max ->
  (validate_json_complexity_with_limits l d t = Ok tt <->
   forall p k, l = p ++ k -> depth (scan_free p) <= d /\ tokens (scan_free p) <= t).
Proof. apply validate_prefixes. Qed.

(** The stored limits are looser. *)
Lemma validate_stored_weaker l :
  validate_json_complexity l = Ok tt -> validate_stored_json_complexity l = Ok tt.
Proof.
  unfold validate_json_complexity, validate_stored_json_complexity.
  rewrite !validate_prefixes by done. intros H p k Hl. destruct (H p k Hl).
  unfold within, MAX_STORED_JSON_NESTING_DEPTH, MAX_STORED_JSON_STRUCTURAL_TOKENS. split; lia.
Qed.

(** A final newline changes nothing. *)
Lemma scan_byte_LF d t s : tokens s <= t ->
  exists s', scan_byte d t s LF = Ok s' /\ tokens s' = tokens s.
Proof.
  intros Ht. unfold scan_byte.
  assert (beqb LF x5c = false /\ beqb LF x22 = false /\ is_open LF = false /\ is_close LF = false
    /\ is_separator LF = false) as (-> & -> & -> & -> & ->) by done.
  destruct (in_string s); [by destruct (escaped s); eexists|]. cbn.
  rewrite (proj2 (N.ltb_ge _ _) Ht). eauto.
Qed.

Lemma scan_tokens d t l s s' :
  tokens s <= t -> try_fold (scan_byte d t) s l = Ok s' -> tokens s' <= t.
Proof.
  intros Hs H. eapply (try_fold_inv (fun s => tokens s <= t)); [|exact Hs|exact H].
  intros x b y _ Hx Hy. unfold scan_byte in Hy. destruct (in_string x).
  - injection Hy as <-. repeat case_match; done.
  - inv_ok. case_match; [done|]. injection Hy as <-. by apply N.ltb_ge.
Qed.

Lemma validate_json_LF l d t :
  validate_json_complexity_with_limits (l ++ [LF]) d t =
  validate_json_complexity_with_limits l d t.
Proof.
  unfold validate_json_complexity_with_limits. rewrite try_fold_app.
  destruct (try_fold (scan_byte d t) scan_start l) as [s|e] eqn:E; [|done].
  cbn [mbind result_bind try_fold].
  destruct (scan_byte_LF d t s) as (s' & -> & _); [|done].
  eapply scan_tokens; [|exact E]. apply N.le_0_l.
Qed.

Lemma validate_json_complexity_exact_witness :
  depth (scan_free (as_bytes "{x")) <= 1 /\ tokens (scan_free (as_bytes "{x")) <= 1.
Proof.
  apply (proj1 (validate_json_complexity_exact (as_bytes "{x}") 1 1 eq_refl eq_refl) eq_refl
    (as_bytes "{x") (as_bytes "}") eq_refl).
Defined.
