(* ===== verification/Model.v ===== *)
(** * src/model.rs: events

    The envelope every collector writes, the pending form the writer turns
    into an envelope, and the validation both the writer and the reader
    apply. *)

From Stdlib Require Import Strings.Byte Floats.SpecFloat.
From S2P Require Import Prelude RustStd External Json Input.
From stdpp Require Import options.
Local Open Scope N_scope.

Definition SCHEMA_VERSION : N := 1.

(** A [Uuid] is its 128-bit value; byte 6 carries the version. *)
Definition Uuid := N.
Definition uuid_is_nil (u : Uuid) : bool := u =? 0.
Definition uuid_version (u : Uuid) : N := N.land (N.shiftr u 76) 15.

(** [DateTime<Utc>] as nanoseconds since the epoch, [f32] as its IEEE value. *)
Definition DateTime := Z.
Definition MAX_UTC : DateTime := 8210266876799999999999%Z.
Definition MIN_UTC : DateTime := (-8334601228800000000000)%Z.
Definition f32 := spec_float.
Definition f32_zero : f32 := S754_zero false.
Definition f32_one : f32 := S754_finite false 8388608 (-23).

Record PayloadRef := mkPayloadRef {
  ref_sha256 : string;
  ref_size : N;
  ref_media_type : option string;
  ref_truncated : bool;
}.

Record EventIds := mkEventIds {
  task_id : option string;
  session_id : option string;
  turn_id : option string;
  inference_id : option string;
  attempt_id : option string;
  connection_id : option string;
  parent_id : option string;
  pid : option N;
  container_id : option string;
}.

Definition default_ids : EventIds :=
  mkEventIds None None None None None None None None None.

Inductive TerminalState := Complete | Error | Cancelled | Incomplete.

#[export] Instance TerminalState_eq_dec : EqDecision TerminalState.
Proof. solve_decision. Defined.

Record RedactionRecord := mkRedactionRecord {
  rr_policy : string;
  rr_fields : list string;
  rr_omitted : list string;
}.

Record PendingEvent := mkPendingEvent {
  pe_run_id : string;
  pe_source : string;
  pe_kind : string;
  pe_ids : EventIds;
  pe_observed_at : DateTime;
  pe_monotonic_ns : N;
  pe_raw : option PayloadRef;
  pe_normalized : option Value;
  pe_redaction : RedactionRecord;
  pe_confidence : option f32;
  pe_evidence : list string;
  pe_terminal_state : option TerminalState;
}.

#[export] Instance PendingEvent_settable : Settable PendingEvent := fun e =>
  mkPendingEvent (pe_run_id e) (pe_source e) (pe_kind e) (pe_ids e) (pe_observed_at e) (pe_monotonic_ns e)
    (pe_raw e) (pe_normalized e) (pe_redaction e) (pe_confidence e) (pe_evidence e) (pe_terminal_state e).

(** [PendingEvent::new] at time [now]. *)
Definition new_pending (run_id source kind : string) (now : DateTime) : PendingEvent :=
  mkPendingEvent run_id source kind default_ids now 0 None None
    (mkRedactionRecord "default" [] []) None [] None.

Record EventEnvelope := mkEventEnvelope {
  ev_schema_version : N;
  ev_event_id : Uuid;
  ev_sequence : N;
  ev_run_id : string;
  ev_ids : EventIds;
  ev_source : string;
  ev_event : string;
  ev_monotonic_ns : N;
  ev_wall_time : DateTime;
  ev_raw : option PayloadRef;
  ev_normalized : option Value;
  ev_redaction : RedactionRecord;
  ev_confidence : option f32;
  ev_evidence : list string;
  ev_terminal_state : option TerminalState;
}.

(** [EventEnvelope::from_pending], with the fresh [Uuid::now_v7()] as an
    argument. *)
Definition from_pending (event_id : Uuid) (sequence : N) (event : PendingEvent) : EventEnvelope :=
  mkEventEnvelope SCHEMA_VERSION event_id sequence (pe_run_id event) (pe_ids event)
    (pe_source event) (pe_kind event) (pe_monotonic_ns event) (pe_observed_at event)
    (pe_raw event) (pe_normalized event) (pe_redaction event) (pe_confidence event)
    (pe_evidence event) (pe_terminal_state event).

(** ** Validation *)

Definition validate_text (name value : string) (max_bytes : N) : result string unit :=
  if str_is_empty value || (max_bytes <? str_len value) || str_has_control value
  then Err (name +:+ " is empty, too long, or contains control characters")
  else Ok tt.

Definition validate_text_list (name : string) (values : list string)
    (maximum_items maximum_bytes : N) : result string unit :=
  if maximum_items <? nlen values then Err (name +:+ " list has too many items")
  else try_fold (fun _ value => validate_text name value maximum_bytes) tt values.

Definition validate_ids (ids : EventIds) : result string unit :=
  _ ← try_fold (fun _ '(name, value) =>
         match value with Some value => validate_text name value 1024 | None => Ok tt end) tt
       [("task ID", task_id ids); ("session ID", session_id ids); ("turn ID", turn_id ids);
        ("inference ID", inference_id ids); ("attempt ID", attempt_id ids);
        ("connection ID", connection_id ids); ("parent ID", parent_id ids);
        ("container ID", container_id ids)];
  if bool_decide (pid ids = Some 0) then Err "process ID must be positive" else Ok tt.

(** The digest form shared by payload references and blob names. *)
Definition canonical_hash (hash : string) : bool :=
  (str_len hash =? 64) && str_all is_lower_hex hash.

Definition validate_payload_ref (raw : PayloadRef) : result string unit :=
  match str_strip_prefix "sha256:" (ref_sha256 raw) with
  | None => Err "payload reference must use the sha256: prefix"
  | Some hash =>
      if negb (canonical_hash hash)
      then Err "payload reference contains an invalid SHA-256 digest"
      else match ref_media_type raw with
      | Some media_type =>
          if str_is_empty media_type || (1024 <? str_len media_type)
             || str_any (fun b => beqb b x00 || beqb b CR || beqb b LF) media_type
          then Err "payload media type is too long or contains delimiters"
          else Ok tt
      | None => Ok tt
      end
  end.

(** [EventEnvelope::validate] *)
Definition validate (e : EventEnvelope) : result string unit :=
  if negb (ev_schema_version e =? SCHEMA_VERSION) then Err "unsupported event schema version"
  else if ev_sequence e =? 0 then Err "event sequence must be positive"
  else if uuid_is_nil (ev_event_id e) then Err "event ID must not be nil"
  else if negb (uuid_version (ev_event_id e) =? 7)
  then Err "event ID must be a time-ordered UUIDv7"
  else
    validate_text "run ID" (ev_run_id e) 256;;
    validate_text "event source" (ev_source e) 128;;
    validate_text "event name" (ev_event e) 256;;
    validate_ids (ev_ids e);;
    match ev_confidence e with
    | Some c => if negb (SFleb f32_zero c && SFleb c f32_one)
                then Err "event confidence must be between zero and one" else Ok tt
    | None => Ok tt
    end;;
    match ev_raw e with Some raw => validate_payload_ref raw | None => Ok tt end;;
    validate_text "redaction policy" (rr_policy (ev_redaction e)) 128;;
    validate_text_list "redacted field" (rr_fields (ev_redaction e)) 1024 1024;;
    validate_text_list "omitted field" (rr_omitted (ev_redaction e)) 1024 1024;;
    validate_text_list "evidence label" (ev_evidence e) 256 1024;;
    Ok tt.

(** ** What a validated envelope guarantees *)

Definition text_ok (max_bytes : N) (s : string) : Prop :=
  s <> "" /\ str_len s <= max_bytes /\ str_has_control s = false.

Lemma validate_text_ok name value max u :
  validate_text name value max = Ok u <-> text_ok max value.
Proof.
  unfold validate_text, text_ok, str_is_empty. destruct u.
  case_bool_decide; [naive_solver|]. cbn.
  destruct (N.ltb_spec max (str_len value)); cbn; [naive_solver lia|].
  destruct (str_has_control value); naive_solver.
Qed.

Lemma validate_text_list_ok name values items max u :
  validate_text_list name values items max = Ok u <->
  nlen values <= items /\ Forall (text_ok max) values.
Proof.
  unfold validate_text_list. destruct u.
  destruct (N.ltb_spec items (nlen values)) as [H|H]; [naive_solver lia|].
  split.
  - intros Hf. split; [done|]. clear H. induction values as [|v values IH]; [done|].
    cbn in Hf. apply bind_ok in Hf as ([] & Hv & Hf). constructor; [|auto].
    by apply validate_text_ok in Hv.
  - intros [_ Hf]. clear H. induction Hf as [|v values Hv Hf IH]; [done|]. cbn.
    by rewrite (proj2 (validate_text_ok name v max tt) Hv).
Qed.

(** A well-formed envelope: the invariant of every stored record. *)
Record envelope_wf (e : EventEnvelope) : Prop := {
  wf_schema : ev_schema_version e = SCHEMA_VERSION;
  wf_sequence : 0 < ev_sequence e;
  wf_version : uuid_version (ev_event_id e) = 7;
  wf_run_id : text_ok 256 (ev_run_id e);
  wf_source : text_ok 128 (ev_source e);
  wf_event : text_ok 256 (ev_event e);
  wf_ids : validate_ids (ev_ids e) = Ok tt;
  wf_confidence : forall c, ev_confidence e = Some c ->
    SFleb f32_zero c = true /\ SFleb c f32_one = true;
  wf_raw : forall r, ev_raw e = Some r -> validate_payload_ref r = Ok tt;
  wf_policy : text_ok 128 (rr_policy (ev_redaction e));
  wf_fields : nlen (rr_fields (ev_redaction e)) <= 1024 /\
    Forall (text_ok 1024) (rr_fields (ev_redaction e));
  wf_omitted : nlen (rr_omitted (ev_redaction e)) <= 1024 /\
    Forall (text_ok 1024) (rr_omitted (ev_redaction e));
  wf_evidence : nlen (ev_evidence e) <= 256 /\ Forall (text_ok 1024) (ev_evidence e);
}.

Lemma validate_wf e : validate e = Ok tt <-> envelope_wf e.
Proof.
  unfold validate. split.
  - intros H. repeat (case_match; [done|]). reflect_N. inv_ok.
    repeat match goal with
    | H : validate_text _ _ _ = Ok _ |- _ => apply validate_text_ok in H
    | H : validate_text_list _ _ _ _ = Ok _ |- _ => apply validate_text_list_ok in H
    | u : unit |- _ => destruct u
    end.
    split; try done; try lia.
    + intros c Hc. rewrite Hc in *.
      destruct (SFleb f32_zero c), (SFleb c f32_one); done.
    + intros r Hr. by rewrite Hr in *.
  - intros []. rewrite wf_schema0. cbn [negb N.eqb Pos.eqb SCHEMA_VERSION].
    rewrite (proj2 (N.eqb_neq (ev_sequence e) 0)) by lia.
    assert (uuid_is_nil (ev_event_id e) = false) as ->.
    { unfold uuid_is_nil. apply N.eqb_neq. intros H0. by rewrite H0 in wf_version0. }
    rewrite wf_version0. cbn [negb N.eqb Pos.eqb].
    rewrite !(fun n v m => proj2 (validate_text_ok n v m tt)), wf_ids0 by done.
    cbn [mbind result_bind].
    assert (match ev_confidence e with
      | Some c => if negb (SFleb f32_zero c && SFleb c f32_one)
                  then Err "event confidence must be between zero and one" else Ok tt
      | None => Ok tt end = Ok tt) as ->.
    { destruct (ev_confidence e); [|done]. by destruct (wf_confidence0 _ eq_refl) as [-> ->]. }
    cbn [mbind result_bind].
    destruct (ev_raw e) as [r|]; [rewrite (wf_raw0 r eq_refl)|]; cbn [mbind result_bind];
      by rewrite !(fun n v i m => proj2 (validate_text_list_ok n v i m tt)).
Qed.
