(* ===== verification/ProbePlan.v ===== *)
(** * src/probe_plan.rs and the rule selection of src/probe_policy.rs

    The preflight plan a run records: which capture layers are candidates,
    which were selected, and whether an independent observer is among them;
    its validation when a manifest is read; and the choice of a privileged
    helper by a policy file.  Paths are strings; what the operating system
    says about a helper file is an argument. *)

From Stdlib Require Import Strings.Byte Sorted.
From S2P Require Import Prelude RustStd Json Input Model.
From stdpp Require Import options.
Local Open Scope N_scope.

Definition PROBE_PLAN_VERSION : N := 1.
Definition MAX_CANDIDATES : N := 32.
Definition MAX_LIST_ITEMS : N := 128.
Definition MAX_TEXT_BYTES : N := 1024.
Definition PROBE_POLICY_VERSION : N := 1.
Definition MAX_RULES : N := 128.
Definition MAX_RULE_LIST_ITEMS : N := 128.
Definition MAX_LABEL_BYTES : N := 128.

(** [CommandMetadata] of src/manifest.rs, read by the planner. *)
Record CommandMetadata := mkCommandMetadata {
  argv : list string;
  cwd : string;
  executable : option string;
  executable_sha256 : option string;
  agent : option string;
  agent_version : option string;
  runtime : option string;
  executable_tls_surfaces : list string;
  environment : list (string * string);
}.

(** [DoctorReport] of src/doctor.rs, as far as the planner reads it. *)
Record CaptureModeReport := mkCaptureModeReport {
  mode_status : string;
  mode_reason : string;
}.

Record DoctorReport := mkDoctorReport {
  doctor_os : string;
  doctor_architecture : string;
  tool_available : gmap string bool;
  capture_modes : gmap string CaptureModeReport;
}.

Record ProbeHelperEvidence := mkProbeHelperEvidence {
  he_mode : string;
  he_rule_id : option string;
  he_helper_kind : string;
  he_helper_path : string;
  he_helper_sha256 : string;
  he_target_executable_sha256 : option string;
  he_matched_tls_surface : option string;
}.

Record ProbePlannerConfig := mkProbePlannerConfig {
  endpoint_proxy : bool;
  http2_prior_knowledge : bool;
  tls_keylog : bool;
  cfg_pcap : bool;
  python_injection : bool;
  node_injection : bool;
  privileged_helper : bool;
  cfg_helper_selection : option ProbeHelperEvidence;
  task_cgroup : bool;
  task_netns : bool;
  transparent_proxy : bool;
}.

Record ProbeCandidate := mkProbeCandidate {
  pc_id : string;
  pc_status : string;
  pc_priority : N;
  pc_selected : bool;
  pc_independent_observer : bool;
  pc_reason : string;
}.

Record ProbePlan := mkProbePlan {
  pp_schema_version : N;
  pp_phase : string;
  pp_runtime : option string;
  pp_executable_tls_surfaces : list string;
  pp_intended_protocols : list string;
  pp_candidates : list ProbeCandidate;
  pp_selected : list string;
  pp_independent_observer_selected : bool;
  pp_helper_selection : option ProbeHelperEvidence;
  pp_limitations : list string;
}.

#[export] Instance ProbeHelperEvidence_eq_dec : EqDecision ProbeHelperEvidence.
Proof. solve_decision. Defined.
#[export] Instance ProbeCandidate_eq_dec : EqDecision ProbeCandidate.
Proof. solve_decision. Defined.
#[export] Instance ProbePlan_eq_dec : EqDecision ProbePlan.
Proof. solve_decision. Defined.
#[export] Instance CommandMetadata_eq_dec : EqDecision CommandMetadata.
Proof. solve_decision. Defined.

(** ** [ProbePlan::build] *)

(** [matches!(status, "available" | "experimental")] *)
Definition usable (status : string) : bool :=
  str_eqb status "available" || str_eqb status "experimental".

Definition helper_reason (config : ProbePlannerConfig) : string :=
  match cfg_helper_selection config with
  | None =>
      if privileged_helper config
      then "an explicitly selected helper will be gated by ready/final/drop protocol evidence"
      else "the protocol boundary is built in, but no qualified bridge executable was selected"
  | Some s =>
      he_mode s +:+ " helper " +:+ he_helper_kind s +:+ " selected"
      +:+ match he_rule_id s with Some rule => " by rule " +:+ rule | None => "" end
      +:+ " with executable SHA-256 " +:+ he_helper_sha256 s
  end.

Definition kind_selected (config : ProbePlannerConfig) (kind : string) : bool :=
  match cfg_helper_selection config with
  | Some s => str_eqb (he_helper_kind s) kind
  | None => false
  end.

Definition build_candidates (command : CommandMetadata) (config : ProbePlannerConfig)
    (doctor : DoctorReport) : list ProbeCandidate :=
  let surfaces := set_of_list (executable_tls_surfaces command) in
  let has_supported_tls_marker := existsb (fun s =>
    str_contains "openssl" s || str_contains "boringssl" s || str_contains "go-crypto-tls" s) surfaces in
  let has_rustls_marker := existsb (str_contains "rustls") surfaces in
  let runs (r : string) := bool_decide (runtime command = Some r) in
  let pcap_mode := capture_modes doctor !! "pcap" in
  let task_netns_mode := capture_modes doctor !! "task_netns" in
  let ebpf_available := negb (str_eqb
    (match capture_modes doctor !! "ebpf" with Some m => mode_status m | None => "unavailable" end)
    "unavailable") in
  let ecapture_available := default false (tool_available doctor !! "ecapture") in
  let agentsight_available := default false (tool_available doctor !! "agentsight") in
  let ecapture_ready := ecapture_available && ebpf_available && has_supported_tls_marker in
  let rustls_only := has_rustls_marker && negb has_supported_tls_marker in
  let ecapture_selected := kind_selected config "ecapture" in
  let agentsight_selected := kind_selected config "agentsight" in
  [mkProbeCandidate "endpoint_proxy"
     (if endpoint_proxy config then "available" else "not_selected") 10 (endpoint_proxy config) false
     (if endpoint_proxy config
      then "configured loopback endpoint proxy records application-visible HTTP, SSE, and WebSocket traffic"
      else "no upstream endpoint was configured, so the built-in proxy is inactive");
   mkProbeCandidate "python_runtime"
     (if runs "python" then "experimental" else "not_applicable") 20 (python_injection config) false
     (if runs "python" then "Python target can use the sitecustomize OpenAI/httpx/requests observer"
      else "target was not passively identified as Python");
   mkProbeCandidate "node_runtime"
     (if runs "node" then "experimental" else "not_applicable") 20 (node_injection config) false
     (if runs "node" then "Node.js target can use the CommonJS/ESM OpenAI and HTTP observer"
      else if runs "bun" then "Bun does not honor the supported Node.js preload mechanism"
      else "target was not passively identified as Node.js");
   mkProbeCandidate "nss_tls_keylog"
     (if runs "python" || runs "node" then "experimental"
      else if runs "bun" then "unavailable" else "unknown") 30 (tls_keylog config) false
     (if runs "node" then "Node.js can receive a recorder-controlled --tls-keylog destination"
      else if runs "python"
      then "Python default TLS contexts can honor SSLKEYLOGFILE; custom contexts can bypass it"
      else if runs "bun" then "Bun does not expose the supported NSS key-log mechanism"
      else "the detected runtime is not qualified to honor the NSS key-log contract");
   mkProbeCandidate "pcap_upstream_snapshot"
     (if endpoint_proxy config && negb (task_netns config)
      then match pcap_mode with Some m => mode_status m | None => "unavailable" end
      else "unavailable") 40 (cfg_pcap config && negb (task_netns config)) true
     (if task_netns config
      then "task-network isolation replaces the shared-host upstream snapshot with task-egress pcap"
      else if endpoint_proxy config
      then match pcap_mode with
           | Some m => mode_reason m
           | None => "packet-capture prerequisites were not reported" end
      else "upstream packet capture requires a configured endpoint proxy and resolved provider addresses");
   mkProbeCandidate "pcap_task_netns_proxy_only"
     (match task_netns_mode with Some m => mode_status m | None => "unavailable" end) 45
     (task_netns config && negb (transparent_proxy config)) true
     (match task_netns_mode with
      | Some m => mode_reason m
      | None => "rootless task-network prerequisites were not reported" end);
   mkProbeCandidate "transparent_task_netns_proxy"
     (match task_netns_mode with Some _ => "experimental" | None => "unavailable" end) 46
     (transparent_proxy config) false
     (if transparent_proxy config
      then "exact launch-time model sockets are selected for rootless DNAT with a private read-only hosts snapshot and per-run TLS identity"
      else "transparent model-socket interception was not selected");
   mkProbeCandidate "privileged_probe_helper"
     (if privileged_helper config then "experimental" else "bridge_required") 50
     (privileged_helper config) true (helper_reason config);
   mkProbeCandidate "ecapture_bridge"
     (if ecapture_selected then "experimental"
      else if ecapture_ready then "bridge_required"
      else if rustls_only then "not_applicable" else "unavailable") 60 ecapture_selected true
     (if ecapture_selected
      then "a digest-pinned eCapture bridge was selected by the trusted probe policy"
      else if ecapture_ready
      then "eCapture and kernel privilege are present with a candidate TLS marker, but no qualified iorec bridge was selected"
      else if rustls_only
      then "the discovered rustls marker is outside the qualified eCapture TLS matrix"
      else "eCapture, required kernel privilege, or a compatible TLS marker is absent");
   mkProbeCandidate "agentsight_bridge"
     (if agentsight_selected then "experimental"
      else if agentsight_available && ebpf_available then "bridge_required" else "unavailable") 70
     agentsight_selected true
     (if agentsight_selected
      then "a digest-pinned AgentSight bridge was selected by the trusted probe policy"
      else if agentsight_available && ebpf_available
      then "AgentSight and kernel privilege are present, but no qualified iorec bridge was selected"
      else "AgentSight or required kernel privilege is absent")].

Definition independent_selected (candidates : list ProbeCandidate) : bool :=
  existsb (fun c => pc_selected c && pc_independent_observer c && usable (pc_status c)) candidates.

Definition build_limitations (command : CommandMetadata) (config : ProbePlannerConfig)
    (independent_observer_selected : bool) : list string :=
  let surfaces := set_of_list (executable_tls_surfaces command) in
  [if bool_decide (surfaces = [])
   then "static executable inspection found no TLS marker; the active TLS surface must be learned after launch"
   else "executable TLS strings are planner hints, not proof that a surface is active or probe-compatible"]
  ++ (if existsb (str_contains "rustls") surfaces
      then ["rustls has no bundled plaintext probe; independent validation requires an explicitly qualified helper"]
      else [])
  ++ (if task_cgroup config
      then ["the selected cgroup boundary scopes task descendants but does not itself capture or block traffic"]
      else [])
  ++ (if task_netns config
      then ["proxy-only task network isolation blocks DNS and every non-loopback destination except the recorder proxy; non-model network dependencies are intentionally unavailable"]
      else [])
  ++ (if independent_observer_selected then []
      else ["no independent packet or privileged observer is selected; runtime/proxy agreement cannot rule out bypasses"])
  ++ ["protocol entries are intended preflight paths; observed protocols and active TLS libraries are finalized from run evidence"].

Definition build (command : CommandMetadata) (config : ProbePlannerConfig) (doctor : DoctorReport)
    : ProbePlan :=
  let candidates := build_candidates command config doctor in
  let independent := independent_selected candidates in
  mkProbePlan PROBE_PLAN_VERSION "preflight" (runtime command)
    (set_of_list (executable_tls_surfaces command))
    (if endpoint_proxy config
     then [if http2_prior_knowledge config then "http/2-prior-knowledge"
           else "http/1.1-or-negotiated-http/2"; "sse"; "websocket"]
     else ["unknown"])
    candidates
    (pc_id <$> List.filter pc_selected candidates)
    independent (cfg_helper_selection config)
    (build_limitations command config independent).

(** ** Validation *)

Definition plan_text (name value : string) : result string unit :=
  if str_is_empty value || (MAX_TEXT_BYTES <? str_len value) || str_has_control value
  then Err (name +:+ " is empty, too long, or contains controls") else Ok tt.

Definition plan_optional_text (name : string) (value : option string) : result string unit :=
  match value with Some value => plan_text name value | None => Ok tt end.

Definition plan_list (name : string) (values : list string) : result string unit :=
  if MAX_LIST_ITEMS <? nlen values then Err (name +:+ " list has too many items")
  else try_fold (fun _ value => plan_text name value) tt values.

Definition is_label_byte (b : byte) : bool :=
  is_ascii_alphanumeric b || beqb b x5f || beqb b x2d || beqb b x2e || beqb b x2f || beqb b x3a.

Definition policy_label (name value : string) : result string unit :=
  if str_is_empty value || (MAX_LABEL_BYTES <? str_len value) || negb (str_all is_label_byte value)
  then Err (name +:+ " is invalid") else Ok tt.

Definition validate_sha256 (value : string) (prefixed : bool) : result string unit :=
  value ← (if prefixed
           then ok_or (str_strip_prefix "sha256:" value) "target digest has no sha256 prefix"
           else Ok value);
  if negb (canonical_hash value) then Err "SHA-256 digest is not 64 lowercase hex characters"
  else Ok tt.

(** [Path::is_absolute] *)
Definition is_absolute (path : string) : bool := str_starts_with "/" path.

Definition known_kind (kind : string) : bool :=
  str_eqb kind "external" || str_eqb kind "ecapture" || str_eqb kind "agentsight".

(** [ProbeHelperEvidence::validate] *)
Definition validate_evidence (e : ProbeHelperEvidence) : result string unit :=
  if negb (str_eqb (he_mode e) "explicit" || str_eqb (he_mode e) "policy")
  then Err "probe helper selection mode is invalid"
  else
    policy_label "probe helper kind" (he_helper_kind e);;
    ensure (known_kind (he_helper_kind e)) "probe helper kind is unsupported";;
    (if str_eqb (he_mode e) "policy" then
       rule_id ← ok_or (he_rule_id e) "policy selection has no rule ID";
       policy_label "probe policy rule ID" rule_id;;
       ensure (match he_target_executable_sha256 e, he_matched_tls_surface e with
               | None, None => false | _, _ => true end)
         "policy selection has no persisted target fingerprint"
     else ensure (match he_rule_id e with None => true | Some _ => false end)
            "explicit probe selection unexpectedly has a rule ID");;
    validate_sha256 (he_helper_sha256 e) false;;
    match he_target_executable_sha256 e with
    | Some digest => validate_sha256 digest true | None => Ok tt end;;
    match he_matched_tls_surface e with
    | Some surface => policy_label "matched TLS surface" surface | None => Ok tt end;;
    ensure (is_absolute (he_helper_path e) && (str_len (he_helper_path e) <=? 4096))
      "probe helper evidence path is invalid".

Definition known_status (status : string) : bool :=
  bool_decide (status ∈ ["available"; "experimental"; "unknown"; "unavailable"; "not_applicable";
                         "not_selected"; "bridge_required"]).

(** The loop over the candidates: the identifiers seen, the selected ones and
    whether an independent observer is among them. *)
Definition validate_candidate (s : list string * list string * bool) (c : ProbeCandidate)
    : result string (list string * list string * bool) :=
  let '(ids, selected_candidates, computed_independent) := s in
  plan_text "probe candidate ID" (pc_id c);;
  plan_text "probe candidate status" (pc_status c);;
  plan_text "probe candidate reason" (pc_reason c);;
  ensure (known_status (pc_status c)) "probe candidate has an unsupported status";;
  ensure (negb (bool_decide (pc_id c ∈ ids))) "probe plan has duplicate candidate IDs";;
  Ok (set_insert (pc_id c) ids,
      if pc_selected c then set_insert (pc_id c) selected_candidates else selected_candidates,
      computed_independent
      || (pc_selected c && (pc_independent_observer c && usable (pc_status c)))).

Definition validate_plan (plan : ProbePlan) : result string unit :=
  if negb (pp_schema_version plan =? PROBE_PLAN_VERSION) || negb (str_eqb (pp_phase plan) "preflight")
  then Err "unsupported probe plan schema or phase"
  else
    plan_optional_text "probe plan runtime" (pp_runtime plan);;
    plan_list "probe plan TLS surface" (pp_executable_tls_surfaces plan);;
    plan_list "probe plan protocol" (pp_intended_protocols plan);;
    plan_list "probe plan selection" (pp_selected plan);;
    plan_list "probe plan limitation" (pp_limitations plan);;
    ensure (nlen (pp_candidates plan) <=? MAX_CANDIDATES) "probe plan has too many candidates";;
    '(_, selected_candidates, computed_independent) ←
      try_fold validate_candidate ([], [], false) (pp_candidates plan);
    let selected := set_of_list (pp_selected plan) in
    ensure ((nlen selected =? nlen (pp_selected plan)) && bool_decide (selected = selected_candidates))
      "probe plan selection summary is inconsistent";;
    ensure (Bool.eqb (pp_independent_observer_selected plan) computed_independent)
      "probe plan independent-observer summary is inconsistent";;
    match pp_helper_selection plan with
    | None => Ok tt
    | Some selection =>
        validate_evidence selection;;
        ensure (bool_decide ("privileged_probe_helper" ∈ selected_candidates))
          "probe helper evidence exists without a selected helper";;
        let kind := he_helper_kind selection in
        ensure (negb ((str_eqb kind "ecapture" || str_eqb kind "agentsight")
                      && negb (bool_decide ((if str_eqb kind "ecapture" then "ecapture_bridge"
                                             else "agentsight_bridge") ∈ selected_candidates))))
          "probe helper evidence disagrees with the concrete bridge selection"
    end.

(** ** Choosing a helper by policy *)

Record ProbeRule := mkProbeRule {
  pr_id : string;
  pr_rule_priority : N;
  pr_helper_kind : string;
  pr_helper_path : string;
  pr_helper_sha256 : string;
  pr_os : string;
  pr_architecture : string;
  pr_runtime : option string;
  pr_any_tls_surfaces : list string;
  pr_target_executable_sha256 : option string;
  pr_require_ebpf : bool;
  pr_require_task_cgroup : bool;
}.

Record ProbePolicy := mkProbePolicy {
  po_schema_version : N;
  po_rules : list ProbeRule;
}.

Definition validate_rule (ids : list string) (rule : ProbeRule) : result string (list string) :=
  policy_label "probe policy rule ID" (pr_id rule);;
  ensure (negb (bool_decide (pr_id rule ∈ ids))) "duplicate probe policy rule ID";;
  policy_label "probe helper kind" (pr_helper_kind rule);;
  ensure (known_kind (pr_helper_kind rule)) "probe policy helper kind is unsupported";;
  policy_label "probe policy OS" (pr_os rule);;
  policy_label "probe policy architecture" (pr_architecture rule);;
  match pr_runtime rule with
  | Some runtime => policy_label "probe policy runtime" runtime | None => Ok tt end;;
  ensure (nlen (pr_any_tls_surfaces rule) <=? MAX_RULE_LIST_ITEMS)
    "probe policy TLS surface list is too large";;
  try_fold (fun _ surface => policy_label "probe policy TLS surface" surface) tt
    (pr_any_tls_surfaces rule);;
  match pr_target_executable_sha256 rule with
  | Some digest => validate_sha256 digest true | None => Ok tt end;;
  validate_sha256 (pr_helper_sha256 rule) false;;
  ensure (is_absolute (pr_helper_path rule) && (str_len (pr_helper_path rule) <=? 4096))
    "probe policy helper path is invalid";;
  ensure (negb (bool_decide (pr_any_tls_surfaces rule = []))
          || match pr_target_executable_sha256 rule with Some _ => true | None => false end)
    "probe policy rule must bind a TLS surface or exact target executable digest";;
  Ok (set_insert (pr_id rule) ids).

Definition validate_policy (policy : ProbePolicy) : result string unit :=
  ensure (po_schema_version policy =? PROBE_POLICY_VERSION) "unsupported probe policy schema";;
  ensure (negb (bool_decide (po_rules policy = [])) && (nlen (po_rules policy) <=? MAX_RULES))
    "probe policy rule count is invalid";;
  _ ← try_fold validate_rule [] (po_rules policy);
  Ok tt.

Definition rule_matches (rule : ProbeRule) (command : CommandMetadata) (doctor : DoctorReport)
    (task_cgroup_selected : bool) : result string unit :=
  if negb (str_eqb (pr_os rule) (doctor_os doctor)) then Err "operating system does not match"
  else if negb (str_eqb (pr_architecture rule) (doctor_architecture doctor))
  then Err "architecture does not match"
  else if match pr_runtime rule with
          | Some r => negb (bool_decide (runtime command = Some r)) | None => false end
  then Err "runtime does not match"
  else if negb (bool_decide (pr_any_tls_surfaces rule = []))
          && negb (existsb (fun required =>
                     existsb (fun observed => str_eqb observed required)
                       (executable_tls_surfaces command)) (pr_any_tls_surfaces rule))
  then Err "none of the policy TLS fingerprints were observed"
  else if match pr_target_executable_sha256 rule with
          | Some d => negb (bool_decide (Some d = executable_sha256 command)) | None => false end
  then Err "target executable digest does not match"
  else if pr_require_task_cgroup rule && negb task_cgroup_selected
  then Err "task cgroup is required by policy"
  else if pr_require_ebpf rule
          && match capture_modes doctor !! "ebpf" with
             | Some m => negb (usable (mode_status m)) | None => true end
  then Err "eBPF prerequisites are unavailable"
  else Ok tt.

Definition matched_tls_surface (rule : ProbeRule) (command : CommandMetadata) : option string :=
  List.find (fun required => existsb (fun observed => str_eqb observed required)
                          (executable_tls_surfaces command)) (pr_any_tls_surfaces rule).

(** [sort_by_key(|rule| (rule.priority, rule.id))], a stable insertion sort. *)
Definition rule_le (a b : ProbeRule) : bool :=
  (pr_rule_priority a <? pr_rule_priority b)
  || ((pr_rule_priority a =? pr_rule_priority b)
      && match String.compare (pr_id a) (pr_id b) with Gt => false | _ => true end).

Fixpoint insert_rule (rule : ProbeRule) (rules : list ProbeRule) : list ProbeRule :=
  match rules with
  | [] => [rule]
  | r :: rules' => if rule_le rule r then rule :: rules else r :: insert_rule rule rules'
  end.

Definition sort_rules (rules : list ProbeRule) : list ProbeRule := foldr insert_rule [] rules.

(** [select_probe_helper] on a parsed policy; [helper] is what
    [validate_helper] and [helper_sha256] answer for a path: the canonical
    path and the digest of the file. *)
Definition select_probe_helper (policy : ProbePolicy) (command : CommandMetadata)
    (doctor : DoctorReport) (task_cgroup_selected : bool)
    (helper : string -> result string (string * string))
    : result string (ProbeRule * ProbeHelperEvidence) :=
  validate_policy policy;;
  let matches := sort_rules (List.filter (fun rule =>
    is_ok (rule_matches rule command doctor task_cgroup_selected)) (po_rules policy)) in
  match matches with
  | [] => Err "probe policy found no matching helper"
  | selected :: others =>
      ensure (match others with
              | next :: _ => negb (pr_rule_priority next =? pr_rule_priority selected)
              | [] => true end)
        "probe policy is ambiguous";;
      '(helper_path, digest) ← helper (pr_helper_path selected);
      ensure (str_eqb digest (pr_helper_sha256 selected)) "probe policy helper digest mismatch";;
      let evidence := mkProbeHelperEvidence "policy" (Some (pr_id selected))
        (pr_helper_kind selected) helper_path digest
        (match pr_target_executable_sha256 selected with
         | Some _ => executable_sha256 command | None => None end)
        (matched_tls_surface selected command) in
      validate_evidence evidence;;
      Ok (selected, evidence)
  end.

(** ** The policy's choice is unambiguous *)

Definition by_priority (a b : ProbeRule) : Prop := pr_rule_priority a <= pr_rule_priority b.

Lemma insert_rule_perm rule rules : insert_rule rule rules ≡ₚ rule :: rules.
Proof.
  induction rules as [|r rules IH]; [done|]. cbn. destruct (rule_le rule r); [done|].
  rewrite IH. apply Permutation_swap.
Qed.

Lemma sort_rules_perm rules : sort_rules rules ≡ₚ rules.
Proof.
  induction rules as [|r rules IH]; [done|]. unfold sort_rules in *. cbn.
  by rewrite insert_rule_perm, IH.
Qed.

Lemma rule_le_priority a b : if rule_le a b then by_priority a b else by_priority b a.
Proof.
  unfold rule_le, by_priority.
  destruct (N.ltb_spec (pr_rule_priority a) (pr_rule_priority b)); cbn; [lia|].
  destruct (N.eqb_spec (pr_rule_priority a) (pr_rule_priority b)); cbn; [|lia].
  case_match; lia.
Qed.

Lemma insert_rule_sorted rule rules :
  StronglySorted by_priority rules -> StronglySorted by_priority (insert_rule rule rules).
Proof.
  induction 1 as [|r rules Hs IH Hr]; cbn; [by repeat constructor|].
  pose proof (rule_le_priority rule r) as Hp. destruct (rule_le rule r).
  - constructor; [by constructor|]. constructor; [done|].
    eapply Forall_impl; [done|]. unfold by_priority in *. intros x Hx. lia.
  - constructor; [done|]. rewrite insert_rule_perm. by constructor.
Qed.

Lemma sort_rules_sorted rules : StronglySorted by_priority (sort_rules rules).
Proof. induction rules; [constructor|by apply insert_rule_sorted]. Qed.

(** C26: A helper is chosen by a policy only when one rule that matches the
    target has a priority before every other matching rule; the helper file
    then has the digest the rule pins, and the recorded evidence is valid and
    names that rule. *)
Theorem select_unambiguous policy command doctor cgroup helper rule evidence
    (H : select_probe_helper policy command doctor cgroup helper = Ok (rule, evidence)) :
  rule ∈ po_rules policy /\ rule_matches rule command doctor cgroup = Ok tt /\
  (forall other, other ∈ po_rules policy -> rule_matches other command doctor cgroup = Ok tt ->
     other <> rule -> pr_rule_priority rule < pr_rule_priority other) /\
  he_rule_id evidence = Some (pr_id rule) /\
  helper (pr_helper_path rule) = Ok (he_helper_path evidence, pr_helper_sha256 rule) /\
  validate_evidence evidence = Ok tt.
Proof.
  unfold select_probe_helper in H. apply bind_ok in H as ([] & _ & H). cbn zeta in H.
  set (matching := List.filter _ _) in H.
  assert (forall r, r ∈ matching <-> r ∈ po_rules policy /\ rule_matches r command doctor cgroup = Ok tt)
    as Hin.
  { intros r. unfold matching. rewrite !list_elem_of_In, filter_In.
    destruct (rule_matches r command doctor cgroup) as [[]|]; cbn; naive_solver. }
  pose proof (sort_rules_perm matching) as Hperm. pose proof (sort_rules_sorted matching) as Hsort.
  destruct (sort_rules matching) as [|selected others]; [done|].
  apply bind_ok in H as ([] & Hamb & H). apply bind_ok in H as ([path digest] & Hh & H).
  apply bind_ok in H as ([] & Hd & H). apply bind_ok in H as ([] & Hv & [= <- <-]).
  apply ensure_ok in Hamb. apply ensure_ok, str_eqb_true in Hd as ->.
  assert (selected ∈ matching) as Hsel by (rewrite <-Hperm; left).
  apply Hin in Hsel as [Hsel1 Hsel2]. split_and!; [done..| |done|done|done].
  intros other Ho Hm Hne.
  assert (other ∈ others) as Hother.
  { assert (other ∈ selected :: others) as Hc by (rewrite Hperm; by apply Hin).
    by apply elem_of_cons in Hc as [|]. }
  apply StronglySorted_inv in Hsort as [Hs Hall].
  destruct others as [|next rest]; [by apply elem_of_nil in Hother|].
  apply negb_true_iff, N.eqb_neq in Hamb.
  assert (by_priority selected next) by (by apply Forall_cons in Hall as [? _]).
  assert (by_priority next other); [|unfold by_priority in *; lia].
  apply elem_of_cons in Hother as [->|Hother]; [unfold by_priority; lia|].
  apply StronglySorted_inv in Hs as [_ Hs]. by eapply Forall_forall in Hs.
Qed.

(** ** Every plan that is built validates *)

Lemma plan_text_ok name value u : plan_text name value = Ok u <-> text_ok MAX_TEXT_BYTES value.
Proof.
  unfold plan_text, text_ok, str_is_empty. destruct u. case_bool_decide; [naive_solver|]. cbn.
  destruct (N.ltb_spec MAX_TEXT_BYTES (str_len value)); cbn; [naive_solver lia|].
  destruct (str_has_control value); naive_solver.
Qed.

Lemma plan_list_ok name values :
  nlen values <= MAX_LIST_ITEMS -> Forall (text_ok MAX_TEXT_BYTES) values ->
  plan_list name values = Ok tt.
Proof.
  intros Hn Hf. unfold plan_list. rewrite (proj2 (N.ltb_ge _ _)) by done. clear Hn.
  induction Hf as [|v values Hv _ IH]; [done|]. cbn.
  by rewrite (proj2 (plan_text_ok name v tt) Hv).
Qed.

Record candidate_ok (c : ProbeCandidate) : Prop := {
  co_id : text_ok MAX_TEXT_BYTES (pc_id c);
  co_status : known_status (pc_status c) = true;
  co_reason : text_ok MAX_TEXT_BYTES (pc_reason c);
}.

Lemma text_literal s :
  negb (str_is_empty s) && (str_len s <=? MAX_TEXT_BYTES) && negb (str_has_control s) = true ->
  text_ok MAX_TEXT_BYTES s.
Proof.
  unfold str_is_empty, text_ok. rewrite !andb_true_iff, !negb_true_iff, bool_decide_eq_false, N.leb_le.
  tauto.
Qed.

Lemma known_status_text s : known_status s = true -> text_ok MAX_TEXT_BYTES s.
Proof.
  unfold known_status. rewrite bool_decide_eq_true, !elem_of_cons, elem_of_nil.
  intros H. repeat destruct H as [->|H]; try done; by apply text_literal.
Qed.

(** The loop computes the sets the plan is compared with. *)
Lemma validate_candidates_fold cs : NoDup (pc_id <$> cs) -> Forall candidate_ok cs ->
  try_fold validate_candidate ([], [], false) cs =
  Ok (set_of_list (pc_id <$> cs), set_of_list (pc_id <$> List.filter pc_selected cs),
      independent_selected cs).
Proof.
  induction cs as [|c cs IH] using rev_ind; [done|]. rewrite fmap_app, NoDup_app, Forall_app.
  intros (Hnd & Hc & _) [Hcs [Hok _]%Forall_cons]. rewrite try_fold_app, IH by done.
  cbn [mbind result_bind try_fold validate_candidate]. destruct Hok as [H1 H2 H3].
  rewrite (proj2 (plan_text_ok _ _ tt) H1), (proj2 (plan_text_ok _ _ tt) H3),
    (proj2 (plan_text_ok _ _ tt) (known_status_text _ H2)), H2.
  rewrite (bool_decide_eq_false_2 (pc_id c ∈ _)).
  2: { rewrite set_of_list_elem. intros Hin. by apply (Hc _ Hin), list_elem_of_singleton. }
  cbn [mbind result_bind ensure negb]. f_equal. unfold independent_selected.
  rewrite List.filter_app, existsb_app. cbn [List.filter fmap list_fmap existsb].
  rewrite set_of_list_snoc, orb_false_r, andb_assoc.
  destruct (pc_selected c); rewrite ?app_nil_r; [|done].
  by rewrite fmap_app, (set_of_list_snoc (pc_id <$> List.filter pc_selected cs) (pc_id c)).
Qed.

(** What the planner is given: texts within the limits, modes the doctor can
    report, and helper evidence only with a selected helper. *)
Record plan_inputs (command : CommandMetadata) (config : ProbePlannerConfig) (doctor : DoctorReport)
    : Prop := {
  pi_runtime : forall r, runtime command = Some r -> text_ok MAX_TEXT_BYTES r;
  pi_surfaces : Forall (text_ok MAX_TEXT_BYTES) (executable_tls_surfaces command);
  pi_surface_count : nlen (set_of_list (executable_tls_surfaces command)) <= MAX_LIST_ITEMS;
  pi_modes : forall name m, capture_modes doctor !! name = Some m ->
    known_status (mode_status m) = true /\ text_ok MAX_TEXT_BYTES (mode_reason m);
  pi_helper : forall s, cfg_helper_selection config = Some s ->
    privileged_helper config = true /\ validate_evidence s = Ok tt;
}.

Lemma graphic_text s : str_all is_graphic s = true -> s <> "" -> str_len s <= MAX_TEXT_BYTES ->
  text_ok MAX_TEXT_BYTES s.
Proof. intros H1 H2 H3. split_and!; [done..|]. by apply graphic_no_control. Qed.

Lemma str_all_app p s t : str_all p (s +:+ t) = str_all p s && str_all p t.
Proof. unfold str_all. rewrite as_bytes_app. apply forallb_app. Qed.

Lemma str_len_app s t : str_len (s +:+ t) = str_len s + str_len t.
Proof. unfold str_len. by rewrite as_bytes_app, nlen_app. Qed.

Lemma str_all_impl (p q : byte -> bool) s :
  (forall b, p b = true -> q b = true) -> str_all p s = true -> str_all q s = true.
Proof.
  unfold str_all. intros Hpq. induction (as_bytes s) as [|b l IH]; cbn; [done|].
  rewrite !andb_true_iff. naive_solver.
Qed.

Lemma policy_label_ok name value :
  policy_label name value = Ok tt -> str_all is_graphic value = true /\ str_len value <= MAX_LABEL_BYTES.
Proof.
  unfold policy_label. intros H. destruct (str_is_empty value); [done|].
  destruct (N.ltb_spec MAX_LABEL_BYTES (str_len value)); [done|].
  destruct (str_all is_label_byte value) eqn:E; [|done]. split; [|done].
  revert E. apply str_all_impl. intros b. by destruct b; vm_compute.
Qed.

Lemma evidence_reason_text config s :
  cfg_helper_selection config = Some s -> validate_evidence s = Ok tt ->
  text_ok MAX_TEXT_BYTES (helper_reason config).
Proof.
  intros Hs Hv. unfold helper_reason. rewrite Hs. unfold validate_evidence in Hv.
  destruct (str_eqb (he_mode s) "explicit" || str_eqb (he_mode s) "policy") eqn:Hmode; [|done].
  assert (str_all is_graphic (he_mode s) = true /\ 0 < str_len (he_mode s) <= 8) as [Hm1 Hm2].
  { apply orb_true_iff in Hmode as [Hmode|Hmode]; apply str_eqb_true in Hmode as ->; done. }
  cbn [negb] in Hv.
  apply bind_ok in Hv as ([] & Hk & Hv). apply bind_ok in Hv as ([] & _ & Hv).
  apply bind_ok in Hv as ([] & Hrule & Hv). apply bind_ok in Hv as ([] & Hsha & _).
  apply policy_label_ok in Hk as [Hk1 Hk2].
  assert (str_all is_graphic (he_helper_sha256 s) = true /\ str_len (he_helper_sha256 s) = 64)
    as [Hh1 Hh2].
  { unfold validate_sha256 in Hsha. cbn [mbind result_bind] in Hsha.
    destruct (canonical_hash (he_helper_sha256 s)) eqn:E; [|done].
    unfold canonical_hash in E. apply andb_true_iff in E as [E1 E2]. apply N.eqb_eq in E1.
    split; [|done]. revert E2. apply str_all_impl. intros b. by destruct b; vm_compute. }
  assert (let r := match he_rule_id s with Some rule => " by rule " +:+ rule | None => "" end in
          str_all is_graphic r = true /\ str_len r <= 137) as [Hr1 Hr2].
  { cbn zeta. destruct (str_eqb (he_mode s) "policy"), (he_rule_id s) as [rule|]; try done.
    apply bind_ok in Hrule as (r & [= <-] & Hrule). apply bind_ok in Hrule as ([] & Hl & _).
    apply policy_label_ok in Hl as [Hl1 Hl2]. rewrite str_all_app, str_len_app, Hl1.
    split; [done|]. unfold MAX_LABEL_BYTES in Hl2. change (str_len " by rule ") with 9. lia. }
  cbn zeta in Hr1, Hr2. apply graphic_text.
  - by rewrite !str_all_app, Hm1, Hk1, Hr1, Hh1.
  - intros He. apply (f_equal str_len) in He. rewrite !str_len_app in He.
    change (str_len "") with 0 in He. lia.
  - rewrite !str_len_app. unfold MAX_LABEL_BYTES, MAX_TEXT_BYTES in *.
    change (str_len " helper ") with 8. change (str_len " selected") with 9.
    change (str_len " with executable SHA-256 ") with 25. lia.
Qed.

Lemma helper_reason_text command config doctor : plan_inputs command config doctor ->
  text_ok MAX_TEXT_BYTES (helper_reason config).
Proof.
  intros H. destruct (cfg_helper_selection config) as [s|] eqn:E.
  - eapply evidence_reason_text; [done|]. by destruct (pi_helper _ _ _ H s E).
  - unfold helper_reason. rewrite E. destruct (privileged_helper config); by apply text_literal.
Qed.

Ltac candidate :=
  constructor; [split; cbn [pc_id pc_status pc_reason];
    repeat case_match; try done; by apply text_literal|].

Lemma build_candidates_ok command config doctor : plan_inputs command config doctor ->
  Forall candidate_ok (build_candidates command config doctor).
Proof.
  intros H. pose proof (helper_reason_text _ _ _ H) as Hreason.
  assert (forall name, match capture_modes doctor !! name with
    | Some m => known_status (mode_status m) = true /\ text_ok MAX_TEXT_BYTES (mode_reason m)
    | None => True end) as Hmodes.
  { intros name. destruct (capture_modes doctor !! name) eqn:E; [|done]. by eapply pi_modes. }
  pose proof (Hmodes "pcap") as Hpcap. pose proof (Hmodes "task_netns") as Hnetns. clear Hmodes H.
  unfold build_candidates. cbn zeta.
  generalize dependent (capture_modes doctor !! "pcap").
  generalize dependent (capture_modes doctor !! "task_netns"). intros netns Hnetns pcap Hpcap.
  generalize dependent (helper_reason config). intros reason Hreason.
  do 4 candidate.
  constructor; [split; cbn [pc_id pc_status pc_reason];
    [by apply text_literal|destruct (_ && _), pcap as [m|]; tauto|]|].
  { destruct (task_netns config); [by apply text_literal|].
    destruct (endpoint_proxy config); [|by apply text_literal].
    destruct pcap as [m|]; [tauto|by apply text_literal]. }
  constructor; [split; cbn [pc_id pc_status pc_reason];
    [by apply text_literal|destruct netns as [m|]; [tauto|done]|
     destruct netns as [m|]; [tauto|by apply text_literal]]|].
  do 4 candidate. constructor.
Qed.

Lemma build_limitations_ok command config independent :
  plan_list "probe plan limitation" (build_limitations command config independent) = Ok tt.
Proof.
  unfold build_limitations. cbn zeta.
  destruct (bool_decide _), (existsb _ _), (task_cgroup config), (task_netns config), independent;
    vm_compute; reflexivity.
Qed.

Lemma build_ids command config doctor :
  pc_id <$> build_candidates command config doctor =
  ["endpoint_proxy"; "python_runtime"; "node_runtime"; "nss_tls_keylog"; "pcap_upstream_snapshot";
   "pcap_task_netns_proxy_only"; "transparent_task_netns_proxy"; "privileged_probe_helper";
   "ecapture_bridge"; "agentsight_bridge"].
Proof. done. Qed.

Lemma selected_sublist cs : pc_id <$> List.filter pc_selected cs `sublist_of` pc_id <$> cs.
Proof.
  induction cs as [|c cs IH]; [done|]. cbn [List.filter]. destruct (pc_selected c).
  - by apply sublist_skip.
  - by apply sublist_cons.
Qed.

(** The bridge and the helper are selected together with the evidence. *)
Lemma selected_elem cs c : c ∈ cs -> pc_selected c = true ->
  pc_id c ∈ set_of_list (pc_id <$> List.filter pc_selected cs).
Proof.
  intros Hc Hs. apply set_of_list_elem, list_elem_of_fmap. exists c. split; [done|].
  by apply list_elem_of_In, filter_In; rewrite <-list_elem_of_In.
Qed.

Lemma build_evidence_ok command config doctor s : plan_inputs command config doctor ->
  cfg_helper_selection config = Some s ->
  let selected := set_of_list (pc_id <$> List.filter pc_selected
                                 (build_candidates command config doctor)) in
  "privileged_probe_helper" ∈ selected /\
  (he_helper_kind s = "ecapture" -> "ecapture_bridge" ∈ selected) /\
  (he_helper_kind s = "agentsight" -> "agentsight_bridge" ∈ selected).
Proof.
  intros H Hs. destruct (pi_helper _ _ _ H s Hs) as [Hp _].
  assert (forall i c, build_candidates command config doctor !! i = Some c ->
    pc_selected c = true ->
    pc_id c ∈ set_of_list (pc_id <$> List.filter pc_selected (build_candidates command config doctor)))
    as Hsel.
  { intros i c Hc. apply selected_elem. by eapply list_elem_of_lookup_2. }
  cbn zeta. split_and!.
  - pose proof (Hsel 7%nat _ eq_refl Hp) as Hx. exact Hx.
  - intros Hk. assert (kind_selected config "ecapture" = true) as Hc
      by (unfold kind_selected; by rewrite Hs, Hk).
    pose proof (Hsel 8%nat _ eq_refl Hc) as Hx. exact Hx.
  - intros Hk. assert (kind_selected config "agentsight" = true) as Hc
      by (unfold kind_selected; by rewrite Hs, Hk).
    pose proof (Hsel 9%nat _ eq_refl Hc) as Hx. exact Hx.
Qed.

Lemma build_lists_ok command config doctor : plan_inputs command config doctor ->
  plan_list "probe plan TLS surface" (set_of_list (executable_tls_surfaces command)) = Ok tt /\
  plan_list "probe plan protocol" (pp_intended_protocols (build command config doctor)) = Ok tt /\
  plan_list "probe plan selection"
    (pc_id <$> List.filter pc_selected (build_candidates command config doctor)) = Ok tt.
Proof.
  intros H. split_and!.
  - apply plan_list_ok; [by apply H|]. apply Forall_forall. intros x Hx.
    rewrite set_of_list_elem in Hx. revert x Hx. apply Forall_forall, H.
  - cbn [pp_intended_protocols build].
    destruct (endpoint_proxy config), (http2_prior_knowledge config); vm_compute; reflexivity.
  - pose proof (build_ids command config doctor) as Hids.
    pose proof (selected_sublist (build_candidates command config doctor)) as Hsub.
    apply plan_list_ok.
    + apply sublist_length in Hsub. rewrite Hids in Hsub. unfold nlen, MAX_LIST_ITEMS.
      cbn [length] in Hsub. lia.
    + apply Forall_forall. intros x Hx. eapply elem_of_sublist in Hx; [|done].
      rewrite Hids in Hx. revert x Hx. apply Forall_forall.
      repeat constructor; by apply text_literal.
Qed.

(** C25: Every plan the planner builds, from any command, configuration and
    doctor report within the text limits, passes the validation that is run
    when the manifest is read back: its selection and independent-observer
    summaries agree with its candidates. *)
Theorem build_valid command config doctor (H : plan_inputs command config doctor) :
  validate_plan (build command config doctor) = Ok tt.
Proof.
  unfold validate_plan, build.
  cbn [pp_schema_version pp_phase pp_runtime pp_executable_tls_surfaces pp_intended_protocols
       pp_selected pp_limitations pp_candidates pp_independent_observer_selected pp_helper_selection].
  cbn [negb N.eqb Pos.eqb PROBE_PLAN_VERSION orb].
  change (str_eqb "preflight" "preflight") with true. cbn [negb].
  assert (plan_optional_text "probe plan runtime" (runtime command) = Ok tt) as ->.
  { unfold plan_optional_text. destruct (runtime command) eqn:E; [|done].
    by eapply plan_text_ok, pi_runtime. }
  pose proof (build_ids command config doctor) as Hids.
  pose proof (selected_sublist (build_candidates command config doctor)) as Hsub.
  assert (NoDup (pc_id <$> build_candidates command config doctor)) as Hnd
    by (rewrite Hids; eapply bool_decide_unpack; vm_compute; exact I).
  destruct (build_lists_ok _ _ _ H) as (-> & Hprot & ->).
  cbn [pp_intended_protocols build] in Hprot. rewrite Hprot.
  cbn [mbind result_bind]. rewrite build_limitations_ok. cbn [mbind result_bind].
  rewrite (validate_candidates_fold _ Hnd (build_candidates_ok _ _ _ H)).
  replace (nlen (build_candidates command config doctor)) with 10 by done.
  cbn [N.leb N.compare Pos.compare Pos.compare_cont MAX_CANDIDATES ensure mbind result_bind].
  unfold nlen. rewrite set_of_list_length by (by eapply sublist_NoDup).
  rewrite N.eqb_refl, (bool_decide_eq_true_2 (set_of_list _ = set_of_list _) eq_refl), eqb_reflx. cbn [andb ensure mbind result_bind].
  destruct (cfg_helper_selection config) as [s|] eqn:Hs; [|done].
  destruct (build_evidence_ok _ _ _ _ H Hs) as (H1 & H2 & H3).
  destruct (pi_helper _ _ _ H s Hs) as [_ ->]. cbn [mbind result_bind].
  rewrite (bool_decide_eq_true_2 _ H1). cbn [ensure mbind result_bind].
  destruct (str_eqb (he_helper_kind s) "ecapture") eqn:K1; cbn [orb].
  { apply str_eqb_true in K1. by rewrite (bool_decide_eq_true_2 _ (H2 K1)). }
  destruct (str_eqb (he_helper_kind s) "agentsight") eqn:K2; [|done].
  apply str_eqb_true in K2. by rewrite (bool_decide_eq_true_2 _ (H3 K2)).
Qed.

(** ** Witnesses *)

Module ProbeExamples.

Definition digest : string := "0123456789abcdef0123456789abcdef0123456789abcdef0123456789abcdef".
Definition command : CommandMetadata :=
  mkCommandMetadata ["agent"] "/tmp" None (Some ("sha256:" +:+ digest)) None None (Some "python")
    ["openssl"; "rustls"; "openssl"] [].
Definition doctor : DoctorReport :=
  mkDoctorReport "linux" "x86_64" {["ecapture" := true]}
    {["ebpf" := mkCaptureModeReport "available" "root"]}.
Definition rule (id : string) (priority : N) : ProbeRule :=
  mkProbeRule id priority "ecapture" "/opt/bridge" digest "linux" "x86_64" None ["openssl"] None
    true false.
Definition policy : ProbePolicy := mkProbePolicy 1 [rule "late" 20; rule "early" 10].
Definition evidence : ProbeHelperEvidence :=
  mkProbeHelperEvidence "policy" (Some "early") "ecapture" "/opt/bridge" digest None (Some "openssl").
Definition config : ProbePlannerConfig :=
  mkProbePlannerConfig true false false true true false true (Some evidence) false false false.

Definition file (path : string) : result string (string * string) := Ok (path, digest).

Lemma select_unambiguous_witness :
  rule "early" 10 ∈ po_rules policy /\
  rule_matches (rule "early" 10) command doctor false = Ok tt /\
  (forall other, other ∈ po_rules policy -> rule_matches other command doctor false = Ok tt ->
     other <> rule "early" 10 -> pr_rule_priority (rule "early" 10) < pr_rule_priority other) /\
  he_rule_id evidence = Some (pr_id (rule "early" 10)) /\
  file (pr_helper_path (rule "early" 10))
    = Ok (he_helper_path evidence, pr_helper_sha256 (rule "early" 10)) /\
  validate_evidence evidence = Ok tt.
Proof.
  apply (select_unambiguous policy command doctor false file).
  vm_compute. reflexivity.
Defined.

Lemma inputs : plan_inputs command config doctor.
Proof.
  split.
  - intros r [= <-]. by apply text_literal.
  - repeat constructor; by apply text_literal.
  - vm_compute. discriminate.
  - intros name m Hm. cbn [capture_modes doctor] in Hm.
    apply lookup_singleton_Some in Hm as [_ <-]. split; [done|by apply text_literal].
  - intros s [= <-]. split; [done|vm_compute; reflexivity].
Qed.

Lemma build_valid_witness : validate_plan (build command config doctor) = Ok tt.
Proof. exact (build_valid command config doctor inputs). Defined.
End ProbeExamples.
