(* ===== verification/Policy.v ===== *)
(** * src/policy.rs: the capture policy

    Which bodies are kept, and what of headers and JSON payloads reaches the
    event log.  [JsonSanitizer] is explicit state passing: [sanitize] takes
    the sanitizer's mutable fields and returns them with the output. *)

From Stdlib Require Import Strings.Byte Sorted.
From S2P Require Import Prelude RustStd External Json Input Model.
From stdpp Require Import pretty.
From stdpp Require Import options.
Local Open Scope N_scope.

Definition ALWAYS_SECRET_HEADERS : list string :=
  ["authorization"; "authentication-info"; "proxy-authorization";
   "proxy-authentication-info"; "cookie"; "set-cookie"; "location"; "content-location";
   "link"; "refresh"; "x-api-key"; "x-goog-api-key"; "x-amz-security-token";
   "x-auth-token"; "x-access-token"; "api-key"; "authentication";
   "grpc-metadata-authorization"].

Definition ALWAYS_SECRET_JSON_KEYS : list string :=
  ["authorization"; "proxy_authorization"; "proxy-authorization"; "cookie"; "set_cookie";
   "set-cookie"; "x_api_key"; "x-api-key"; "x_google_api_key"; "x_goog_api_key";
   "x-goog-api-key"; "x_amz_security_token"; "x-amz-security-token"; "api_key"; "api-key";
   "access_token"; "refresh_token"; "client_secret"; "password"].

Definition MAX_SANITIZED_JSON_DEPTH : N := 64.
Definition MAX_SANITIZED_JSON_NODES : N := 100000.
Definition MAX_SANITIZED_CONTAINER_ITEMS : N := 10000.
Definition MAX_RECORDED_REDACTION_FIELDS : N := 1024.
Definition JSON_TRUNCATION_MARKER : string := "[IOREC_CAPTURE_TRUNCATED]".
Definition MAX_CAPTURE_BODY_BYTES : N := 64 * 1024 * 1024.
Definition MAX_ALLOWED_PATHS : N := 1024.
Definition MAX_ALLOWED_PATH_BYTES : N := 2048.
Definition MAX_REDACT_HEADERS : N := 1024.

Inductive BodyCaptureMode := Full | MetadataOnly.
#[export] Instance BodyCaptureMode_eq_dec : EqDecision BodyCaptureMode.
Proof. solve_decision. Defined.

Inductive EventLogFormat := Jsonl | ZstdBlocks.
#[export] Instance EventLogFormat_eq_dec : EqDecision EventLogFormat.
Proof. solve_decision. Defined.

Record CapturePolicy := mkCapturePolicy {
  cp_name : string;
  body_mode : BodyCaptureMode;
  event_log_format : EventLogFormat;
  max_event_storage_bytes : N;
  max_blob_bytes : N;
  max_run_blob_storage_bytes : N;
  allowed_paths : list string;
  redact_headers : list string;
}.

Definition default_max_event_storage_bytes : N := 4 * 1024 * 1024 * 1024.
Definition default_max_run_blob_storage_bytes : N := 2 * 1024 * 1024 * 1024.

Definition default_policy : CapturePolicy :=
  mkCapturePolicy "default" Full Jsonl default_max_event_storage_bytes (64 * 1024 * 1024)
    default_max_run_blob_storage_bytes []
    (foldr set_insert [] ALWAYS_SECRET_HEADERS).

(** ** The http crate *)

Class Http := {
  (** [HeaderName::from_bytes(..).is_ok()] *)
  header_name_valid : bytes -> bool;
  (** [HeaderValue::to_str] *)
  header_value_to_str : bytes -> option string;
}.

(** A [HeaderMap] by its distinct names in iteration order, each with all of
    its values. *)
Definition HeaderMap := list (string * list bytes).

(** ** Secret names *)

Definition is_secret_header (name : string) : bool :=
  bool_decide (name ∈ ALWAYS_SECRET_HEADERS)
  || str_ends_with "-api-key" name
  || str_ends_with "-auth-token" name
  || str_ends_with "-access-token" name
  || str_ends_with "-security-token" name
  || str_ends_with "-client-secret" name
  || str_ends_with "-credential" name
  || str_ends_with "-password" name
  || str_ends_with "-signature" name.

(** [str::replace('-', "_")] *)
Definition replace_dash (s : string) : string :=
  of_bytes ((fun b => if beqb b x2d then x5f else b) <$> as_bytes s).

Definition is_secret_json_key (key : string) : bool :=
  let lowercase := to_ascii_lowercase key in
  let normalized := replace_dash lowercase in
  bool_decide (lowercase ∈ ALWAYS_SECRET_JSON_KEYS)
  || bool_decide (normalized ∈ ["token"; "secret"; "password"; "apikey"; "api_key"])
  || str_ends_with "_access_token" normalized
  || str_ends_with "_refresh_token" normalized
  || str_ends_with "_security_token" normalized
  || str_ends_with "_client_secret" normalized
  || str_ends_with "_password" normalized
  || str_ends_with "_api_key" normalized
  || str_ends_with "apikey" normalized.

Section Policy.
Context {dig : Digest} {hx : Hex} {http : Http}.

(** ** [CapturePolicy] *)

Definition policy_validate (p : CapturePolicy) : result string unit :=
  if str_is_empty (cp_name p) || (128 <? str_len (cp_name p)) || str_has_control (cp_name p)
  then Err "capture policy name is invalid"
  else if MAX_CAPTURE_BODY_BYTES <? max_blob_bytes p
  then Err "capture body limit exceeds the writer limit"
  else if MAX_ALLOWED_PATHS <? nlen (allowed_paths p)
  then Err "capture policy has too many allowed path prefixes"
  else
    try_fold (fun _ path =>
      if negb (str_starts_with "/" path) || (MAX_ALLOWED_PATH_BYTES <? str_len path)
         || str_has_control path
      then Err "capture policy contains an invalid allowed path prefix" else Ok tt)
      tt (allowed_paths p);;
    if MAX_REDACT_HEADERS <? nlen (redact_headers p)
    then Err "capture policy has too many redacted headers"
    else
      try_fold (fun _ name =>
        if str_any is_ascii_uppercase name || negb (header_name_valid (as_bytes name))
        then Err "capture policy contains an invalid header name" else Ok tt)
        tt (redact_headers p).

Definition permits_body (p : CapturePolicy) (path : string) : bool :=
  bool_decide (body_mode p = Full)
  && (bool_decide (allowed_paths p = [])
      || existsb (fun prefix => str_starts_with prefix path) (allowed_paths p)).

Definition safe_value (value : bytes) : Value :=
  JString (match header_value_to_str value with Some text => text | None => "[NON_UTF8]" end).

Definition header_is_secret (p : CapturePolicy) (canonical : string) : bool :=
  bool_decide (canonical ∈ redact_headers p) || is_secret_header canonical.

(** One iteration of the loop over the header names. *)
Definition sanitize_header (p : CapturePolicy)
    (state : list (string * Value) * list string) (header : string * list bytes)
    : list (string * Value) * list string :=
  let '(output, redacted) := state in
  let '(name, values) := header in
  let canonical := to_ascii_lowercase name in
  if header_is_secret p canonical then
    (map_insert canonical (JArray [JString "[REDACTED]"]) output,
     set_insert canonical redacted)
  else (map_insert canonical (JArray (safe_value <$> values)) output, redacted).

Definition sanitize_headers (p : CapturePolicy) (headers : HeaderMap) : Value * RedactionRecord :=
  let '(output, redacted) := foldl (sanitize_header p) ([], []) headers in
  let output := if map_contains_key "host" output then output
                else map_insert "host" (JArray []) output in
  (JObject output, mkRedactionRecord (cp_name p) redacted []).

(** ** [JsonSanitizer] *)

Record JsonSanitizerLimits := mkLimits {
  lim_depth : N;
  lim_nodes : N;
  lim_container_items : N;
  lim_redaction_fields : N;
}.

Record JsonSanitizer := mkSanitizer {
  visited : N;
  fields : list string;
  truncated : bool;
}.

Definition set_truncated (s : JsonSanitizer) : JsonSanitizer :=
  mkSanitizer (visited s) (fields s) true.

(** [self.visited = self.visited.saturating_add(1)] *)
Definition visit (s : JsonSanitizer) : JsonSanitizer :=
  mkSanitizer (sat_add (visited s) 1) (fields s) (truncated s).

Definition marker : Value := JString JSON_TRUNCATION_MARKER.

Definition json_child_path (path key : string) : string :=
  bounded_string (path +:+ "." +:+ bounded_string key).

Definition json_index_path (path : string) (index : N) : string :=
  bounded_string (path +:+ "[" +:+ pretty index +:+ "]").

(** Recording a redacted field, or the fact that it could not be listed. *)
Definition record_field (lim : JsonSanitizerLimits) (s : JsonSanitizer) (path : string)
    : JsonSanitizer :=
  if nlen (fields s) <? lim_redaction_fields lim
  then mkSanitizer (visited s) (fields s ++ [path]) (truncated s)
  else set_truncated s.

(** The loop over the members of an object; [rec] is the recursive call at
    the next depth. *)
Definition sanitize_members (lim : JsonSanitizerLimits)
    (rec : JsonSanitizer -> Value -> string -> Value * JsonSanitizer) (path : string) :=
  fix go (s : JsonSanitizer) (index : N) (output object : list (string * Value)) {struct object}
      : list (string * Value) * JsonSanitizer :=
    match object with
    | [] => (output, s)
    | (key, v) :: object' =>
        if lim_container_items lim <=? index then (output, set_truncated s)
        else
          let child_path := json_child_path path key in
          if is_secret_json_key key then
            go (record_field lim s child_path) (index + 1)
               (map_insert key (JString "[REDACTED]") output) object'
          else
            let '(w, s) := rec s v child_path in
            go s (index + 1) (map_insert key w output) object'
    end.

(** The loop over the elements of an array. *)
Definition sanitize_elements (lim : JsonSanitizerLimits)
    (rec : JsonSanitizer -> Value -> string -> Value * JsonSanitizer) (path : string) :=
  fix go (s : JsonSanitizer) (index : N) (output values : list Value) {struct values}
      : list Value * JsonSanitizer :=
    match values with
    | [] => (output, s)
    | v :: values' =>
        if lim_container_items lim <=? index then (output, set_truncated s)
        else
          let '(w, s) := rec s v (json_index_path path index) in
          go s (index + 1) (output ++ [w]) values'
    end.

Fixpoint sanitize (lim : JsonSanitizerLimits) (depth : N) (s : JsonSanitizer) (v : Value)
    (path : string) {struct v} : Value * JsonSanitizer :=
  if lim_nodes lim <=? visited s then (marker, set_truncated s)
  else
    let s := visit s in
    match v with
    | JObject object =>
        if lim_depth lim <=? depth then (marker, set_truncated s)
        else
          let '(output, s) :=
            sanitize_members lim (sanitize lim (depth + 1)) path s 0 [] object in
          (JObject output, s)
    | JArray values =>
        if lim_depth lim <=? depth then (marker, set_truncated s)
        else
          let '(output, s) :=
            sanitize_elements lim (sanitize lim (depth + 1)) path s 0 [] values in
          (JArray output, s)
    | scalar => (scalar, s)
    end.

Definition capture_limits : JsonSanitizerLimits :=
  mkLimits MAX_SANITIZED_JSON_DEPTH MAX_SANITIZED_JSON_NODES
    MAX_SANITIZED_CONTAINER_ITEMS MAX_RECORDED_REDACTION_FIELDS.

Definition sanitize_json_owned (p : CapturePolicy) (v : Value) : Value * RedactionRecord :=
  let '(output, s) := sanitize capture_limits 0 (mkSanitizer 0 [] false) v "$" in
  (output,
   mkRedactionRecord (cp_name p) (fields s)
     (if truncated s then ["json_payload_safety_limit"] else [])).

Definition sanitize_json (p : CapturePolicy) (v : Value) : Value * RedactionRecord :=
  sanitize_json_owned p v.

(** ** Redaction is complete and the output bounded *)

Definition is_scalar (v : Value) : bool :=
  match v with JArray _ | JObject _ => false | _ => true end.

(** [safe d v]: at most [d] containers are nested in [v], none has more than
    the allowed number of items, and every member under a secret key is the
    redaction marker. *)
Inductive safe (items : N) : N -> Value -> Prop :=
| safe_scalar d v : is_scalar v = true -> safe items d v
| safe_array d l : nlen l <= items -> Forall (safe items d) l -> safe items (d + 1) (JArray l)
| safe_object d m :
    nlen m <= items ->
    Forall (fun kv =>
      (is_secret_json_key (fst kv) = true /\ snd kv = JString "[REDACTED]") \/
      (is_secret_json_key (fst kv) = false /\ safe items d (snd kv))) m ->
    safe items (d + 1) (JObject m).

Lemma nlen_map_insert {V} k (v : V) m : nlen (map_insert k v m) <= nlen m + 1.
Proof. unfold nlen. pose proof (map_insert_length k v m). lia. Qed.

Lemma sanitize_elements_safe lim d path values rec :
  Forall (fun v => forall s p, safe (lim_container_items lim) d (fst (rec s v p))) values ->
  forall s index out, nlen out <= index <= lim_container_items lim ->
  Forall (safe (lim_container_items lim) d) out ->
  let r := fst (sanitize_elements lim rec path s index out values) in
  nlen r <= lim_container_items lim /\ Forall (safe (lim_container_items lim) d) r.
Proof.
  induction 1 as [|v values Hv Hvs IH]; cbn; intros s index out Hi Hout; [split; [lia|done]|].
  destruct (N.leb_spec (lim_container_items lim) index); cbn; [split; [lia|done]|].
  specialize (Hv s (json_index_path path index)). destruct (rec s v _) as [w s'].
  apply IH; [nlia|]. apply Forall_app; split; [done|]. by constructor.
Qed.

Lemma sanitize_members_safe lim d path object rec :
  Forall (fun kv => forall s p, safe (lim_container_items lim) d (fst (rec s (snd kv) p))) object ->
  forall s index out, nlen out <= index <= lim_container_items lim ->
  let P kv := (is_secret_json_key (fst kv) = true /\ snd kv = JString "[REDACTED]") \/
              (is_secret_json_key (fst kv) = false /\ safe (lim_container_items lim) d (snd kv)) in
  Forall P out ->
  let r := fst (sanitize_members lim rec path s index out object) in
  nlen r <= lim_container_items lim /\ Forall P r.
Proof.
  intros Hobj. induction Hobj as [|[k v] object Hv Hvs IH];
    cbn -[is_secret_json_key]; intros s index out Hi Hout; [split; [lia|done]|].
  destruct (N.leb_spec (lim_container_items lim) index); cbn -[is_secret_json_key];
    [split; [lia|done]|].
  destruct (is_secret_json_key k) eqn:E.
  - pose proof (nlen_map_insert k (JString "[REDACTED]") out).
    apply IH; [lia|]. apply map_insert_Forall; [by left|done].
  - specialize (Hv s (json_child_path path k)). cbn in Hv.
    destruct (rec s v _) as [w s'].
    pose proof (nlen_map_insert k w out).
    apply IH; [lia|]. apply map_insert_Forall; [by right|done].
Qed.

Lemma sanitize_safe lim v s path depth d :
  lim_depth lim <= depth + d ->
  safe (lim_container_items lim) d (fst (sanitize lim depth s v path)).
Proof.
  revert s path depth d. induction v as [ |b|n|str|l IH|m IH] using Value_ind';
    intros s path depth d Hd; cbn [sanitize];
    destruct (N.leb_spec (lim_nodes lim) (visited s)); try (by apply safe_scalar);
    destruct (N.leb_spec (lim_depth lim) depth); try (by apply safe_scalar).
  - pose proof (sanitize_elements_safe lim (d - 1) path l (sanitize lim (depth + 1))) as Hl.
    destruct (sanitize_elements _ _ _ _ _ _ _) as [r s'] eqn:E.
    replace d with (d - 1 + 1) by lia. cbn.
    specialize (Hl ltac:(eapply Forall_impl; [exact IH|]; cbn; intros x Hx ??; apply Hx; lia)).
    specialize (Hl (visit s) 0 [] ltac:(nlia) ltac:(constructor)). cbn zeta in Hl.
    rewrite E in Hl. apply safe_array; tauto.
  - pose proof (sanitize_members_safe lim (d - 1) path m (sanitize lim (depth + 1))) as Hm.
    destruct (sanitize_members _ _ _ _ _ _ _) as [r s'] eqn:E.
    replace d with (d - 1 + 1) by lia. cbn.
    specialize (Hm ltac:(eapply Forall_impl; [exact IH|]; cbn; intros x Hx ??; apply Hx; lia)).
    specialize (Hm (visit s) 0 [] ltac:(nlia)). cbn zeta in Hm. specialize (Hm ltac:(done)).
    rewrite E in Hm. apply safe_object; tauto.
Qed.

(** C29: Whatever the payload and the policy, the sanitized JSON holds no value
    under a credential-shaped key at any level, nests at most 64 containers,
    and no container has more than 10,000 items. *)
Theorem sanitize_json_safe p v :
  safe MAX_SANITIZED_CONTAINER_ITEMS MAX_SANITIZED_JSON_DEPTH (fst (sanitize_json p v)).
Proof.
  unfold sanitize_json, sanitize_json_owned.
  pose proof (sanitize_safe capture_limits v (mkSanitizer 0 [] false) "$" 0
    MAX_SANITIZED_JSON_DEPTH ltac:(done)) as H.
  by destruct (sanitize _ _ _ _ _).
Qed.

(** ** Secret values do not influence the output *)

(** Two payloads that differ only in the values under secret keys. *)
Inductive same_public : Value -> Value -> Prop :=
| same_scalar v : is_scalar v = true -> same_public v v
| same_array l l' : Forall2 same_public l l' -> same_public (JArray l) (JArray l')
| same_object m m' :
    Forall2 (fun a b => fst a = fst b /\
      (is_secret_json_key (fst a) = true \/ same_public (snd a) (snd b))) m m' ->
    same_public (JObject m) (JObject m').

Lemma sanitize_elements_same lim path rec l l' :
  Forall2 (fun v w => forall s p, rec s v p = rec s w p) l l' ->
  forall s index out,
  sanitize_elements lim rec path s index out l = sanitize_elements lim rec path s index out l'.
Proof.
  induction 1 as [|v w l l' Hv Hl IH]; cbn; intros s index out; [done|].
  rewrite Hv. case_match; [done|]. destruct (rec s w _). apply IH.
Qed.

Lemma sanitize_members_same lim path rec m m' :
  Forall2 (fun a b => fst a = fst b /\ (is_secret_json_key (fst a) = true \/
    forall s p, rec s (snd a) p = rec s (snd b) p)) m m' ->
  forall s index out,
  sanitize_members lim rec path s index out m = sanitize_members lim rec path s index out m'.
Proof.
  induction 1 as [|[k v] [k' w] m m' [Hk Hv] Hm IH]; cbn -[is_secret_json_key];
    intros s index out; [done|].
  cbn -[is_secret_json_key] in Hk, Hv. subst k'. case_match; [done|].
  destruct (is_secret_json_key k) eqn:E; [apply IH|].
  destruct Hv as [Hv|Hv]; [done|]. rewrite Hv. destruct (rec s w _). apply IH.
Qed.

Lemma sanitize_same lim v w : same_public v w ->
  forall depth s path, sanitize lim depth s v path = sanitize lim depth s w path.
Proof.
  revert w. induction v as [ |b|n|str|l IH|m IH] using Value_ind'; intros w Hw;
    inversion Hw as [? _|l1 l2 Hl|m1 m2 Hm]; subst; try done; intros depth s path;
    cbn [sanitize]; case_match; try done; case_match; try done.
  - rewrite (sanitize_elements_same _ _ _ l l2); [done|].
    apply Forall2_same_length_lookup in Hl as [Hlen Hl].
    apply Forall2_same_length_lookup. split; [done|]. intros i x y Hx Hy ? ?.
    eapply Forall_lookup_1 in IH; [|done]. by eapply IH, Hl.
  - rewrite (sanitize_members_same _ _ _ m m2); [done|].
    apply Forall2_same_length_lookup in Hm as [Hlen Hm].
    apply Forall2_same_length_lookup. split; [done|]. intros i x y Hx Hy.
    eapply Forall_lookup_1 in IH; [|done].
    destruct (Hm i x y Hx Hy) as [? [?|?]]; split; eauto.
Qed.

(** C9: Sanitized payloads leak nothing about credentials: two payloads that
    differ only in the values under credential-shaped keys, at any depth,
    give the same output and the same redaction record. *)
Theorem sanitize_json_noninterference p v w :
  same_public v w -> sanitize_json p v = sanitize_json p w.
Proof. intros H. unfold sanitize_json, sanitize_json_owned. by rewrite (sanitize_same _ v w). Qed.

(** ** Everything that is changed is accounted for *)

(** The record of changes only grows. *)
Definition grows (s t : JsonSanitizer) : Prop :=
  (truncated t = false -> truncated s = false) /\ fields s `prefix_of` fields t.

#[local] Instance grows_preorder : PreOrder grows.
Proof.
  split; [by intros s; split|]. intros s t u [H1 H2] [H3 H4]. split; [auto|]. by etrans.
Qed.

Lemma grows_truncated s : grows s (set_truncated s).
Proof. by split. Qed.

Lemma grows_record lim s path : grows s (record_field lim s path).
Proof.
  unfold record_field. case_match; [|apply grows_truncated].
  split; [done|]. by apply prefix_app_r.
Qed.
#[local] Hint Resolve grows_truncated grows_record : iorec.

Lemma sanitize_elements_grows lim path rec l :
  Forall (fun v => forall s p, grows s (snd (rec s v p))) l ->
  forall s index out, grows s (snd (sanitize_elements lim rec path s index out l)).
Proof.
  induction 1 as [|v l Hv Hl IH]; cbn; intros s index out; [done|].
  case_match; [auto with iorec|]. specialize (Hv s (json_index_path path index)).
  destruct (rec s v _). by etrans; [|apply IH].
Qed.

Lemma sanitize_members_grows lim path rec m :
  Forall (fun kv => forall s p, grows s (snd (rec s (snd kv) p))) m ->
  forall s index out, grows s (snd (sanitize_members lim rec path s index out m)).
Proof.
  induction 1 as [|[k v] m Hv Hl IH]; cbn -[is_secret_json_key]; intros s index out; [done|].
  case_match; [auto with iorec|]. case_match.
  - etrans; [|apply IH]. auto with iorec.
  - specialize (Hv s (json_child_path path k)). cbn in Hv.
    destruct (rec s v _). by etrans; [|apply IH].
Qed.

Lemma sanitize_grows lim v depth s path : grows s (snd (sanitize lim depth s v path)).
Proof.
  revert depth s path. induction v as [ |b|n|str|l IH|m IH] using Value_ind';
    intros depth s path; cbn [sanitize];
    (case_match; [auto with iorec|]); try done; (case_match; [by split|]).
  - pose proof (sanitize_elements_grows lim path (sanitize lim (depth + 1)) l) as H'.
    specialize (H' ltac:(eapply Forall_impl; [exact IH|]; cbn; auto)
      (visit s) 0 []).
    by destruct (sanitize_elements _ _ _ _ _ _ _).
  - pose proof (sanitize_members_grows lim path (sanitize lim (depth + 1)) m) as H'.
    specialize (H' ltac:(eapply Forall_impl; [exact IH|]; cbn; auto)
      (visit s) 0 []).
    by destruct (sanitize_members _ _ _ _ _ _ _).
Qed.

(** Nothing was recorded between two states. *)
Definition silent (s t : JsonSanitizer) : Prop := truncated t = false /\ fields t = fields s.

Lemma silent_split s t u : grows s t -> grows t u -> silent s u -> silent s t /\ silent t u.
Proof.
  intros [Ht1 Hf1] [Ht2 Hf2] [Hu Hf]. rewrite Hf in Hf2.
  assert (fields t = fields s) as E by (by apply (anti_symm prefix)).
  unfold silent. rewrite E. naive_solver.
Qed.

Lemma record_not_silent lim s path : ~ silent s (record_field lim s path).
Proof.
  unfold record_field, silent. case_match; [|by intros [? _]].
  cbn. intros [_ Hf]. apply (f_equal length) in Hf. rewrite length_app in Hf. cbn in Hf. lia.
Qed.

(** The recursive call is exact and only adds to the record. *)
Definition exact_call (rec : JsonSanitizer -> Value -> string -> Value * JsonSanitizer)
    (v : Value) : Prop :=
  forall s p w t, rec s v p = (w, t) -> grows s t /\ (silent s t -> w = v).

Lemma sanitize_elements_exact lim path rec l :
  Forall (exact_call rec) l ->
  forall s index out r t, sanitize_elements lim rec path s index out l = (r, t) ->
  silent s t -> r = out ++ l.
Proof.
  intros Hl. induction Hl as [|v l Hv Hl IH]; intros s index out r t; cbn.
  { intros [= -> ->] _. by rewrite app_nil_r. }
  case_match; [by intros [= <- <-] [? _]|]. destruct (rec s v _) as [w s'] eqn:E.
  intros Hr Hs. destruct (Hv _ _ _ _ E) as [Hg Hw].
  pose proof (sanitize_elements_grows lim path rec l) as Hg'.
  specialize (Hg' ltac:(eapply Forall_impl; [exact Hl|]; intros x Hx s0 p0;
    destruct (rec s0 x p0) eqn:E0; by apply (Hx _ _ _ _ E0)) s' (index + 1) (out ++ [w])).
  rewrite Hr in Hg'. destruct (silent_split _ _ _ Hg Hg' Hs) as [H1 H2].
  rewrite (IH _ _ _ _ _ Hr H2), (Hw H1), <-app_assoc. done.
Qed.

Lemma sanitize_members_exact lim path rec m :
  Forall (fun kv => exact_call rec (snd kv)) m ->
  forall s index out r t, sanitize_members lim rec path s index out m = (r, t) ->
  map_sorted (out ++ m) -> silent s t -> r = out ++ m.
Proof.
  intros Hm. induction Hm as [|[k v] m Hv Hm IH]; intros s index out r t; cbn -[is_secret_json_key].
  { intros [= -> ->] _ _. by rewrite app_nil_r. }
  pose proof (fun s' o => sanitize_members_grows lim path rec m ltac:(
    eapply Forall_impl; [exact Hm|]; intros x Hx s0 p0;
    destruct (rec s0 (snd x) p0) eqn:E0; by apply (Hx _ _ _ _ E0)) s' (index + 1) o) as Hg'.
  case_match; [by intros [= <- <-] _ [? _]|]. case_match.
  - intros Hr _ Hs. specialize (Hg' (record_field lim s (json_child_path path k))
      (map_insert k (JString "[REDACTED]") out)). rewrite Hr in Hg'.
    destruct (silent_split _ _ _ (grows_record _ _ _) Hg' Hs) as [H1 _].
    by apply record_not_silent in H1.
  - destruct (rec s v _) as [w s'] eqn:E. intros Hr Hsort Hs.
    destruct (Hv _ _ _ _ E) as [Hg Hw]. specialize (Hg' s' (map_insert k w out)).
    rewrite Hr in Hg'. destruct (silent_split _ _ _ Hg Hg' Hs) as [H1 H2].
    cbn in Hw. rewrite (Hw H1) in Hr.
    rewrite map_insert_last in Hr by (by eapply map_sorted_before).
    rewrite (IH _ _ _ _ _ Hr); [by rewrite <-app_assoc| |done].
    by rewrite <-app_assoc.
Qed.

Lemma sanitize_exact lim v : value_wf v -> forall depth, exact_call (sanitize lim depth) v.
Proof.
  induction v as [ |b|n|str|l IH|m IH] using Value_ind'; intros Hwf depth s path w t;
    intros E; (split; [by rewrite (f_equal snd (eq_sym E) : t = _); apply sanitize_grows|]);
    cbn [sanitize] in E; (case_match; [by injection E as <- <-; intros [? _]|]);
    try (by injection E as <- <-);
    (case_match; [by injection E as <- <-; intros [? _]|]).
  - destruct (sanitize_elements _ _ _ _ _ _ _) as [r s'] eqn:E'. injection E as <- <-.
    intros Hs. f_equal. eapply (sanitize_elements_exact _ _ _ l) in E'; [done| |done].
    apply value_wf_array in Hwf. rewrite Forall_forall in *. eauto.
  - destruct (sanitize_members _ _ _ _ _ _ _) as [r s'] eqn:E'. injection E as <- <-.
    intros Hs. f_equal. apply value_wf_object in Hwf as [Hsort Hwf].
    eapply (sanitize_members_exact _ _ _ m) in E'; [done| |done|done].
    rewrite Forall_forall in *. eauto.
Qed.

(** No silent loss: when the redaction record of a sanitized payload lists
    no field and no omission, the payload was kept unchanged. *)
Theorem sanitize_json_accounted p v w :
  value_wf v -> sanitize_json p v = (w, mkRedactionRecord (cp_name p) [] []) -> w = v.
Proof.
  intros Hwf. unfold sanitize_json, sanitize_json_owned.
  destruct (sanitize _ _ _ _ _) as [w' t] eqn:E. intros [= <- Hf Ht].
  apply (sanitize_exact _ v Hwf) in E as [_ E]. apply E. split; [|done].
  by destruct (truncated t).
Qed.

(** ** Headers *)

(** What the event log may show of a header. *)
Definition header_view (p : CapturePolicy) (header : string * list bytes) : Value :=
  if header_is_secret p (to_ascii_lowercase (fst header)) then JArray [JString "[REDACTED]"]
  else JArray (safe_value <$> snd header).

Lemma sanitize_header_step p out red h :
  sanitize_header p (out, red) h =
    (map_insert (to_ascii_lowercase (fst h)) (header_view p h) out,
     if header_is_secret p (to_ascii_lowercase (fst h))
     then set_insert (to_ascii_lowercase (fst h)) red else red).
Proof. destruct h as [name values]. cbn. unfold header_view. cbn. by destruct (header_is_secret _ _). Qed.

Definition canonical_names (headers : HeaderMap) : list string :=
  (fun h => to_ascii_lowercase (fst h)) <$> headers.

Lemma foldl_sanitize_header p headers out red :
  NoDup (canonical_names headers) ->
  (forall h, h ∈ headers ->
    map_get (to_ascii_lowercase (fst h)) (fst (foldl (sanitize_header p) (out, red) headers))
    = Some (header_view p h)) /\
  (forall k, k ∉ canonical_names headers ->
    map_get k (fst (foldl (sanitize_header p) (out, red) headers)) = map_get k out) /\
  (forall k, k ∈ snd (foldl (sanitize_header p) (out, red) headers) <->
    k ∈ red \/ k ∈ canonical_names headers /\ header_is_secret p k = true).
Proof.
  revert out red. induction headers as [|h headers IH]; intros out red Hnd.
  { cbn. split_and!; [by intros ? ?%elem_of_nil|done|]. intros k. rewrite !elem_of_nil. tauto. }
  cbn [foldl]. rewrite sanitize_header_step.
  apply NoDup_cons in Hnd as [Hn Hnd].
  destruct (IH (map_insert (to_ascii_lowercase (fst h)) (header_view p h) out)
    (if header_is_secret p (to_ascii_lowercase (fst h))
     then set_insert (to_ascii_lowercase (fst h)) red else red) Hnd) as (IH1 & IH2 & IH3).
  split_and!.
  - intros h' [->|Hh]%elem_of_cons; [|by apply IH1]. rewrite IH2 by done. apply map_get_insert.
  - intros k [Hk Hks]%not_elem_of_cons. rewrite IH2 by done. by apply map_get_insert_ne.
  - intros k. rewrite IH3. unfold canonical_names. cbn [fmap list_fmap]. rewrite elem_of_cons.
    destruct (header_is_secret p (to_ascii_lowercase (fst h))) eqn:E.
    + rewrite set_insert_elem. destruct (decide (k = to_ascii_lowercase (fst h))) as [->|Hk]; tauto.
    + destruct (decide (k = to_ascii_lowercase (fst h))) as [->|Hk]; [rewrite E|tauto].
      split; (intros [?|[? ?]]; [tauto|done]).
Qed.

(** Every header the proxy saw appears under its lower-case name with all
    of its values, or with the single redaction marker when the name is
    secret; the record lists exactly the secret names seen; a missing Host is
    recorded as an empty list. *)
Theorem sanitize_headers_spec p headers :
  NoDup (canonical_names headers) ->
  let '(value, record) := sanitize_headers p headers in
  (forall h, h ∈ headers -> get (to_ascii_lowercase (fst h)) value = Some (header_view p h)) /\
  (forall k, k ∈ rr_fields record <->
     k ∈ canonical_names headers /\ header_is_secret p k = true) /\
  ("host" ∉ canonical_names headers -> get "host" value = Some (JArray [])) /\
  (forall k, k <> "host" -> k ∉ canonical_names headers -> get k value = None).
Proof.
  intros Hnd. unfold sanitize_headers.
  destruct (foldl_sanitize_header p headers [] [] Hnd) as (H1 & H2 & H3).
  destruct (foldl (sanitize_header p) ([], []) headers) as [out red]. cbn [fst snd rr_fields get] in *.
  assert (map_contains_key "host" out = true <-> "host" ∈ canonical_names headers) as Hh.
  { unfold map_contains_key, canonical_names. split.
    - destruct (decide ("host" ∈ canonical_names headers)); [done|]. by rewrite H2.
    - intros (h & Hh & Hin)%list_elem_of_fmap. by rewrite Hh, H1. }
  split_and!.
  - intros h Hin. destruct (map_contains_key "host" out); [by apply H1|].
    rewrite map_get_insert_ne; [by apply H1|]. intros He.
    assert ("host" ∈ canonical_names headers) as Hin'; [|by apply Hh in Hin'].
    rewrite <-He. apply list_elem_of_fmap. by exists h.
  - intros k. rewrite H3, elem_of_nil. tauto.
  - intros Hn. destruct (map_contains_key "host" out); [by exfalso; apply Hn, Hh|].
    apply map_get_insert.
  - intros k Hk Hn. destruct (map_contains_key "host" out);
      [|rewrite map_get_insert_ne by done]; by rewrite H2.
Qed.
End Policy.

(** ** Witnesses *)

Module PolicyExamples.
Definition http : Http := {|
  header_name_valid l := negb (bool_decide (l = []));
  header_value_to_str l := if forallb (in_range 32 126) l then Some (of_bytes l) else None;
|}.
Import Concrete.
#[local] Existing Instance http.

Definition payload (secret : string) : Value :=
  JObject [("model", JString "m"); ("x-api-key", JString secret);
           ("z", JArray [JObject [("password", JNull)]; JBool true])].

Lemma sanitize_json_noninterference_witness :
  same_public (payload "one") (payload "two") /\
  sanitize_json default_policy (payload "one") = sanitize_json default_policy (payload "two").
Proof.
  assert (same_public (payload "one") (payload "two")) as H.
  { apply same_object. constructor; [split; [done|right; by constructor]|].
    constructor; [split; [done|left; vm_compute; done]|].
    constructor; [split; [done|right]|constructor].
    apply same_array. constructor; [|constructor; [by constructor|constructor]].
    apply same_object. constructor; [split; [done|right; by constructor]|constructor]. }
  split; [exact H|]. by apply (sanitize_json_noninterference default_policy _ _ H).
Defined.

Definition plain : Value := JObject [("a", JArray [JNull; JBool true]); ("b", JString "x")].

Lemma sanitize_json_accounted_witness :
  value_wf plain /\ fst (sanitize_json default_policy plain) = plain.
Proof.
  assert (value_wf plain) as H.
  { apply value_wf_object. split; [|by repeat constructor]. by repeat constructor. }
  split; [exact H|].
  apply (sanitize_json_accounted default_policy plain _ H). vm_compute. reflexivity.
Defined.

Lemma sanitize_headers_spec_witness :
  NoDup (canonical_names [("Host", [as_bytes "h"]); ("X-Api-Key", [as_bytes "k"])]) /\
  get "x-api-key" (fst (sanitize_headers default_policy
    [("Host", [as_bytes "h"]); ("X-Api-Key", [as_bytes "k"])])) = Some (JArray [JString "[REDACTED]"]).
Proof.
  assert (NoDup (canonical_names [("Host", [as_bytes "h"]); ("X-Api-Key", [as_bytes "k"])])) as H.
  { apply (bool_decide_unpack _). vm_compute. done. }
  split; [exact H|].
  pose proof (sanitize_headers_spec default_policy _ H) as (H1 & _).
  apply (H1 ("X-Api-Key", [as_bytes "k"])). right. left.
Defined.
End PolicyExamples.
