(* ===== verification/Crypto.v ===== *)
(** * src/crypto.rs: encryption keys and authenticated framing

    Random values ([XNonce::generate], [Key::generate]) are arguments.  Errors
    keep the [io::ErrorKind] and message of the sources. *)

From Stdlib Require Import Strings.Byte.
From S2P Require Import Prelude RustStd External Json Input Model.
From stdpp Require Import options.
Local Open Scope N_scope.
#[local] Unset Default Proof Using.

Definition BLOB_MAGIC : bytes := as_bytes "IORECBL1".
Definition WRAPPED_KEY_MAGIC : bytes := as_bytes "IORECKY1".
Definition RETENTION_STATE_MAGIC : bytes := as_bytes "IORECRS1".
Definition EVENT_BLOCK_MAGIC : bytes := as_bytes "IORECEB1".
Definition EVENT_AAD_V1 : bytes := as_bytes "iorec:event:v1".
Definition EVENT_AAD_V2 : bytes := as_bytes "iorec:event:v2".
Definition EVENT_BLOCK_AAD_V1 : bytes := as_bytes "iorec:event-block:v1".
Definition MANIFEST_AAD_V1 : bytes := as_bytes "iorec:manifest:v1".
Definition RUN_KEY_SALT_V1 : bytes := as_bytes "iorec:run-key:salt:v1".
Definition RUN_KEY_INFO_V1 : bytes := as_bytes "iorec:run-key:info:v1".
Definition WRAPPED_KEY_AAD_V1 : bytes := as_bytes "iorec:wrapped-blob-key:v1".
Definition RETENTION_STATE_AAD_V1 : bytes := as_bytes "iorec:retention-state:v1".

Record EncryptionKey := mkEncryptionKey {
  key_bytes : bytes;
  key_id : string;
}.

Record EncryptedEvent := mkEncryptedEvent {
  ee_version : N;
  ee_run_id : option string;
  ee_sequence : option N;
  ee_nonce : string;
  ee_ciphertext : string;
}.

(** ** serde_json on the types of the event log *)

Class Serde := {
  encrypted_event_to_vec : EncryptedEvent -> option bytes;
  encrypted_event_from_slice : bytes -> option EncryptedEvent;
  envelope_to_vec : EventEnvelope -> option bytes;
  envelope_from_slice : bytes -> option EventEnvelope;
  value_from_slice : bytes -> option Value;
}.

(** What the crate documents: compact JSON text has no newline, is read back
    to the value written, and trailing whitespace is skipped; the text of a
    struct opens with a brace.  The text of the five flat members of an
    [EncryptedEvent] nests once.  Two kinds of value are outside of what the
    crate reproduces and of what the theorems that read a text back are about:
    a [normalized] of [Some(Value::Null)], which reads back as [None], and
    floating-point numbers, whose last digit can change. *)
Class SerdeLaws `{!Serde} := {
  encrypted_event_roundtrip : forall e b, encrypted_event_to_vec e = Some b ->
    encrypted_event_from_slice b = Some e /\ encrypted_event_from_slice (b ++ [LF]) = Some e;
  encrypted_event_text : forall e b, encrypted_event_to_vec e = Some b ->
    LF ∉ b /\ validate_json_complexity b = Ok tt;
  encrypted_event_open : forall e b, encrypted_event_to_vec e = Some b -> head b = Some x7b;
  envelope_open : forall e b, envelope_to_vec e = Some b -> head b = Some x7b;
  envelope_roundtrip : forall e b, envelope_to_vec e = Some b ->
    envelope_from_slice b = Some e /\ envelope_from_slice (b ++ [LF]) = Some e;
  envelope_text : forall e b, envelope_to_vec e = Some b -> LF ∉ b;
  envelope_value : forall e b, envelope_to_vec e = Some b -> exists v,
    value_from_slice b = Some v /\
    get "run_id" v = Some (JString (ev_run_id e)) /\
    get "sequence" v = Some (JNumber (PosInt (ev_sequence e)));
  (** A record that is not an encrypted one lacks its required members. *)
  envelope_not_encrypted : forall e b, envelope_to_vec e = Some b ->
    encrypted_event_from_slice b = None /\ encrypted_event_from_slice (b ++ [LF]) = None;
}.

Definition invalid_data (msg : string) : IoError := io_error InvalidData msg.

(** ** Associated data *)

(** [u64::try_from(len).unwrap_or(u64::MAX).to_be_bytes()] *)
Definition len_bytes (l : bytes) : bytes := to_be_bytes (N.min u64_max (nlen l)).

Definition event_aad_v2 (run_id : string) (sequence : N) : bytes :=
  EVENT_AAD_V2 ++ len_bytes (as_bytes run_id) ++ as_bytes run_id ++ to_be_bytes sequence.

Definition event_block_aad_v1 (run_id : string) (first_sequence event_count uncompressed_bytes : N)
    (plaintext_sha256 : bytes) : bytes :=
  EVENT_BLOCK_AAD_V1 ++ len_bytes (as_bytes run_id) ++ as_bytes run_id
  ++ to_be_bytes first_sequence ++ to_be_bytes event_count ++ to_be_bytes uncompressed_bytes
  ++ plaintext_sha256.

Definition length_prefixed_aad (domain value : bytes) : bytes :=
  domain ++ len_bytes value ++ value.

Definition blob_aad (hash : string) : bytes := as_bytes ("iorec:blob:v1:" +:+ hash).

Definition run_key_info (run_id : string) : bytes :=
  RUN_KEY_INFO_V1 ++ to_be_bytes (str_len run_id) ++ as_bytes run_id.

Section Crypto.
Context {dig : Digest} {hx : Hex} {b64 : Base64} {aead : Aead} {serde : Serde}.

Definition new_key (b : bytes) : EncryptionKey := mkEncryptionKey b (hex_encode (sha256 b)).

Definition encrypt (key : EncryptionKey) (nonce plaintext aad : bytes) : io_result (bytes * bytes) :=
  match aead_encrypt (key_bytes key) nonce aad plaintext with
  | Some ciphertext => Ok (nonce, ciphertext)
  | None => Err (io_error Other "AEAD encryption failed")
  end.

Definition decrypt (key : EncryptionKey) (nonce ciphertext aad : bytes) : io_result bytes :=
  if negb (nlen nonce =? 24) then Err (invalid_data "invalid AEAD nonce")
  else ok_or (aead_decrypt (key_bytes key) nonce aad ciphertext)
         (invalid_data "AEAD authentication failed").

Definition derive_run_key (key : EncryptionKey) (run_id : string) : io_result EncryptionKey :=
  if str_is_empty run_id || (256 <? str_len run_id) || str_has_control run_id
  then Err (io_error InvalidInput "run ID is invalid for key derivation")
  else
    output ← ok_or (hkdf_sha256 (key_bytes key) RUN_KEY_SALT_V1 (run_key_info run_id))
               (io_error Other "HKDF run-key derivation failed");
    Ok (new_key output).

(** ** Events *)

Definition encrypt_event_record (key : EncryptionKey) (nonce plaintext : bytes)
    (run_id : string) (sequence : N) : io_result bytes :=
  '(nonce, ciphertext) ← encrypt key nonce plaintext (event_aad_v2 run_id sequence);
  ok_or (encrypted_event_to_vec
           (mkEncryptedEvent 2 (Some run_id) (Some sequence) (b64_encode nonce)
              (b64_encode ciphertext)))
    (invalid_data "serialization").

Definition validate_event_context (plaintext : bytes) (run_id : string) (sequence : N)
    : io_result unit :=
  validate_stored_json_complexity plaintext;;
  event ← ok_or (value_from_slice plaintext) (invalid_data "JSON");
  if negb (bool_decide ((get "run_id" event ≫= as_str) = Some run_id))
     || negb (bool_decide ((get "sequence" event ≫= as_u64) = Some sequence))
  then Err (invalid_data "encrypted event context does not match its plaintext envelope")
  else Ok tt.

Definition decrypt_event (key : EncryptionKey) (encoded : bytes) : io_result bytes :=
  validate_json_complexity encoded;;
  record ← ok_or (encrypted_event_from_slice encoded) (invalid_data "JSON");
  nonce ← ok_or (b64_decode (ee_nonce record)) (invalid_data "base64");
  ciphertext ← ok_or (b64_decode (ee_ciphertext record)) (invalid_data "base64");
  if ee_version record =? 1 then decrypt key nonce ciphertext EVENT_AAD_V1
  else if ee_version record =? 2 then
    run_id ← ok_or (ee_run_id record) (invalid_data "encrypted event has no run ID");
    sequence ← ok_or (ee_sequence record) (invalid_data "encrypted event has no sequence");
    plaintext ← decrypt key nonce ciphertext (event_aad_v2 run_id sequence);
    validate_event_context plaintext run_id sequence;;
    Ok plaintext
  else Err (invalid_data "unsupported encrypted event version").

Definition is_encrypted_event (encoded : bytes) : bool :=
  is_ok (validate_json_complexity encoded)
  && match encrypted_event_from_slice encoded with Some _ => true | None => false end.

(** ** Framed ciphertexts: magic, nonce, ciphertext *)

Definition encrypt_framed (key : EncryptionKey) (nonce plaintext magic aad : bytes)
    : io_result bytes :=
  '(nonce, ciphertext) ← encrypt key nonce plaintext aad;
  Ok (magic ++ nonce ++ ciphertext).

Definition decrypt_framed_with (error : string) (key : EncryptionKey) (encoded magic aad : bytes)
    : io_result bytes :=
  if negb (starts_with magic encoded) || (nlen encoded <? nlen magic + 24 + 16)
  then Err (invalid_data error)
  else
    let rest := ndrop (nlen magic) encoded in
    decrypt key (ntake 24 rest) (ndrop 24 rest) aad.

Definition decrypt_framed := decrypt_framed_with "invalid encrypted key-state framing".

Definition encrypt_event_block (key : EncryptionKey) (nonce compressed : bytes) (run_id : string)
    (first_sequence event_count uncompressed_bytes : N) (plaintext_sha256 : bytes)
    : io_result bytes :=
  encrypt_framed key nonce compressed EVENT_BLOCK_MAGIC
    (event_block_aad_v1 run_id first_sequence event_count uncompressed_bytes plaintext_sha256).

Definition decrypt_event_block (key : EncryptionKey) (encoded : bytes) (run_id : string)
    (first_sequence event_count uncompressed_bytes : N) (plaintext_sha256 : bytes)
    : io_result bytes :=
  decrypt_framed_with "invalid encrypted event-block framing" key encoded EVENT_BLOCK_MAGIC
    (event_block_aad_v1 run_id first_sequence event_count uncompressed_bytes plaintext_sha256).

Definition encrypt_blob (key : EncryptionKey) (nonce plaintext : bytes) (hash : string)
    : io_result bytes :=
  encrypt_framed key nonce plaintext BLOB_MAGIC (blob_aad hash).

Definition decrypt_blob (key : EncryptionKey) (encoded : bytes) (hash : string) : io_result bytes :=
  decrypt_framed_with "invalid encrypted blob framing" key encoded BLOB_MAGIC (blob_aad hash).

Definition is_encrypted_blob (encoded : bytes) : bool := starts_with BLOB_MAGIC encoded.

Definition validate_key_context (context : string) : io_result unit :=
  if str_is_empty context || (64 <? str_len context)
     || negb (str_all (fun b => is_ascii_lowercase b || beqb b x5f) context)
  then Err (io_error InvalidInput "wrapped key context is invalid") else Ok tt.

(** [generate_wrapped_data_key], with the generated key as an argument. *)
Definition generate_wrapped_data_key (key : EncryptionKey) (generated nonce : bytes)
    (context : string) : io_result (EncryptionKey * bytes) :=
  validate_key_context context;;
  output ← encrypt_framed key nonce generated WRAPPED_KEY_MAGIC
             (length_prefixed_aad WRAPPED_KEY_AAD_V1 (as_bytes context));
  Ok (new_key generated, output).

Definition unwrap_data_key (key : EncryptionKey) (encoded : bytes) (context : string)
    : io_result EncryptionKey :=
  validate_key_context context;;
  plaintext ← decrypt_framed key encoded WRAPPED_KEY_MAGIC
                (length_prefixed_aad WRAPPED_KEY_AAD_V1 (as_bytes context));
  if negb (nlen plaintext =? 32) then Err (invalid_data "wrapped data key has invalid length")
  else Ok (new_key plaintext).

Definition encrypt_retention_state (key : EncryptionKey) (nonce plaintext : bytes) : io_result bytes :=
  encrypt_framed key nonce plaintext RETENTION_STATE_MAGIC RETENTION_STATE_AAD_V1.

Definition decrypt_retention_state (key : EncryptionKey) (encoded : bytes) : io_result bytes :=
  decrypt_framed key encoded RETENTION_STATE_MAGIC RETENTION_STATE_AAD_V1.

(** ** Manifests *)

Definition authenticate_manifest (key : EncryptionKey) (nonce canonical : bytes)
    : io_result (string * string) :=
  '(nonce, tag) ← encrypt key nonce [] (length_prefixed_aad MANIFEST_AAD_V1 canonical);
  Ok (b64_encode nonce, b64_encode tag).

Definition verify_manifest_authentication (key : EncryptionKey) (canonical : bytes)
    (nonce tag : string) : io_result unit :=
  nonce ← ok_or (b64_decode nonce) (invalid_data "base64");
  tag ← ok_or (b64_decode tag) (invalid_data "base64");
  plaintext ← decrypt key nonce tag (length_prefixed_aad MANIFEST_AAD_V1 canonical);
  if bool_decide (plaintext = []) then Ok tt
  else Err (invalid_data "manifest authentication payload is not empty").

(** ** Key files *)

Definition parse_key (b : bytes) : io_result bytes :=
  if nlen b =? 32 then Ok b
  else
    let trimmed := default b (strip_suffix [LF] b) in
    let trimmed := default trimmed (strip_suffix [CR] trimmed) in
    if nlen trimmed =? 32 then Ok trimmed
    else if nlen trimmed =? 64 then
      decoded ← ok_or (hex_decode (of_bytes trimmed)) (invalid_data "hex");
      if nlen decoded =? 32 then Ok decoded else Err (invalid_data "invalid hexadecimal key")
    else Err (invalid_data "encryption key must contain 32 raw bytes or 64 hexadecimal characters").

(** The text [generate_file] writes. *)
Definition key_file_text (key : bytes) : bytes := as_bytes (hex_encode key) ++ [LF].

(** [from_file], given the mode and the content of a regular file. *)
Definition key_from_file (mode : N) (content : bytes) : io_result EncryptionKey :=
  if negb (N.land mode 63 =? 0)
  then Err (io_error PermissionDenied
              "encryption key file must not be accessible by group or other users")
  else if 65 <? nlen content then Err (invalid_data "encryption key file is too large")
  else b ← parse_key content; Ok (new_key b).

(** ** Round trips *)

Section Laws.
Context {hxl : HexLaws} {b64l : Base64Laws} {aeadl : AeadLaws} {serdel : SerdeLaws}.
Implicit Types (key : EncryptionKey) (nonce plaintext : bytes).

Lemma encrypt_ok key nonce plaintext aad n c :
  encrypt key nonce plaintext aad = Ok (n, c) ->
  n = nonce /\ aead_encrypt (key_bytes key) nonce aad plaintext = Some c.
Proof. unfold encrypt. case_match; intros; by simplify_eq. Qed.

Lemma decrypt_encrypt key nonce plaintext aad n c :
  nlen nonce = 24 -> encrypt key nonce plaintext aad = Ok (n, c) ->
  decrypt key n c aad = Ok plaintext.
Proof.
  intros Hn [-> Hc]%encrypt_ok. unfold decrypt. rewrite Hn. cbn.
  by rewrite (aead_decrypt_encrypt _ _ _ _ _ Hc).
Qed.

Lemma starts_with_app magic l : starts_with magic (magic ++ l) = true.
Proof. apply starts_with_spec. eauto. Qed.

Lemma decrypt_framed_encrypt error key nonce plaintext magic aad encoded :
  nlen nonce = 24 -> encrypt_framed key nonce plaintext magic aad = Ok encoded ->
  decrypt_framed_with error key encoded magic aad = Ok plaintext.
Proof.
  unfold encrypt_framed, decrypt_framed_with. intros Hn H. inv_ok. destruct x as [n c].
  inv_ok. destruct (encrypt_ok _ _ _ _ _ _ H0) as [-> Hc].
  rewrite starts_with_app. cbn.
  rewrite (proj2 (N.ltb_ge _ _)) by (apply aead_length in Hc; nlia).
  rewrite ndrop_app_exact, <-Hn, ntake_app_exact, ndrop_app_exact.
  by eapply decrypt_encrypt.
Qed.

Lemma encrypt_framed_length key nonce plaintext magic aad encoded :
  nlen nonce = 24 -> encrypt_framed key nonce plaintext magic aad = Ok encoded ->
  nlen encoded = nlen magic + 40 + nlen plaintext.
Proof.
  unfold encrypt_framed. intros Hn H. inv_ok. destruct x as [n c].
  inv_ok. destruct (encrypt_ok _ _ _ _ _ _ H0) as [-> Hc].
  apply aead_length in Hc. nlia.
Qed.

Lemma encrypt_blob_is_encrypted key nonce plaintext hash encoded :
  encrypt_blob key nonce plaintext hash = Ok encoded -> is_encrypted_blob encoded = true.
Proof.
  unfold encrypt_blob, encrypt_framed. intros H. inv_ok. destruct x. inv_ok.
  exact (starts_with_app BLOB_MAGIC _).
Qed.

Lemma encrypted_event_line e b k :
  (k = [] \/ k = [LF]) -> encrypted_event_to_vec e = Some b ->
  validate_json_complexity (b ++ k) = Ok tt /\ encrypted_event_from_slice (b ++ k) = Some e.
Proof.
  intros Hk H. destruct (encrypted_event_roundtrip _ _ H) as [H1 H2].
  destruct (encrypted_event_text _ _ H) as [_ H3]. unfold validate_json_complexity in *.
  destruct Hk as [-> | ->]; rewrite ?app_nil_r, ?validate_json_LF; done.
Qed.

Lemma decrypt_event_encrypt_record key nonce e text encoded k :
  (k = [] \/ k = [LF]) -> nlen nonce = 24 -> envelope_to_vec e = Some text ->
  validate_stored_json_complexity text = Ok tt ->
  encrypt_event_record key nonce text (ev_run_id e) (ev_sequence e) = Ok encoded ->
  decrypt_event key (encoded ++ k) = Ok text /\ is_encrypted_event (encoded ++ k) = true.
Proof.
  intros Hk Hn Ht Hv H. unfold encrypt_event_record in H. inv_ok. destruct x as [n c]. inv_ok.
  pose proof (encrypted_event_line _ _ _ Hk H) as [Hc Hr].
  unfold decrypt_event, is_encrypted_event. rewrite Hc, Hr. split; [|done].
  cbn [mbind result_bind ok_or ee_nonce ee_ciphertext ee_version ee_run_id ee_sequence].
  rewrite !b64_decode_encode. cbn [mbind result_bind ok_or N.eqb Pos.eqb].
  rewrite (decrypt_encrypt _ _ _ _ _ _ Hn H0). cbn [mbind result_bind].
  unfold validate_event_context. rewrite Hv.
  destruct (envelope_value _ _ Ht) as (v & Hval & Hrun & Hseq).
  rewrite Hval. cbn [mbind result_bind ok_or].
  rewrite Hrun, Hseq. cbn [mbind option_bind as_str as_u64].
  by rewrite !bool_decide_eq_true_2.
Qed.

(** Every ciphertext the recorder frames is read back: blobs, compressed
    event blocks, wrapped class keys and retention states decrypt, in the
    context they were written for, to what was encrypted. *)
Theorem framed_roundtrips key nonce :
  nlen nonce = 24 ->
  (forall plaintext hash encoded,
     encrypt_blob key nonce plaintext hash = Ok encoded ->
     is_encrypted_blob encoded = true /\ decrypt_blob key encoded hash = Ok plaintext) /\
  (forall compressed run_id first count size digest encoded,
     encrypt_event_block key nonce compressed run_id first count size digest = Ok encoded ->
     decrypt_event_block key encoded run_id first count size digest = Ok compressed) /\
  (forall generated context k encoded, nlen generated = 32 ->
     generate_wrapped_data_key key generated nonce context = Ok (k, encoded) ->
     k = new_key generated /\ unwrap_data_key key encoded context = Ok k) /\
  (forall plaintext encoded,
     encrypt_retention_state key nonce plaintext = Ok encoded ->
     decrypt_retention_state key encoded = Ok plaintext).
Proof.
  intros Hn. split_and!.
  - intros plaintext hash encoded H. split; [by eapply encrypt_blob_is_encrypted|].
    by eapply decrypt_framed_encrypt.
  - intros. by eapply decrypt_framed_encrypt.
  - intros generated context k encoded Hg H. unfold generate_wrapped_data_key in H.
    inv_ok. simplify_eq. split; [done|]. unfold unwrap_data_key. rewrite H0. cbn [mbind result_bind].
    unfold decrypt_framed. erewrite decrypt_framed_encrypt by done. cbn. by rewrite Hg.
  - intros. by eapply decrypt_framed_encrypt.
Qed.

(** An event record decrypts to the serialized envelope it was made from,
    passes the check of the authenticated run and sequence against the
    plaintext, and is recognised as encrypted. *)
Theorem event_record_roundtrip key nonce e text encoded :
  nlen nonce = 24 -> envelope_to_vec e = Some text ->
  validate_stored_json_complexity text = Ok tt ->
  encrypt_event_record key nonce text (ev_run_id e) (ev_sequence e) = Ok encoded ->
  decrypt_event key encoded = Ok text /\ is_encrypted_event encoded = true.
Proof.
  intros Hn Ht Hv H. rewrite <-(app_nil_r encoded).
  exact (decrypt_event_encrypt_record key nonce e text encoded [] (or_introl eq_refl) Hn Ht Hv H).
Qed.

(** A manifest authenticated with a key verifies under that key. *)
Lemma manifest_roundtrip key nonce canonical n t :
  nlen nonce = 24 -> authenticate_manifest key nonce canonical = Ok (n, t) ->
  verify_manifest_authentication key canonical n t = Ok tt.
Proof.
  unfold authenticate_manifest, verify_manifest_authentication. intros Hn H. inv_ok.
  destruct x as [n' t']. inv_ok. simplify_eq. rewrite !b64_decode_encode.
  cbn [mbind result_bind ok_or]. by rewrite (decrypt_encrypt _ _ _ _ _ _ Hn H0).
Qed.

Lemma parse_key_file k : nlen k = 32 -> parse_key (key_file_text k) = Ok k.
Proof.
  intros Hk. unfold parse_key, key_file_text.
  assert (nlen (as_bytes (hex_encode k)) = 64) as Hlen
    by (pose proof (hex_encode_length k) as Hl; unfold str_len in Hl; lia).
  rewrite nlen_app, Hlen. cbn [nlen length N.of_nat N.add Pos.add Pos.of_succ_nat N.eqb Pos.eqb Pos.succ].
  rewrite strip_suffix_app. cbn [from_option id].
  assert (strip_suffix [CR] (as_bytes (hex_encode k)) = None) as ->.
  { pose proof (hex_encode_lower k) as Hl. unfold str_all in Hl. apply forallb_Forall in Hl.
    destruct (strip_suffix _ _) as [r|] eqn:E; [|done]. apply strip_suffix_spec in E.
    rewrite E in Hl. apply Forall_app in Hl as [_ Hl]. apply Forall_cons in Hl as [Hb _].
    by vm_compute in Hb. }
  cbn [from_option id]. rewrite Hlen. cbn. rewrite of_as_bytes, hex_decode_encode. cbn. by rewrite Hk.
Qed.

(** A key file written by [generate_file] and kept private loads as the
    same key, with the same key id. *)
Theorem key_file_roundtrip k mode :
  nlen k = 32 -> N.land mode 63 = 0 -> key_from_file mode (key_file_text k) = Ok (new_key k).
Proof.
  intros Hk Hm. unfold key_from_file. rewrite Hm. cbn [N.eqb negb].
  rewrite (proj2 (N.ltb_ge _ _)).
  - by rewrite parse_key_file.
  - unfold key_file_text. pose proof (hex_encode_length k) as Hl. unfold str_len in Hl.
    nlia.
Qed.
End Laws.
End Crypto.

(** ** Associated data separates every use of a key *)

(** The uses of a key in the program, with what each binds. *)
Inductive AeadUse :=
| UseLegacyEvent
| UseEvent (run_id : string) (sequence : N)
| UseEventBlock (run_id : string) (first_sequence event_count uncompressed_bytes : N) (digest : bytes)
| UseManifest (canonical : bytes)
| UseWrappedKey (context : string)
| UseRetentionState
| UseBlob (hash : string).

Definition aad_of (u : AeadUse) : bytes :=
  match u with
  | UseLegacyEvent => EVENT_AAD_V1
  | UseEvent run_id sequence => event_aad_v2 run_id sequence
  | UseEventBlock run_id first count size digest => event_block_aad_v1 run_id first count size digest
  | UseManifest canonical => length_prefixed_aad MANIFEST_AAD_V1 canonical
  | UseWrappedKey context => length_prefixed_aad WRAPPED_KEY_AAD_V1 (as_bytes context)
  | UseRetentionState => RETENTION_STATE_AAD_V1
  | UseBlob hash => blob_aad hash
  end.

(** Values that exist at run time: [u64] numbers, slices in memory. *)
Definition use_in_range (u : AeadUse) : Prop :=
  match u with
  | UseEvent run_id sequence => str_len run_id <= u64_max /\ sequence <= u64_max
  | UseEventBlock run_id first count size _ =>
      str_len run_id <= u64_max /\ first <= u64_max /\ count <= u64_max /\ size <= u64_max
  | UseManifest canonical => nlen canonical <= u64_max
  | UseWrappedKey context => str_len context <= u64_max
  | _ => True
  end.

Lemma len_bytes_app_inj l l' k k' :
  nlen l <= u64_max -> nlen l' <= u64_max ->
  len_bytes l ++ l ++ k = len_bytes l' ++ l' ++ k' -> l = l' /\ k = k'.
Proof.
  unfold len_bytes. intros Hl Hl' H. rewrite !N.min_r in H by done.
  apply app_inj_1 in H as [H1 H2];
    [|apply Nat2N.inj; pose proof nlen_to_be_bytes as Hn; unfold nlen in Hn; by rewrite !Hn].
  apply to_be_bytes_inj in H1; [|done..]. apply app_inj_1 in H2; [done|].
  apply Nat2N.inj. done.
Qed.

Lemma to_be_bytes_app_inj m n k k' :
  m <= u64_max -> n <= u64_max -> to_be_bytes m ++ k = to_be_bytes n ++ k' -> m = n /\ k = k'.
Proof.
  intros Hm Hn H. apply app_inj_1 in H as [H1 H2].
  - apply to_be_bytes_inj in H1; done.
  - apply Nat2N.inj. pose proof nlen_to_be_bytes as Hl. unfold nlen in Hl. by rewrite !Hl.
Qed.

Lemma length_prefixed_inj l l' :
  nlen l <= u64_max -> nlen l' <= u64_max -> len_bytes l ++ l = len_bytes l' ++ l' -> l = l'.
Proof.
  intros Hl Hl' H. eapply (len_bytes_app_inj l l' [] []); [done..|]. by rewrite !app_nil_r.
Qed.

Lemma as_bytes_inj s t : as_bytes s = as_bytes t -> s = t.
Proof. intros H. by rewrite <-(of_as_bytes s), H, of_as_bytes. Qed.

(** C24: The associated data of every AEAD call determines the kind of record
    and all that it binds (run, sequence, block range and digest, key class,
    blob hash, manifest): no two uses of a key share associated data. *)
Theorem aad_injective u w :
  use_in_range u -> use_in_range w -> aad_of u = aad_of w -> u = w.
Proof.
  destruct u, w; cbn [aad_of use_in_range]; intros Hu Hw H; try done;
    try (exfalso; revert H; clear; discriminate).
  - unfold event_aad_v2 in H. apply app_inv_head, len_bytes_app_inj in H as [E H]; [|tauto..].
    rewrite <-(app_nil_r (to_be_bytes sequence)), <-(app_nil_r (to_be_bytes sequence0)) in H.
    apply to_be_bytes_app_inj in H as [-> _]; [|tauto..]. by apply as_bytes_inj in E as ->.
  - unfold event_block_aad_v1 in H. apply app_inv_head, len_bytes_app_inj in H as [E H]; [|tauto..].
    apply to_be_bytes_app_inj in H as [-> H]; [|tauto..].
    apply to_be_bytes_app_inj in H as [-> H]; [|tauto..].
    apply to_be_bytes_app_inj in H as [-> ->]; [|tauto..]. by apply as_bytes_inj in E as ->.
  - unfold length_prefixed_aad in H. by apply app_inv_head, length_prefixed_inj in H as ->.
  - unfold length_prefixed_aad in H.
    by apply app_inv_head, length_prefixed_inj, as_bytes_inj in H as ->.
  - unfold blob_aad in H. rewrite !as_bytes_app in H.
    by apply app_inv_head, as_bytes_inj in H as ->.
Qed.

Lemma aad_injective_witness :
  use_in_range (UseEvent "run" 1) /\ (aad_of (UseEvent "run" 1) = aad_of (UseEvent "run" 2) -> 1 = 2).
Proof.
  split; [done|]. intros H.
  assert (UseEvent "run" 1 = UseEvent "run" 2) as E by (apply aad_injective; done).
  by injection E.
Defined.

(** ** A concrete serializer for the witnesses

    Records are numbered by stdpp's [Countable] and written as binary digits
    after a brace and a tag: one line of text with one structural character. *)

Module ConcreteSerde.

#[export] Instance Number_countable : Countable Number.
Proof.
  refine (inj_countable'
    (fun n => match n with PosInt n => inl n | NegInt z => inr (inl z) | Float t => inr (inr t) end)
    (fun s : N + (Z + string) => match s with
      | inl n => PosInt n | inr (inl z) => NegInt z | inr (inr t) => Float t end) _).
  by intros [].
Defined.

Notation leaf := (unit + bool + Number + string)%type.

Fixpoint to_tree (v : Value) : gen_tree leaf :=
  match v with
  | JNull => GenLeaf (inl (inl (inl tt)))
  | JBool b => GenLeaf (inl (inl (inr b)))
  | JNumber n => GenLeaf (inl (inr n))
  | JString s => GenLeaf (inr s)
  | JArray l => GenNode 0 (to_tree <$> l)
  | JObject m => GenNode 1 ((fun kv => GenNode 2 [GenLeaf (inr (fst kv)); to_tree (snd kv)]) <$> m)
  end.

Fixpoint of_tree (t : gen_tree leaf) : Value :=
  match t with
  | GenLeaf (inl (inl (inl _))) => JNull
  | GenLeaf (inl (inl (inr b))) => JBool b
  | GenLeaf (inl (inr n)) => JNumber n
  | GenLeaf (inr s) => JString s
  | GenNode O l => JArray (of_tree <$> l)
  | GenNode _ l => JObject ((fun t => match t with
      | GenNode _ [GenLeaf (inr k); v] => (k, of_tree v) | _ => ("", JNull) end) <$> l)
  end.

Lemma of_to_tree v : of_tree (to_tree v) = v.
Proof.
  induction v as [ |b|n|s|l IH|m IH] using Value_ind'; try done; cbn; f_equal.
  - induction IH as [|v l Hv _ IHl]; [done|]. cbn. by rewrite Hv, IHl.
  - induction IH as [|[k v] m Hv _ IHm]; [done|]. cbn in *. by rewrite Hv, IHm.
Qed.

#[export] Instance Value_eq_dec : EqDecision Value.
Proof.
  assert (Inj eq eq to_tree) by (intros x y H; by rewrite <-(of_to_tree x), H, of_to_tree).
  exact (inj_eq_dec to_tree).
Defined.
#[export] Instance Value_countable : Countable Value := inj_countable' to_tree of_tree of_to_tree.

#[export] Instance spec_float_eq_dec : EqDecision SpecFloat.spec_float.
Proof. solve_decision. Defined.
#[export] Instance spec_float_countable : Countable SpecFloat.spec_float.
Proof.
  refine (inj_countable'
    (fun x => match x with
      | SpecFloat.S754_zero b => inl (inl b) | SpecFloat.S754_infinity b => inl (inr b)
      | SpecFloat.S754_nan => inr None | SpecFloat.S754_finite b m e => inr (Some (b, m, e)) end)
    (fun x : bool + bool + option (bool * positive * Z) => match x with
      | inl (inl b) => SpecFloat.S754_zero b | inl (inr b) => SpecFloat.S754_infinity b
      | inr None => SpecFloat.S754_nan | inr (Some (b, m, e)) => SpecFloat.S754_finite b m e end) _).
  by intros [].
Defined.

#[export] Instance PayloadRef_eq_dec : EqDecision PayloadRef.
Proof. solve_decision. Defined.
#[export] Instance PayloadRef_countable : Countable PayloadRef.
Proof.
  refine (inj_countable
    (fun r => [encode (ref_sha256 r); encode (ref_size r); encode (ref_media_type r); encode (ref_truncated r)])
    (fun l => match l with
      | [a; b; c; d] =>
          a ← decode a; b ← decode b; c ← decode c; d ← decode d;
          Some (mkPayloadRef a b c d)
      | _ => None end) _).
  intros r. cbn beta iota. rewrite !decode_encode. by destruct r.
Defined.

#[export] Instance EventIds_eq_dec : EqDecision EventIds.
Proof. solve_decision. Defined.
#[export] Instance EventIds_countable : Countable EventIds.
Proof.
  refine (inj_countable
    (fun r => [encode (task_id r); encode (session_id r); encode (turn_id r); encode (inference_id r); encode (attempt_id r); encode (connection_id r); encode (parent_id r); encode (pid r); encode (container_id r)])
    (fun l => match l with
      | [a; b; c; d; e; f; g; h; i] =>
          a ← decode a; b ← decode b; c ← decode c; d ← decode d; e ← decode e; f ← decode f; g ← decode g; h ← decode h; i ← decode i;
          Some (mkEventIds a b c d e f g h i)
      | _ => None end) _).
  intros r. cbn beta iota. rewrite !decode_encode. by destruct r.
Defined.

#[export] Instance TerminalState_countable : Countable TerminalState.
Proof.
  refine (inj_countable'
    (fun t => match t with Complete => 0 | Error => 1 | Cancelled => 2 | Incomplete => 3 end)
    (fun n => match n with 0 => Complete | 1 => Error | 2 => Cancelled | _ => Incomplete end) _).
  by intros [].
Defined.

#[export] Instance RedactionRecord_eq_dec : EqDecision RedactionRecord.
Proof. solve_decision. Defined.
#[export] Instance RedactionRecord_countable : Countable RedactionRecord.
Proof.
  refine (inj_countable
    (fun r => [encode (rr_policy r); encode (rr_fields r); encode (rr_omitted r)])
    (fun l => match l with
      | [a; b; c] =>
          a ← decode a; b ← decode b; c ← decode c;
          Some (mkRedactionRecord a b c)
      | _ => None end) _).
  intros r. cbn beta iota. rewrite !decode_encode. by destruct r.
Defined.

#[export] Instance EventEnvelope_eq_dec : EqDecision EventEnvelope.
Proof. solve_decision. Defined.
#[export] Instance EventEnvelope_countable : Countable EventEnvelope.
Proof.
  refine (inj_countable
    (fun r => [encode (ev_schema_version r); encode (ev_event_id r); encode (ev_sequence r); encode (ev_run_id r); encode (ev_ids r); encode (ev_source r); encode (ev_event r); encode (ev_monotonic_ns r); encode (ev_wall_time r); encode (ev_raw r); encode (ev_normalized r); encode (ev_redaction r); encode (ev_confidence r); encode (ev_evidence r); encode (ev_terminal_state r)])
    (fun l => match l with
      | [a; b; c; d; e; f; g; h; i; j; k; l; m; n; o] =>
          a ← decode a; b ← decode b; c ← decode c; d ← decode d; e ← decode e; f ← decode f; g ← decode g; h ← decode h; i ← decode i; j ← decode j; k ← decode k; l ← decode l; m ← decode m; n ← decode n; o ← decode o;
          Some (mkEventEnvelope a b c d e f g h i j k l m n o)
      | _ => None end) _).
  intros r. cbn beta iota. rewrite !decode_encode. by destruct r.
Defined.

#[export] Instance EncryptedEvent_eq_dec : EqDecision EncryptedEvent.
Proof. solve_decision. Defined.
#[export] Instance EncryptedEvent_countable : Countable EncryptedEvent.
Proof.
  refine (inj_countable
    (fun r => [encode (ee_version r); encode (ee_run_id r); encode (ee_sequence r); encode (ee_nonce r); encode (ee_ciphertext r)])
    (fun l => match l with
      | [a; b; c; d; e] =>
          a ← decode a; b ← decode b; c ← decode c; d ← decode d; e ← decode e;
          Some (mkEncryptedEvent a b c d e)
      | _ => None end) _).
  intros r. cbn beta iota. rewrite !decode_encode. by destruct r.
Defined.

(** Digits of a positive, least significant first; [tag] tells types apart. *)
Fixpoint digits (p : positive) : bytes :=
  match p with xH => [] | xO q => x30 :: digits q | xI q => x31 :: digits q end.
Fixpoint of_digits (l : bytes) : positive :=
  match l with
  | [] => xH
  | b :: l' => if beqb b x30 then xO (of_digits l') else if beqb b x31 then xI (of_digits l') else xH
  end.

Lemma of_digits_digits p k : (k = [] \/ k = [LF]) -> of_digits (digits p ++ k) = p.
Proof.
  intros Hk. induction p as [p IH|p IH|]; cbn.
  - by rewrite IH.
  - by rewrite IH.
  - by destruct Hk as [-> | ->].
Qed.

Lemma digits_Forall p : Forall (fun b => b = x30 \/ b = x31) (digits p).
Proof. induction p; cbn; constructor; auto. Qed.

Definition write {A} `{Countable A} (tag : byte) (a : A) : bytes := x7b :: tag :: digits (encode a).
Definition read {A} `{Countable A} (tag : byte) (l : bytes) : option A :=
  match l with _ :: b :: l' => if beqb b tag then decode (of_digits l') else None | _ => None end.

Lemma read_write {A} `{Countable A} tag (a : A) k :
  (k = [] \/ k = [LF]) -> read tag (write tag a ++ k) = Some a.
Proof. intros Hk. cbn. by rewrite beqb_refl, of_digits_digits, decode_encode. Qed.

Lemma write_no_LF {A} `{Countable A} tag (a : A) : tag <> LF -> LF ∉ write tag a.
Proof.
  intros Ht [Hc|[Hc|Hin]%elem_of_cons]%elem_of_cons; [done..|].
  by destruct (proj1 (Forall_forall _ _) (digits_Forall (encode a)) _ Hin).
Qed.

#[export] Instance serde : Serde := {|
  encrypted_event_to_vec e := Some (write x61 e);
  encrypted_event_from_slice := read x61;
  envelope_to_vec e := Some (write x62 e);
  envelope_from_slice := read x62;
  value_from_slice l := (fun e : EventEnvelope =>
    JObject [("run_id", JString (ev_run_id e)); ("sequence", JNumber (PosInt (ev_sequence e)))])
    <$> read x62 l;
|}.

Lemma scan_digits d t l s :
  in_string s = false -> tokens s <= t -> Forall (fun b => b = x30 \/ b = x31) l ->
  try_fold (scan_byte d t) s l = Ok s.
Proof.
  intros Hs Ht Hl. induction Hl as [|b l Hb Hl IH]; [done|]. cbn [try_fold].
  assert (scan_byte d t s b = Ok s) as ->; [|done].
  unfold scan_byte. rewrite Hs. apply N.ltb_ge in Ht. 
  assert (beqb b x22 = false /\ is_open b = false /\ is_close b = false /\ is_separator b = false)
    as (-> & -> & -> & ->) by (by destruct Hb as [-> | ->]).
  cbn. by rewrite Ht.
Qed.

Lemma write_complexity {A} `{Countable A} tag (a : A) :
  (tag = x61 \/ tag = x63) -> validate_json_complexity (write tag a) = Ok tt.
Proof.
  intros Ht.
  unfold validate_json_complexity, validate_json_complexity_with_limits.
  change (write tag a) with ([x7b; tag] ++ digits (encode a)). rewrite try_fold_app.
  assert (try_fold (scan_byte MAX_JSON_NESTING_DEPTH MAX_JSON_STRUCTURAL_TOKENS) scan_start [x7b; tag]
    = Ok (mkScan false false 1 1)) as -> by (by destruct Ht as [-> | ->]).
  cbn [mbind result_bind]. by rewrite scan_digits by (done || apply digits_Forall).
Qed.

#[export] Instance serde_laws : SerdeLaws.
Proof.
  split; cbn [encrypted_event_to_vec encrypted_event_from_slice envelope_to_vec
    envelope_from_slice value_from_slice serde]; intros e b [= <-].
  - pose proof (fun k => read_write x61 e k) as Hr.
    split; [rewrite <-(app_nil_r (write _ _))|]; apply Hr; tauto.
  - split; [by apply write_no_LF|apply write_complexity; tauto].
  - done.
  - done.
  - pose proof (fun k => read_write x62 e k) as Hr.
    split; [rewrite <-(app_nil_r (write _ _))|]; apply Hr; tauto.
  - by apply write_no_LF.
  - eexists. rewrite <-(app_nil_r (write _ _)), read_write by tauto. cbn. done.
  - done.
Qed.
End ConcreteSerde.

(** ** Witnesses *)

Module CryptoExamples.
Import Concrete ConcreteSerde.

Definition nonce : bytes := replicate 24 x07.
Definition raw_key : bytes := replicate 32 x2a.
Definition key : EncryptionKey := new_key raw_key.

Definition event (sequence : N) : EventEnvelope :=
  from_pending (N.shiftl 7 76) sequence (new_pending "run" "proxy" "request" 0%Z).

Lemma framed_roundtrips_witness :
  exists encoded, encrypt_blob key nonce (as_bytes "body") "h" = Ok encoded /\
    decrypt_blob key encoded "h" = Ok (as_bytes "body").
Proof.
  eexists. split; [vm_compute; reflexivity|].
  pose proof (framed_roundtrips key nonce eq_refl) as [Hblob _].
  refine (proj2 (Hblob (as_bytes "body") "h" _ _)). vm_compute. reflexivity.
Defined.

Definition text (sequence : N) : bytes := default [] (envelope_to_vec (event sequence)).

Lemma event_record_roundtrip_witness :
  exists encoded, encrypt_event_record key nonce (text 1) "run" 1 = Ok encoded /\
    decrypt_event key encoded = Ok (text 1).
Proof.
  destruct (encrypt_event_record key nonce (text 1) "run" 1) as [encoded|e] eqn:E.
  - exists encoded. split; [done|].
    refine (proj1 (event_record_roundtrip key nonce (event 1) (text 1) encoded eq_refl eq_refl _ E)).
    vm_compute. reflexivity.
  - exfalso. apply (f_equal is_ok) in E. revert E. vm_compute. discriminate.
Defined.

Lemma key_file_roundtrip_witness :
  key_from_file 384 (key_file_text raw_key) = Ok key.
Proof. apply (key_file_roundtrip raw_key 384); done. Defined.
End CryptoExamples.
