(* ===== verification/EventLog.v ===== *)
(** * src/storage.rs: the event log on disk

    Encoding and decoding of event records and compressed event blocks, format
    detection, recovery of a log with an incomplete tail, and the streaming
    readers.  A file is its content; [None] is a file that does not exist.
    Error values keep the variant and its numbers; formatted texts are
    abbreviated. *)

From Stdlib Require Import Strings.Byte.
From S2P Require Import Prelude RustStd External Json Input Model Policy Crypto.
From stdpp Require Import options.
Local Open Scope N_scope.
#[local] Unset Default Proof Using.

Definition MAX_EVENT_RECORD_BYTES : N := 24 * 1024 * 1024.
Definition EVENT_BLOCK_HEADER : bytes := as_bytes "IOREC-EVENTS-ZSTD-BLOCKS-V1" ++ [LF].
Definition EVENT_BLOCK_CODEC : string := "zstd".
Definition EVENT_BLOCK_VERSION : N := 1.
Definition MAX_EVENT_BLOCK_EVENTS : N := 1024.
Definition MAX_EVENT_BLOCK_UNCOMPRESSED_BYTES : N := 32 * 1024 * 1024.
Definition MAX_EVENT_BLOCK_COMPRESSED_BYTES : N := 32 * 1024 * 1024 + 64 * 1024.
Definition MAX_EVENT_BLOCK_RECORD_BYTES : N := 48 * 1024 * 1024.

Inductive StorageError :=
| Io (e : IoError)
| Json
| Writer (msg : string)
| InvalidSequence (expected found : N)
| InvalidRunId (expected found : string) (sequence : N)
| InvalidEncryptionScope (expected : string) (record : N)
| EventRecordTooLarge (record max_bytes : N)
| InvalidEventBlock (msg : string)
| EventStorageBudgetExceeded (used requested limit : N)
| InvalidEnvelope (msg : string)
| DuplicateEventId (event_id : Uuid) (sequence : N)
| InvalidEventIdOrder (previous found : Uuid) (sequence : N)
| AnalysisLimitExceeded (operation : string) (limit : N)
| InvalidPolicy (msg : string)
| BlobStorageBudgetExceeded (used requested limit : N)
| BlobFileLimitExceeded (used limit : N).

Notation storage_result := (result StorageError).

(** [?] on an [io::Result]. *)
Definition from_io {A} (r : io_result A) : storage_result A := map_err Io r.

Record EventBlockRecord := mkEventBlockRecord {
  eb_version : N;
  eb_codec : string;
  eb_run_id : string;
  eb_first_sequence : N;
  eb_event_count : N;
  eb_uncompressed_bytes : N;
  eb_plaintext_sha256 : string;
  eb_encrypted : bool;
  eb_payload : string;
}.

Class SerdeBlock := {
  block_to_vec : EventBlockRecord -> option bytes;
  block_from_slice : bytes -> option EventBlockRecord;
}.

Class SerdeBlockLaws `{!SerdeBlock} := {
  block_roundtrip : forall r b, block_to_vec r = Some b -> block_from_slice (b ++ [LF]) = Some r;
  block_text : forall r b, block_to_vec r = Some b ->
    LF ∉ b /\ validate_stored_json_complexity b = Ok tt;
}.

Record RecoveryReport := mkRecoveryReport {
  valid_events : N;
  last_sequence : N;
  valid_bytes : N;
  discarded_tail_bytes : N;
  quarantine : option bytes;
}.

Record DecodedEvent := mkDecodedEvent {
  envelope : EventEnvelope;
  encrypted : bool;
}.

(** ** Lines *)

(** [reader.take(n).read_until(LF, buffer)]: the line read, with its newline
    if it was reached, and the rest. *)
Fixpoint read_until_lf (n : N) (l : bytes) : bytes * bytes :=
  match l with
  | [] => ([], [])
  | b :: l' =>
      if n =? 0 then ([], l)
      else if beqb b LF then ([b], l')
      else let '(line, rest) := read_until_lf (N.pred n) l' in (b :: line, rest)
  end.

Definition ends_with_lf (l : bytes) : bool := bool_decide (last l = Some LF).

(** [read_bounded_line] *)
Definition read_bounded_line (reader : bytes) (limit record : N) : storage_result (bytes * bytes) :=
  let '(line, rest) := read_until_lf (limit + 1) reader in
  if limit <? nlen line then Err (EventRecordTooLarge record limit) else Ok (line, rest).

Section EventLog.
Context {dig : Digest} {hx : Hex} {b64 : Base64} {aead : Aead} {zstd : Zstd}
        {serde : Serde} {serdeb : SerdeBlock}.

(** ** Encoding; nonces are the random ones drawn for the record *)

Definition encode_plaintext_envelope (e : EventEnvelope) : storage_result bytes :=
  map_err InvalidEnvelope (validate e);;
  plaintext ← ok_or (envelope_to_vec e) Json;
  from_io (validate_stored_json_complexity plaintext);;
  if MAX_EVENT_RECORD_BYTES <? sat_add (nlen plaintext) 1
  then Err (EventRecordTooLarge (ev_sequence e) MAX_EVENT_RECORD_BYTES)
  else Ok plaintext.

Definition encode_envelope (e : EventEnvelope) (encryption : option EncryptionKey) (nonce : bytes)
    : storage_result bytes :=
  plaintext ← encode_plaintext_envelope e;
  serialized ← match encryption with
               | Some key => from_io (encrypt_event_record key nonce plaintext (ev_run_id e) (ev_sequence e))
               | None => Ok plaintext
               end;
  if MAX_EVENT_RECORD_BYTES <? sat_add (nlen serialized) 1
  then Err (EventRecordTooLarge (ev_sequence e) MAX_EVENT_RECORD_BYTES)
  else Ok serialized.

Definition encode_event_block (plaintext : bytes) (run_id : string) (first_sequence event_count : N)
    (encryption : option EncryptionKey) (nonce : bytes) : storage_result bytes :=
  if (event_count =? 0) || (MAX_EVENT_BLOCK_EVENTS <? event_count)
  then Err (InvalidEventBlock "event count is outside the block safety limit")
  else if MAX_EVENT_BLOCK_UNCOMPRESSED_BYTES <? nlen plaintext
  then Err (InvalidEventBlock "uncompressed block exceeds its safety limit")
  else
    compressed ← ok_or (zstd_compress plaintext) (Io (io_error Other "zstd"));
    if MAX_EVENT_BLOCK_COMPRESSED_BYTES <? nlen compressed
    then Err (InvalidEventBlock "compressed block exceeds its safety limit")
    else
      let digest := sha256 plaintext in
      '(payload, encrypted) ←
         match encryption with
         | Some key =>
             payload ← from_io (encrypt_event_block key nonce compressed run_id first_sequence
                                  event_count (nlen plaintext) digest);
             Ok (payload, true)
         | None => Ok (compressed, false)
         end;
      serialized ← ok_or (block_to_vec
          (mkEventBlockRecord EVENT_BLOCK_VERSION EVENT_BLOCK_CODEC run_id first_sequence
             event_count (nlen plaintext) (hex_encode digest) encrypted (b64_encode payload))) Json;
      if MAX_EVENT_BLOCK_RECORD_BYTES <? sat_add (nlen serialized) 1
      then Err (InvalidEventBlock "encoded block exceeds its record safety limit")
      else Ok serialized.

(** ** Decoding *)

Definition decode_event (encoded : bytes) (encryption : option EncryptionKey)
    : storage_result EventEnvelope :=
  from_io (validate_stored_json_complexity encoded);;
  event ←
    (if is_encrypted_event encoded then
       key ← ok_or encryption (Io (io_error PermissionDenied
                                     "encrypted event log requires the matching key"));
       plaintext ← from_io (decrypt_event key encoded);
       from_io (validate_stored_json_complexity plaintext);;
       ok_or (envelope_from_slice plaintext) Json
     else ok_or (envelope_from_slice encoded) Json);
  map_err InvalidEnvelope (validate event);;
  Ok event.

(** The loop over the events embedded in a block: [count] more events, the
    next one with sequence [first_sequence + offset]. *)
Fixpoint decode_embedded (count : nat) (offset : N) (r : EventBlockRecord) (reader : bytes)
    (events : list DecodedEvent) : storage_result (list DecodedEvent * bytes) :=
  match count with
  | O => Ok (events, reader)
  | S count' =>
      let logical_record := sat_add (eb_first_sequence r) offset in
      '(event_bytes, reader) ← read_bounded_line reader MAX_EVENT_RECORD_BYTES logical_record;
      if bool_decide (event_bytes = []) then
        Err (Io (io_error UnexpectedEof "event log changed while it was being read"))
      else if negb (ends_with_lf event_bytes) then
        Err (InvalidEventBlock "incomplete embedded event")
      else
        envelope ← decode_event event_bytes None;
        if negb (ev_sequence envelope =? logical_record)
        then Err (InvalidSequence logical_record (ev_sequence envelope))
        else if negb (str_eqb (ev_run_id envelope) (eb_run_id r))
        then Err (InvalidRunId (eb_run_id r) (ev_run_id envelope) (ev_sequence envelope))
        else decode_embedded count' (offset + 1) r reader
               (events ++ [mkDecodedEvent envelope (eb_encrypted r)])
  end.

Definition decode_event_block (encoded : bytes) (encryption : option EncryptionKey)
    : storage_result (list DecodedEvent) :=
  from_io (validate_stored_json_complexity encoded);;
  record ← ok_or (block_from_slice encoded) Json;
  if negb (eb_version record =? EVENT_BLOCK_VERSION)
     || negb (str_eqb (eb_codec record) EVENT_BLOCK_CODEC)
  then Err (InvalidEventBlock "unsupported version or codec")
  else if str_is_empty (eb_run_id record) || (256 <? str_len (eb_run_id record))
     || str_has_control (eb_run_id record) || (eb_first_sequence record =? 0)
     || (eb_event_count record =? 0) || (MAX_EVENT_BLOCK_EVENTS <? eb_event_count record)
  then Err (InvalidEventBlock "invalid run or sequence metadata")
  else if (eb_uncompressed_bytes record =? 0)
     || (MAX_EVENT_BLOCK_UNCOMPRESSED_BYTES <? eb_uncompressed_bytes record)
  then Err (InvalidEventBlock "exceeds the uncompressed safety limit")
  else if negb (canonical_hash (eb_plaintext_sha256 record))
  then Err (InvalidEventBlock "non-canonical plaintext digest")
  else
    digest ← ok_or (hex_decode (eb_plaintext_sha256 record))
               (InvalidEventBlock "invalid plaintext digest");
    if negb (nlen digest =? 32) then Err (InvalidEventBlock "invalid plaintext digest length")
    else
      payload ← ok_or (b64_decode (eb_payload record))
                  (InvalidEventBlock "invalid base64 payload");
      compressed ←
        (if eb_encrypted record then
           key ← ok_or encryption (Io (io_error PermissionDenied
                                         "encrypted event-block log requires the matching key"));
           from_io (decrypt_event_block key payload (eb_run_id record) (eb_first_sequence record)
                      (eb_event_count record) (eb_uncompressed_bytes record) digest)
         else Ok payload);
      if MAX_EVENT_BLOCK_COMPRESSED_BYTES <? nlen compressed
      then Err (InvalidEventBlock "exceeds the compressed safety limit")
      else
        plaintext ← ok_or (zstd_decompress compressed (eb_uncompressed_bytes record + 1))
                      (Io (io_error InvalidData "zstd"));
        if negb (nlen plaintext =? eb_uncompressed_bytes record)
        then Err (InvalidEventBlock "unexpected decompressed size")
        else if negb (bool_decide (sha256 plaintext = digest))
        then Err (InvalidEventBlock "plaintext digest does not match")
        else
          '(events, rest) ← decode_embedded (N.to_nat (eb_event_count record)) 0 record plaintext [];
          if negb (bool_decide (rest = []))
          then Err (InvalidEventBlock "contains trailing plaintext")
          else Ok events.

(** ** Format detection and recovery *)

Definition detect_event_log_format (file : option bytes) : option EventLogFormat :=
  match file with
  | None => None
  | Some [] => None
  | Some content =>
      if starts_with (ntake (nlen EVENT_BLOCK_HEADER) content) EVENT_BLOCK_HEADER
      then Some ZstdBlocks else Some Jsonl
  end.

(** The running totals of the recovery loops. *)
Record Progress := mkProgress {
  p_count : N;
  p_last_sequence : N;
  p_valid_bytes : N;
}.

Definition next_event (p : Progress) (e : EventEnvelope) : storage_result Progress :=
  let expected := sat_add (p_last_sequence p) 1 in
  if negb (ev_sequence e =? expected) then Err (InvalidSequence expected (ev_sequence e))
  else Ok (mkProgress (sat_add (p_count p) 1) (ev_sequence e) (p_valid_bytes p)).

Definition count_bytes (p : Progress) (bytes_read : N) : Progress :=
  mkProgress (p_count p) (p_last_sequence p) (sat_add (p_valid_bytes p) bytes_read).

(** The loop of [recover_jsonl_records].  Every iteration that continues has
    consumed a line, so [length reader] rounds of fuel are enough. *)
Fixpoint recover_jsonl_loop (fuel : nat) (reader : bytes) (encryption : option EncryptionKey)
    (p : Progress) : storage_result Progress :=
  match fuel with
  | O => Ok p
  | S fuel' =>
      let '(buffer, rest) := read_until_lf (MAX_EVENT_RECORD_BYTES + 1) reader in
      if bool_decide (buffer = []) then Ok p
      else if MAX_EVENT_RECORD_BYTES <? nlen buffer
      then Err (EventRecordTooLarge (sat_add (p_count p) 1) MAX_EVENT_RECORD_BYTES)
      else if negb (ends_with_lf buffer) then Ok p
      else
        envelope ← decode_event buffer encryption;
        p ← next_event p envelope;
        recover_jsonl_loop fuel' rest encryption (count_bytes p (nlen buffer))
  end.

Definition recover_jsonl_records (content : bytes) (encryption : option EncryptionKey)
    : storage_result Progress :=
  recover_jsonl_loop (S (length content)) content encryption (mkProgress 0 0 0).

(** The loop of [recover_zstd_blocks]. *)
Fixpoint recover_zstd_loop (fuel : nat) (reader : bytes) (encryption : option EncryptionKey)
    (p : Progress) : storage_result Progress :=
  match fuel with
  | O => Ok p
  | S fuel' =>
      let '(buffer, rest) := read_until_lf (MAX_EVENT_BLOCK_RECORD_BYTES + 1) reader in
      if bool_decide (buffer = []) then Ok p
      else if MAX_EVENT_BLOCK_RECORD_BYTES <? nlen buffer
      then Err (InvalidEventBlock "physical block exceeds the record limit")
      else if negb (ends_with_lf buffer) then Ok p
      else
        decoded ← decode_event_block buffer encryption;
        p ← try_fold (fun p event => next_event p (envelope event)) p decoded;
        recover_zstd_loop fuel' rest encryption (count_bytes p (nlen buffer))
  end.

Definition recover_zstd_blocks (content : bytes) (encryption : option EncryptionKey)
    : storage_result Progress :=
  let '(buffer, rest) := read_until_lf (nlen content) content in
  if negb (bool_decide (buffer = EVENT_BLOCK_HEADER)) then
    if ends_with_lf buffer then Err (InvalidEventBlock "event-block header is invalid")
    else Ok (mkProgress 0 0 0)
  else recover_zstd_loop (S (length content)) rest encryption (mkProgress 0 0 (nlen buffer)).

(** [recover_events_with_key]: the report and the file afterwards.  With
    [repair] an incomplete tail is moved to a quarantine file. *)
Definition recover_events_with_key (file : option bytes) (repair : bool)
    (encryption : option EncryptionKey) : storage_result (RecoveryReport * option bytes) :=
  match file with
  | None => Ok (mkRecoveryReport 0 0 0 0 None, None)
  | Some content =>
      p ← match default Jsonl (detect_event_log_format file) with
          | Jsonl => recover_jsonl_records content encryption
          | ZstdBlocks => recover_zstd_blocks content encryption
          end;
      let discarded := sat_sub (nlen content) (p_valid_bytes p) in
      let repaired := (0 <? discarded) && repair in
      Ok (mkRecoveryReport (p_count p) (p_last_sequence p) (p_valid_bytes p) discarded
            (if repaired then Some (ndrop (p_valid_bytes p) content) else None),
          Some (if repaired then ntake (p_valid_bytes p) content else content))
  end.

(** ** [DecodedEventReader] *)

Record DecodedEventReader := mkReader {
  reader : bytes;
  format : EventLogFormat;
  encryption : option EncryptionKey;
  buffered : list DecodedEvent;
  physical_record : N;
}.

Definition open_reader (file : option bytes) (encryption : option EncryptionKey)
    : storage_result DecodedEventReader :=
  let format := default Jsonl (detect_event_log_format file) in
  content ← ok_or file (Io (io_error NotFound "no such file"));
  rest ← match format with
         | ZstdBlocks =>
             let '(header, rest) := read_until_lf (nlen content) content in
             if bool_decide (header = EVENT_BLOCK_HEADER) then Ok rest
             else Err (InvalidEventBlock "event-block header is incomplete or invalid")
         | Jsonl => Ok content
         end;
  Ok (mkReader rest format encryption [] 0).

Definition changed_error : StorageError :=
  Io (io_error UnexpectedEof "event log changed while it was being read").

Definition next_decoded (r : DecodedEventReader)
    : storage_result (option DecodedEvent * DecodedEventReader) :=
  match buffered r with
  | event :: buffered' =>
      Ok (Some event, mkReader (reader r) (format r) (encryption r) buffered' (physical_record r))
  | [] =>
      let record := sat_add (physical_record r) 1 in
      match format r with
      | Jsonl =>
          '(encoded, rest) ← read_bounded_line (reader r) MAX_EVENT_RECORD_BYTES record;
          if bool_decide (encoded = []) then
            Ok (None, mkReader rest (format r) (encryption r) [] record)
          else if negb (ends_with_lf encoded) then Err changed_error
          else
            let encrypted := is_encrypted_event encoded in
            envelope ← decode_event encoded (encryption r);
            Ok (Some (mkDecodedEvent envelope encrypted),
                mkReader rest (format r) (encryption r) [] record)
      | ZstdBlocks =>
          '(encoded, rest) ← read_bounded_line (reader r) MAX_EVENT_BLOCK_RECORD_BYTES record;
          if bool_decide (encoded = []) then
            Ok (None, mkReader rest (format r) (encryption r) [] record)
          else if negb (ends_with_lf encoded) then Err changed_error
          else
            events ← decode_event_block encoded (encryption r);
            match events with
            | [] => Err (InvalidEventBlock "physical block contains no events")
            | event :: buffered' =>
                Ok (Some event, mkReader rest (format r) (encryption r) buffered' record)
            end
      end
  end.

(** ** Visitors; a visitor is a fallible fold over the events *)

Fixpoint visit_events {S} (n : nat) (visitor : S -> EventEnvelope -> storage_result S)
    (r : DecodedEventReader) (s : S) : storage_result S :=
  match n with
  | O => Ok s
  | S n' =>
      '(event, r) ← next_decoded r;
      event ← ok_or event changed_error;
      s ← visitor s (envelope event);
      visit_events n' visitor r s
  end.

Definition for_each_event_with_key {S} (file : option bytes) (encryption : option EncryptionKey)
    (visitor : S -> EventEnvelope -> storage_result S) (s : S)
    : storage_result (RecoveryReport * S) :=
  '(report, _) ← recover_events_with_key file false encryption;
  r ← open_reader file encryption;
  s ← visit_events (N.to_nat (valid_events report)) visitor r s;
  Ok (report, s).

(** The checks applied to a decoded event of a run. *)
Definition check_run_event (expected_run_id : string) (expect_encrypted : bool) (record : N)
    (event : DecodedEvent) : storage_result unit :=
  if negb (Bool.eqb (encrypted event) expect_encrypted) then
    Err (InvalidEncryptionScope
           (if expect_encrypted then "encrypted event" else "plaintext event") record)
  else
    let e := envelope event in
    if negb (str_eqb (ev_run_id e) expected_run_id)
    then Err (InvalidRunId expected_run_id (ev_run_id e) (ev_sequence e))
    else Ok tt.

Definition check_event_id (previous : option Uuid) (e : EventEnvelope) : storage_result unit :=
  match previous with
  | None => Ok tt
  | Some previous =>
      if ev_event_id e =? previous then Err (DuplicateEventId (ev_event_id e) (ev_sequence e))
      else if ev_event_id e <? previous
      then Err (InvalidEventIdOrder previous (ev_event_id e) (ev_sequence e))
      else Ok tt
  end.

Fixpoint visit_run_events {S} (n : nat) (record : N) (expected_run_id : string)
    (expect_encrypted : bool) (visitor : S -> EventEnvelope -> storage_result S)
    (r : DecodedEventReader) (previous : option Uuid) (s : S) : storage_result S :=
  match n with
  | O => Ok s
  | S n' =>
      '(event, r) ← next_decoded r;
      event ← ok_or event changed_error;
      check_run_event expected_run_id expect_encrypted record event;;
      check_event_id previous (envelope event);;
      s ← visitor s (envelope event);
      visit_run_events n' (record + 1) expected_run_id expect_encrypted visitor r
        (Some (ev_event_id (envelope event))) s
  end.

Definition for_each_run_event_with_key {S} (file : option bytes) (expected_run_id : string)
    (encryption : option EncryptionKey) (visitor : S -> EventEnvelope -> storage_result S) (s : S)
    : storage_result (RecoveryReport * S) :=
  '(report, _) ← recover_events_with_key file false encryption;
  r ← open_reader file encryption;
  s ← visit_run_events (N.to_nat (valid_events report)) 1 expected_run_id
        (match encryption with Some _ => true | None => false end) visitor r None s;
  Ok (report, s).

(** ** [RunEventReader] *)

Record RunEventReader := mkRunEventReader {
  re_reader : DecodedEventReader;
  re_expected_run_id : string;
  re_expect_encrypted : bool;
  re_report : RecoveryReport;
  re_next_record : N;
  re_previous_event_id : option Uuid;
  re_failed : bool;
}.

Definition open_run_reader (file : option bytes) (expected_run_id : string)
    (encryption : option EncryptionKey) : storage_result RunEventReader :=
  '(report, _) ← recover_events_with_key file false encryption;
  if negb (discarded_tail_bytes report =? 0) then
    Err (Io (io_error InvalidData
      "event log has an incomplete final record; recover it before streaming"))
  else
    r ← open_reader file encryption;
    Ok (mkRunEventReader r expected_run_id
          (match encryption with Some _ => true | None => false end) report 1 None false).

(** [Iterator::next]: the item, if any, and the reader afterwards. *)
Definition run_reader_next (r : RunEventReader)
    : option (storage_result EventEnvelope) * RunEventReader :=
  if re_failed r || (valid_events (re_report r) <? re_next_record r) then (None, r)
  else
    let record := re_next_record r in
    let step :=
      '(event, reader) ← next_decoded (re_reader r);
      event ← ok_or event changed_error;
      check_run_event (re_expected_run_id r) (re_expect_encrypted r) record event;;
      (if negb (ev_sequence (envelope event) =? record)
       then Err (InvalidSequence record (ev_sequence (envelope event))) else Ok tt);;
      check_event_id (re_previous_event_id r) (envelope event);;
      Ok (envelope event, reader) in
    match step with
    | Ok (e, reader) =>
        (Some (Ok e),
         mkRunEventReader reader (re_expected_run_id r) (re_expect_encrypted r) (re_report r)
           (sat_add record 1) (Some (ev_event_id e)) false)
    | Err error =>
        (Some (Err error),
         mkRunEventReader (re_reader r) (re_expected_run_id r) (re_expect_encrypted r)
           (re_report r) (sat_add record 1) (re_previous_event_id r) true)
    end.

(** Iterating at most [n] times. *)
Fixpoint run_reader_collect (n : nat) (r : RunEventReader) : list (storage_result EventEnvelope) :=
  match n with
  | O => []
  | S n' =>
      match run_reader_next r with
      | (Some item, r') => item :: run_reader_collect n' r'
      | (None, _) => []
      end
  end.
End EventLog.

(** ** A concrete block serializer for the witnesses *)

Module ConcreteBlock.
Import ConcreteSerde.

#[export] Instance EventBlockRecord_eq_dec : EqDecision EventBlockRecord.
Proof. solve_decision. Defined.
#[export] Instance EventBlockRecord_countable : Countable EventBlockRecord.
Proof.
  refine (inj_countable
    (fun r => [encode (eb_version r); encode (eb_codec r); encode (eb_run_id r);
               encode (eb_first_sequence r); encode (eb_event_count r);
               encode (eb_uncompressed_bytes r); encode (eb_plaintext_sha256 r);
               encode (eb_encrypted r); encode (eb_payload r)])
    (fun l => match l with
      | [a; b; c; d; e; f; g; h; i] =>
          a ← decode a; b ← decode b; c ← decode c; d ← decode d; e ← decode e; f ← decode f;
          g ← decode g; h ← decode h; i ← decode i;
          Some (mkEventBlockRecord a b c d e f g h i)
      | _ => None end) _).
  intros r. cbn beta iota. rewrite !decode_encode. by destruct r.
Defined.

#[export] Instance serde_block : SerdeBlock := {|
  block_to_vec r := Some (write x63 r);
  block_from_slice := read x63;
|}.

#[export] Instance serde_block_laws : SerdeBlockLaws.
Proof.
  split; cbn [block_to_vec block_from_slice serde_block]; intros r b [= <-].
  - apply (read_write x63 r [LF]). by right.
  - split; [by apply write_no_LF|]. apply validate_stored_weaker, write_complexity. by right.
Qed.
End ConcreteBlock.
