(* ===== verification/EventLogSpec.v ===== *)
(** * What the event log guarantees

    Records and blocks written by the encoders decode to what was written;
    any prefix of a log, as a crash leaves it, recovers to the events whose
    lines are complete; the readers return exactly the events written. *)

From Stdlib Require Import Strings.Byte.
From S2P Require Import Prelude RustStd External Json Input Model Policy Crypto EventLog.
From stdpp Require Import sorting options.
Local Open Scope N_scope.
#[local] Unset Default Proof Using.

(** ** Reading lines *)

Lemma read_until_lf_line n line rest :
  LF ∉ line -> nlen line + 1 <= n ->
  read_until_lf n (line ++ LF :: rest) = (line ++ [LF], rest).
Proof.
  revert n. induction line as [|b line IH]; intros n Hlf Hn; cbn.
  - rewrite (proj2 (N.eqb_neq _ _)) by nlia. done.
  - apply not_elem_of_cons in Hlf as [Hb Hlf].
    rewrite (proj2 (N.eqb_neq _ _)) by nlia. rewrite (proj2 (beqb_false _ _)) by done.
    rewrite IH by (done || nlia). done.
Qed.

Lemma read_until_lf_tail n tail : LF ∉ tail -> nlen tail <= n -> read_until_lf n tail = (tail, []).
Proof.
  revert n. induction tail as [|b tail IH]; intros n Hlf Hn; cbn; [done|].
  apply not_elem_of_cons in Hlf as [Hb Hlf].
  rewrite (proj2 (N.eqb_neq _ _)) by nlia. rewrite (proj2 (beqb_false _ _)) by done.
  rewrite IH by (done || nlia). done.
Qed.

Lemma read_until_lf_app n l line rest : read_until_lf n l = (line, rest) -> l = line ++ rest.
Proof.
  revert n line. induction l as [|b l IH]; intros n line; cbn; [by intros [= <- <-]|].
  case_match; [by intros [= <- <-]|]. case_match; [by intros [= <- <-]|].
  destruct (read_until_lf (N.pred n) l) as [x r] eqn:E. intros [= <- <-]. cbn. f_equal. by eapply IH.
Qed.

(** The only newline of a line read is its last byte. *)
Lemma read_until_lf_inner n l line rest x :
  read_until_lf n l = (line, rest) -> line = x ++ [LF] -> LF ∉ x.
Proof.
  revert n line x. induction l as [|b l IH]; intros n line x; cbn.
  { intros [= <- <-] E. by destruct x. }
  case_match; [by intros [= <- <-] E; destruct x|]. case_match eqn:Eb.
  { intros [= <- <-] E. destruct x as [|b' x]; [apply not_elem_of_nil|].
    injection E as _ E. by destruct x. }
  destruct (read_until_lf (N.pred n) l) as [y r] eqn:E. intros [= <- <-] Ey.
  destruct x as [|b' x]; [apply not_elem_of_nil|]. injection Ey as -> Ey.
  apply not_elem_of_cons. split; [|by eapply IH]. by apply beqb_false, not_eq_sym in Eb.
Qed.

Lemma read_until_lf_nil n l rest : 0 < n -> read_until_lf n l = ([], rest) -> l = [].
Proof.
  destruct l as [|b l]; [done|]. cbn. intros Hn.
  rewrite (proj2 (N.eqb_neq _ _)) by lia. case_match; [done|].
  by destruct (read_until_lf (N.pred n) l).
Qed.

Lemma ends_with_lf_line line : ends_with_lf (line ++ [LF]) = true.
Proof. unfold ends_with_lf. apply bool_decide_eq_true_2. by rewrite last_snoc. Qed.

Lemma ends_with_lf_tail tail : LF ∉ tail -> ends_with_lf tail = false.
Proof.
  intros Hlf. unfold ends_with_lf. apply bool_decide_eq_false_2.
  intros Hl. by apply last_Some_elem_of in Hl.
Qed.

Lemma line_not_nil line : bool_decide (line ++ [LF] = []) = false.
Proof. apply bool_decide_eq_false_2. by destruct line. Qed.

(** Lines with their terminators. *)
Definition join_log (lines : list bytes) : bytes := concat (map (fun line => line ++ [LF]) lines).

Lemma join_log_cons line lines : join_log (line :: lines) = line ++ LF :: join_log lines.
Proof. unfold join_log. cbn. by rewrite <-app_assoc. Qed.

Lemma join_log_app l k : join_log (l ++ k) = join_log l ++ join_log k.
Proof. unfold join_log. by rewrite map_app, concat_app. Qed.

Lemma join_log_split header j (lines : list bytes) k :
  header ++ join_log (take j lines ++ take k (drop j lines)) =
  (header ++ join_log (take j lines)) ++ join_log (take k (drop j lines)).
Proof. by rewrite join_log_app, app_assoc. Qed.

(** A prefix of a log is the log of its first lines and an unterminated
    piece of the next. *)
Lemma join_log_prefix lines p :
  p `prefix_of` join_log lines -> Forall (fun line => LF ∉ line) lines ->
  exists k tail, p = join_log (take k lines) ++ tail /\ LF ∉ tail /\
    (tail = [] \/ exists line, lines !! k = Some line /\ tail `prefix_of` line).
Proof.
  revert p. induction lines as [|line lines IH]; intros p Hp Hlf.
  { exists 0%nat, []. apply prefix_nil_inv in Hp as ->. split_and!; [done|set_solver|by left]. }
  apply Forall_cons in Hlf as [Hl Hlf]. rewrite join_log_cons in Hp.
  destruct (decide (length p <= length line)%nat) as [Hle|Hgt].
  - exists 0%nat, p. destruct Hp as [r Hr].
    assert (line = p ++ take (length line - length p) r) as E.
    { transitivity (take (length line) (p ++ r)).
      - by rewrite <-Hr, take_app_length.
      - by rewrite take_app_ge by done. }
    split_and!; [done| |].
    + rewrite E in Hl. set_solver.
    + right. exists line. split; [done|]. exists (take (length line - length p) r). done.
  - destruct Hp as [r Hr].
    assert (exists q, p = line ++ LF :: q) as [q ->].
    { exists (drop (length line + 1) p). rewrite (cons_middle LF).
      transitivity (take (length line + 1) p ++ drop (length line + 1) p); [by rewrite take_drop|].
      rewrite app_assoc. f_equal.
      transitivity (take (length line + 1) (line ++ LF :: join_log lines)).
      - rewrite Hr. by rewrite take_app_le by lia.
      - rewrite cons_middle, app_assoc, take_app_le by (rewrite length_app; cbn; lia).
        apply take_ge. rewrite length_app. cbn. lia. }
    rewrite <-app_assoc in Hr. apply app_inv_head in Hr. injection Hr as Hr.
    destruct (IH q) as (k & tail & -> & Ht & Htail); [by exists r|done|].
    exists (S k), tail. cbn [take]. rewrite join_log_cons, <-app_assoc. done.
Qed.

Lemma join_log_take_line k (lines : list bytes) line tail :
  lines !! k = Some line -> tail `prefix_of` line -> nlen tail <= nlen line.
Proof. intros _ [r ->]. nlia. Qed.

Section Spec.
Context {dig : Digest} {hx : Hex} {b64 : Base64} {aead : Aead} {zstd : Zstd}
        {serde : Serde} {serdeb : SerdeBlock}.
Context {digl : DigestLaws} {hxl : HexLaws} {b64l : Base64Laws} {aeadl : AeadLaws}
        {zstdl : ZstdLaws} {serdel : SerdeLaws} {serdebl : SerdeBlockLaws}.
Implicit Types (key : option EncryptionKey) (e : EventEnvelope) (line : bytes).

(** ** Records *)

(** [line] is what the writer stored for [e]. *)
Definition written key e line : Prop :=
  exists nonce, nlen nonce = 24 /\ encode_envelope e key nonce = Ok line.

Lemma encode_plaintext_ok e text :
  encode_plaintext_envelope e = Ok text ->
  validate e = Ok tt /\ envelope_to_vec e = Some text /\
  validate_stored_json_complexity text = Ok tt /\ nlen text + 1 <= MAX_EVENT_RECORD_BYTES.
Proof.
  unfold encode_plaintext_envelope, from_io. intros H. inv_ok.
  repeat match goal with u : unit |- _ => destruct u end.
  case_match; [done|]. inv_ok. reflect_N. unfold sat_add in *.
  split_and!; try done. unfold MAX_EVENT_RECORD_BYTES, u64_max in *. lia.
Qed.

Lemma decode_plaintext_line e text :
  encode_plaintext_envelope e = Ok text ->
  decode_event (text ++ [LF]) None = Ok e /\ is_encrypted_event (text ++ [LF]) = false.
Proof.
  intros (Hv & Ht & Hc & _)%encode_plaintext_ok.
  destruct (envelope_not_encrypted _ _ Ht) as [_ Hne].
  assert (is_encrypted_event (text ++ [LF]) = false) as Henc
    by (unfold is_encrypted_event; rewrite Hne; apply andb_false_r).
  split; [|done]. unfold decode_event, from_io. unfold validate_stored_json_complexity in *.
  rewrite validate_json_LF, Hc, Henc. cbn [map_err mbind result_bind].
  rewrite (proj2 (envelope_roundtrip _ _ Ht)). cbn [ok_or mbind result_bind]. by rewrite Hv.
Qed.

Lemma encode_envelope_ok e key nonce line :
  encode_envelope e key nonce = Ok line ->
  exists text, encode_plaintext_envelope e = Ok text /\
    match key with
    | Some k => encrypt_event_record k nonce text (ev_run_id e) (ev_sequence e) = Ok line
    | None => line = text
    end /\ nlen line + 1 <= MAX_EVENT_RECORD_BYTES.
Proof.
  unfold encode_envelope, from_io. intros H. inv_ok. exists x. split; [done|].
  case_match eqn:E; [done|]. inv_ok. reflect_N. unfold sat_add in *.
  split; [destruct key; by inv_ok|]. unfold MAX_EVENT_RECORD_BYTES, u64_max in *. lia.
Qed.

Lemma encrypt_event_record_no_LF k nonce text run seq line :
  encrypt_event_record k nonce text run seq = Ok line -> LF ∉ line.
Proof.
  unfold encrypt_event_record. intros H. inv_ok. destruct x. inv_ok.
  exact (proj1 (encrypted_event_text _ _ H)).
Qed.

Lemma decrypt_line k nonce e text line :
  nlen nonce = 24 -> encode_plaintext_envelope e = Ok text ->
  encrypt_event_record k nonce text (ev_run_id e) (ev_sequence e) = Ok line ->
  decode_event (line ++ [LF]) (Some k) = Ok e /\ is_encrypted_event (line ++ [LF]) = true.
Proof.
  intros Hn (Hv & Ht & Hc & _)%encode_plaintext_ok H.
  destruct (decrypt_event_encrypt_record k nonce e text line [LF] ltac:(by right) Hn Ht Hc H)
    as [Hd Henc].
  split; [|done]. unfold decode_event, from_io.
  assert (validate_stored_json_complexity (line ++ [LF]) = Ok tt) as ->.
  { apply validate_stored_weaker. unfold is_encrypted_event in Henc.
    apply andb_true_iff in Henc as [Henc _]. by destruct (validate_json_complexity _) as [[]|]. }
  rewrite Henc. cbn [map_err mbind result_bind ok_or]. rewrite Hd. cbn [map_err mbind result_bind].
  rewrite Hc. cbn [map_err mbind result_bind]. rewrite (proj1 (envelope_roundtrip _ _ Ht)).
  cbn [ok_or mbind result_bind]. by rewrite Hv.
Qed.

Definition key_given key : bool := match key with Some _ => true | None => false end.

(** A stored record decodes to its event, is one line, and fits. *)
Lemma written_line key e line :
  written key e line ->
  decode_event (line ++ [LF]) key = Ok e /\
  is_encrypted_event (line ++ [LF]) = key_given key /\
  LF ∉ line /\ nlen line + 1 <= MAX_EVENT_RECORD_BYTES.
Proof.
  intros (nonce & Hn & H). apply encode_envelope_ok in H as (text & Ht & Hl & Hlen).
  destruct key as [k|].
  - destruct (decrypt_line _ _ _ _ _ Hn Ht Hl). split_and!; try done.
    by eapply encrypt_event_record_no_LF.
  - subst line. destruct (decode_plaintext_line _ _ Ht). split_and!; try done.
    apply encode_plaintext_ok in Ht as (_ & Ht & _). by eapply envelope_text.
Qed.

(** ** A log of records *)

(** Sequence numbers are consecutive, starting after [last]. *)
Fixpoint sequenced (last : N) (es : list EventEnvelope) : Prop :=
  match es with
  | [] => True
  | e :: es' => ev_sequence e = last + 1 /\ last + 1 < u64_max /\ sequenced (last + 1) es'
  end.

Lemma sequenced_app last es es' :
  sequenced last (es ++ es') <-> sequenced last es /\ sequenced (last + nlen es) es'.
Proof.
  revert last. induction es as [|e es IH]; intros last; cbn.
  - rewrite nlen_nil, N.add_0_r. tauto.
  - rewrite IH, nlen_cons. replace (last + 1 + nlen es) with (last + (nlen es + 1)) by lia. tauto.
Qed.

Lemma sequenced_increasing n es : sequenced n es ->
  Forall (fun e => n < ev_sequence e) es /\ StronglySorted (fun e e' => ev_sequence e < ev_sequence e') es.
Proof.
  revert n. induction es as [|e es IH]; intros n; [by repeat constructor|]. cbn. intros (He & _ & Hs).
  destruct (IH _ Hs) as [Hf Hsorted]. split; constructor; [lia| |done|].
  - eapply Forall_impl; [exact Hf|]. cbn. lia.
  - eapply Forall_impl; [exact Hf|]. cbn. lia.
Qed.

Lemma sequenced_take last es k : sequenced last es -> sequenced last (take k es).
Proof. rewrite <-(take_drop k es) at 1. by intros [? _]%sequenced_app. Qed.

Definition advance (p : Progress) (events bytes : N) : Progress :=
  mkProgress (p_count p + events) (p_last_sequence p + events) (p_valid_bytes p + bytes).

(** The totals stay within [u64] while [bytes] more are read. *)
Definition room (p : Progress) (events bytes : N) : Prop :=
  p_count p + events <= u64_max /\ p_last_sequence p + events <= u64_max /\
  p_valid_bytes p + bytes <= u64_max.

Lemma recover_jsonl_loop_spec key es lines tail fuel p :
  Forall2 (written key) es lines -> sequenced (p_last_sequence p) es ->
  LF ∉ tail -> nlen tail <= MAX_EVENT_RECORD_BYTES ->
  room p (nlen es) (nlen (join_log lines)) ->
  (length lines < fuel)%nat ->
  recover_jsonl_loop fuel (join_log lines ++ tail) key p =
    Ok (advance p (nlen es) (nlen (join_log lines))).
Proof.
  intros Hw. revert fuel p. induction Hw as [|e line es lines Hw Hws IH];
    intros fuel p Hs Ht Htl Hr Hf; (destruct fuel as [|fuel]; [cbn in Hf; lia|]).
  - cbn [recover_jsonl_loop join_log map concat app].
    rewrite read_until_lf_tail by (done || lia).
    destruct p as [c s v]; unfold advance; cbn [p_count p_last_sequence p_valid_bytes].
    rewrite !nlen_nil, !N.add_0_r.
    case_bool_decide; [done|]. rewrite (proj2 (N.ltb_ge _ _)) by done.
    by rewrite ends_with_lf_tail.
  - destruct (written_line _ _ _ Hw) as (Hd & _ & Hlf & Hlen).
    destruct Hs as (Hseq & Hmax & Hs). destruct Hr as (Hr1 & Hr2 & Hr3).
    rewrite join_log_cons, <-app_assoc. cbn [recover_jsonl_loop app].
    rewrite read_until_lf_line by (done || lia).
    rewrite line_not_nil, (proj2 (N.ltb_ge _ _)), ends_with_lf_line by nlia.
    cbn [negb]. rewrite Hd. cbn [mbind result_bind].
    rewrite join_log_cons in Hr3.
    unfold next_event. rewrite sat_add_exact, Hseq, N.eqb_refl by nlia. cbn [negb mbind result_bind].
    rewrite IH; try done.
    + f_equal. unfold advance, count_bytes. cbn [p_count p_last_sequence p_valid_bytes].
      rewrite !sat_add_exact by nlia. f_equal; nlia.
    + unfold room, count_bytes. cbn [p_count p_last_sequence p_valid_bytes].
      rewrite !sat_add_exact by nlia. nlia.
    + cbn in Hf. lia.
Qed.

(** ** Blocks *)

Definition plain_line e line : Prop := encode_plaintext_envelope e = Ok line.

(** [line] is what the writer stored for the events [es] as one block. *)
Definition written_block key (es : list EventEnvelope) line : Prop :=
  exists texts nonce run_id last,
    nlen nonce = 24 /\ Forall2 plain_line es texts /\
    sequenced last es /\ Forall (fun e => ev_run_id e = run_id) es /\
    encode_event_block (join_log texts) run_id (last + 1) (nlen es) key nonce = Ok line.

Lemma decode_embedded_spec r es texts rest last offset acc :
  Forall2 plain_line es texts -> sequenced last es ->
  Forall (fun e => ev_run_id e = eb_run_id r) es ->
  eb_first_sequence r + offset = last + 1 ->
  decode_embedded (length es) offset r (join_log texts ++ rest) acc =
    Ok (acc ++ map (fun e => mkDecodedEvent e (eb_encrypted r)) es, rest).
Proof.
  intros Hp. revert last offset acc. induction Hp as [|e text es texts Hp Hps IH];
    intros last offset acc Hs Hrun Hoff; cbn [length decode_embedded].
  { cbn. by rewrite app_nil_r. }
  apply Forall_cons in Hrun as [Hrun Hruns]. destruct Hs as (Hseq & Hmax & Hs).
  rewrite join_log_cons, <-app_assoc. cbn [app].
  pose proof (encode_plaintext_ok _ _ Hp) as (_ & Ht & _ & Hlen).
  destruct (decode_plaintext_line _ _ Hp) as [Hd _].
  unfold read_bounded_line. rewrite read_until_lf_line by (done || by eapply envelope_text || lia).
  rewrite (proj2 (N.ltb_ge _ _)) by nlia. cbn [mbind result_bind].
  rewrite line_not_nil, ends_with_lf_line. cbn [negb]. rewrite Hd. cbn [mbind result_bind].
  rewrite sat_add_exact, Hoff, Hseq, N.eqb_refl by lia. cbn [negb].
  rewrite (proj2 (str_eqb_true _ _) Hrun). cbn [negb].
  rewrite (IH (last + 1)) by (done || lia). by rewrite <-app_assoc.
Qed.

Lemma join_log_texts_nonempty es texts :
  Forall2 plain_line es texts -> es <> [] -> nlen (join_log texts) <> 0.
Proof. intros [|e text es' texts' _ _] H; [done|]. rewrite join_log_cons. nlia. Qed.

Lemma canonical_digest l : canonical_hash (hex_encode (sha256 l)) = true.
Proof.
  unfold canonical_hash. rewrite hex_encode_length, sha256_length, hex_encode_lower. done.
Qed.

Lemma encode_event_block_ok plaintext run first count key nonce line :
  encode_event_block plaintext run first count key nonce = Ok line ->
  count <> 0 /\ count <= MAX_EVENT_BLOCK_EVENTS /\
  nlen plaintext <= MAX_EVENT_BLOCK_UNCOMPRESSED_BYTES /\
  nlen line + 1 <= MAX_EVENT_BLOCK_RECORD_BYTES /\
  exists compressed payload,
    zstd_compress plaintext = Some compressed /\
    nlen compressed <= MAX_EVENT_BLOCK_COMPRESSED_BYTES /\
    match key with
    | Some k => encrypt_event_block k nonce compressed run first count (nlen plaintext)
                  (sha256 plaintext) = Ok payload
    | None => payload = compressed
    end /\
    block_to_vec (mkEventBlockRecord EVENT_BLOCK_VERSION EVENT_BLOCK_CODEC run first count
      (nlen plaintext) (hex_encode (sha256 plaintext)) (key_given key) (b64_encode payload))
    = Some line.
Proof.
  unfold encode_event_block, from_io. intros H.
  case_match eqn:E1; [done|]. apply orb_false_iff in E1 as [E1 E2].
  case_match eqn:E3; [done|]. inv_ok. case_match eqn:E4; [done|]. inv_ok.
  destruct x0 as [payload enc]. inv_ok. case_match eqn:E5; [done|]. inv_ok.
  reflect_N. unfold sat_add, u64_max, MAX_EVENT_BLOCK_RECORD_BYTES in *.
  split_and!; [done..|lia|]. exists x, payload. split_and!; [done..| |].
  - destruct key; inv_ok; by simplify_eq.
  - destruct key; inv_ok; simplify_eq; done.
Qed.

(** A stored block decodes to its events, is one line, and fits. *)
Lemma written_block_line key es line :
  written_block key es line ->
  decode_event_block (line ++ [LF]) key = Ok (map (fun e => mkDecodedEvent e (key_given key)) es) /\
  es <> [] /\ LF ∉ line /\ nlen line + 1 <= MAX_EVENT_BLOCK_RECORD_BYTES.
Proof.
  intros (texts & nonce & run & last & Hn & Hp & Hs & Hrun & H).
  apply encode_event_block_ok in H as (Hc0 & Hc & Hu & Hlen & compressed & payload & Hz & Hcl & Hpay & Hvec).
  assert (es <> []) as Hes by (intros ->; done).
  destruct (block_text _ _ Hvec) as [Hlf Hcx]. split_and!; [|done..].
  unfold decode_event_block, from_io. unfold validate_stored_json_complexity in *.
  rewrite validate_json_LF, Hcx, (block_roundtrip _ _ Hvec). cbn [map_err mbind result_bind ok_or].
  cbn [eb_version eb_codec eb_run_id eb_first_sequence eb_event_count eb_uncompressed_bytes
       eb_plaintext_sha256 eb_encrypted eb_payload].
  rewrite (proj2 (str_eqb_true _ _)) by done. rewrite N.eqb_refl. cbn [negb orb].
  assert (text_ok 256 run) as (Hr1 & Hr2 & Hr3).
  { destruct Hp as [|e text es texts Hp _]; [done|]. apply Forall_cons in Hrun as [<- _].
    apply encode_plaintext_ok in Hp as (Hv & _). by apply validate_wf, wf_run_id in Hv. }
  unfold str_is_empty. rewrite bool_decide_eq_false_2 by done.
  rewrite Hr3, (proj2 (N.ltb_ge 256 _)), (proj2 (N.eqb_neq (last + 1) 0)),
    (proj2 (N.eqb_neq (nlen es) 0)), (proj2 (N.ltb_ge MAX_EVENT_BLOCK_EVENTS _)) by (done || lia).
  cbn [orb]. rewrite (proj2 (N.eqb_neq (nlen (join_log texts)) 0)), (proj2 (N.ltb_ge _ _))
    by (done || by eapply join_log_texts_nonempty). cbn [orb].
  rewrite canonical_digest, hex_decode_encode. cbn [negb mbind result_bind ok_or].
  rewrite sha256_length, b64_decode_encode. cbn [N.eqb Pos.eqb negb mbind result_bind ok_or].
  assert ((if key_given key
           then key ← ok_or key (Io (io_error PermissionDenied
                                   "encrypted event-block log requires the matching key"));
                map_err Io (decrypt_event_block key payload run (last + 1) (nlen es)
                              (nlen (join_log texts)) (sha256 (join_log texts)))
           else Ok payload) = Ok compressed) as Hdec.
  { destruct key as [k|]; cbn [key_given ok_or mbind result_bind]; [|by subst payload].
    unfold decrypt_event_block. unfold encrypt_event_block in Hpay.
    by rewrite (decrypt_framed_encrypt _ _ _ _ _ _ _ Hn Hpay). }
  rewrite Hdec. cbn [mbind result_bind]. rewrite (proj2 (N.ltb_ge _ _)) by done.
  rewrite (zstd_decompress_compress _ _ _ Hz), ntake_all by lia. cbn [mbind result_bind ok_or].
  rewrite N.eqb_refl, bool_decide_eq_true_2 by done. cbn [negb].
  replace (N.to_nat (nlen es)) with (length es) by (unfold nlen; lia).
  rewrite <-(app_nil_r (join_log texts)).
  rewrite (decode_embedded_spec _ es texts [] last 0 []); try done.
  cbn [eb_first_sequence]. lia.
Qed.

Lemma next_event_fold es p enc :
  sequenced (p_last_sequence p) es -> p_count p + nlen es <= u64_max ->
  try_fold (fun p event => next_event p (envelope event)) p
    (map (fun e => mkDecodedEvent e enc) es) = Ok (advance p (nlen es) 0).
Proof.
  revert p. induction es as [|e es IH]; intros p Hs Hc; cbn [map try_fold].
  - destruct p as [c q v]. unfold advance. cbn [p_count p_last_sequence p_valid_bytes].
    by rewrite nlen_nil, !N.add_0_r.
  - destruct Hs as (Hseq & Hmax & Hs). unfold next_event. cbn [envelope].
    rewrite sat_add_exact, Hseq, N.eqb_refl by lia. cbn [negb mbind result_bind].
    rewrite sat_add_exact by nlia. rewrite IH; cbn [p_count p_last_sequence p_valid_bytes].
    + f_equal. unfold advance. cbn [p_count p_last_sequence p_valid_bytes]. f_equal; nlia.
    + done.
    + nlia.
Qed.

Lemma recover_zstd_loop_spec key blocks lines tail fuel p :
  Forall2 (written_block key) blocks lines -> sequenced (p_last_sequence p) (concat blocks) ->
  LF ∉ tail -> nlen tail <= MAX_EVENT_BLOCK_RECORD_BYTES ->
  room p (nlen (concat blocks)) (nlen (join_log lines)) ->
  (length lines < fuel)%nat ->
  recover_zstd_loop fuel (join_log lines ++ tail) key p =
    Ok (advance p (nlen (concat blocks)) (nlen (join_log lines))).
Proof.
  intros Hw. revert fuel p. induction Hw as [|es line blocks lines Hw Hws IH];
    intros fuel p Hs Ht Htl Hr Hf; (destruct fuel as [|fuel]; [cbn in Hf; lia|]).
  - cbn [recover_zstd_loop join_log map concat app].
    rewrite read_until_lf_tail by (done || lia).
    destruct p as [c s v]; unfold advance; cbn [p_count p_last_sequence p_valid_bytes].
    rewrite !nlen_nil, !N.add_0_r.
    case_bool_decide; [done|]. rewrite (proj2 (N.ltb_ge _ _)) by done.
    by rewrite ends_with_lf_tail.
  - destruct (written_block_line _ _ _ Hw) as (Hd & _ & Hlf & Hlen).
    cbn [concat] in Hs, Hr |- *. apply sequenced_app in Hs as [Hs1 Hs2].
    destruct Hr as (Hr1 & Hr2 & Hr3).
    rewrite join_log_cons, <-app_assoc. cbn [recover_zstd_loop app].
    rewrite read_until_lf_line by (done || lia).
    rewrite line_not_nil, (proj2 (N.ltb_ge _ _)), ends_with_lf_line by nlia.
    cbn [negb]. rewrite Hd. cbn [mbind result_bind]. rewrite join_log_cons in Hr3.
    rewrite next_event_fold by (done || nlia). cbn [mbind result_bind].
    rewrite IH; try done.
    + f_equal. unfold advance, count_bytes. cbn [p_count p_last_sequence p_valid_bytes].
      rewrite !sat_add_exact by nlia. f_equal; nlia.
    + unfold room, count_bytes, advance. cbn [p_count p_last_sequence p_valid_bytes].
      rewrite !sat_add_exact by nlia. nlia.
    + cbn in Hf. lia.
Qed.

(** ** Both formats at once

    A log is a list of groups of events, each on one line: single events in a
    JSON-lines log, blocks in a compressed one. *)

Definition log_header (fmt : EventLogFormat) : bytes :=
  match fmt with Jsonl => [] | ZstdBlocks => EVENT_BLOCK_HEADER end.

Definition line_limit (fmt : EventLogFormat) : N :=
  match fmt with
  | Jsonl => MAX_EVENT_RECORD_BYTES | ZstdBlocks => MAX_EVENT_BLOCK_RECORD_BYTES
  end.

Definition written_group (fmt : EventLogFormat) key (es : list EventEnvelope) line : Prop :=
  match fmt with
  | Jsonl => exists e, es = [e] /\ written key e line
  | ZstdBlocks => written_block key es line
  end.

Definition log_bytes (fmt : EventLogFormat) (lines : list bytes) : bytes :=
  log_header fmt ++ join_log lines.

(** The lines store the groups, numbered from one. *)
Record stored (fmt : EventLogFormat) key (groups : list (list EventEnvelope)) (lines : list bytes)
    : Prop := {
  stored_groups : Forall2 (written_group fmt key) groups lines;
  stored_sequenced : sequenced 0 (concat groups);
  stored_size : nlen (log_bytes fmt lines) <= u64_max;
}.

Lemma written_group_line fmt key es line :
  written_group fmt key es line -> LF ∉ line /\ nlen line + 1 <= line_limit fmt.
Proof.
  destruct fmt; cbn [written_group line_limit].
  - intros (e & -> & Hw). by apply written_line in Hw as (_ & _ & ? & ?).
  - intros Hw. by apply written_block_line in Hw as (_ & _ & ? & ?).
Qed.

Lemma written_groups_lines fmt key groups lines :
  Forall2 (written_group fmt key) groups lines -> Forall (fun line => LF ∉ line) lines.
Proof. induction 1 as [|?? ?? Hw]; constructor; [|done]. exact (proj1 (written_group_line _ _ _ _ Hw)). Qed.

Lemma groups_singletons key groups lines :
  Forall2 (written_group Jsonl key) groups lines -> Forall2 (written key) (concat groups) lines.
Proof.
  induction 1 as [|g line groups lines (e & -> & Hw) Hws IH]; [constructor|]. by constructor.
Qed.

Lemma written_open key e line : written key e line -> head line = Some x7b.
Proof.
  intros (nonce & Hn & H). apply encode_envelope_ok in H as (text & Ht & Hl & _).
  destruct key as [k|].
  - unfold encrypt_event_record in Hl. inv_ok. destruct x. inv_ok. by eapply encrypted_event_open.
  - subst line. apply encode_plaintext_ok in Ht as (_ & Ht & _). by eapply envelope_open.
Qed.

Lemma detect_jsonl b rest : b <> x49 -> detect_event_log_format (Some (b :: rest)) = Some Jsonl.
Proof.
  intros Hb. unfold detect_event_log_format.
  change EVENT_BLOCK_HEADER with (x49 :: drop 1 EVENT_BLOCK_HEADER).
  destruct (starts_with _ _) eqn:E; [|done].
  apply starts_with_spec in E as [k E]. rewrite nlen_cons in E. cbn [ntake] in E.
  rewrite (proj2 (N.eqb_neq _ _)) in E by lia. by injection E as ?.
Qed.

Lemma detect_zstd content :
  content <> [] -> (content `prefix_of` EVENT_BLOCK_HEADER \/ EVENT_BLOCK_HEADER `prefix_of` content) ->
  detect_event_log_format (Some content) = Some ZstdBlocks.
Proof.
  intros Hne Hp. unfold detect_event_log_format. destruct content as [|b content]; [done|].
  rewrite (proj2 (starts_with_spec _ _)); [done|]. destruct Hp as [[k Hk]|[k Hk]].
  - exists k. rewrite ntake_all; [done|]. rewrite Hk. nlia.
  - exists []. by rewrite Hk, ntake_app_exact, app_nil_r.
Qed.

Lemma join_log_head key lines es p :
  Forall2 (written key) es lines -> p `prefix_of` join_log lines -> p = [] \/ head p = Some x7b.
Proof.
  intros Hw [r Hr]. destruct p as [|b p]; [by left|right].
  destruct Hw as [|e line es lines Hw _]; [done|]. apply written_open in Hw.
  destruct line as [|b' line]; [done|]. rewrite join_log_cons in Hr. cbn in Hr, Hw |- *. congruence.
Qed.

(** The format of any cut of a log is detected. *)
Lemma detect_cut fmt key groups lines p :
  stored fmt key groups lines -> p `prefix_of` log_bytes fmt lines ->
  p = [] \/ detect_event_log_format (Some p) = Some fmt.
Proof.
  intros [Hg _ _] Hp. destruct (decide (p = [])) as [->|Hne]; [by left|right].
  destruct fmt; unfold log_bytes in Hp; cbn [log_header app] in Hp.
  - destruct (join_log_head _ _ _ _ (groups_singletons _ _ _ Hg) Hp) as [?|Hh]; [done|].
    destruct p as [|b p]; [done|]. injection Hh as ->. by apply detect_jsonl.
  - apply detect_zstd; [done|].
    eapply prefix_weak_total; [exact Hp|]. by apply prefix_app_r.
Qed.

(** ** Recovery of a cut log *)

Lemma header_line : EVENT_BLOCK_HEADER = as_bytes "IOREC-EVENTS-ZSTD-BLOCKS-V1" ++ [LF].
Proof. done. Qed.

Lemma header_no_LF : LF ∉ as_bytes "IOREC-EVENTS-ZSTD-BLOCKS-V1".
Proof. apply (bool_decide_unpack _). vm_compute. done. Qed.

Lemma header_LF : LF ∈ EVENT_BLOCK_HEADER.
Proof. rewrite header_line. apply elem_of_app. right. by left. Qed.

Lemma read_header n rest :
  nlen EVENT_BLOCK_HEADER <= n ->
  read_until_lf n (EVENT_BLOCK_HEADER ++ rest) = (EVENT_BLOCK_HEADER, rest).
Proof.
  intros Hn. rewrite header_line, <-app_assoc in *. cbn [app] in *.
  apply read_until_lf_line; [apply header_no_LF|]. nlia.
Qed.

Definition recover_format (fmt : EventLogFormat) (content : bytes) key : storage_result Progress :=
  match fmt with
  | Jsonl => recover_jsonl_records content key
  | ZstdBlocks => recover_zstd_blocks content key
  end.

Lemma join_log_length lines : (length lines <= length (join_log lines))%nat.
Proof.
  induction lines as [|line lines IH]; [done|]. rewrite join_log_cons, length_app. cbn. lia.
Qed.

Lemma join_log_groups fmt key groups lines :
  Forall2 (written_group fmt key) groups lines -> nlen lines <= nlen (join_log lines).
Proof. intros _. pose proof (join_log_length lines). unfold nlen. lia. Qed.

Lemma sequenced_bound last es : sequenced last es -> es <> [] -> last + nlen es < u64_max.
Proof.
  revert last. induction es as [|e es IH]; intros last Hs Hne; [done|].
  destruct Hs as (_ & Hm & Hs). destruct es as [|e' es]; [nlia|].
  specialize (IH _ Hs ltac:(done)). nlia.
Qed.

Lemma recover_format_complete fmt key groups lines tail :
  stored fmt key groups lines -> LF ∉ tail -> nlen tail <= line_limit fmt ->
  recover_format fmt (log_bytes fmt lines ++ tail) key =
    Ok (mkProgress (nlen (concat groups)) (nlen (concat groups)) (nlen (log_bytes fmt lines))).
Proof.
  intros [Hg Hs Hsz] Hlf Hlen.
  assert (nlen (concat groups) <= u64_max) as Hn.
  { destruct (concat groups) as [|e es] eqn:E; [done|].
    pose proof (sequenced_bound _ _ Hs ltac:(done)). lia. }
  unfold log_bytes in *. destruct fmt; cbn [recover_format log_header line_limit app] in *.
  - unfold recover_jsonl_records. pose proof (groups_singletons _ _ _ Hg) as Hw.
    rewrite (recover_jsonl_loop_spec key (concat groups) lines tail); try done.
    pose proof (join_log_length lines). rewrite length_app. lia.
  - unfold recover_zstd_blocks. rewrite <-app_assoc, read_header by nlia.
    rewrite bool_decide_eq_true_2 by done. cbn [negb].
    rewrite (recover_zstd_loop_spec key groups lines tail); try done.
    + unfold advance. cbn [p_count p_last_sequence p_valid_bytes]. do 2 f_equal; nlia.
    + unfold room. cbn [p_count p_last_sequence p_valid_bytes]. nlia.
    + pose proof (join_log_length lines). rewrite !length_app. lia.
Qed.

Lemma recover_format_header p key :
  p `prefix_of` EVENT_BLOCK_HEADER -> p <> EVENT_BLOCK_HEADER ->
  LF ∉ p /\ recover_format ZstdBlocks p key = Ok (mkProgress 0 0 0).
Proof.
  intros [r Hr] Hne.
  assert (LF ∉ p) as Hlf.
  { rewrite header_line in Hr. destruct r as [|b r _] using rev_ind.
    - rewrite app_nil_r in Hr. done.
    - rewrite app_assoc in Hr. apply app_inj_tail in Hr as [Hr _].
      pose proof header_no_LF as Hh. rewrite Hr in Hh. set_solver. }
  split; [done|]. cbn [recover_format]. unfold recover_zstd_blocks.
  rewrite read_until_lf_tail by (done || lia).
  rewrite bool_decide_eq_false_2 by done. cbn [negb]. by rewrite ends_with_lf_tail.
Qed.

(** The report for a file of which [kept] is valid and [tail] is not. *)
Definition cut_report (n : N) (kept tail : bytes) (repair : bool) : RecoveryReport :=
  mkRecoveryReport n n (nlen kept) (nlen tail)
    (if repair && negb (bool_decide (tail = [])) then Some tail else None).

Lemma recover_events_cut fmt key kept tail n repair :
  kept ++ tail = [] \/ detect_event_log_format (Some (kept ++ tail)) = Some fmt ->
  recover_format fmt (kept ++ tail) key = Ok (mkProgress n n (nlen kept)) ->
  recover_events_with_key (Some (kept ++ tail)) repair key =
    Ok (cut_report n kept tail repair, Some (if repair then kept else kept ++ tail)).
Proof.
  intros Hd Hr. unfold recover_events_with_key.
  assert (match default Jsonl (detect_event_log_format (Some (kept ++ tail))) with
    | Jsonl => recover_jsonl_records (kept ++ tail) key
    | ZstdBlocks => recover_zstd_blocks (kept ++ tail) key end = Ok (mkProgress n n (nlen kept))) as ->.
  { destruct Hd as [Hd|Hd].
    - rewrite Hd in *. destruct fmt; exact Hr.
    - rewrite Hd. exact Hr. }
  cbn [mbind result_bind p_count p_last_sequence p_valid_bytes]. unfold cut_report, sat_sub.
  replace (nlen (kept ++ tail) - nlen kept) with (nlen tail) by nlia.
  rewrite ndrop_app_exact, ntake_app_exact.
  destruct (decide (tail = [])) as [->|Ht].
  - rewrite nlen_nil, bool_decide_eq_true_2, !app_nil_r by done. cbn. by destruct repair.
  - rewrite (bool_decide_eq_false_2 (tail = [])) by done.
    rewrite (proj2 (N.ltb_lt 0 _)) by (rewrite <-N.neq_0_lt_0; by intros ?%nlen_0).
    by destruct repair.
Qed.

Lemma concat_take_sequenced k (groups : list (list EventEnvelope)) last :
  sequenced last (concat groups) -> sequenced last (concat (take k groups)).
Proof.
  rewrite <-(take_drop k groups) at 1. rewrite concat_app. by intros [? _]%sequenced_app.
Qed.

Lemma stored_take fmt key groups lines k :
  stored fmt key groups lines -> stored fmt key (take k groups) (take k lines).
Proof.
  intros [Hg Hs Hsz]. split.
  - by apply Forall2_take.
  - by apply concat_take_sequenced.
  - unfold log_bytes in *. rewrite <-(take_drop k lines), join_log_app in Hsz. nlia.
Qed.

(** A cut whose last piece is unterminated has lost no complete line. *)
Lemma cut_keeps_lines fmt lines k m tail :
  LF ∉ tail -> (m <= length lines)%nat ->
  log_bytes fmt (take m lines) `prefix_of` log_bytes fmt (take k lines) ++ tail -> (m <= k)%nat.
Proof.
  intros Ht Hm Hp. destruct (decide (m <= k)%nat) as [|Hk]; [done|exfalso].
  destruct (lookup_lt_is_Some_2 lines k) as [line Hl]; [lia|].
  replace m with (k + (1 + (m - k - 1)))%nat in Hp by lia.
  unfold log_bytes in Hp. rewrite <-(take_take_drop lines k), join_log_split in Hp.
  apply prefix_app_inv in Hp. rewrite (drop_S _ _ _ Hl) in Hp. cbn [take plus] in Hp.
  rewrite join_log_cons in Hp. destruct Hp as [r Hp]. rewrite Hp in Ht. set_solver.
Qed.

Lemma recover_cut_lemma fmt key groups lines p repair :
  stored fmt key groups lines -> p `prefix_of` log_bytes fmt lines ->
  exists k kept tail, p = kept ++ tail /\ LF ∉ tail /\
    (kept = log_bytes fmt (take k lines) \/ kept = [] /\ k = 0%nat) /\
    recover_events_with_key (Some p) repair key =
      Ok (cut_report (nlen (concat (take k groups))) kept tail repair,
          Some (if repair then kept else p)) /\
    (forall m, (m <= length lines)%nat -> log_bytes fmt (take m lines) `prefix_of` p -> (m <= k)%nat).
Proof.
  intros Hst Hp. pose proof (detect_cut _ _ _ _ _ Hst Hp) as Hd.
  destruct (decide (log_header fmt `prefix_of` p)) as [Hh|Hh].
  - destruct Hh as [q ->]. pose proof Hp as Hq. unfold log_bytes in Hq. apply prefix_app_inv in Hq.
    destruct (join_log_prefix lines q Hq) as (k & tail & -> & Ht & Htail).
    { destruct Hst as [Hg _ _]. by eapply written_groups_lines. }
    exists k, (log_bytes fmt (take k lines)), tail. unfold log_bytes in *.
    rewrite app_assoc in *. split_and!; [done..|by left| |].
    + rewrite <-app_assoc in Hd |- *. unfold log_bytes in *.
      rewrite app_assoc in Hd |- *. eapply recover_events_cut; [exact Hd|].
      apply (recover_format_complete fmt key (take k groups) (take k lines));
        [by apply stored_take|done|].
      destruct Htail as [->|(line & Hl & [r ->])]; [apply N.le_0_l|].
      destruct Hst as [Hg _ _]. eapply Forall2_lookup_r in Hl as (g & _ & Hw); [|done].
      apply written_group_line in Hw as [_ Hw]. nlia.
    + intros m Hm Hpm. eapply (cut_keeps_lines fmt lines k m tail); [done..|].
      unfold log_bytes. done.
  - destruct fmt; [by exfalso; apply Hh; exists p|]. cbn [log_header] in Hh.
    assert (p `prefix_of` EVENT_BLOCK_HEADER) as Hph.
    { destruct (prefix_weak_total p EVENT_BLOCK_HEADER _ Hp) as [?|?]; [|done..].
      by apply prefix_app_r. }
    destruct (recover_format_header p key Hph) as [Hlf Hr]; [intros ->; by apply Hh|].
    exists 0%nat, [], p. split_and!; [done..|by right| |].
    + exact (recover_events_cut ZstdBlocks key [] p 0 repair Hd Hr).
    + intros m _ Hpm. exfalso. apply Hh. etrans; [|exact Hpm]. by apply prefix_app_r.
Qed.

(** C10: Crash recovery of the log: cut a log of either format, encrypted or
    not, at any byte; recovery succeeds and keeps exactly the events of the
    lines that are complete (never fewer than the lines the cut contains),
    reports the rest as the discarded tail and moves it to the quarantine. *)
Theorem recover_cut fmt key groups lines p repair :
  stored fmt key groups lines -> p `prefix_of` log_bytes fmt lines ->
  exists k kept tail, p = kept ++ tail /\ LF ∉ tail /\
    (kept = log_bytes fmt (take k lines) \/ kept = [] /\ k = 0%nat) /\
    recover_events_with_key (Some p) repair key =
      Ok (cut_report (nlen (concat (take k groups))) kept tail repair,
          Some (if repair then kept else p)) /\
    (forall m, (m <= length lines)%nat -> log_bytes fmt (take m lines) `prefix_of` p -> (m <= k)%nat).
Proof. apply recover_cut_lemma. Qed.

(** ** Reading *)

(** The reader still has to return [es]; an unterminated tail may follow. *)
Record pending (fmt : EventLogFormat) key (r : DecodedEventReader) (es : list EventEnvelope)
    : Prop := {
  pending_format : format r = fmt;
  pending_key : encryption r = key;
  pending_lines : exists bs groups lines tail,
    es = bs ++ concat groups /\
    buffered r = map (fun e => mkDecodedEvent e (key_given key)) bs /\
    reader r = join_log lines ++ tail /\ Forall2 (written_group fmt key) groups lines;
}.

Lemma read_group_line fmt key g line rest record :
  written_group fmt key g line ->
  read_bounded_line (line ++ LF :: rest) (line_limit fmt) record = Ok (line ++ [LF], rest).
Proof.
  intros [Hlf Hlen]%written_group_line. unfold read_bounded_line.
  rewrite read_until_lf_line by (done || lia). by rewrite (proj2 (N.ltb_ge _ _)) by nlia.
Qed.

Lemma next_decoded_pending fmt key r e es :
  pending fmt key r (e :: es) ->
  exists r', next_decoded r = Ok (Some (mkDecodedEvent e (key_given key)), r') /\
    pending fmt key r' es.
Proof.
  intros [Hf Hk (bs & groups & lines & tail & Hes & Hb & Hr & Hg)]. unfold next_decoded.
  destruct bs as [|b bs]; cbn [app map] in *.
  - rewrite Hb. destruct Hg as [|g line groups lines Hw Hg]; [done|].
    rewrite Hr, join_log_cons, <-app_assoc. cbn [app].
    destruct fmt; rewrite Hf, (read_group_line _ _ _ _ _ _ Hw : read_bounded_line _ _ _ = _);
      cbn [mbind result_bind]; rewrite line_not_nil, ends_with_lf_line; cbn [negb].
    + destruct Hw as (e' & -> & Hw). injection Hes as <- ->.
      destruct (written_line _ _ _ Hw) as (Hd & Henc & _). rewrite Hk, Hd, Henc.
      cbn [mbind result_bind]. eexists. split; [done|]. split; [done..|].
      by exists [], groups, lines, tail.
    + destruct (written_block_line _ _ _ Hw) as (Hd & Hne & _). rewrite Hk, Hd.
      cbn [mbind result_bind]. destruct g as [|e' g]; [done|]. injection Hes as <- ->. cbn [map].
      eexists. split; [done|]. split; [done..|]. by exists g, groups, lines, tail.
  - rewrite Hb. injection Hes as -> ->. eexists. split; [done|]. split; [done..|].
    by exists bs, groups, lines, tail.
Qed.

Lemma open_reader_pending fmt key groups lines tail :
  detect_event_log_format (Some (log_bytes fmt lines ++ tail)) = Some fmt \/
    (log_bytes fmt lines ++ tail = [] /\ fmt = Jsonl) ->
  Forall2 (written_group fmt key) groups lines ->
  exists r, open_reader (Some (log_bytes fmt lines ++ tail)) key = Ok r /\
    pending fmt key r (concat groups).
Proof.
  intros Hd Hg. unfold open_reader.
  assert (default Jsonl (detect_event_log_format (Some (log_bytes fmt lines ++ tail))) = fmt) as ->
    by (destruct Hd as [-> | [-> ->]]; done).
  unfold log_bytes. destruct fmt; cbn [ok_or mbind result_bind log_header app].
  - eexists. split; [done|]. split; [done..|]. by exists [], groups, lines, tail.
  - rewrite <-app_assoc, read_header by nlia. rewrite bool_decide_eq_true_2 by done.
    cbn [mbind result_bind]. eexists. split; [done|]. split; [done..|]. by exists [], groups, lines, tail.
Qed.

(** Identifiers increase, above [previous]. *)
Fixpoint ascending (previous : option Uuid) (es : list EventEnvelope) : Prop :=
  match es with
  | [] => True
  | e :: es' =>
      match previous with Some p => p < ev_event_id e | None => True end /\
      ascending (Some (ev_event_id e)) es'
  end.

Definition of_run (run_id : string) (es : list EventEnvelope) : Prop :=
  Forall (fun e => ev_run_id e = run_id) es.

Lemma check_run_event_ok run_id enc record e :
  ev_run_id e = run_id -> check_run_event run_id enc record (mkDecodedEvent e enc) = Ok tt.
Proof.
  intros Hr. unfold check_run_event. cbn [encrypted envelope].
  rewrite Bool.eqb_reflx, (proj2 (str_eqb_true _ _) Hr). done.
Qed.

Lemma check_event_id_ok previous e :
  match previous with Some p => p < ev_event_id e | None => True end ->
  check_event_id previous e = Ok tt.
Proof.
  destruct previous as [p|]; [|done]. intros H. cbn.
  rewrite (proj2 (N.eqb_neq _ _)), (proj2 (N.ltb_ge _ _)) by lia. done.
Qed.

Lemma visit_run_events_spec {S} fmt key run_id (visitor : S -> EventEnvelope -> storage_result S)
    es record r previous s :
  pending fmt key r es -> of_run run_id es -> ascending previous es ->
  visit_run_events (length es) record run_id (key_given key) visitor r previous s =
    try_fold visitor s es.
Proof.
  revert record r previous s. induction es as [|e es IH]; intros record r previous s Hp Hr Ha; [done|].
  apply Forall_cons in Hr as [Hr Hrs]. destruct Ha as [Ha Has].
  destruct (next_decoded_pending _ _ _ _ _ Hp) as (r' & Hn & Hp').
  cbn [length visit_run_events try_fold]. rewrite Hn. cbn [mbind result_bind ok_or envelope].
  rewrite check_run_event_ok, check_event_id_ok by done. cbn [mbind result_bind].
  destruct (visitor s e); cbn [mbind result_bind]; [|done]. by apply IH.
Qed.

Lemma visit_events_spec {S} fmt key (visitor : S -> EventEnvelope -> storage_result S) es r s :
  pending fmt key r es -> visit_events (length es) visitor r s = try_fold visitor s es.
Proof.
  revert r s. induction es as [|e es IH]; intros r s Hp; [done|].
  destruct (next_decoded_pending _ _ _ _ _ Hp) as (r' & Hn & Hp').
  cbn [length visit_events try_fold]. rewrite Hn. cbn [mbind result_bind ok_or envelope].
  destruct (visitor s e); cbn [mbind result_bind]; [|done]. by apply IH.
Qed.

Lemma ascending_take previous es k : ascending previous es -> ascending previous (take k es).
Proof.
  revert previous k. induction es as [|e es IH]; intros previous [|k]; cbn; try done.
  intros [? ?]. split; [done|]. by apply IH.
Qed.

Lemma concat_take_prefix k (groups : list (list EventEnvelope)) :
  exists n, concat (take k groups) = take n (concat groups).
Proof.
  exists (length (concat (take k groups))). rewrite <-(take_drop k groups) at 3.
  by rewrite concat_app, take_app_length.
Qed.

Lemma read_cut_lemma {S} fmt key groups lines p run_id
    (visitor : S -> EventEnvelope -> storage_result S) s :
  stored fmt key groups lines -> p `prefix_of` log_bytes fmt lines ->
  log_header fmt `prefix_of` p ->
  of_run run_id (concat groups) -> ascending None (concat groups) ->
  exists k tail, p = log_bytes fmt (take k lines) ++ tail /\ LF ∉ tail /\
    for_each_run_event_with_key (Some p) run_id key visitor s =
      (s' ← try_fold visitor s (concat (take k groups));
       Ok (cut_report (nlen (concat (take k groups))) (log_bytes fmt (take k lines)) tail false, s')).
Proof.
  intros Hst Hp Hh Hrun Hasc.
  destruct (recover_cut_lemma _ _ _ _ _ false Hst Hp) as (k & kept & tail & -> & Ht & Hk & Hrec & Hm).
  assert (kept = log_bytes fmt (take k lines)) as ->.
  { destruct Hk as [?|[-> ->]]; [done|]. unfold log_bytes. cbn [take join_log map concat].
    destruct fmt; [done|exfalso]. cbn [log_header app] in Hh.
    destruct Hh as [r ->]. apply Ht, elem_of_app. left. apply header_LF. }
  exists k, tail. split_and!; [done..|]. unfold for_each_run_event_with_key. rewrite Hrec.
  cbn [mbind result_bind cut_report valid_events].
  pose proof (detect_cut _ _ _ _ _ Hst Hp) as Hd.
  destruct (open_reader_pending fmt key (take k groups) (take k lines) tail) as (r & Ho & Hpend).
  { destruct Hd as [Hd|Hd]; [right|by left]. split; [done|]. destruct fmt; [done|].
    discriminate Hd. }
  { apply Forall2_take. by destruct Hst. }
  rewrite Ho. cbn [mbind result_bind].
  destruct (concat_take_prefix k groups) as [n Hn].
  replace (N.to_nat (nlen (concat (take k groups)))) with (length (concat (take k groups)))
    by (unfold nlen; lia).
  change (match key with Some _ => true | None => false end) with (key_given key).
  erewrite (visit_run_events_spec fmt key run_id); [done|done| |].
  - rewrite Hn. by apply Forall_take.
  - rewrite Hn. by apply ascending_take.
Qed.

(** A reader of a log, also one cut by a crash or read while the writer is
    in the middle of a record, visits exactly the events of the complete
    lines, in order: the visitor is folded over them, and its error stops the
    reading. *)
Theorem read_cut {S} fmt key groups lines p run_id
    (visitor : S -> EventEnvelope -> storage_result S) s :
  stored fmt key groups lines -> p `prefix_of` log_bytes fmt lines ->
  log_header fmt `prefix_of` p ->
  of_run run_id (concat groups) -> ascending None (concat groups) ->
  exists k tail, p = log_bytes fmt (take k lines) ++ tail /\ LF ∉ tail /\
    for_each_run_event_with_key (Some p) run_id key visitor s =
      (s' ← try_fold visitor s (concat (take k groups));
       Ok (cut_report (nlen (concat (take k groups))) (log_bytes fmt (take k lines)) tail false, s')).
Proof. apply read_cut_lemma. Qed.

Lemma log_bytes_tail fmt k lines tail :
  log_bytes fmt lines = log_bytes fmt (take k lines) ++ tail -> LF ∉ tail -> take k lines = lines.
Proof.
  intros H Ht. rewrite <-(take_drop k lines) in H at 1. unfold log_bytes in H.
  rewrite join_log_app, app_assoc in H. apply app_inv_head in H.
  destruct (drop k lines) as [|line rest] eqn:E.
  - rewrite <-(take_drop k lines) at 2. by rewrite E, app_nil_r.
  - exfalso. apply Ht. rewrite <-H, join_log_cons. apply elem_of_app. right. left.
Qed.

(** Visiting an intact log folds the visitor over all of its events. *)
Lemma read_full {S} fmt key groups lines run_id (visitor : S -> EventEnvelope -> storage_result S) s :
  stored fmt key groups lines -> of_run run_id (concat groups) -> ascending None (concat groups) ->
  exists report, for_each_run_event_with_key (Some (log_bytes fmt lines)) run_id key visitor s =
    (s' ← try_fold visitor s (concat groups); Ok (report, s')).
Proof.
  intros Hst Hrun Hasc.
  destruct (read_cut_lemma fmt key groups lines (log_bytes fmt lines) run_id visitor s Hst)
    as (k & tail & Hp & Ht & Hr); [done|by exists (join_log lines)|done..|].
  apply log_bytes_tail in Hp; [|done].
  assert (take k groups = groups) as Hg.
  { apply take_ge. pose proof (Forall2_length _ _ _ (stored_groups _ _ _ _ Hst)) as Hl.
    apply (f_equal length) in Hp. rewrite length_take in Hp. lia. }
  rewrite Hg in Hr. by eexists.
Qed.

Lemma run_reader_next_spec fmt key run_id report r record previous e es :
  pending fmt key r (e :: es) -> ev_run_id e = run_id -> ev_sequence e = record ->
  match previous with Some p => p < ev_event_id e | None => True end ->
  record <= valid_events report -> record < u64_max ->
  exists r', run_reader_next (mkRunEventReader r run_id (key_given key) report record previous false)
    = (Some (Ok e), mkRunEventReader r' run_id (key_given key) report (record + 1)
                      (Some (ev_event_id e)) false) /\ pending fmt key r' es.
Proof.
  intros Hp Hr Hs Ha Hv Hm. destruct (next_decoded_pending _ _ _ _ _ Hp) as (r' & Hn & Hp').
  exists r'. split; [|done]. unfold run_reader_next.
  cbn [re_failed re_report re_next_record re_reader re_expected_run_id re_expect_encrypted
       re_previous_event_id orb].
  rewrite (proj2 (N.ltb_ge _ _)) by done. rewrite Hn. cbn [mbind result_bind ok_or envelope].
  rewrite check_run_event_ok by done. cbn [mbind result_bind].
  rewrite Hs, N.eqb_refl. cbn [negb mbind result_bind].
  rewrite check_event_id_ok by done. cbn [mbind result_bind]. by rewrite sat_add_exact by lia.
Qed.

Lemma run_reader_collect_lemma fmt key run_id report es r record previous n :
  pending fmt key r es -> of_run run_id es -> ascending previous es -> sequenced record es ->
  record + nlen es = valid_events report ->
  run_reader_collect (length es + n)
    (mkRunEventReader r run_id (key_given key) report (record + 1) previous false) = map Ok es.
Proof.
  revert r record previous. induction es as [|e es IH]; intros r record previous Hp Hr Ha Hs Hv.
  - cbn [length plus map]. destruct n as [|n]; [done|]. cbn [run_reader_collect].
    unfold run_reader_next. cbn [re_failed re_report re_next_record orb].
    rewrite (proj2 (N.ltb_lt _ _)) by nlia. done.
  - apply Forall_cons in Hr as [Hr Hrs]. destruct Ha as [Ha Has]. destruct Hs as (Hs & Hm & Hss).
    cbn [length plus run_reader_collect map].
    destruct (run_reader_next_spec fmt key run_id report r (record + 1) previous e es)
      as (r' & Hn & Hp'); try done; [nlia|].
    rewrite Hn. f_equal. apply IH; try done. nlia.
Qed.

(** C37: Streaming an intact log with [RunEventReader] yields every event of
    the run once, in order and without an error, and then stops. *)
Theorem run_reader_complete fmt key groups lines run_id n :
  stored fmt key groups lines -> of_run run_id (concat groups) -> ascending None (concat groups) ->
  exists r, open_run_reader (Some (log_bytes fmt lines)) run_id key = Ok r /\
    run_reader_collect (length (concat groups) + n) r = map Ok (concat groups).
Proof.
  intros Hst Hrun Hasc. pose proof Hst as [Hg Hs _].
  pose proof (detect_cut _ _ _ _ _ Hst (reflexivity _)) as Hd.
  pose proof (recover_format_complete _ _ _ _ [] Hst (not_elem_of_nil _) (N.le_0_l _)) as Hr.
  pose proof (recover_events_cut fmt key (log_bytes fmt lines) [] _ false
    ltac:(by rewrite app_nil_r) Hr) as Hrec.
  rewrite app_nil_r in Hrec. unfold open_run_reader. rewrite Hrec.
  cbn [mbind result_bind cut_report discarded_tail_bytes nlen length N.of_nat N.eqb negb].
  destruct (open_reader_pending fmt key groups lines []) as (r & Ho & Hpend);
    [rewrite app_nil_r|done|].
  { destruct Hd as [Hd|Hd]; [right|by left]. split; [done|]. by destruct fmt. }
  rewrite app_nil_r in Ho. rewrite Ho. cbn [mbind result_bind]. eexists. split; [done|].
  by apply (run_reader_collect_lemma fmt key run_id _ (concat groups) r 0 None n).
Qed.
End Spec.

(** ** Witnesses *)

Module EventLogExamples.
Import Concrete ConcreteSerde ConcreteBlock CryptoExamples.

Definition groups : list (list EventEnvelope) := [[event 1]].
Definition lines : list bytes := [text 1].
Definition cut : bytes := take 40 (text 1).

Lemma sample_stored : stored Jsonl None groups lines.
Proof.
  split.
  - constructor; [|constructor]. exists (event 1). split; [done|]. exists nonce.
    split; [done|]. vm_compute. reflexivity.
  - vm_compute. done.
  - vm_compute. discriminate.
Qed.

Lemma cut_prefix : cut `prefix_of` log_bytes Jsonl lines.
Proof.
  exists (drop 40 (text 1) ++ [LF]). unfold log_bytes, lines, join_log, cut.
  cbn [log_header map concat app]. by rewrite app_nil_r, app_assoc, take_drop.
Qed.

Lemma recover_cut_witness :
  exists k kept tail, cut = kept ++ tail /\ LF ∉ tail /\
    (kept = log_bytes Jsonl (take k lines) \/ kept = [] /\ k = 0%nat) /\
    recover_events_with_key (Some cut) true None =
      Ok (cut_report (nlen (concat (take k groups))) kept tail true, Some kept) /\
    (forall m, (m <= length lines)%nat -> log_bytes Jsonl (take m lines) `prefix_of` cut -> (m <= k)%nat).
Proof. exact (recover_cut Jsonl None groups lines cut true sample_stored cut_prefix). Defined.

Lemma read_cut_witness :
  exists k tail, cut = log_bytes Jsonl (take k lines) ++ tail /\ LF ∉ tail /\
    for_each_run_event_with_key (Some cut) "run" None (fun n _ => Ok (n + 1)) 0 =
      (s' ← try_fold (fun n _ => Ok (n + 1)) 0 (concat (take k groups));
       Ok (cut_report (nlen (concat (take k groups))) (log_bytes Jsonl (take k lines)) tail false, s')).
Proof.
  apply (read_cut Jsonl None groups lines cut "run" (fun n _ => Ok (n + 1)) 0);
    [apply sample_stored|apply cut_prefix|apply prefix_nil| |done].
  by repeat constructor.
Defined.

Lemma run_reader_complete_witness :
  exists r, open_run_reader (Some (log_bytes Jsonl lines)) "run" None = Ok r /\
    run_reader_collect (length (concat groups) + 1) r = map Ok (concat groups).
Proof.
  apply (run_reader_complete Jsonl None groups lines "run" 1); [apply sample_stored| |done].
  by repeat constructor.
Defined.
End EventLogExamples.
