(* ===== verification/Manifest.v ===== *)
(** * src/manifest.rs

    The run's manifest: its validation, its authentication under the run key,
    the key a run is read with, and writing and reading the file.  Ordered
    maps are association lists; [write_atomic] is the content it renames into
    place; paths are strings. *)

From Stdlib Require Import Strings.Byte.
From S2P Require Import Prelude RustStd External Json Input Model ProbePlan Policy Crypto EventLog.
From stdpp Require Import options.
Local Open Scope N_scope.
#[local] Unset Default Proof Using.

Definition MAX_MANIFEST_BYTES : N := 8 * 1024 * 1024.
Definition RUN_KEY_DERIVATION_V1 : string := "hkdf-sha256-run-id-v1".
Definition BLOB_KEY_MANAGEMENT_V1 : string := "random-class-dek-wrapped-by-run-key-v1".

Definition CountMap := list (string * N).

Record CoverageCounts := mkCoverageCounts {
  cc_events : N;
  cc_event_storage_bytes : N;
  cc_blobs : N;
  cc_blob_bytes : N;
  cc_blob_storage_bytes : N;
  cc_logical_tasks : N;
  cc_logical_inferences : N;
  cc_transport_attempts : N;
  cc_completed_attempts : N;
  cc_incomplete_attempts : N;
  cc_errors : N;
  cc_input_tokens : N;
  cc_output_tokens : N;
  cc_models : CountMap;
}.

Definition default_counts : CoverageCounts := mkCoverageCounts 0 0 0 0 0 0 0 0 0 0 0 0 0 [].

Record Coverage := mkCoverage {
  cov_claim : string;
  cov_capture_sources : list string;
  cov_known_gaps : list string;
  cov_observed_tls_surfaces : CountMap;
  cov_observed_egress_classes : CountMap;
  cov_unknown_tls_surfaces : N;
  cov_unparsed_connections : N;
  cov_process_network_scan_gaps : N;
  cov_process_scan_failures : N;
  cov_processes_running_at_stop : N;
  cov_connections_open_at_stop : N;
  cov_capture_drops : N;
  cov_unknown_egress : N;
  cov_task_netns_denied_packets : N;
  cov_blocked_unknown_egress_indicators : N;
  cov_model_bypass_connections : N;
  cov_possible_quic_connections : N;
  cov_all_attempts_have_terminal_state : bool;
  cov_unresolved_state_references : N;
  cov_unresolved_payload_references : N;
  cov_unresolved_correlations : N;
  cov_captured_request_payloads_complete : bool;
  cov_captured_response_payloads_complete : bool;
  cov_observed_protocols : CountMap;
}.

Definition default_coverage : Coverage :=
  mkCoverage "best-effort" []
    ["the manifest remains best-effort; transport completeness is established only by a separate successful offline transport-audit"]
    [] [] 0 0 0 0 0 0 0 0 0 0 0 0 false 0 0 0 false false [].

Record EncryptionMetadata := mkEncryptionMetadata {
  em_algorithm : string;
  em_key_id : string;
  em_key_derivation : option string;
  em_blob_key_management : option string;
  em_scope : list string;
}.

Record StorageMetadata := mkStorageMetadata {
  sm_events : string;
  sm_blobs : string;
  sm_durability : string;
  sm_recovered_tail_bytes : option N;
  sm_encryption : option EncryptionMetadata;
}.

Record ManifestAuthentication := mkManifestAuthentication {
  ma_algorithm : string;
  ma_key_id : string;
  ma_nonce : string;
  ma_tag : string;
}.

Record Manifest := mkManifest {
  m_schema_version : N;
  m_recorder_version : string;
  m_run_id : string;
  m_status : string;
  m_started_at : DateTime;
  m_finished_at : option DateTime;
  m_exit_code : option Z;
  m_command : CommandMetadata;
  m_probe_plan : option ProbePlan;
  m_policy : CapturePolicy;
  m_counts : CoverageCounts;
  m_coverage : Coverage;
  m_storage : StorageMetadata;
  m_authentication : option ManifestAuthentication;
}.

#[export] Instance CapturePolicy_eq_dec : EqDecision CapturePolicy.
Proof. solve_decision. Defined.
#[export] Instance CoverageCounts_eq_dec : EqDecision CoverageCounts.
Proof. solve_decision. Defined.
#[export] Instance Coverage_eq_dec : EqDecision Coverage.
Proof. solve_decision. Defined.
#[export] Instance EncryptionMetadata_eq_dec : EqDecision EncryptionMetadata.
Proof. solve_decision. Defined.
#[export] Instance StorageMetadata_eq_dec : EqDecision StorageMetadata.
Proof. solve_decision. Defined.
#[export] Instance ManifestAuthentication_eq_dec : EqDecision ManifestAuthentication.
Proof. solve_decision. Defined.
#[export] Instance Manifest_eq_dec : EqDecision Manifest.
Proof. solve_decision. Defined.

(** serde_json on manifests: compact, indented, and reading. *)
Class SerdeManifest := {
  manifest_to_vec : Manifest -> option bytes;
  manifest_to_vec_pretty : Manifest -> option bytes;
  manifest_from_slice : bytes -> option Manifest;
}.

(** Text with a final newline is read back to the value written. *)
Class SerdeManifestLaws `{!SerdeManifest} := {
  manifest_pretty_roundtrip : forall m b, manifest_to_vec_pretty m = Some b ->
    manifest_from_slice (b ++ [LF]) = Some m;
}.

(** ** [Manifest::new] and validation *)

(** [now] is [Utc::now()], [version] is [RECORDER_VERSION]. *)
Definition new_manifest (version run_id : string) (command : CommandMetadata)
    (policy : CapturePolicy) (now : DateTime) : Manifest :=
  mkManifest 1 version run_id "running" now None None command None policy default_counts
    default_coverage
    (mkStorageMetadata "events.jsonl" "blobs/" "sync-data-before-ack-concurrent-batch-v1" None None)
    None.

Definition validate_manifest_text (name value : string) (maximum_bytes : N) : result string unit :=
  if str_is_empty value || (maximum_bytes <? str_len value) || str_has_control value
  then Err ("manifest " +:+ name +:+ " is empty, too long, or contains control characters")
  else Ok tt.

Definition validate_optional_manifest_text (name : string) (value : option string)
    (maximum_bytes : N) : result string unit :=
  match value with Some value => validate_manifest_text name value maximum_bytes | None => Ok tt end.

Definition validate_manifest_text_list (name : string) (values : list string)
    (maximum_items maximum_bytes : N) : result string unit :=
  if maximum_items <? nlen values then Err ("manifest " +:+ name +:+ " list has too many items")
  else try_fold (fun _ value => validate_manifest_text name value maximum_bytes) tt values.

Definition validate_manifest_count_map (name : string) (values : CountMap)
    (maximum_items maximum_key_bytes : N) : result string unit :=
  if maximum_items <? nlen values then Err ("manifest " +:+ name +:+ " map has too many items")
  else try_fold (fun _ '(key, _) => validate_manifest_text name key maximum_key_bytes) tt values.

Definition egress_classes : list string :=
  ["model_recorder"; "model_bypass"; "local"; "auth"; "telemetry"; "update"; "other"; "unknown_external"].

Definition validate_encryption (e : EncryptionMetadata) : result string unit :=
  ensure (str_eqb (em_algorithm e) "XChaCha20-Poly1305") "unsupported storage encryption algorithm";;
  ensure ((str_len (em_key_id e) =? 64) && str_all is_ascii_hexdigit (em_key_id e))
    "invalid storage encryption key ID";;
  ensure (match em_key_derivation e with Some d => str_eqb d RUN_KEY_DERIVATION_V1 | None => true end)
    "unsupported storage key derivation";;
  ensure (match em_blob_key_management e with
          | Some k => str_eqb k BLOB_KEY_MANAGEMENT_V1 | None => true end)
    "unsupported blob key management";;
  ensure (existsb (str_eqb "events") (em_scope e) && existsb (str_eqb "blobs") (em_scope e))
    "storage encryption must cover events and blobs".

Definition validate_authentication (storage : StorageMetadata) (a : ManifestAuthentication)
    : result string unit :=
  encryption ← ok_or (sm_encryption storage)
                 "manifest authentication requires encrypted storage metadata";
  ensure (str_eqb (ma_algorithm a) "XChaCha20-Poly1305-AAD")
    "unsupported manifest authentication algorithm";;
  ensure (str_eqb (ma_key_id a) (em_key_id encryption))
    "manifest authentication key ID does not match storage";;
  ensure ((str_len (ma_nonce a) <=? 128) && (str_len (ma_tag a) <=? 128))
    "manifest authentication framing is too large".

Section Manifest.
Context {dig : Digest} {hx : Hex} {b64 : Base64} {aead : Aead} {http : Http} {serde : SerdeManifest}.

Definition validate_manifest (m : Manifest) : result string unit :=
  ensure (m_schema_version m =? 1) "unsupported manifest schema";;
  ensure (str_eqb (cov_claim (m_coverage m)) "best-effort")
    "v0.1 manifests may only claim best-effort coverage";;
  validate_manifest_text "recorder version" (m_recorder_version m) 128;;
  validate_manifest_text "run ID" (m_run_id m) 256;;
  policy_validate (m_policy m);;
  ensure (bool_decide (m_status m ∈ ["running"; "finished"; "failed"; "recorder_error"]))
    "manifest contains an invalid run status";;
  ensure (str_eqb (sm_events (m_storage m)) "events.jsonl" && str_eqb (sm_blobs (m_storage m)) "blobs/")
    "manifest storage paths are not supported";;
  ensure (negb (bool_decide (argv (m_command m) = []))) "manifest command argv must not be empty";;
  validate_optional_manifest_text "agent" (agent (m_command m)) 128;;
  validate_optional_manifest_text "agent version" (agent_version (m_command m)) 256;;
  validate_optional_manifest_text "runtime" (runtime (m_command m)) 128;;
  match m_probe_plan m with
  | None => Ok tt
  | Some plan =>
      validate_plan plan;;
      ensure (bool_decide (pp_runtime plan = runtime (m_command m))
              && bool_decide (pp_executable_tls_surfaces plan
                              = set_of_list (executable_tls_surfaces (m_command m))))
        "probe plan does not match command discovery metadata"
  end;;
  validate_manifest_text_list "executable TLS surface" (executable_tls_surfaces (m_command m)) 128 1024;;
  validate_manifest_text_list "capture source" (cov_capture_sources (m_coverage m)) 1024 1024;;
  validate_manifest_text_list "known gap" (cov_known_gaps (m_coverage m)) 10000 4096;;
  validate_manifest_count_map "model" (cc_models (m_counts m)) 10000 1024;;
  validate_manifest_count_map "observed TLS surface" (cov_observed_tls_surfaces (m_coverage m)) 1024 1024;;
  validate_manifest_count_map "observed egress class" (cov_observed_egress_classes (m_coverage m)) 8 64;;
  ensure (forallb (fun '(class, _) => bool_decide (class ∈ egress_classes))
            (cov_observed_egress_classes (m_coverage m)))
    "manifest contains an unsupported observed egress class";;
  validate_manifest_count_map "observed protocol" (cov_observed_protocols (m_coverage m)) 128 256;;
  match sm_encryption (m_storage m) with Some e => validate_encryption e | None => Ok tt end;;
  match m_authentication m with
  | Some a => validate_authentication (m_storage m) a | None => Ok tt end.

(** ** Keys and authentication *)

Definition effective_encryption_key (m : Manifest) (provided : option EncryptionKey)
    : io_result (option EncryptionKey) :=
  match sm_encryption (m_storage m) with
  | None => Ok None
  | Some metadata =>
      key ← ok_or provided (io_error PermissionDenied "run is encrypted; provide --key-file");
      if negb (str_eqb (key_id key) (em_key_id metadata))
      then Err (io_error PermissionDenied "encryption key ID does not match this run")
      else match em_key_derivation metadata with
      | None => Ok (Some key)
      | Some derivation =>
          if str_eqb derivation RUN_KEY_DERIVATION_V1
          then run_key ← derive_run_key key (m_run_id m); Ok (Some run_key)
          else Err (io_error InvalidData "unsupported storage key derivation")
      end
  end.

Definition with_authentication (m : Manifest) (a : option ManifestAuthentication) : Manifest :=
  mkManifest (m_schema_version m) (m_recorder_version m) (m_run_id m) (m_status m) (m_started_at m)
    (m_finished_at m) (m_exit_code m) (m_command m) (m_probe_plan m) (m_policy m) (m_counts m)
    (m_coverage m) (m_storage m) a.

(** [authenticate], with the drawn nonce. *)
Definition authenticate (m : Manifest) (key : EncryptionKey) (nonce : bytes) : io_result Manifest :=
  encryption ← ok_or (sm_encryption (m_storage m))
    (io_error InvalidInput "cannot authenticate a manifest without encrypted storage metadata");
  if negb (str_eqb (em_key_id encryption) (key_id key))
  then Err (io_error PermissionDenied "manifest authentication key does not match storage metadata")
  else
    effective ← effective_encryption_key m (Some key);
    effective_key ← ok_or effective (io_error InvalidInput "encrypted manifest has no key");
    canonical ← ok_or (manifest_to_vec (with_authentication m None))
                  (io_error InvalidData "serialization");
    '(nonce, tag) ← authenticate_manifest effective_key nonce canonical;
    Ok (with_authentication m (Some (mkManifestAuthentication "XChaCha20-Poly1305-AAD"
          (em_key_id encryption) nonce tag))).

Definition verify_authentication (m : Manifest) (key : option EncryptionKey)
    : io_result (option bool) :=
  match sm_encryption (m_storage m) with
  | None => Ok None
  | Some _ =>
      effective ← effective_encryption_key m key;
      key ← ok_or effective (io_error PermissionDenied "encrypted run requires a key");
      match m_authentication m with
      | None => Ok (Some false)
      | Some a =>
          canonical ← ok_or (manifest_to_vec (with_authentication m None))
                        (io_error InvalidData "serialization");
          verify_manifest_authentication key canonical (ma_nonce a) (ma_tag a);;
          Ok (Some true)
      end
  end.

(** ** The file *)

Definition write_atomic (m : Manifest) : io_result bytes :=
  map_err (io_error InvalidData) (validate_manifest m);;
  b ← ok_or (manifest_to_vec_pretty m) (io_error InvalidData "serialization");
  validate_stored_json_complexity b;;
  if MAX_MANIFEST_BYTES <? sat_add (nlen b) 1
  then Err (io_error InvalidData "manifest exceeds the safety limit")
  else Ok (b ++ [LF]).

Definition write_atomic_authenticated (m : Manifest) (key : option EncryptionKey) (nonce : bytes)
    : io_result bytes :=
  m ← match sm_encryption (m_storage m) with
      | Some _ =>
          key ← ok_or key (io_error PermissionDenied "encrypted manifest writes require the matching key");
          authenticate m key nonce
      | None => Ok (with_authentication m None)
      end;
  write_atomic m.

Definition read_manifest (file : option bytes) : io_result Manifest :=
  b ← ok_or file (io_error NotFound "no such file");
  if MAX_MANIFEST_BYTES <? nlen b then Err (io_error InvalidData "file exceeds the limit")
  else
    validate_stored_json_complexity b;;
    m ← ok_or (manifest_from_slice b) (io_error InvalidData "JSON");
    map_err (io_error InvalidData) (validate_manifest m);;
    Ok m.

(** What the analyses do first: read the manifest, select the key, verify. *)
Definition open_run (file : option bytes) (key : option EncryptionKey)
    : storage_result (Manifest * option EncryptionKey) :=
  m ← from_io (read_manifest file);
  effective ← from_io (effective_encryption_key m key);
  _ ← from_io (verify_authentication m key);
  Ok (m, effective).

(** ** What was written is what is read *)

Context {b64l : Base64Laws} {aeadl : AeadLaws} {serdel : SerdeManifestLaws}.

Lemma read_written m b : write_atomic m = Ok b -> read_manifest (Some b) = Ok m.
Proof.
  unfold write_atomic, read_manifest. intros H.
  apply bind_ok in H as ([] & Hv & H). apply bind_ok in H as (text & Ht & H).
  apply bind_ok in H as ([] & Hc & H). apply ok_or_ok in Ht.
  destruct (N.ltb_spec MAX_MANIFEST_BYTES (sat_add (nlen text) 1)) as [|Hlen]; [done|].
  injection H as <-. cbn [ok_or mbind result_bind].
  unfold sat_add, u64_max, MAX_MANIFEST_BYTES in *.
  rewrite (proj2 (N.ltb_ge _ (nlen (text ++ [LF])))) by nlia.
  unfold validate_stored_json_complexity in *. rewrite validate_json_LF, Hc.
  rewrite (manifest_pretty_roundtrip _ _ Ht). cbn [ok_or mbind result_bind]. by rewrite Hv.
Qed.

Lemma with_authentication_id m a : m_authentication m = a -> with_authentication m a = m.
Proof. intros <-. by destruct m. Qed.

Lemma authenticate_verifies m key nonce m' : nlen nonce = 24 ->
  authenticate m key nonce = Ok m' ->
  with_authentication m' None = with_authentication m None /\
  verify_authentication m' (Some key) = Ok (Some true).
Proof.
  intros Hn H. unfold authenticate in H. apply bind_ok in H as (enc & He & H).
  apply ok_or_ok in He. case_match; [done|].
  apply bind_ok in H as (eff & Heff & H). apply bind_ok in H as (k & Hk & H).
  apply ok_or_ok in Hk as ->. apply bind_ok in H as (canonical & Hc & H).
  apply bind_ok in H as ([n t] & Ha & H). injection H as <-. split; [done|].
  unfold verify_authentication. cbn [m_storage with_authentication m_authentication]. rewrite He.
  change (effective_encryption_key (with_authentication m _) (Some key))
    with (effective_encryption_key m (Some key)).
  rewrite Heff. cbn [ok_or mbind result_bind].
  change (with_authentication (with_authentication m _) None) with (with_authentication m None).
  rewrite Hc. cbn [mbind result_bind ma_nonce ma_tag].
  by rewrite (manifest_roundtrip _ _ _ _ _ Hn Ha).
Qed.

(** A manifest that was written is read back as it was, with its
    authentication replaced: an encrypted run's manifest verifies under the
    key it was written with and opens with the same run key; one of a
    plaintext run carries no authentication. *)
Lemma written_opens m key nonce b : nlen nonce = 24 -> write_atomic_authenticated m key nonce = Ok b ->
  exists m' effective, with_authentication m' None = with_authentication m None /\
    effective_encryption_key m key = Ok effective /\
    open_run (Some b) key = Ok (m', effective) /\
    verify_authentication m' key =
      Ok (match sm_encryption (m_storage m) with Some _ => Some true | None => None end).
Proof.
  intros Hnonce H.
  unfold write_atomic_authenticated in H. apply bind_ok in H as (m' & Hm & H).
  apply read_written in H. exists m'.
  assert (with_authentication m' None = with_authentication m None /\
    verify_authentication m' key =
      Ok (match sm_encryption (m_storage m) with Some _ => Some true | None => None end)) as [Hw Hv].
  { destruct (sm_encryption (m_storage m)) as [enc|] eqn:He.
    - apply bind_ok in Hm as (k & Hk & Hm). apply ok_or_ok in Hk as ->.
      by eapply authenticate_verifies.
    - injection Hm as <-. split; [done|]. unfold verify_authentication.
      cbn [m_storage with_authentication]. by rewrite He. }
  assert (effective_encryption_key m' key = effective_encryption_key m key) as Heff.
  { change (effective_encryption_key (with_authentication m' None) key =
            effective_encryption_key (with_authentication m None) key). by rewrite Hw. }
  assert (exists effective, effective_encryption_key m key = Ok effective) as [effective Hok].
  { rewrite <-Heff. unfold verify_authentication in Hv. assert (m_storage m' = m_storage m) as Hst
      by (by apply (f_equal m_storage) in Hw). rewrite Hst in Hv.
    destruct (sm_encryption (m_storage m)) eqn:He.
    - apply bind_ok in Hv as (e' & Hv & _). by exists e'.
    - exists None. unfold effective_encryption_key. by rewrite Hst, He. }
  exists effective. split_and!; [done..| |done].
  unfold open_run, from_io. rewrite H. cbn [map_err mbind result_bind]. rewrite Heff, Hok.
  cbn [map_err mbind result_bind]. by rewrite Hv.
Qed.
End Manifest.

(** ** Witnesses *)

Module ManifestExamples.
Import Concrete CryptoExamples.
#[export] Existing Instance PolicyExamples.http.

Definition command : CommandMetadata :=
  mkCommandMetadata ["agent"] "/tmp" None None None None None [] [].

Definition sample : Manifest :=
  let m := new_manifest "0.1.0" "run-1" command default_policy 0%Z in
  mkManifest (m_schema_version m) (m_recorder_version m) (m_run_id m) "finished" (m_started_at m)
    (Some 5%Z) (Some 0%Z) (m_command m) None (m_policy m) (m_counts m) (m_coverage m)
    (mkStorageMetadata "events.jsonl" "blobs/" "sync-data-before-ack-concurrent-batch-v1" None
       (Some (mkEncryptionMetadata "XChaCha20-Poly1305" (key_id key) (Some RUN_KEY_DERIVATION_V1)
                (Some BLOB_KEY_MANAGEMENT_V1) ["events"; "blobs"]))) None.

(** The authenticated manifest for a canonical text of two braces. *)
Definition canonical : bytes := as_bytes "{}".
Definition run_key : EncryptionKey := default key (ok (derive_run_key key "run-1")).
Definition authentication : option ManifestAuthentication :=
  '(n, t) ← ok (authenticate_manifest run_key nonce canonical);
  Some (mkManifestAuthentication "XChaCha20-Poly1305-AAD" (key_id key) n t).
Definition signed : Manifest := with_authentication sample authentication.

(** The manifest of a plaintext run. *)
Definition plain : Manifest := new_manifest "0.1.0" "run" command default_policy 0%Z.
Definition plain_text : bytes := as_bytes "{ }".

(** A serializer of these manifests. *)
#[export] Instance serde_manifest : SerdeManifest := {|
  manifest_to_vec m := if bool_decide (m = sample) then Some canonical else None;
  manifest_to_vec_pretty m :=
    if bool_decide (m = signed) then Some canonical
    else if bool_decide (m = plain) then Some plain_text else None;
  manifest_from_slice b :=
    if bool_decide (b = canonical ++ [LF]) then Some signed
    else if bool_decide (b = plain_text ++ [LF]) then Some plain else None;
|}.
#[export] Instance serde_manifest_laws : SerdeManifestLaws.
Proof.
  split. intros m b. cbn [manifest_to_vec_pretty manifest_from_slice serde_manifest].
  case_bool_decide as Hm; [intros [= <-]; by rewrite bool_decide_eq_true_2, Hm|].
  case_bool_decide as Hp; [|done]. intros [= <-]. rewrite bool_decide_eq_false_2 by done.
  by rewrite bool_decide_eq_true_2, Hp.
Qed.

Lemma plain_opens : open_run (Some (plain_text ++ [LF])) None = Ok (plain, None).
Proof. vm_compute. reflexivity. Qed.

(** The manifest of a plaintext run that has ended, and a reader of it. *)
Definition over : Manifest :=
  let m := plain in
  mkManifest (m_schema_version m) (m_recorder_version m) (m_run_id m) "finished" (m_started_at m)
    (Some 5%Z) (Some 0%Z) (m_command m) None (m_policy m) (m_counts m) (m_coverage m) (m_storage m) None.
Definition serde_over : SerdeManifest := {|
  manifest_to_vec _ := None;
  manifest_to_vec_pretty _ := None;
  manifest_from_slice b := if bool_decide (b = plain_text ++ [LF]) then Some over else None;
|}.
End ManifestExamples.
