(* ===== verification/Tasks.v ===== *)
(** * src/tasks.rs

    The logical tasks of a run: the events grouped by their explicit task, or
    by their session when they name no task. *)

From Stdlib Require Import Strings.Byte Sorted.
From S2P Require Import Prelude RustStd External Json Input Model ProbePlan Policy Crypto EventLog EventLogSpec Manifest.
From stdpp Require Import options.
Local Open Scope N_scope.
#[local] Unset Default Proof Using.

Definition TASK_SPLIT_POLICY_V1 : string := "agent-task-or-session-v1".
Definition MAX_LOGICAL_TASKS : N := 100000.
Definition MAX_TASK_SESSION_ASSOCIATIONS : N := 100000.

Inductive TaskBoundaryKind := AgentTask | AgentSession.

Record LogicalTask := mkLogicalTask {
  lt_logical_task_id : string;
  lt_boundary_kind : TaskBoundaryKind;
  lt_native_id : string;
  lt_event_count : N;
  lt_first_sequence : N;
  lt_last_sequence : N;
  lt_first_seen_at : DateTime;
  lt_last_seen_at : DateTime;
  lt_session_ids : list string;
}.

Record TaskIndex := mkTaskIndex {
  ti_schema_version : N;
  ti_split_policy : string;
  ti_run_id : string;
  ti_tasks : list LogicalTask;
  ti_unassigned_events : N;
}.

Record TaskAccumulator := mkTaskAccumulator {
  ta_boundary_kind : TaskBoundaryKind;
  ta_native_id : string;
  ta_event_count : N;
  ta_first_sequence : N;
  ta_last_sequence : N;
  ta_first_seen_at : DateTime;
  ta_last_seen_at : DateTime;
  ta_sessions : list string;
}.

Definition logical_task_id (ids : EventIds) : option string :=
  match task_id ids with
  | Some id => Some ("task:" +:+ id)
  | None => (fun id => "session:" +:+ id) <$> session_id ids
  end.

Definition matches_logical_task (e : EventEnvelope) (logical_id : string) : bool :=
  bool_decide (logical_task_id (ev_ids e) = Some logical_id).

(** The variables the visitor updates. *)
Record Indexing := mkIndexing {
  ix_tasks : list (string * TaskAccumulator);
  ix_unassigned_events : N;
  ix_session_associations : N;
}.

Definition boundary (ids : EventIds) : TaskBoundaryKind * string :=
  match task_id ids with
  | Some id => (AgentTask, id)
  | None => (AgentSession, default "" (session_id ids))
  end.

Definition new_accumulator (e : EventEnvelope) : TaskAccumulator :=
  mkTaskAccumulator (fst (boundary (ev_ids e))) (snd (boundary (ev_ids e))) 0 (ev_sequence e)
    (ev_sequence e) (ev_wall_time e) (ev_wall_time e) [].

(** The body of the visitor closure. *)
Definition index_event (s : Indexing) (e : EventEnvelope) : storage_result Indexing :=
  match logical_task_id (ev_ids e) with
  | None => Ok (mkIndexing (ix_tasks s) (sat_add (ix_unassigned_events s) 1) (ix_session_associations s))
  | Some logical_id =>
      if negb (map_contains_key logical_id (ix_tasks s)) && (nlen (ix_tasks s) =? MAX_LOGICAL_TASKS)
      then Err (AnalysisLimitExceeded "logical task index" MAX_LOGICAL_TASKS)
      else
        let a := default (new_accumulator e) (map_get logical_id (ix_tasks s)) in
        '(sessions, associations) ←
          match session_id (ev_ids e) with
          | Some session =>
              if bool_decide (session ∈ ta_sessions a)
              then Ok (ta_sessions a, ix_session_associations s)
              else if ix_session_associations s =? MAX_TASK_SESSION_ASSOCIATIONS
              then Err (AnalysisLimitExceeded "logical task/session association index"
                          MAX_TASK_SESSION_ASSOCIATIONS)
              else Ok (set_insert session (ta_sessions a), sat_add (ix_session_associations s) 1)
          | None => Ok (ta_sessions a, ix_session_associations s)
          end;
        let a := mkTaskAccumulator (ta_boundary_kind a) (ta_native_id a) (sat_add (ta_event_count a) 1)
          (ta_first_sequence a) (ev_sequence e) (ta_first_seen_at a) (ev_wall_time e) sessions in
        Ok (mkIndexing (map_insert logical_id a (ix_tasks s)) (ix_unassigned_events s) associations)
  end.

Definition to_logical_task (entry : string * TaskAccumulator) : LogicalTask :=
  let '(id, t) := entry in
  mkLogicalTask id (ta_boundary_kind t) (ta_native_id t) (ta_event_count t) (ta_first_sequence t)
    (ta_last_sequence t) (ta_first_seen_at t) (ta_last_seen_at t) (ta_sessions t).

Section Tasks.
Context {dig : Digest} {hx : Hex} {b64 : Base64} {aead : Aead} {zstd : Zstd} {http : Http}
  {serde : Serde} {serdeb : SerdeBlock} {serdem : SerdeManifest}.

Definition load_tasks (manifest events : option bytes) (key : option EncryptionKey)
    : storage_result TaskIndex :=
  '(m, effective) ← open_run manifest key;
  '(_, s) ← for_each_run_event_with_key events (m_run_id m) effective index_event (mkIndexing [] 0 0);
  Ok (mkTaskIndex 1 TASK_SPLIT_POLICY_V1 (m_run_id m) (to_logical_task <$> ix_tasks s)
        (ix_unassigned_events s)).
End Tasks.

(** ** The index as a function of the events *)

Definition members (id : string) (es : list EventEnvelope) : list EventEnvelope :=
  List.filter (fun e => matches_logical_task e id) es.

(** What the index says of a task with these events. *)
Definition summary (ms : list EventEnvelope) : TaskAccumulator :=
  match ms, last ms with
  | first :: _, Some final =>
      mkTaskAccumulator (fst (boundary (ev_ids first))) (snd (boundary (ev_ids first))) (nlen ms)
        (ev_sequence first) (ev_sequence final) (ev_wall_time first) (ev_wall_time final)
        (set_of_list (omap (fun e => session_id (ev_ids e)) ms))
  | _, _ => mkTaskAccumulator AgentTask "" 0 0 0 0%Z 0%Z []
  end.

Definition task_ids (es : list EventEnvelope) : list string :=
  set_of_list (omap (fun e => logical_task_id (ev_ids e)) es).

Definition unassigned (es : list EventEnvelope) : N :=
  nlen (List.filter (fun e => bool_decide (logical_task_id (ev_ids e) = None)) es).

Record indexed (es : list EventEnvelope) (s : Indexing) : Prop := {
  in_tasks : ix_tasks s = (fun id => (id, summary (members id es))) <$> task_ids es;
  in_unassigned : ix_unassigned_events s = unassigned es;
  in_associations : ix_session_associations s <= nlen es;
}.

Lemma members_snoc id es e : members id (es ++ [e]) =
  members id es ++ if matches_logical_task e id then [e] else [].
Proof. unfold members. rewrite List.filter_app. cbn. by destruct (matches_logical_task e id). Qed.

Lemma members_nil id es : members id es = [] <-> id ∉ task_ids es.
Proof.
  unfold task_ids. rewrite set_of_list_elem, list_elem_of_omap. split.
  - intros H (e & He & Hid). assert (e ∈ members id es) as Hm; [|rewrite H in Hm; by apply elem_of_nil in Hm].
    apply list_elem_of_In, filter_In. split; [by apply list_elem_of_In|].
    by apply bool_decide_eq_true.
  - intros H. destruct (members id es) as [|e l] eqn:E; [done|exfalso]. apply H. exists e.
    assert (e ∈ members id es) as Hm by (rewrite E; left).
    apply list_elem_of_In, filter_In in Hm as [Hm1 Hm2]. apply bool_decide_eq_true in Hm2.
    split; [by apply list_elem_of_In|done].
Qed.

Lemma task_ids_length es : nlen (task_ids es) <= nlen es.
Proof.
  unfold task_ids, nlen. induction es as [|e es IH] using rev_ind; [done|].
  rewrite omap_app, length_app. cbn [omap list_omap length]. destruct (logical_task_id (ev_ids e)).
  - rewrite set_of_list_snoc. unfold set_insert. rewrite length_fmap.
    set (m := _ <$> _). pose proof (map_insert_length s tt m) as H.
    unfold m in H at 2. rewrite length_fmap in H. lia.
  - rewrite app_nil_r. lia.
Qed.

(** The accumulator an event meets, and what it becomes. *)
Definition met (e : EventEnvelope) (ms : list EventEnvelope) : TaskAccumulator :=
  match ms with [] => new_accumulator e | _ => summary ms end.

Lemma summary_snoc ms e :
  summary (ms ++ [e]) =
  mkTaskAccumulator (ta_boundary_kind (met e ms)) (ta_native_id (met e ms))
    (ta_event_count (met e ms) + 1) (ta_first_sequence (met e ms)) (ev_sequence e)
    (ta_first_seen_at (met e ms)) (ev_wall_time e)
    (match session_id (ev_ids e) with
     | Some session => set_insert session (ta_sessions (met e ms)) | None => ta_sessions (met e ms) end).
Proof.
  assert (set_of_list (omap (fun e => session_id (ev_ids e)) (ms ++ [e])) =
    match session_id (ev_ids e) with
    | Some session => set_insert session (set_of_list (omap (fun e => session_id (ev_ids e)) ms))
    | None => set_of_list (omap (fun e => session_id (ev_ids e)) ms) end) as Hs.
  { rewrite omap_app. cbn [omap list_omap]. destruct (session_id (ev_ids e)); cbn;
      [apply set_of_list_snoc|by rewrite app_nil_r]. }
  destruct ms as [|first ms].
  - unfold summary. rewrite Hs. by destruct (session_id (ev_ids e)).
  - pose proof (last_snoc e (first :: ms)) as Hl. pose proof (nlen_app (first :: ms) [e]) as Hn.
    unfold met, summary. cbn [app] in *. rewrite Hs, Hl, Hn.
    destruct (last (first :: ms)) eqn:El; [|by apply last_None in El]. done.
Qed.

Lemma matches_some e id id' : logical_task_id (ev_ids e) = Some id ->
  matches_logical_task e id' = bool_decide (id' = id).
Proof. intros H. unfold matches_logical_task. rewrite H. apply bool_decide_ext. naive_solver. Qed.

Lemma task_ids_snoc es e : task_ids (es ++ [e]) =
  match logical_task_id (ev_ids e) with
  | Some id => set_insert id (task_ids es) | None => task_ids es end.
Proof.
  unfold task_ids. rewrite omap_app. cbn [omap list_omap].
  destruct (logical_task_id (ev_ids e)); cbn; [apply set_of_list_snoc|by rewrite app_nil_r].
Qed.

Lemma unassigned_snoc es e : unassigned (es ++ [e]) =
  unassigned es + (if logical_task_id (ev_ids e) then 0 else 1).
Proof.
  unfold unassigned. rewrite List.filter_app, nlen_app. f_equal. cbn.
  by destruct (logical_task_id (ev_ids e)).
Qed.

Lemma unassigned_le es : unassigned es <= nlen es.
Proof. unfold unassigned, nlen. pose proof (List.filter_length_le (fun e =>
  bool_decide (logical_task_id (ev_ids e) = None)) es). lia. Qed.

(** The accumulator the visitor finds is the one of the task's events. *)
Lemma met_found es e id :
  default (new_accumulator e)
    (map_get id ((fun id => (id, summary (members id es))) <$> task_ids es)) = met e (members id es).
Proof.
  rewrite (map_get_fmap (fun id => summary (members id es))).
  case_decide as H; cbn [default].
  - unfold met. destruct (members id es) eqn:E; [|done]. by apply members_nil in E.
  - apply members_nil in H. by rewrite H.
Qed.

Lemma met_bounds es e id :
  ta_event_count (met e (members id es)) <= nlen es /\
  StronglySorted str_lt (ta_sessions (met e (members id es))).
Proof.
  assert (nlen (members id es) <= nlen es) as Hl.
  { unfold members, nlen. pose proof (List.filter_length_le (fun e => matches_logical_task e id) es). lia. }
  unfold met. destruct (members id es) as [|first ms]; [split; [cbn; lia|constructor]|].
  unfold summary. destruct (last (first :: ms)) eqn:El; [|by apply last_None in El].
  split; [done|apply set_of_list_sorted].
Qed.

(** The sessions of a task, with the count of associations. *)
Lemma session_step (e : EventEnvelope) sessions associations bound :
  StronglySorted str_lt sessions -> associations <= bound -> bound < MAX_TASK_SESSION_ASSOCIATIONS ->
  exists associations', associations' <= bound + 1 /\
    match session_id (ev_ids e) with
    | Some session =>
        if bool_decide (session ∈ sessions) then Ok (sessions, associations)
        else if associations =? MAX_TASK_SESSION_ASSOCIATIONS
        then Err (AnalysisLimitExceeded "logical task/session association index"
                    MAX_TASK_SESSION_ASSOCIATIONS)
        else Ok (set_insert session sessions, sat_add associations 1)
    | None => Ok (sessions, associations)
    end = Ok (match session_id (ev_ids e) with
              | Some session => set_insert session sessions | None => sessions end, associations').
Proof.
  intros Hs Ha Hb. destruct (session_id (ev_ids e)) as [session|]; [|exists associations; split; [lia|done]].
  case_bool_decide as Hin.
  - exists associations. split; [lia|]. by rewrite set_insert_existing.
  - rewrite (proj2 (N.eqb_neq _ _)) by lia. eexists. split; [|done].
    rewrite sat_add_exact; unfold u64_max, MAX_TASK_SESSION_ASSOCIATIONS in *; lia.
Qed.

Lemma index_event_indexed es s e : indexed es s -> nlen es < MAX_LOGICAL_TASKS ->
  exists s', index_event s e = Ok s' /\ indexed (es ++ [e]) s'.
Proof.
  intros [H1 H2 H3] Hn. unfold index_event. pose proof (unassigned_le es) as Hun.
  assert (nlen es + 1 <= u64_max) as Hmax by (unfold MAX_LOGICAL_TASKS, u64_max in *; lia).
  destruct (logical_task_id (ev_ids e)) as [id|] eqn:Hid.
  - rewrite H1. assert (nlen ((fun id => (id, summary (members id es))) <$> task_ids es)
      =? MAX_LOGICAL_TASKS = false) as ->.
    { unfold nlen. rewrite length_fmap. apply N.eqb_neq. pose proof (task_ids_length es).
      unfold nlen in *. lia. }
    rewrite andb_false_r, met_found. destruct (met_bounds es e id) as [Hc Hs].
    destruct (session_step e _ _ (nlen es) Hs H3 Hn) as (associations' & Ha & ->).
    cbn [mbind result_bind]. eexists. split; [done|]. rewrite sat_add_exact by lia. split; cbn.
    + rewrite (map_insert_fmap (fun id => summary (members id es))) by apply set_of_list_sorted.
      rewrite task_ids_snoc, Hid. apply list_fmap_ext. intros i x _. f_equal.
      rewrite members_snoc, (matches_some _ _ _ Hid). case_decide as Hx.
      * subst. by rewrite bool_decide_eq_true_2, summary_snoc.
      * by rewrite bool_decide_eq_false_2, app_nil_r.
    + by rewrite unassigned_snoc, Hid, N.add_0_r.
    + nlia.
  - eexists. split; [done|]. split; cbn.
    + rewrite H1, task_ids_snoc, Hid. apply list_fmap_ext. intros i x _.
      rewrite members_snoc. unfold matches_logical_task. rewrite Hid, bool_decide_eq_false_2 by done.
      by rewrite app_nil_r.
    + rewrite unassigned_snoc, Hid, H2, sat_add_exact by lia. done.
    + nlia.
Qed.

Lemma index_events es : nlen es <= MAX_LOGICAL_TASKS ->
  exists s, try_fold index_event (mkIndexing [] 0 0) es = Ok s /\ indexed es s.
Proof.
  induction es as [|e es IH] using rev_ind; intros Hn; [eexists; split; [done|by split]|].
  rewrite nlen_app, nlen_cons, nlen_nil in Hn. destruct IH as (s & Hs & Hi); [lia|].
  destruct (index_event_indexed es s e Hi) as (s' & Hs' & Hi'); [lia|].
  exists s'. split; [|done]. rewrite try_fold_app, Hs. cbn. by rewrite Hs'.
Qed.

Section Index.
Context {dig : Digest} {hx : Hex} {b64 : Base64} {aead : Aead} {zstd : Zstd} {http : Http}
  {serde : Serde} {serdeb : SerdeBlock} {serdem : SerdeManifest}.
Context {digl : DigestLaws} {hxl : HexLaws} {b64l : Base64Laws} {aeadl : AeadLaws}
  {zstdl : ZstdLaws} {serdel : SerdeLaws} {serdebl : SerdeBlockLaws}.

(** C32: The index of a run of at most 100,000 events lists, in order and once
    each, exactly the logical tasks its events belong to; the entry of a task
    has the number of its events, its first and last event, and the set of
    their sessions; the events of no task are counted apart. *)
Theorem task_index_exact fmt groups lines manifest key m effective
    (Hopen : open_run manifest key = Ok (m, effective))
    (Hstored : stored fmt effective groups lines)
    (Hrun : of_run (m_run_id m) (concat groups))
    (Hascending : ascending None (concat groups))
    (Hcount : nlen (concat groups) <= MAX_LOGICAL_TASKS) :
  load_tasks manifest (Some (log_bytes fmt lines)) key =
  Ok (mkTaskIndex 1 TASK_SPLIT_POLICY_V1 (m_run_id m)
        ((fun id => to_logical_task (id, summary (members id (concat groups))))
           <$> task_ids (concat groups))
        (unassigned (concat groups))).
Proof.
  unfold load_tasks. rewrite Hopen. cbn [mbind result_bind].
  destruct (read_full fmt effective groups lines (m_run_id m) index_event (mkIndexing [] 0 0)
              Hstored Hrun Hascending) as [report ->].
  destruct (index_events (concat groups) Hcount) as (s & -> & [H1 H2 _]).
  cbn [mbind result_bind]. by rewrite H1, H2, <-list_fmap_compose.
Qed.
End Index.

Module TasksExamples.
Import Concrete ConcreteSerde ConcreteBlock CryptoExamples EventLogExamples ManifestExamples.

Lemma task_index_exact_witness :
  load_tasks (Some (plain_text ++ [LF])) (Some (log_bytes Jsonl lines)) None =
  Ok (mkTaskIndex 1 TASK_SPLIT_POLICY_V1 "run"
        ((fun id => to_logical_task (id, summary (members id (concat groups))))
           <$> task_ids (concat groups))
        (unassigned (concat groups))).
Proof.
  refine (task_index_exact Jsonl groups lines (Some (plain_text ++ [LF])) None plain None
            plain_opens sample_stored _ _ _).
  - by repeat constructor.
  - done.
  - vm_compute. discriminate.
Defined.
End TasksExamples.
