(* ===== verification/Timeline.v ===== *)
(** * src/timeline.rs

    Pages of the run's events, filtered by task, session, turn or inference,
    and resumed after a sequence number. *)

From Stdlib Require Import Strings.Byte Sorted.
From S2P Require Import Prelude RustStd External Json Input Model ProbePlan Policy Crypto EventLog EventLogSpec Manifest Tasks.
From stdpp Require Import pretty.
From stdpp Require Import options.
Local Open Scope N_scope.
#[local] Unset Default Proof Using.

Definition MAX_TIMELINE_PAGE_SIZE : N := 100000.

Record TimelineFilter := mkTimelineFilter {
  tf_logical_task_id : option string;
  tf_session_id : option string;
  tf_turn_id : option string;
  tf_inference_id : option string;
}.

Record TimelineEntry := mkTimelineEntry {
  te_sequence : N;
  te_elapsed_ns : N;
  te_wall_time : DateTime;
  te_source : string;
  te_event : string;
  te_logical_task_id : option string;
  te_task_id : option string;
  te_session_id : option string;
  te_turn_id : option string;
  te_inference_id : option string;
  te_attempt_id : option string;
  te_parent_id : option string;
  te_terminal_state : option TerminalState;
  te_summary : option string;
}.

Record TimelinePage := mkTimelinePage {
  tp_entries : list TimelineEntry;
  tp_truncated : bool;
  tp_next_after_sequence : option N;
}.

(** [Option::is_none_or] with an equality *)
Definition none_or_eq (wanted actual : option string) : bool :=
  match wanted with Some v => bool_decide (actual = Some v) | None => true end.

Definition matches_filter (e : EventEnvelope) (f : TimelineFilter) : bool :=
  match tf_logical_task_id f with Some v => matches_logical_task e v | None => true end
  && none_or_eq (tf_session_id f) (session_id (ev_ids e))
  && none_or_eq (tf_turn_id f) (turn_id (ev_ids e))
  && none_or_eq (tf_inference_id f) (inference_id (ev_ids e)).

Section Timeline.
Context {dig : Digest} {hx : Hex} {b64 : Base64} {aead : Aead} {zstd : Zstd} {http : Http}
  {serde : Serde} {serdeb : SerdeBlock} {serdem : SerdeManifest}.

(** [Number::to_string] *)
Definition number_to_string (n : Number) : string :=
  match n with PosInt n => pretty n | NegInt z => pretty z | Float text => text end.

Definition compact_field (candidate : string * option Value) : option string :=
  let '(name, value) := candidate in
  rendered ← match value with
             | Some (JString text) => Some (bounded_string text)
             | Some (JNumber number) => Some (number_to_string number)
             | Some (JBool b) => Some (if b then "true" else "false")
             | _ => None
             end;
  Some (name +:+ "=" +:+ rendered).

(** [fields.join(" ")] *)
Fixpoint join_fields (fields : list string) : string :=
  match fields with
  | [] => ""
  | [field] => field
  | field :: fields' => field +:+ " " +:+ join_fields fields'
  end.

Definition compact_summary (v : Value) : option string :=
  let fields := omap compact_field
    [("model", pointer ["summary"; "model"] v); ("status", get "status" v); ("state", get "reason" v);
     ("tool", get "tool_name" v); ("pid", get "pid" v); ("bytes", get "observed_bytes" v);
     ("chunks", get "chunks" v); ("sse", pointer ["semantic"; "type"] v);
     ("error", get "error_kind" v)] in
  match fields with [] => None | _ => Some (join_fields fields) end.

Definition to_entry (e : EventEnvelope) : TimelineEntry :=
  let ids := ev_ids e in
  mkTimelineEntry (ev_sequence e) (ev_monotonic_ns e) (ev_wall_time e) (ev_source e) (ev_event e)
    (logical_task_id ids) (task_id ids) (session_id ids) (turn_id ids) (inference_id ids)
    (attempt_id ids) (parent_id ids) (ev_terminal_state e) (ev_normalized e ≫= compact_summary).

(** The visitor closure, on the variables [entries] and [truncated]. *)
Definition page_event (f : TimelineFilter) (after_sequence : option N) (limit : N)
    (s : list TimelineEntry * bool) (e : EventEnvelope) : storage_result (list TimelineEntry * bool) :=
  let '(entries, truncated) := s in
  if match after_sequence with Some sequence => ev_sequence e <=? sequence | None => false end
  then Ok (entries, truncated)
  else if negb (matches_filter e f) then Ok (entries, truncated)
  else if nlen entries =? limit then Ok (entries, true)
  else Ok (entries ++ [to_entry e], truncated).

Definition load_page (manifest events : option bytes) (f : TimelineFilter) (after_sequence : option N)
    (limit : N) (key : option EncryptionKey) : storage_result TimelinePage :=
  if (limit =? 0) || (MAX_TIMELINE_PAGE_SIZE <? limit)
  then Err (AnalysisLimitExceeded "timeline page" MAX_TIMELINE_PAGE_SIZE)
  else
    '(m, effective) ← open_run manifest key;
    '(_, (entries, truncated)) ←
      for_each_run_event_with_key events (m_run_id m) effective (page_event f after_sequence limit)
        ([], false);
    Ok (mkTimelinePage entries truncated
          (if truncated then te_sequence <$> last entries else None)).

Definition load_timeline (manifest events : option bytes) (f : TimelineFilter)
    (key : option EncryptionKey) : storage_result (list TimelineEntry) :=
  page ← load_page manifest events f None MAX_TIMELINE_PAGE_SIZE key;
  if tp_truncated page
  then Err (AnalysisLimitExceeded "timeline result" MAX_TIMELINE_PAGE_SIZE)
  else Ok (tp_entries page).

(** A reader that follows [next_after_sequence] for at most [fuel] pages. *)
Fixpoint follow_pages (fuel : nat) (manifest events : option bytes) (f : TimelineFilter)
    (after_sequence : option N) (limit : N) (key : option EncryptionKey)
    : storage_result (option (list TimelineEntry)) :=
  match fuel with
  | O => Ok None
  | S fuel' =>
      page ← load_page manifest events f after_sequence limit key;
      if tp_truncated page
      then rest ← follow_pages fuel' manifest events f (tp_next_after_sequence page) limit key;
           Ok (option_map (app (tp_entries page)) rest)
      else Ok (Some (tp_entries page))
  end.

(** ** A page as a function of the events *)

(** The events a page with this filter and start would list without limit. *)
Definition wanted (f : TimelineFilter) (after_sequence : option N) (e : EventEnvelope) : bool :=
  match after_sequence with Some sequence => sequence <? ev_sequence e | None => true end
  && matches_filter e f.

Definition selection (f : TimelineFilter) (after_sequence : option N) (es : list EventEnvelope)
    : list EventEnvelope := List.filter (wanted f after_sequence) es.

Lemma page_events f after limit es : exists page,
  try_fold (page_event f after limit) ([], false) es = Ok page /\
  page = (to_entry <$> take (N.to_nat limit) (selection f after es), limit <? nlen (selection f after es)).
Proof.
  induction es as [|e es (page & IH & ->)] using rev_ind.
  { eexists. split; [done|]. cbn. rewrite take_nil. by destruct limit. }
  rewrite try_fold_app, IH. eexists. split; [|done]. cbn [mbind result_bind try_fold page_event].
  unfold selection. rewrite List.filter_app. cbn [List.filter].
  fold (selection f after es). set (ms := selection f after es).
  assert (wanted f after e =
    negb (match after with Some sequence => ev_sequence e <=? sequence | None => false end)
    && matches_filter e f) as Hw.
  { unfold wanted. destruct after as [n|]; [|done]. by rewrite N.leb_antisym, negb_involutive. }
  destruct (match after with Some _ => _ | None => _ end);
    rewrite Hw; cbn [negb andb]; [by rewrite app_nil_r|].
  destruct (matches_filter e f); cbn [negb]; [|by rewrite app_nil_r].
  assert (nlen (to_entry <$> take (N.to_nat limit) ms) = N.min limit (nlen ms)) as Hl
    by (unfold nlen; rewrite length_fmap, length_take; lia).
  rewrite Hl, nlen_app, nlen_cons, nlen_nil, N.add_0_l.
  destruct (N.eqb_spec (N.min limit (nlen ms)) limit) as [E|E]; cbn [mbind result_bind].
  - rewrite take_app_le by (unfold nlen in *; lia).
    by rewrite (proj2 (N.ltb_lt limit (nlen ms + 1))) by lia.
  - rewrite !take_ge by (unfold nlen in *; rewrite ?length_app; cbn; lia).
    rewrite fmap_app. rewrite (proj2 (N.ltb_ge limit (nlen ms))) by lia.
    by rewrite (proj2 (N.ltb_ge limit (nlen ms + 1))) by lia.
Qed.

(** ** Consecutive pages *)

Definition before (a b : EventEnvelope) : Prop := ev_sequence a < ev_sequence b.

Lemma sequenced_sorted n es : sequenced n es -> StronglySorted before es /\
  Forall (fun e => n < ev_sequence e) es.
Proof.
  revert n. induction es as [|e es IH]; intros n; [by split; constructor|].
  intros (He & _ & Hs). destruct (IH _ Hs) as [H1 H2]. split.
  - constructor; [done|]. eapply Forall_impl; [done|]. unfold before. cbn. intros x Hx. lia.
  - constructor; [lia|]. eapply Forall_impl; [done|]. cbn. intros x Hx. lia.
Qed.

Lemma selection_sorted f after es : StronglySorted before es -> StronglySorted before (selection f after es).
Proof.
  induction 1 as [|e es Hs IH He]; [constructor|]. unfold selection in *. cbn [List.filter].
  destruct (wanted f after e); [|done]. constructor; [done|].
  apply Forall_forall. intros x Hx. apply list_elem_of_In, filter_In in Hx as [Hx _].
  eapply Forall_forall in He; [done|]. by apply list_elem_of_In.
Qed.

(** The selection after the last event of a page is what the page left. *)
Lemma sorted_resume (l : list EventEnvelope) k x : StronglySorted before l ->
  last (take k l) = Some x -> List.filter (fun e => ev_sequence x <? ev_sequence e) l = drop k l.
Proof.
  intros Hs. revert k x. induction Hs as [|e l Hs IH He]; intros k x Hx; [by rewrite take_nil in Hx|].
  destruct k as [|k]; [done|]. cbn [take drop] in *. cbn [List.filter].
  destruct (take k l) as [|y t] eqn:Et.
  - cbn in Hx. injection Hx as <-. rewrite N.ltb_irrefl.
    assert (l = drop k l) as <-.
    { destruct k, l; done. }
    clear -He. induction He as [|y l Hy _ IH]; [done|]. cbn. unfold before in Hy.
    by rewrite (proj2 (N.ltb_lt _ _) Hy), IH.
  - change (last (e :: y :: t)) with (last (y :: t)) in Hx. rewrite <-Et in Hx.
    assert (x ∈ l) as Hin.
    { apply last_Some in Hx as [t' Ht]. rewrite <-(take_drop k l), Ht. set_solver. }
    eapply Forall_forall in He; [|done]. unfold before in He.
    rewrite (proj2 (N.ltb_ge _ _)) by lia. by apply IH.
Qed.

Lemma selection_resume f after es k x : StronglySorted before es ->
  last (take k (selection f after es)) = Some x ->
  selection f (Some (ev_sequence x)) es = drop k (selection f after es).
Proof.
  intros Hs Hx. rewrite <-(sorted_resume _ k x (selection_sorted f after es Hs) Hx).
  unfold selection. assert (x ∈ selection f after es) as Hin.
  { apply last_Some in Hx as [t Ht]. rewrite <-(take_drop k (selection f after es)), Ht. set_solver. }
  apply list_elem_of_In, filter_In in Hin as [_ Hw]. unfold wanted in Hw at 1.
  apply andb_true_iff in Hw as [Hw _]. clear Hs Hx. induction es as [|e es IH]; [done|].
  cbn [List.filter]. rewrite IH. unfold wanted.
  destruct (matches_filter e f); rewrite ?andb_false_r, ?andb_true_r; [|done].
  destruct after as [n|]; cbn [List.filter].
  - apply N.ltb_lt in Hw. destruct (N.ltb_spec (ev_sequence x) (ev_sequence e)).
    + rewrite (proj2 (N.ltb_lt n _)) by lia. cbn [List.filter].
      by rewrite (proj2 (N.ltb_lt _ _)) by done.
    + destruct (n <? ev_sequence e); [|done]. cbn [List.filter].
      by rewrite (proj2 (N.ltb_ge _ _)) by done.
  - done.
Qed.

Context {digl : DigestLaws} {hxl : HexLaws} {b64l : Base64Laws} {aeadl : AeadLaws}
  {zstdl : ZstdLaws} {serdel : SerdeLaws} {serdebl : SerdeBlockLaws}.

(** A run whose manifest opens and whose log is intact. *)
Record intact_run (fmt : EventLogFormat) (manifest : option bytes) (key : option EncryptionKey)
    (groups : list (list EventEnvelope)) (lines : list bytes) : Prop := {
  ir_manifest : exists m effective, open_run manifest key = Ok (m, effective) /\
    stored fmt effective groups lines /\ of_run (m_run_id m) (concat groups);
  ir_ascending : ascending None (concat groups);
}.

Lemma load_page_spec fmt manifest key groups lines f after limit :
  intact_run fmt manifest key groups lines -> 0 < limit <= MAX_TIMELINE_PAGE_SIZE ->
  load_page manifest (Some (log_bytes fmt lines)) f after limit key =
  let sel := selection f after (concat groups) in
  Ok (mkTimelinePage (to_entry <$> take (N.to_nat limit) sel) (limit <? nlen sel)
        (if limit <? nlen sel then ev_sequence <$> last (take (N.to_nat limit) sel) else None)).
Proof.
  intros [(m & effective & Ho & Hst & Hr) Ha] Hlim. unfold load_page.
  rewrite (proj2 (N.eqb_neq _ _)), (proj2 (N.ltb_ge _ _)) by lia. cbn [orb].
  rewrite Ho. cbn [mbind result_bind].
  destruct (read_full fmt effective groups lines (m_run_id m) (page_event f after limit) ([], false)
              Hst Hr Ha) as [report ->].
  destruct (page_events f after limit (concat groups)) as (page & -> & ->).
  cbn [mbind result_bind]. cbn zeta. do 2 f_equal. destruct (_ <? _); [|done].
  rewrite fmap_last. by destruct (last _).
Qed.

Lemma follow_pages_spec fmt manifest key groups lines f limit fuel after :
  intact_run fmt manifest key groups lines -> 0 < limit <= MAX_TIMELINE_PAGE_SIZE ->
  (length (selection f after (concat groups)) < fuel)%nat ->
  follow_pages fuel manifest (Some (log_bytes fmt lines)) f after limit key =
  Ok (Some (to_entry <$> selection f after (concat groups))).
Proof.
  intros Hi Hlim. revert after. induction fuel as [|fuel IH]; intros after Hf; [lia|].
  cbn [follow_pages]. rewrite (load_page_spec _ _ _ _ _ _ _ _ Hi Hlim). cbn zeta.
  set (sel := selection f after (concat groups)) in *.
  cbn [mbind result_bind tp_truncated tp_entries tp_next_after_sequence].
  destruct (N.ltb_spec limit (nlen sel)) as [Hlt|Hge].
  - destruct (last (take (N.to_nat limit) sel)) as [x|] eqn:Hx.
    2: { apply last_None, (f_equal length) in Hx. rewrite length_take in Hx. unfold nlen in Hlt.
         cbn in Hx. lia. }
    cbn [fmap option_fmap option_map].
    assert (StronglySorted before (concat groups)) as Hs.
    { destruct Hi as [(m & effective & _ & Hst & _) _]. destruct Hst as [_ Hseq _].
      exact (proj1 (sequenced_sorted _ _ Hseq)). }
    pose proof (selection_resume f after (concat groups) _ x Hs Hx) as Hres. fold sel in Hres.
    rewrite IH, Hres; [|rewrite Hres, length_drop; unfold nlen in *; lia].
    cbn. by rewrite <-fmap_app, take_drop.
  - rewrite take_ge by (unfold nlen in *; lia). done.
Qed.

(** C21: Following the pages of a filtered timeline from its start, with any
    page size, ends and lists exactly the events that match the filter, each
    once and in the order of the log; one page more than there are matching
    events is enough. *)
Theorem timeline_pages_complete fmt manifest key groups lines f limit
    (Hrun : intact_run fmt manifest key groups lines)
    (Hlimit : 0 < limit <= MAX_TIMELINE_PAGE_SIZE) :
  let matching := List.filter (fun e => matches_filter e f) (concat groups) in
  follow_pages (S (length matching)) manifest (Some (log_bytes fmt lines)) f None limit key =
  Ok (Some (to_entry <$> matching)).
Proof.
  cbn zeta. apply (follow_pages_spec fmt manifest key groups lines f limit _ None Hrun Hlimit).
  unfold selection, wanted. cbn [andb]. lia.
Qed.
End Timeline.

Module TimelineExamples.
Import Concrete ConcreteSerde ConcreteBlock CryptoExamples EventLogExamples ManifestExamples.

Definition no_filter : TimelineFilter := mkTimelineFilter None None None None.

Lemma sample_run : intact_run Jsonl (Some (plain_text ++ [LF])) None groups lines.
Proof.
  split; [|done]. exists plain, None. split_and!; [apply plain_opens|apply sample_stored|].
  by repeat constructor.
Qed.

Lemma timeline_pages_complete_witness :
  let matching := List.filter (fun e => matches_filter e no_filter) (concat groups) in
  follow_pages (S (length matching)) (Some (plain_text ++ [LF])) (Some (log_bytes Jsonl lines))
    no_filter None 1 None = Ok (Some (to_entry <$> matching)).
Proof.
  exact (timeline_pages_complete Jsonl (Some (plain_text ++ [LF])) None groups lines no_filter 1
           sample_run ltac:(split; [done|vm_compute; discriminate])).
Defined.
End TimelineExamples.
