(* ===== verification/StateGraph.v ===== *)
(** * src/state.rs

    The graph of provider-side state a run's requests refer to: responses,
    conversations and cached contents, and which of them the run itself saw. *)

From Stdlib Require Import Strings.Byte Sorted.
From S2P Require Import Prelude RustStd External Json Input Model ProbePlan Policy Crypto EventLog EventLogSpec Manifest.
From stdpp Require Import options.
Local Open Scope N_scope.
#[local] Unset Default Proof Using.

Definition MAX_STATE_TRACKED_ITEMS : N := 100000.

Record StateNode := mkStateNode {
  sn_id : string;
  sn_kind : string;
  sn_observed : bool;
  sn_first_sequence : N;
}.

Record StateEdge := mkStateEdge {
  se_from : string;
  se_to : string;
  se_relation : string;
  se_inference_id : option string;
}.

Record StateGraph := mkStateGraph {
  sg_nodes : list StateNode;
  sg_edges : list StateEdge;
  sg_unresolved : list string;
  sg_analysis_truncated : bool;
  sg_omitted_observations : N;
}.

Definition unresolved_count (g : StateGraph) : N :=
  let unresolved := nlen (sg_unresolved g) in
  if sg_analysis_truncated g then sat_add unresolved (N.max (sg_omitted_observations g) 1)
  else unresolved.

Record Reference := mkReference {
  rf_kind : string;
  rf_id : string;
  rf_inference_id : string;
  rf_sequence : N;
}.

Definition node_key (kind id : string) : string := kind +:+ ":" +:+ id.

(** The variables of the analysis. *)
Record Observations := mkObservations {
  ob_response_nodes : list (string * N);
  ob_inference_targets : list (string * string);
  ob_references : list Reference;
  ob_truncated : bool;
  ob_omitted : N;
}.

Definition start_observations : Observations := mkObservations [] [] [] false 0.

(** [note_omission] *)
Definition note_omission (s : Observations) : Observations :=
  mkObservations (ob_response_nodes s) (ob_inference_targets s) (ob_references s) true
    (sat_add (ob_omitted s) 1).

Definition push_reference (limit : N) (kind : string) (value : option Value) (inference_id : string)
    (sequence : N) (s : Observations) : Observations :=
  match value ≫= as_str with
  | Some id =>
      if str_is_empty id then s
      else if nlen (ob_references s) <? limit
      then mkObservations (ob_response_nodes s) (ob_inference_targets s)
             (ob_references s ++ [mkReference kind id inference_id sequence]) (ob_truncated s)
             (ob_omitted s)
      else note_omission s
  | None => s
  end.

(** [insert_observation] on the two maps. *)
Definition insert_response (limit : N) (id : string) (sequence : N) (s : Observations) : Observations :=
  if map_contains_key id (ob_response_nodes s) then s
  else if nlen (ob_response_nodes s) <? limit
  then mkObservations (map_insert id sequence (ob_response_nodes s)) (ob_inference_targets s)
         (ob_references s) (ob_truncated s) (ob_omitted s)
  else note_omission s.

Definition insert_target (limit : N) (inference_id response_id : string) (s : Observations)
    : Observations :=
  if map_contains_key inference_id (ob_inference_targets s) then s
  else if nlen (ob_inference_targets s) <? limit
  then mkObservations (ob_response_nodes s)
         (map_insert inference_id response_id (ob_inference_targets s))
         (ob_references s) (ob_truncated s) (ob_omitted s)
  else note_omission s.

(** The visitor closure. *)
Definition observe (limit : N) (s : Observations) (e : EventEnvelope) : Observations :=
  match inference_id (ev_ids e) with
  | None => s
  | Some inference =>
      let push kind value := push_reference limit kind value inference (ev_sequence e) in
      let from_proxy := str_eqb (ev_source e) "proxy" in
      let s :=
        if from_proxy && str_eqb (ev_event e) "logical_inference_request" then
          match ev_normalized e ≫= get "summary" with
          | Some summary =>
              push "cached_content" (get "cached_content" summary)
                (push "conversation" (get "conversation" summary)
                   (push "response" (get "previous_response_id" summary) s))
          | None => s
          end
        else s in
      if from_proxy && str_eqb (ev_event e) "sse_event" then
        match ev_normalized e ≫= get "semantic" with
        | Some semantic =>
            let s := match get "response_id" semantic ≫= as_str with
                     | Some response_id =>
                         insert_target limit inference response_id
                           (insert_response limit response_id (ev_sequence e) s)
                     | None => s
                     end in
            push "response" (get "previous_response_id" semantic) s
        | None => s
        end
      else s
  end.

(** ** The graph *)

Definition response_node (entry : string * N) : StateNode :=
  mkStateNode (fst entry) "response" true (snd entry).

Definition relation_of (kind : string) : string :=
  if str_eqb kind "response" then "previous_response"
  else if str_eqb kind "conversation" then "conversation_state"
  else if str_eqb kind "cached_content" then "cached_content"
  else "reference".

(** [entry(key).or_insert(value)] *)
Definition or_insert {V} (key : string) (value : V) (m : list (string * V)) : list (string * V) :=
  if map_contains_key key m then m else map_insert key value m.

Definition NUL : string := of_bytes [x00].

(** One round of the loop over the references. *)
Definition add_reference (targets : list (string * string))
    (g : list (string * StateNode) * list (string * StateEdge)) (r : Reference)
    : list (string * StateNode) * list (string * StateEdge) :=
  let '(nodes, edges) := g in
  let key := node_key (rf_kind r) (rf_id r) in
  let observed := str_eqb (rf_kind r) "response" && map_contains_key key nodes in
  let nodes := or_insert key (mkStateNode (rf_id r) (rf_kind r) observed (rf_sequence r)) nodes in
  let target := match map_get (rf_inference_id r) targets with
                | Some response => node_key "response" response
                | None => "inference:" +:+ rf_inference_id r
                end in
  let nodes := or_insert target (mkStateNode (rf_inference_id r) "inference" true (rf_sequence r)) nodes in
  let relation := relation_of (rf_kind r) in
  (nodes, or_insert (key +:+ NUL +:+ target +:+ NUL +:+ relation)
            (mkStateEdge key target relation (Some (rf_inference_id r))) edges).

Definition build_graph (s : Observations) : StateGraph :=
  let nodes := foldl (fun nodes entry => map_insert (node_key "response" (fst entry)) (response_node entry) nodes)
                 [] (ob_response_nodes s) in
  let '(nodes, edges) := foldl (add_reference (ob_inference_targets s)) (nodes, []) (ob_references s) in
  mkStateGraph (snd <$> nodes) (snd <$> edges)
    (fst <$> List.filter (fun entry => negb (sn_observed (snd entry))) nodes)
    (ob_truncated s) (ob_omitted s).

Section Analyze.
Context {dig : Digest} {hx : Hex} {b64 : Base64} {aead : Aead} {zstd : Zstd} {http : Http}
  {serde : Serde} {serdeb : SerdeBlock} {serdem : SerdeManifest}.

Definition analyze_with_key_and_limit (manifest events : option bytes) (key : option EncryptionKey)
    (limit : N) : storage_result StateGraph :=
  '(m, effective) ← open_run manifest key;
  '(_, s) ← for_each_run_event_with_key events (m_run_id m) effective
              (fun s e => Ok (observe limit s e)) start_observations;
  Ok (build_graph s).

Definition analyze_with_key (manifest events : option bytes) (key : option EncryptionKey)
    : storage_result StateGraph :=
  analyze_with_key_and_limit manifest events key MAX_STATE_TRACKED_ITEMS.
End Analyze.

(** ** What the events say *)

Definition mention (kind : string) (value : option Value) (inference : string) (sequence : N)
    : list Reference :=
  match value ≫= as_str with
  | Some id => if str_is_empty id then [] else [mkReference kind id inference sequence]
  | None => []
  end.

Definition section_of (e : EventEnvelope) (event field : string) : option Value :=
  if str_eqb (ev_source e) "proxy" && str_eqb (ev_event e) event
  then ev_normalized e ≫= get field else None.

(** The provider-side state an event refers to. *)
Definition mentions (e : EventEnvelope) : list Reference :=
  match inference_id (ev_ids e) with
  | None => []
  | Some inference =>
      match section_of e "logical_inference_request" "summary" with
      | Some summary =>
          mention "response" (get "previous_response_id" summary) inference (ev_sequence e) ++
          mention "conversation" (get "conversation" summary) inference (ev_sequence e) ++
          mention "cached_content" (get "cached_content" summary) inference (ev_sequence e)
      | None => []
      end ++
      match section_of e "sse_event" "semantic" with
      | Some semantic => mention "response" (get "previous_response_id" semantic) inference (ev_sequence e)
      | None => []
      end
  end.

(** The response an event shows the provider to have produced. *)
Definition reports (e : EventEnvelope) : option string :=
  match inference_id (ev_ids e) with
  | None => None
  | Some _ => (section_of e "sse_event" "semantic" ≫= get "response_id") ≫= as_str
  end.

Definition all_mentions (es : list EventEnvelope) : list Reference := concat (mentions <$> es).

(** The first response of an inference. *)
Definition answers (i : string) (e : EventEnvelope) : option string :=
  if bool_decide (inference_id (ev_ids e) = Some i) then reports e else None.

Definition answer (es : list EventEnvelope) (i : string) : option string := head (omap (answers i) es).

(** The responses the run saw produced, each time it saw one. *)
Definition productions (es : list EventEnvelope) : list (string * N) :=
  omap (fun e => (fun id => (id, ev_sequence e)) <$> reports e) es.

(** [entry(key).or_insert(value)] for one entry after another. *)
Definition or_inserts {V} (m : list (string * V)) (l : list (string * V)) : list (string * V) :=
  foldl (fun m entry => or_insert (fst entry) (snd entry) m) m l.

(** The run itself produced what this reference names. *)
Definition resolved (es : list EventEnvelope) (r : Reference) : Prop :=
  rf_kind r = "response" /\ rf_id r ∈ omap reports es.

(** ** The scan *)

Lemma contains_insert {V} (j k : string) (v : V) m :
  map_contains_key j (map_insert k v m) = bool_decide (j = k) || map_contains_key j m.
Proof.
  unfold map_contains_key. case_bool_decide as H; [subst; by rewrite map_get_insert|].
  by rewrite map_get_insert_ne.
Qed.

(** The observations are all of those of the events, if none was omitted. *)
Record faithful (es : list EventEnvelope) (s : Observations) : Prop := {
  fa_references : ob_references s = all_mentions es;
  fa_responses : ob_response_nodes s = or_inserts [] (productions es);
  fa_targets : forall i, map_get i (ob_inference_targets s) = answer es i;
}.

(** Room for [n] more observations below the limit. *)
Definition room (limit n : N) (s : Observations) : Prop :=
  ob_truncated s = false /\ nlen (ob_references s) + n <= limit /\
  nlen (ob_response_nodes s) + n <= limit /\ nlen (ob_inference_targets s) + n <= limit.

Lemma push_reference_spec limit kind value inference sequence s :
  let s' := push_reference limit kind value inference sequence s in
  ob_response_nodes s' = ob_response_nodes s /\ ob_inference_targets s' = ob_inference_targets s /\
  (ob_truncated s' = false -> ob_truncated s = false /\
    ob_references s' = ob_references s ++ mention kind value inference sequence) /\
  (ob_truncated s = false -> nlen (ob_references s) < limit -> ob_truncated s' = false).
Proof.
  unfold push_reference, mention. destruct (value ≫= as_str) as [id|]; [|by rewrite app_nil_r].
  destruct (str_is_empty id); [by rewrite app_nil_r|]. destruct (_ <? _) eqn:E; cbn; [done|].
  split; [done|]. split; [done|]. split; [done|]. intros _ H. apply N.ltb_ge in E. lia.
Qed.

Lemma insert_response_spec limit id sequence s :
  let s' := insert_response limit id sequence s in
  ob_references s' = ob_references s /\ ob_inference_targets s' = ob_inference_targets s /\
  (ob_truncated s' = false -> ob_truncated s = false /\
    ob_response_nodes s' = or_insert id sequence (ob_response_nodes s)) /\
  nlen (ob_response_nodes s') <= nlen (ob_response_nodes s) + 1 /\
  (ob_truncated s = false -> nlen (ob_response_nodes s) < limit -> ob_truncated s' = false).
Proof.
  unfold insert_response, or_insert. destruct (map_contains_key id _) eqn:Ec; cbn.
  { split; [done|]. split; [done|]. split; [done|]. split; [lia|done]. }
  destruct (_ <? _) eqn:E; cbn.
  - split; [done|]. split; [done|]. split; [done|]. split; [|done].
    unfold nlen. pose proof (map_insert_length id sequence (ob_response_nodes s)). lia.
  - split; [done|]. split; [done|]. split; [done|]. split; [lia|]. intros _ H. apply N.ltb_ge in E. lia.
Qed.

Lemma insert_target_spec limit i r s :
  let s' := insert_target limit i r s in
  ob_references s' = ob_references s /\ ob_response_nodes s' = ob_response_nodes s /\
  (ob_truncated s' = false -> ob_truncated s = false /\
    forall j, map_get j (ob_inference_targets s') =
      match map_get j (ob_inference_targets s) with
      | Some q => Some q | None => if decide (j = i) then Some r else None end) /\
  nlen (ob_inference_targets s') <= nlen (ob_inference_targets s) + 1 /\
  (ob_truncated s = false -> nlen (ob_inference_targets s) < limit -> ob_truncated s' = false).
Proof.
  unfold insert_target, map_contains_key. destruct (map_get i _) as [q|] eqn:Ec; cbn.
  { repeat (split; [done|]). split; [|split; [lia|done]]. intros H. split; [done|]. intros j.
    case_decide; [subst; by rewrite Ec|]. by destruct (map_get j _). }
  destruct (_ <? _) eqn:E; cbn.
  - repeat (split; [done|]). split; [|split; [|done]].
    + intros H. split; [done|]. intros j. case_decide; [subst; by rewrite map_get_insert, Ec|].
      rewrite map_get_insert_ne by done. by destruct (map_get j _).
    + unfold nlen. pose proof (map_insert_length i r (ob_inference_targets s)). lia.
  - repeat (split; [done|]). split; [lia|]. intros _ H. apply N.ltb_ge in E. lia.
Qed.

(** The two halves of the visitor. *)
Definition observe_request (limit : N) (inference : string) (e : EventEnvelope) (s : Observations) :=
  match section_of e "logical_inference_request" "summary" with
  | Some summary =>
      push_reference limit "cached_content" (get "cached_content" summary) inference (ev_sequence e)
        (push_reference limit "conversation" (get "conversation" summary) inference (ev_sequence e)
           (push_reference limit "response" (get "previous_response_id" summary) inference
              (ev_sequence e) s))
  | None => s
  end.

Definition observe_response (limit : N) (inference : string) (e : EventEnvelope) (s : Observations) :=
  match section_of e "sse_event" "semantic" with
  | Some semantic =>
      push_reference limit "response" (get "previous_response_id" semantic) inference (ev_sequence e)
        match get "response_id" semantic ≫= as_str with
        | Some response_id =>
            insert_target limit inference response_id
              (insert_response limit response_id (ev_sequence e) s)
        | None => s
        end
  | None => s
  end.

Lemma observe_halves limit s e : observe limit s e =
  match inference_id (ev_ids e) with
  | Some inference => observe_response limit inference e (observe_request limit inference e s)
  | None => s
  end.
Proof.
  unfold observe, observe_response, observe_request, section_of.
  destruct (inference_id (ev_ids e)); [|done].
  by destruct (str_eqb (ev_source e) "proxy"), (str_eqb (ev_event e) "logical_inference_request"),
    (str_eqb (ev_event e) "sse_event").
Qed.

Lemma observe_request_spec limit i e s :
  let s' := observe_request limit i e s in
  ob_response_nodes s' = ob_response_nodes s /\ ob_inference_targets s' = ob_inference_targets s /\
  (ob_truncated s' = false -> ob_truncated s = false /\
    ob_references s' = ob_references s ++
      match section_of e "logical_inference_request" "summary" with
      | Some summary =>
          mention "response" (get "previous_response_id" summary) i (ev_sequence e) ++
          mention "conversation" (get "conversation" summary) i (ev_sequence e) ++
          mention "cached_content" (get "cached_content" summary) i (ev_sequence e)
      | None => []
      end).
Proof.
  unfold observe_request. destruct (section_of _ _ _) as [summary|]; [|by rewrite app_nil_r].
  cbv zeta.
  destruct (push_reference_spec limit "response" (get "previous_response_id" summary) i
    (ev_sequence e) s) as (Hn1 & Ht1 & Hp1 & _).
  destruct (push_reference_spec limit "conversation" (get "conversation" summary) i (ev_sequence e)
    (push_reference limit "response" (get "previous_response_id" summary) i (ev_sequence e) s))
    as (Hn2 & Ht2 & Hp2 & _).
  match goal with |- context [push_reference _ "cached_content" ?v _ _ ?s2] =>
    destruct (push_reference_spec limit "cached_content" v i (ev_sequence e) s2)
      as (Hn3 & Ht3 & Hp3 & _) end.
  split; [congruence|]. split; [congruence|]. intros H.
  destruct (Hp3 H) as [H2 ->]. destruct (Hp2 H2) as [H1 ->]. destruct (Hp1 H1) as [H0 ->].
  split; [done|]. by rewrite <-!app_assoc.
Qed.

Lemma observe_response_spec limit i e s :
  let s' := observe_response limit i e s in
  let reported := (section_of e "sse_event" "semantic" ≫= get "response_id") ≫= as_str in
  ob_truncated s' = false ->
  ob_truncated s = false /\
  ob_references s' = ob_references s ++
    match section_of e "sse_event" "semantic" with
    | Some semantic => mention "response" (get "previous_response_id" semantic) i (ev_sequence e)
    | None => []
    end /\
  ob_response_nodes s' = match reported with
    | Some id => or_insert id (ev_sequence e) (ob_response_nodes s) | None => ob_response_nodes s end /\
  (forall j, map_get j (ob_inference_targets s') =
     match map_get j (ob_inference_targets s) with
     | Some q => Some q | None => if decide (j = i) then reported else None end).
Proof.
  unfold observe_response. destruct (section_of _ _ _) as [semantic|]; cbn [mbind option_bind].
  2:{ intros H. rewrite app_nil_r. repeat (split; [done|]). intros j.
      by destruct (map_get j _), (decide (j = i)). }
  cbv zeta. match goal with |- context [push_reference _ _ ?v _ _ ?s1] =>
    destruct (push_reference_spec limit "response" v i (ev_sequence e) s1) as (Hn & Ht & Hp & _) end.
  intros H. rewrite Hn, Ht. destruct (Hp H) as [H1 ->]. clear Hn Ht Hp H. revert H1.
  destruct (get "response_id" semantic ≫= as_str) as [id|] eqn:E.
  2:{ intros H. repeat (split; [done|]). intros j. by destruct (map_get j _), (decide (j = i)). }
  destruct (insert_response_spec limit id (ev_sequence e) s) as (Hr1 & Ht1 & Hc1 & _).
  destruct (insert_target_spec limit i id (insert_response limit id (ev_sequence e) s))
    as (Hr2 & Hn2 & Hc2 & _).
  intros H. destruct (Hc2 H) as [H1 Hg2]. destruct (Hc1 H1) as [H0 Hk]. split; [done|]. split; [by rewrite Hr2, Hr1|].
  split; [by rewrite Hn2|]. intros j. by rewrite Hg2, Ht1.
Qed.

Lemma observe_faithful limit es s e :
  (ob_truncated s = false -> faithful es s) ->
  ob_truncated (observe limit s e) = false -> faithful (es ++ [e]) (observe limit s e).
Proof.
  rewrite observe_halves. intros IH H. unfold all_mentions.
  assert (or_inserts [] (productions (es ++ [e])) = match reports e with
    | Some id => or_insert id (ev_sequence e) (or_inserts [] (productions es))
    | None => or_inserts [] (productions es) end) as Hin.
  { unfold productions. rewrite omap_app. cbn [omap list_omap]. destruct (reports e); cbn;
      [unfold or_inserts; by rewrite foldl_app|by rewrite app_nil_r]. }
  assert (all_mentions (es ++ [e]) = all_mentions es ++ mentions e) as Hm.
  { unfold all_mentions. rewrite fmap_app, concat_app. cbn. by rewrite app_nil_r. }
  assert (forall j, answer (es ++ [e]) j =
    match answer es j with Some q => Some q | None => answers j e end) as Ha.
  { intros j. unfold answer. rewrite omap_app. destruct (omap (answers j) es); [|done]. cbn.
    by destruct (answers j e). }
  unfold answers, mentions, reports in *. destruct (inference_id (ev_ids e)) as [i|].
  - destruct (observe_response_spec limit i e _ H) as (H1 & Hr & Hk & Ht).
    destruct (observe_request_spec limit i e s) as (Hn & Ht' & Hp). destruct (Hp H1) as [H0 Hp'].
    destruct (IH H0) as [F1 F2 F3]. split.
    + by rewrite Hr, Hp', Hm, F1, <-app_assoc.
    + by rewrite Hk, Hin, Hn, F2.
    + intros j. rewrite Ht, Ha, Ht', F3. destruct (answer es j); [done|]. case_decide as Hj.
      * by rewrite bool_decide_eq_true_2 by congruence.
      * by rewrite bool_decide_eq_false_2 by congruence.
  - destruct (IH H) as [F1 F2 F3]. split.
    + by rewrite Hm, F1, app_nil_r.
    + by rewrite Hin.
    + intros j. rewrite Ha, F3. by destruct (answer es j).
Qed.

Definition observations (limit : N) (es : list EventEnvelope) : Observations :=
  foldl (observe limit) start_observations es.

Lemma observations_faithful limit es :
  ob_truncated (observations limit es) = false -> faithful es (observations limit es).
Proof.
  unfold observations. induction es as [|e es IH] using rev_ind.
  - intros _. by split.
  - rewrite foldl_app. cbn. by apply observe_faithful.
Qed.

Lemma push_room limit kind value i q n s :
  room limit (n + 1) s -> room limit n (push_reference limit kind value i q s).
Proof.
  intros (Ht & H1 & H2 & H3).
  destruct (push_reference_spec limit kind value i q s) as (Hn & Htg & Hp & Hs).
  assert (ob_truncated (push_reference limit kind value i q s) = false) as Hf by (apply Hs; [done|lia]).
  destruct (Hp Hf) as [_ Hr]. unfold room. rewrite Hn, Htg, Hr, nlen_app.
  assert (nlen (mention kind value i q) <= 1).
  { unfold mention. destruct (value ≫= as_str) as [id|]; [destruct (str_is_empty id)|]; unfold nlen; cbn [length]; lia. }
  split; [done|]. lia.
Qed.

Lemma observe_room limit n s e : room limit (n + 3) s -> room limit n (observe limit s e).
Proof.
  assert (forall a b t, a <= b -> room limit b t -> room limit a t) as Hw
    by (unfold room; intros; intuition lia).
  intros H. rewrite observe_halves. destruct (inference_id (ev_ids e)) as [i|]; [|eapply Hw, H; lia].
  replace (n + 3) with (n + 1 + 1 + 1) in H by lia.
  unfold observe_response, observe_request.
  destruct (section_of e "logical_inference_request" "summary") as [summary|] eqn:E1.
  - assert (section_of e "sse_event" "semantic" = None) as ->.
    { unfold section_of in *. destruct (str_eqb (ev_source e) "proxy"); [|done]. cbn in *.
      destruct (str_eqb (ev_event e) "logical_inference_request") eqn:El; [|done].
      apply str_eqb_true in El as ->. done. }
    by do 3 apply push_room.
  - destruct (section_of e "sse_event" "semantic") as [semantic|]; [|eapply Hw, H; lia].
    apply push_room. destruct (get "response_id" semantic ≫= as_str) as [id|]; [|eapply Hw, H; lia].
    destruct H as (Ht & H1 & H2 & H3).
    destruct (insert_response_spec limit id (ev_sequence e) s) as (A1 & A2 & _ & A4 & A5).
    destruct (insert_target_spec limit i id (insert_response limit id (ev_sequence e) s))
      as (B1 & B2 & _ & B5 & B6).
    unfold room. rewrite B1, B2, A1. rewrite A2 in B5, B6. split; [|lia]. apply B6; [apply A5; [done|lia]|lia].
Qed.

Lemma observations_untruncated limit es :
  3 * nlen es <= limit -> ob_truncated (observations limit es) = false.
Proof.
  intros Hl. enough (room limit (limit - 3 * nlen es) (observations limit es)) as H by apply H.
  revert Hl. unfold observations. induction es as [|e es IH] using rev_ind.
  - intros _. unfold room. cbn. split; [done|unfold nlen; cbn [length]; lia].
  - rewrite nlen_app, nlen_cons, nlen_nil, foldl_app. intros Hl. cbn. apply observe_room.
    match goal with |- room _ ?k _ => replace k with (limit - 3 * nlen es) by lia end. apply IH. lia.
Qed.

(** ** The graph *)

Definition node_name (n : StateNode) : string := node_key (sn_kind n) (sn_id n).

Definition reference_key (r : Reference) : string := node_key (rf_kind r) (rf_id r).

Definition edge_key (e : StateEdge) : string :=
  se_from e +:+ NUL +:+ se_to e +:+ NUL +:+ se_relation e.

Definition target_of (target : string -> option string) (r : Reference) : string :=
  match target (rf_inference_id r) with
  | Some response => node_key "response" response
  | None => node_key "inference" (rf_inference_id r)
  end.

Definition edge_of (target : string -> option string) (r : Reference) : StateEdge :=
  mkStateEdge (reference_key r) (target_of target r) (relation_of (rf_kind r)) (Some (rf_inference_id r)).

(** ** First occurrences *)

(** [a] is the first of its key in [l]. *)
Definition first {A} (key : A -> string) (l : list A) (a : A) : Prop :=
  exists before after, l = before ++ a :: after /\ key a ∉ (key <$> before).

Lemma first_cons {A} (key : A -> string) x l a :
  first key (x :: l) a <-> a = x \/ (key a <> key x /\ first key l a).
Proof.
  split.
  - intros ([|y before] & after & [= -> ->] & Hn); [by left|right]. cbn in Hn.
    apply not_elem_of_cons in Hn as [Hx Hn]. split; [done|]. by exists before, after.
  - intros [->|[Hx (before & after & -> & Hn)]].
    + exists [], l. split; [done|]. apply not_elem_of_nil.
    + exists (x :: before), after. split; [done|]. cbn. by apply not_elem_of_cons.
Qed.

Lemma first_nil {A} (key : A -> string) a : ~ first key [] a.
Proof. by intros ([|] & after & [=] & _). Qed.

Lemma first_elem {A} (key : A -> string) l a : first key l a -> a ∈ l.
Proof. intros (before & after & -> & _). apply elem_of_app. right. left. Qed.

Lemma first_exists {A} (key : A -> string) l x : x ∈ l -> exists a, first key l a /\ key a = key x.
Proof.
  induction 1 as [x l|x y l _ (a & Ha & Hk)].
  - exists x. split; [|done]. apply first_cons. by left.
  - destruct (decide (key a = key y)) as [E|E]; [exists y|exists a]; (split; [apply first_cons; auto|congruence]).
Qed.

Lemma first_app {A} (key : A -> string) l k a :
  first key (l ++ k) a <-> first key l a \/ (key a ∉ (key <$> l) /\ first key k a).
Proof.
  induction l as [|x l IH]; cbn [app fmap list_fmap].
  - split; [right|intros [H|[_ H]]]; try done; [|by apply first_nil in H]. split; [apply not_elem_of_nil|done].
  - rewrite !first_cons, IH, not_elem_of_cons. naive_solver.
Qed.

Lemma first_fmap {A B} (f : A -> B) (key : B -> string) (key' : A -> string) l b :
  (forall x y, key (f x) = key (f y) <-> key' x = key' y) ->
  first key (f <$> l) b <-> exists a, b = f a /\ first key' l a.
Proof.
  intros Hkey. induction l as [|x l IH]; cbn [fmap list_fmap].
  - split; [by intros H%first_nil|]. by intros (a & _ & H%first_nil).
  - rewrite first_cons, IH. setoid_rewrite first_cons. split.
    + intros [->|[Hne (a & -> & Ha)]]; [by exists x; auto|]. exists a. split; [done|right].
      split; [by rewrite <-Hkey|done].
    + intros (a & -> & [->|[Hne Ha]]); [by left|right]. split; [by rewrite Hkey|by exists a].
Qed.

(** ** Maps of first occurrences *)

Lemma contains_elem {V} k (m : list (string * V)) :
  map_contains_key k m = true <-> exists v, (k, v) ∈ m.
Proof.
  unfold map_contains_key. induction m as [|[j w] m IH]; cbn.
  - split; [done|]. intros [v H]. by apply elem_of_nil in H.
  - unfold str_eqb. case_bool_decide as E.
    + split; [|done]. intros _. exists w. subst. left.
    + rewrite IH. split; intros [v H]; exists v; [by right|]. apply elem_of_cons in H as [H|H]; [|done].
      congruence.
Qed.

Lemma map_insert_new {V} k (v : V) m j w : map_contains_key k m = false ->
  (j, w) ∈ map_insert k v m <-> (j = k /\ w = v) \/ (j, w) ∈ m.
Proof.
  intros Hk. assert (forall v', (k, v') ∉ m) as Hn.
  { intros v' Hv. assert (map_contains_key k m = true) by (apply contains_elem; by exists v'). congruence. }
  clear Hk. induction m as [|[k' v'] m IH]; cbn.
  - rewrite list_elem_of_singleton, elem_of_nil. naive_solver.
  - destruct (String.compare k k') eqn:E.
    + apply String.compare_eq_iff in E as ->. by destruct (Hn v'); left.
    + rewrite elem_of_cons. naive_solver.
    + rewrite !elem_of_cons, IH; [naive_solver|]. intros w' Hw. by apply (Hn w'); right.
Qed.

Lemma or_insert_contains {V} k (v : V) m j :
  map_contains_key j (or_insert k v m) = bool_decide (j = k) || map_contains_key j m.
Proof.
  unfold or_insert. destruct (map_contains_key k m) eqn:E; [|apply contains_insert].
  case_bool_decide; by subst.
Qed.

Lemma or_insert_elem {V} k (v : V) m j w :
  (j, w) ∈ or_insert k v m <-> (j, w) ∈ m \/ (map_contains_key k m = false /\ j = k /\ w = v).
Proof.
  unfold or_insert. destruct (map_contains_key k m) eqn:E; [naive_solver|].
  rewrite map_insert_new by done. naive_solver.
Qed.

Lemma map_insert_sorted {V} k (v : V) m : map_sorted m -> map_sorted (map_insert k v m).
Proof.
  unfold map_sorted. induction 1 as [|[k' v'] m Hm IH Hk]; cbn; [by repeat constructor|].
  destruct (String.compare k k') eqn:E.
  - apply String.compare_eq_iff in E as ->. by constructor.
  - constructor; [by constructor|]. constructor; [done|]. eapply Forall_impl; [done|].
    cbn. intros [j w]. cbn. by apply str_lt_trans.
  - constructor; [done|]. apply map_insert_Forall; [|done]. cbn. unfold str_lt.
    rewrite String.compare_antisym, E. done.
Qed.

Lemma or_inserts_sorted {V} m (l : list (string * V)) : map_sorted m -> map_sorted (or_inserts m l).
Proof.
  unfold or_inserts. revert m. induction l as [|[k v] l IH]; intros m Hm; [done|]. cbn. apply IH.
  unfold or_insert. destruct (map_contains_key k m); [done|by apply map_insert_sorted].
Qed.

Lemma map_sorted_keys {V} (m : list (string * V)) : map_sorted m -> StronglySorted str_lt (fst <$> m).
Proof. induction 1 as [|[k v] m Hm IH Hk]; cbn; constructor; [done|]. by apply Forall_fmap. Qed.

Lemma map_sorted_NoDup {V} (m : list (string * V)) : map_sorted m -> NoDup (fst <$> m).
Proof.
  intros H%map_sorted_keys. induction H as [|k ks _ IH Hk]; constructor; [|done]. intros Hin.
  rewrite Forall_forall in Hk. by apply (str_lt_irrefl k), Hk.
Qed.

Lemma or_inserts_elem {V} (l m : list (string * V)) j w :
  (j, w) ∈ or_inserts m l <-> (j, w) ∈ m \/ (map_contains_key j m = false /\ first fst l (j, w)).
Proof.
  unfold or_inserts. revert m. induction l as [|[k v] l IH]; intros m; cbn [foldl fst snd].
  - split; [by left|]. intros [H|[_ H%first_nil]]; done.
  - rewrite IH, or_insert_elem, or_insert_contains, first_cons, orb_false_iff, bool_decide_eq_false. cbn [fst].
    destruct (decide (j = k)) as [->|Hne]; [|naive_solver].
    destruct (map_contains_key k m); naive_solver.
Qed.

Lemma or_inserts_contains {V} (l m : list (string * V)) j :
  map_contains_key j m = true -> map_contains_key j (or_inserts m l) = true.
Proof. rewrite !contains_elem. intros [v Hv]. exists v. apply or_inserts_elem. by left. Qed.

Lemma or_inserts_app {V} (l k m : list (string * V)) : or_inserts m (l ++ k) = or_inserts (or_inserts m l) k.
Proof. apply foldl_app. Qed.

Lemma node_key_inj kind a b : node_key kind a = node_key kind b -> a = b.
Proof.
  unfold node_key. induction kind as [|c kind IH]; cbn; intros [= H]; [exact H|by apply IH].
Qed.

(** ** The nodes and edges the events call for *)

(** What a reference calls for: the state it names, not seen by itself, and the
    inference it belongs to, where no response stands for that. *)
Definition mentioned_nodes (target : string -> option string) (r : Reference) : list StateNode :=
  mkStateNode (rf_id r) (rf_kind r) false (rf_sequence r) ::
  match target (rf_inference_id r) with
  | Some _ => []
  | None => [mkStateNode (rf_inference_id r) "inference" true (rf_sequence r)]
  end.

(** All nodes in the order in which they are called for, the produced responses
    first; and all edges. *)
Definition all_nodes (es : list EventEnvelope) : list StateNode :=
  (response_node <$> productions es) ++ concat (mentioned_nodes (answer es) <$> all_mentions es).
Definition all_edges (es : list EventEnvelope) : list StateEdge := edge_of (answer es) <$> all_mentions es.

Definition named (n : StateNode) : string * StateNode := (node_name n, n).
Definition joined (e : StateEdge) : string * StateEdge := (edge_key e, e).

Lemma first_named l k n : first fst (named <$> l) (k, n) <-> k = node_name n /\ first node_name l n.
Proof. rewrite (first_fmap named fst node_name) by done. unfold named. naive_solver. Qed.
Lemma first_joined l k e : first fst (joined <$> l) (k, e) <-> k = edge_key e /\ first edge_key l e.
Proof. rewrite (first_fmap joined fst edge_key) by done. unfold joined. naive_solver. Qed.

Lemma add_reference_inserts targets nodes edges r :
  (forall response, map_get (rf_inference_id r) targets = Some response ->
     map_contains_key (node_key "response" response) nodes = true) ->
  add_reference targets (nodes, edges) r =
    (or_inserts nodes (named <$> mentioned_nodes (fun i => map_get i targets) r),
     or_inserts edges [joined (edge_of (fun i => map_get i targets) r)]).
Proof.
  intros Ht. unfold add_reference, mentioned_nodes, edge_of, target_of, reference_key.
  set (key := node_key (rf_kind r) (rf_id r)).
  assert (or_insert key (mkStateNode (rf_id r) (rf_kind r) (str_eqb (rf_kind r) "response" && map_contains_key key nodes)
            (rf_sequence r)) nodes = or_insert key (mkStateNode (rf_id r) (rf_kind r) false (rf_sequence r)) nodes) as ->.
  { unfold or_insert. destruct (map_contains_key key nodes); [done|]. by rewrite andb_false_r. }
  destruct (map_get (rf_inference_id r) targets) as [response|]; [|done]. unfold or_inserts.
  cbn [fmap list_fmap foldl named joined fst snd edge_key se_from se_to se_relation]. f_equal.
  unfold or_insert at 1. by rewrite or_insert_contains, Ht, orb_true_r.
Qed.

Lemma references_insert targets rs nodes edges :
  (forall i response, map_get i targets = Some response ->
     map_contains_key (node_key "response" response) nodes = true) ->
  foldl (add_reference targets) (nodes, edges) rs =
    (or_inserts nodes (named <$> concat (mentioned_nodes (fun i => map_get i targets) <$> rs)),
     or_inserts edges (joined <$> (edge_of (fun i => map_get i targets) <$> rs))).
Proof.
  revert nodes edges. induction rs as [|r rs IH]; intros nodes edges Ht; [done|].
  cbn [foldl]. rewrite add_reference_inserts by (intros response; apply Ht).
  rewrite IH by (intros i response Hi; by eapply or_inserts_contains, Ht).
  cbn [fmap list_fmap concat]. by rewrite fmap_app, or_inserts_app.
Qed.

Definition initial_nodes (responses : list (string * N)) : list (string * StateNode) :=
  foldl (fun nodes entry => map_insert (node_key "response" (fst entry)) (response_node entry) nodes) [] responses.

Lemma initial_nodes_spec l : NoDup (fst <$> l) -> map_sorted (initial_nodes l) /\
  forall k n, (k, n) ∈ initial_nodes l <-> k = node_name n /\ n ∈ (response_node <$> l).
Proof.
  unfold initial_nodes. induction l as [|[id q] l IH] using rev_ind; intros Hd.
  - split; [constructor|]. cbn. intros k n. rewrite !elem_of_nil. naive_solver.
  - rewrite fmap_app in Hd. apply NoDup_app in Hd as (Hd & Hx & _). destruct (IH Hd) as [Hs He].
    rewrite foldl_app. cbn [foldl fst]. split; [by apply map_insert_sorted|]. intros k n.
    rewrite map_insert_new, He, fmap_app, elem_of_app.
    + change (response_node <$> [(id, q)]) with [response_node (id, q)]. rewrite list_elem_of_singleton. split.
      * intros [[-> ->]|[-> H]]; split; try done; auto.
      * intros [-> [H| ->]]; auto.
    + destruct (map_contains_key _ _) eqn:E; [exfalso|done]. apply contains_elem in E as [n' [E Hn]%He].
      apply list_elem_of_fmap in Hn as ([id' q'] & -> & Hn). unfold node_name in E. cbn in E.
      apply node_key_inj in E as <-. apply (Hx id); [apply list_elem_of_fmap; by exists (id, q')|left].
Qed.

Lemma productions_reports es id : id ∈ (fst <$> productions es) <-> id ∈ omap reports es.
Proof.
  unfold productions. rewrite list_elem_of_fmap. setoid_rewrite list_elem_of_omap. split.
  - intros ([id' q] & -> & e & He & Hr). exists e. split; [done|]. destruct (reports e); naive_solver.
  - intros (e & He & Hr). exists (id, ev_sequence e). split; [done|]. exists e. by rewrite Hr.
Qed.

Lemma answer_produced es i response : answer es i = Some response ->
  node_key "response" response ∈ (node_name <$> (response_node <$> productions es)).
Proof.
  unfold answer. intros (e & He & Ha)%head_Some_elem_of%list_elem_of_omap. unfold answers in Ha.
  case_bool_decide; [|done]. assert (response ∈ (fst <$> productions es)) as Hp.
  { apply productions_reports, list_elem_of_omap. by exists e. }
  apply list_elem_of_fmap in Hp as ([id q] & -> & Hp). apply list_elem_of_fmap. exists (response_node (id, q)).
  split; [done|]. apply list_elem_of_fmap. by exists (id, q).
Qed.

(** The nodes of the responses are those first seen. *)
Lemma responses_first es : exists nodes, initial_nodes (or_inserts [] (productions es)) = nodes /\ map_sorted nodes /\
  (forall k n, (k, n) ∈ nodes <-> k = node_name n /\ first node_name (response_node <$> productions es) n) /\
  (forall k, map_contains_key k nodes = true <-> k ∈ (node_name <$> (response_node <$> productions es))).
Proof.
  set (m := or_inserts [] (productions es)). exists (initial_nodes m). split; [done|].
  assert (map_sorted m) as Hm by (apply or_inserts_sorted; constructor).
  destruct (initial_nodes_spec m (map_sorted_NoDup _ Hm)) as [Hs He]. split; [done|].
  assert (forall k n, (k, n) ∈ initial_nodes m <-> k = node_name n /\ first node_name (response_node <$> productions es) n)
    as Hf.
  { intros k n. rewrite He. rewrite (first_fmap response_node node_name fst).
    2: { intros [a qa] [b qb]. unfold node_name. cbn. split; [apply node_key_inj|by intros ->]. }
    rewrite list_elem_of_fmap. subst m. split; (intros [-> ([id q] & -> & H)]; split; [done|]; exists (id, q); split; [done|]).
    - apply or_inserts_elem in H as [H|[_ H]]; [by apply elem_of_nil in H|done].
    - apply or_inserts_elem. by right. }
  split; [done|]. intros k. rewrite contains_elem. setoid_rewrite Hf. split.
  - intros (n & -> & H). apply list_elem_of_fmap. exists n. split; [done|]. by eapply first_elem.
  - intros (n & -> & H)%list_elem_of_fmap. destruct (first_exists node_name _ _ H) as (a & Ha & Hk).
    by exists a.
Qed.

Lemma mention_kind kind value i q r : r ∈ mention kind value i q -> rf_kind r = kind.
Proof.
  unfold mention. destruct (value ≫= as_str) as [id|]; [destruct (str_is_empty id)|];
    rewrite ?list_elem_of_singleton, ?elem_of_nil; by try intros ->.
Qed.

Lemma all_mentions_kinds es r : r ∈ all_mentions es ->
  rf_kind r = "response" \/ rf_kind r = "conversation" \/ rf_kind r = "cached_content".
Proof.
  unfold all_mentions. rewrite list_elem_of_In, in_concat.
  intros (l & (e & -> & _)%list_elem_of_In%list_elem_of_fmap & Hr%list_elem_of_In). revert Hr. unfold mentions. destruct (inference_id (ev_ids e)); [|by rewrite elem_of_nil].
  rewrite elem_of_app. destruct (section_of e "logical_inference_request" "summary"),
    (section_of e "sse_event" "semantic"); rewrite ?elem_of_app, ?elem_of_nil;
    intros H; repeat match type of H with _ \/ _ => destruct H as [H|H] end; try done;
    apply mention_kind in H; by auto.
Qed.

Lemma response_key_inj es r id : r ∈ all_mentions es ->
  reference_key r = node_key "response" id -> rf_kind r = "response" /\ rf_id r = id.
Proof.
  unfold reference_key. intros [-> | [-> | ->]]%all_mentions_kinds H; [|done..].
  split; [done|]. by apply node_key_inj in H.
Qed.

Lemma inference_key_ne es r i : r ∈ all_mentions es -> reference_key r <> node_key "inference" i.
Proof. unfold reference_key. by intros [-> | [-> | ->]]%all_mentions_kinds. Qed.

(** The graph of the state the events refer to.  Nodes and edges are in the order
    of their keys and are exactly the first ones called for under their key, with
    the sequence number, the observation and the inference of that first one;
    what is not observed is what the run did not see produced. *)
Record graph_of (es : list EventEnvelope) (g : StateGraph) : Prop := {
  go_sorted : StronglySorted str_lt (node_name <$> sg_nodes g);
  go_nodes : forall n, n ∈ sg_nodes g <-> first node_name (all_nodes es) n;
  go_edges_sorted : StronglySorted str_lt (edge_key <$> sg_edges g);
  go_edges : forall e, e ∈ sg_edges g <-> first edge_key (all_edges es) e;
  go_endpoints : forall e, e ∈ sg_edges g ->
    se_from e ∈ (node_name <$> sg_nodes g) /\ se_to e ∈ (node_name <$> sg_nodes g);
  go_unresolved : sg_unresolved g =
    node_name <$> List.filter (fun n => negb (sn_observed n)) (sg_nodes g);
  go_exact : forall k, k ∈ sg_unresolved g <->
    exists r, r ∈ all_mentions es /\ reference_key r = k /\ ~ resolved es r;
}.

Lemma elem_of_all_nodes es n : n ∈ all_nodes es <->
  (exists id q, n = response_node (id, q) /\ (id, q) ∈ productions es) \/
  (exists r, r ∈ all_mentions es /\ n ∈ mentioned_nodes (answer es) r).
Proof.
  unfold all_nodes. rewrite elem_of_app, list_elem_of_fmap, list_elem_of_In, in_concat. split.
  - intros [([id q] & -> & H)|(l & (r & -> & Hr)%list_elem_of_In%list_elem_of_fmap & Hn)]; [left; by exists id, q|right].
    exists r. split; [done|]. by apply list_elem_of_In.
  - intros [(id & q & -> & H)|(r & Hr & Hn)]; [left; by exists (id, q)|right].
    eexists. split; [apply list_elem_of_In, list_elem_of_fmap; by exists r|]. by apply list_elem_of_In.
Qed.

(** Every reference has both ends among the nodes. *)
Lemma mention_ends es r : r ∈ all_mentions es ->
  reference_key r ∈ (node_name <$> all_nodes es) /\ target_of (answer es) r ∈ (node_name <$> all_nodes es).
Proof.
  intros Hr. split; apply list_elem_of_fmap.
  - eexists (mkStateNode (rf_id r) (rf_kind r) false (rf_sequence r)). split; [done|]. apply elem_of_all_nodes. right.
    exists r. split; [done|left].
  - unfold target_of. destruct (answer es (rf_inference_id r)) as [response|] eqn:E.
    + apply answer_produced, list_elem_of_fmap in E as (n & Hk & Hn). exists n. split; [done|].
      unfold all_nodes. apply elem_of_app. by left.
    + exists (mkStateNode (rf_inference_id r) "inference" true (rf_sequence r)). split; [done|]. apply elem_of_all_nodes.
      right. exists r. split; [done|]. unfold mentioned_nodes. rewrite E. right. left.
Qed.

(** The first node of a name is unobserved exactly if the name is that of a
    reference the run did not see produced. *)
Lemma unobserved_first es n : first node_name (all_nodes es) n -> sn_observed n = false ->
  exists r, r ∈ all_mentions es /\ reference_key r = node_name n /\ ~ resolved es r.
Proof.
  intros Hf Ho. unfold all_nodes in Hf. apply first_app in Hf as [Hf|[Hnew Hf]].
  { apply first_elem, list_elem_of_fmap in Hf as (p & -> & _). done. }
  apply first_elem in Hf. assert (n ∈ all_nodes es) as [(id & q & -> & _)|(r & Hr & Hn)]%elem_of_all_nodes
    by (apply elem_of_app; by right); [done|].
  exists r. split; [done|]. unfold mentioned_nodes in Hn. apply elem_of_cons in Hn as [->|Hn].
  - split; [done|]. intros [Hk Hi%productions_reports]. apply Hnew.
    apply list_elem_of_fmap in Hi as ([id q] & Hi & Hp). apply list_elem_of_fmap. exists (response_node (id, q)).
    split; [unfold node_name; cbn in *; congruence|]. apply list_elem_of_fmap. by exists (id, q).
  - destruct (answer es _); [by apply elem_of_nil in Hn|]. by apply list_elem_of_singleton in Hn as ->.
Qed.

Lemma unresolved_unobserved es r n : r ∈ all_mentions es -> ~ resolved es r -> first node_name (all_nodes es) n ->
  node_name n = reference_key r -> sn_observed n = false.
Proof.
  intros Hr Hu Hn%first_elem Hk. apply elem_of_all_nodes in Hn as [(id & q & -> & Hp)|(r' & _ & Hn)].
  - symmetry in Hk. apply (response_key_inj es) in Hk as [Hk Hi]; [|done]. destruct Hu. split; [done|].
    apply productions_reports, list_elem_of_fmap. by exists (id, q).
  - apply elem_of_cons in Hn as [->|Hn]; [done|]. destruct (answer es _); [by apply elem_of_nil in Hn|].
    apply list_elem_of_singleton in Hn as ->. symmetry in Hk. by apply (inference_key_ne es) in Hk.
Qed.

Lemma unresolved_names (nodes : list (string * StateNode)) :
  (forall k n, (k, n) ∈ nodes -> k = node_name n) ->
  (fst <$> List.filter (fun entry => negb (sn_observed (snd entry))) nodes) =
  node_name <$> List.filter (fun n => negb (sn_observed n)) (snd <$> nodes) /\
  (fst <$> nodes) = node_name <$> (snd <$> nodes).
Proof.
  induction nodes as [|[k n] nodes IH]; intros H; [done|].
  destruct IH as [IH1 IH2]. { intros j w Hj. apply H. by right. }
  assert (k = node_name n) as Hk by (apply H; left). cbn.
  split; [destruct (sn_observed n); cbn; by rewrite ?IH1, ?Hk|by rewrite IH2, Hk].
Qed.

(** A graph with these maps is the graph of the events. *)
Lemma maps_graph es nodes edges trunc omitted : map_sorted nodes -> map_sorted edges ->
  (forall k n, (k, n) ∈ nodes <-> k = node_name n /\ first node_name (all_nodes es) n) ->
  (forall k e, (k, e) ∈ edges <-> k = edge_key e /\ first edge_key (all_edges es) e) ->
  graph_of es (mkStateGraph (snd <$> nodes) (snd <$> edges)
    (fst <$> List.filter (fun entry => negb (sn_observed (snd entry))) nodes) trunc omitted).
Proof.
  intros Sn Se Hn He.
  destruct (unresolved_names nodes) as [U1 U2]. { intros k n H. by apply Hn in H as [? _]. }
  assert ((fst <$> edges) = edge_key <$> (snd <$> edges)) as U3.
  { rewrite <-list_fmap_compose. apply list_fmap_ext. intros i [k e] Hi. apply list_elem_of_lookup_2, He in Hi as [-> _]. done. }
  assert (forall n, n ∈ (snd <$> nodes) <-> first node_name (all_nodes es) n) as Hn'.
  { intros n. rewrite list_elem_of_fmap. split; [intros ([k n'] & -> & [_ H]%Hn); done|].
    intros H. exists (named n). split; [done|]. by apply Hn. }
  assert (forall e, e ∈ (snd <$> edges) <-> first edge_key (all_edges es) e) as He'.
  { intros e. rewrite list_elem_of_fmap. split; [intros ([k e'] & -> & [_ H]%He); done|].
    intros H. exists (joined e). split; [done|]. by apply He. }
  assert (forall k, k ∈ (node_name <$> all_nodes es) -> k ∈ (node_name <$> (snd <$> nodes))) as Hnames.
  { intros k (n & -> & H)%list_elem_of_fmap. destruct (first_exists node_name _ _ H) as (a & Ha & <-).
    apply list_elem_of_fmap. exists a. split; [done|]. by apply Hn'. }
  split; cbn [sg_nodes sg_edges sg_unresolved]; try done.
  - rewrite <-U2. by apply map_sorted_keys.
  - rewrite <-U3. by apply map_sorted_keys.
  - intros e H. apply He', first_elem, list_elem_of_fmap in H as (r & -> & Hr).
    destruct (mention_ends es r Hr). cbn [edge_of se_from se_to]. by split; apply Hnames.
  - intros k. rewrite U1, list_elem_of_fmap. split.
    + intros (n & -> & [H Hb]%list_elem_of_In%filter_In). apply list_elem_of_In, Hn' in H. apply negb_true_iff in Hb.
      by apply unobserved_first.
    + intros (r & Hr & <- & Hu). pose proof (Hnames _ (proj1 (mention_ends es r Hr))) as (n & Hk & H)%list_elem_of_fmap.
      exists n. split; [done|]. apply list_elem_of_In, filter_In. split; [by apply list_elem_of_In|].
      apply Hn' in H. by rewrite (unresolved_unobserved es r n).
Qed.

Lemma build_graph_of limit es :
  ob_truncated (observations limit es) = false -> graph_of es (build_graph (observations limit es)).
Proof.
  intros H. destruct (observations_faithful _ _ H) as [F1 F2 F3]. unfold build_graph.
  fold (initial_nodes (ob_response_nodes (observations limit es))). rewrite F2.
  destruct (responses_first es) as (nodes & -> & Hs & Hn & Hc).
  rewrite references_insert.
  2: { intros i response Hi. rewrite F3 in Hi. by eapply Hc, answer_produced. }
  rewrite F1.
  assert (forall r, mentioned_nodes (fun i => map_get i (ob_inference_targets (observations limit es))) r =
    mentioned_nodes (answer es) r) as Hm by (intros r; unfold mentioned_nodes; by rewrite F3).
  assert (forall r, edge_of (fun i => map_get i (ob_inference_targets (observations limit es))) r =
    edge_of (answer es) r) as He by (intros r; unfold edge_of, target_of; by rewrite F3).
  rewrite (list_fmap_ext _ _ (all_mentions es) (fun _ r _ => Hm r)), (list_fmap_ext _ _ (all_mentions es) (fun _ r _ => He r)).
  apply maps_graph.
  - by apply or_inserts_sorted.
  - apply or_inserts_sorted. constructor.
  - intros k n. rewrite or_inserts_elem, Hn, first_named. unfold all_nodes. rewrite first_app.
    assert (map_contains_key k nodes = false <-> k ∉ (node_name <$> (response_node <$> productions es))) as Hc'.
    { rewrite <-Hc. destruct (map_contains_key k nodes); naive_solver. }
    rewrite Hc'. naive_solver.
  - intros k e. rewrite or_inserts_elem, first_joined. split; [|naive_solver].
    intros [H'|[_ H']]; [by apply elem_of_nil in H'|done].
Qed.

Lemma observe_fold limit es s :
  try_fold (E := StorageError) (fun s e => Ok (observe limit s e)) s es = Ok (foldl (observe limit) s es).
Proof. revert s. induction es as [|e es IH]; intros s; [done|]. cbn. apply IH. Qed.

(** Nothing is left out of an unresolved count of zero. *)
Lemma zero_unresolved limit es : unresolved_count (build_graph (observations limit es)) = 0 ->
  forall r, r ∈ all_mentions es -> resolved es r.
Proof.
  intros Hzero.
  assert (ob_truncated (observations limit es) = false /\
    sg_unresolved (build_graph (observations limit es)) = []) as [Ht Hu].
  { revert Hzero. unfold unresolved_count.
    assert (sg_analysis_truncated (build_graph (observations limit es)) =
      ob_truncated (observations limit es)) as ->.
    { unfold build_graph. by destruct (foldl _ (foldl _ _ _, []) _). }
    destruct (ob_truncated _); unfold sat_add, nlen; [unfold u64_max; lia|].
    intros H. split; [done|]. destruct (sg_unresolved _); [done|cbn in H; lia]. }
  intros r Hr. pose proof (go_exact _ _ (build_graph_of _ _ Ht)) as Hx.
  destruct (decide (rf_kind r = "response")) as [Hk|Hk], (decide (rf_id r ∈ omap reports es))
    as [Hi|Hi]; [by split|exfalso..]; (assert (reference_key r ∈ ([] : list string)) as Hn;
    [rewrite <-Hu; apply Hx; exists r; split; [done|split; [done|by intros []]]|by apply elem_of_nil in Hn]).
Qed.

Section State.
Context {dig : Digest} {hx : Hex} {b64 : Base64} {aead : Aead} {zstd : Zstd} {http : Http}
  {serde : Serde} {serdeb : SerdeBlock} {serdem : SerdeManifest}.
Context {digl : DigestLaws} {hxl : HexLaws} {b64l : Base64Laws} {aeadl : AeadLaws}
  {zstdl : ZstdLaws} {serdel : SerdeLaws} {serdebl : SerdeBlockLaws}.
Context fmt groups lines manifest key m effective
  (Hopen : open_run manifest key = Ok (m, effective))
  (Hstored : stored fmt effective groups lines)
  (Hrun : of_run (m_run_id m) (concat groups))
  (Hascending : ascending None (concat groups)).

Lemma analyze_observations limit :
  analyze_with_key_and_limit manifest (Some (log_bytes fmt lines)) key limit =
  Ok (build_graph (observations limit (concat groups))).
Proof.
  unfold analyze_with_key_and_limit. rewrite Hopen. cbn [mbind result_bind].
  destruct (read_full fmt effective groups lines (m_run_id m) (fun s e => Ok (observe limit s e))
              start_observations Hstored Hrun Hascending) as [report ->].
  by rewrite observe_fold.
Qed.

(** C20: The state analysis of a run of up to 33,333 events returns the graph of
    the state its events refer to, and that graph is determined: its nodes are in
    the order of their names and are exactly the responses the run saw produced,
    the state the references name and the inferences no response stands for, each
    with the sequence number at which it first came up; its edges are in the order
    of their keys, join nodes of the graph, and are exactly one for all references
    with the same ends and relation, naming the inference of the first of them;
    unresolved are exactly the references to what the run did not see produced. *)
Theorem state_graph_exact (Hcount : 3 * nlen (concat groups) <= MAX_STATE_TRACKED_ITEMS) :
  exists g, analyze_with_key manifest (Some (log_bytes fmt lines)) key = Ok g /\
    graph_of (concat groups) g /\ unresolved_count g = nlen (sg_unresolved g).
Proof.
  unfold analyze_with_key. rewrite analyze_observations. eexists. split; [done|].
  pose proof (observations_untruncated _ _ Hcount) as H. split; [by apply build_graph_of|].
  unfold unresolved_count, build_graph. destruct (foldl _ (foldl _ _ _, []) _) as [nodes edges].
  cbn [sg_analysis_truncated]. by rewrite H.
Qed.

(** However long the run and whatever the limit of the analysis, an
    unresolved count of zero means that the run is self-contained: every
    reference to provider-side state names a response the run itself saw. *)
Theorem zero_unresolved_self_contained limit g
    (Hg : analyze_with_key_and_limit manifest (Some (log_bytes fmt lines)) key limit = Ok g)
    (Hzero : unresolved_count g = 0) :
  forall r, r ∈ all_mentions (concat groups) -> resolved (concat groups) r.
Proof.
  rewrite analyze_observations in Hg. injection Hg as <-.
  exact (zero_unresolved _ _ Hzero).
Qed.
End State.

Module StateGraphExamples.
Import Concrete ConcreteSerde ConcreteBlock CryptoExamples EventLogExamples ManifestExamples.

Lemma sample_of_run : of_run "run" (concat groups).
Proof. by repeat constructor. Qed.

Lemma sample_ascending : ascending None (concat groups).
Proof. done. Qed.

Lemma state_graph_exact_witness :
  exists g, analyze_with_key (Some (plain_text ++ [LF])) (Some (log_bytes Jsonl lines)) None = Ok g /\
    graph_of (concat groups) g /\ unresolved_count g = nlen (sg_unresolved g).
Proof.
  exact (state_graph_exact Jsonl groups lines (Some (plain_text ++ [LF])) None plain None
           plain_opens sample_stored sample_of_run sample_ascending ltac:(vm_compute; discriminate)).
Defined.

Definition empty_graph : StateGraph := mkStateGraph [] [] [] false 0.

Lemma sample_analysis :
  analyze_with_key_and_limit (Some (plain_text ++ [LF])) (Some (log_bytes Jsonl lines)) None 5 =
  Ok empty_graph.
Proof. vm_compute. reflexivity. Qed.

Lemma zero_unresolved_self_contained_witness :
  unresolved_count empty_graph = 0 /\
  Forall (resolved (concat groups)) (all_mentions (concat groups)).
Proof.
  split; [done|]. apply Forall_forall.
  exact (zero_unresolved_self_contained Jsonl groups lines (Some (plain_text ++ [LF])) None plain None
           plain_opens sample_stored sample_of_run sample_ascending 5 empty_graph sample_analysis eq_refl).
Defined.

(** A conversation of two turns, the second of which names the first one's
    response, and a cached content the run never saw. *)
Definition turn (sequence : N) (kind inference : string) (field : string) (value : list (string * Value))
    : EventEnvelope :=
  mkEventEnvelope SCHEMA_VERSION sequence sequence "run"
    (mkEventIds None None None (Some inference) None None None None None) "proxy" kind 0 0%Z None
    (Some (JObject [(field, JObject value)])) (mkRedactionRecord "default" [] []) None [] None.

Definition turns : list EventEnvelope :=
  [turn 1 "sse_event" "i1" "semantic" [("response_id", JString "r1")];
   turn 2 "logical_inference_request" "i2" "summary"
     [("cached_content", JString "c"); ("previous_response_id", JString "r1")]].

Example turns_graph : build_graph (observations MAX_STATE_TRACKED_ITEMS turns) =
  mkStateGraph
    [mkStateNode "c" "cached_content" false 2; mkStateNode "i2" "inference" true 2;
     mkStateNode "r1" "response" true 1]
    [mkStateEdge "cached_content:c" "inference:i2" "cached_content" (Some "i2");
     mkStateEdge "response:r1" "inference:i2" "previous_response" (Some "i2")]
    ["cached_content:c"] false 0.
Proof. vm_compute. reflexivity. Qed.
End StateGraphExamples.
