(* ===== verification/Writer.v ===== *)
(** * src/storage.rs: the event writer

    One blocking task owns the log file and turns batches of pending events
    into durable records.  The operating system is an interface: every write
    may fail after part of its bytes, every sync may fail.  A file remembers
    how much of its content is known to be durable. *)

From Stdlib Require Import Strings.Byte.
From S2P Require Import Prelude RustStd External Json Input Model Policy Crypto EventLog EventLogSpec.
From stdpp Require Import sorting pretty.
From stdpp Require Import options.
Local Open Scope N_scope.
#[local] Unset Default Proof Using.

(** ** Files *)

(** The outcome of the [k]-th operation: [write_fault k = Some n] makes a
    write fail after [n] bytes, [sync_fails k] makes a sync fail. *)
Class Disk := {
  write_fault : N -> option N;
  sync_fails : N -> bool;
}.

Record File := mkFile {
  content : bytes;
  durable : N;
  operations : N;
}.

Definition io_failure : IoError := io_error Other "input/output error".

(** [write_all] reports an error only when some byte was not written. *)
Definition write_all `{!Disk} (f : File) (data : bytes) : io_result unit * File :=
  match write_fault (operations f) with
  | None => (Ok tt, mkFile (content f ++ data) (durable f) (operations f + 1))
  | Some n =>
      (Err io_failure,
       mkFile (content f ++ ntake (N.min n (nlen data - 1)) data) (durable f) (operations f + 1))
  end.

(** [sync_data] and [sync_all] *)
Definition sync_data `{!Disk} (f : File) : io_result unit * File :=
  if sync_fails (operations f)
  then (Err io_failure, mkFile (content f) (durable f) (operations f + 1))
  else (Ok tt, mkFile (content f) (nlen (content f)) (operations f + 1)).

(** [file.write_all(&serialized).and_then(|()| file.write_all(b"\n"))] *)
Definition write_line `{!Disk} (f : File) (line : bytes) : io_result unit * File :=
  match write_all f line with
  | (Ok _, f) => write_all f [LF]
  | (Err e, f) => (Err e, f)
  end.

(** ** Random values drawn by the writer *)

(** Nonces and event identifiers, by the sequence number they are drawn for. *)
Record Draws := mkDraws {
  nonces : N -> bytes;
  uuids : N -> Uuid;
}.

(** ** [append_batch] *)

Record WriterStats := mkWriterStats {
  ws_events : N;
  ws_event_storage_bytes : N;
  ws_event_sync_batches : N;
}.

(** [fetch_add] wraps. *)
Definition wrapping_add (a b : N) : N := (a + b) mod 2 ^ 64.

(** An acknowledgement channel is answered or dropped.  Errors are sent as the
    text of the failure, of the sync error, or the fixed text for events after
    the failing one. *)
Inductive ReplyError := AppendFailed (e : StorageError) | SyncFailed (e : IoError) | NotPersisted.
Inductive Reply := Sent (r : result ReplyError N) | Dropped.

Record WriterState := mkWriterState {
  w_file : File;
  w_sequence : N;
  w_event_storage_bytes : N;
  w_stats : WriterStats;
}.

Record AppendResult := mkAppendResult {
  ar_file : File;
  ar_persisted : N;
  ar_persisted_bytes : N;
  ar_failure : option StorageError;
}.

Section Writer.
Context {dig : Digest} {hx : Hex} {b64 : Base64} {aead : Aead} {zstd : Zstd}
        {serde : Serde} {serdeb : SerdeBlock} {disk : Disk}.

(** The budget check both formats make before a write of [requested] bytes. *)
Definition check_budget (used requested limit : N) : storage_result unit :=
  match checked_add used requested with
  | None => Err (EventStorageBudgetExceeded used requested limit)
  | Some next =>
      if limit <? next then Err (EventStorageBudgetExceeded used requested limit) else Ok tt
  end.

(** Writing one encoded line under the budget; [Ok] holds its size. *)
Definition append_line (f : File) (serialized : bytes) (used limit : N)
    : storage_result N * File :=
  let requested := sat_add (nlen serialized) 1 in
  match check_budget used requested limit with
  | Err e => (Err e, f)
  | Ok _ =>
      match write_line f serialized with
      | (Ok _, f) => (Ok requested, f)
      | (Err e, f) => (Err (Io e), f)
      end
  end.

Fixpoint append_jsonl_loop (f : File) (prepared : list EventEnvelope) (d : Draws)
    (event_storage_bytes limit : N) (key : option EncryptionKey)
    (persisted persisted_bytes : N) : AppendResult :=
  match prepared with
  | [] => mkAppendResult f persisted persisted_bytes None
  | e :: prepared' =>
      match encode_envelope e key (nonces d (ev_sequence e)) with
      | Err error => mkAppendResult f persisted persisted_bytes (Some error)
      | Ok serialized =>
          match append_line f serialized (sat_add event_storage_bytes persisted_bytes) limit with
          | (Err error, f) => mkAppendResult f persisted persisted_bytes (Some error)
          | (Ok requested, f) =>
              append_jsonl_loop f prepared' d event_storage_bytes limit key
                (sat_add persisted 1) (sat_add persisted_bytes requested)
          end
      end
  end.

Definition append_jsonl_records (f : File) (prepared : list EventEnvelope) (d : Draws)
    (event_storage_bytes limit : N) (key : option EncryptionKey) : AppendResult :=
  append_jsonl_loop f prepared d event_storage_bytes limit key 0 0.

(** The inner loop of [append_zstd_blocks]: the plaintext of the next block,
    its number of events, and the events that did not fit. *)
Fixpoint fill_block (prepared : list EventEnvelope) (plaintext : bytes) (count : N)
    : storage_result (bytes * N * list EventEnvelope) :=
  match prepared with
  | [] => Ok (plaintext, count, [])
  | e :: prepared' =>
      if negb (count <? MAX_EVENT_BLOCK_EVENTS) then Ok (plaintext, count, prepared)
      else
        serialized ← encode_plaintext_envelope e;
        let requested := sat_add (nlen serialized) 1 in
        if negb (bool_decide (plaintext = []))
           && (MAX_EVENT_BLOCK_UNCOMPRESSED_BYTES <? sat_add (nlen plaintext) requested)
        then Ok (plaintext, count, prepared)
        else if MAX_EVENT_BLOCK_UNCOMPRESSED_BYTES <? requested
        then Err (InvalidEventBlock "event cannot fit in the uncompressed block limit")
        else fill_block prepared' (plaintext ++ serialized ++ [LF]) (count + 1)
  end.

(** The outer loop; every round persists at least one event, so the length of
    the batch is enough fuel. *)
Fixpoint append_zstd_loop (fuel : nat) (f : File) (prepared : list EventEnvelope) (d : Draws)
    (event_storage_bytes limit : N) (key : option EncryptionKey)
    (persisted persisted_bytes : N) : AppendResult :=
  match fuel, prepared with
  | O, _ | _, [] => mkAppendResult f persisted persisted_bytes None
  | S fuel', first :: _ =>
      match fill_block prepared [] 0 with
      | Err error => mkAppendResult f persisted persisted_bytes (Some error)
      | Ok (plaintext, count, rest) =>
          match encode_event_block plaintext (ev_run_id first) (ev_sequence first) count key
                  (nonces d (ev_sequence first)) with
          | Err error => mkAppendResult f persisted persisted_bytes (Some error)
          | Ok serialized =>
              match append_line f serialized (sat_add event_storage_bytes persisted_bytes) limit with
              | (Err error, f) => mkAppendResult f persisted persisted_bytes (Some error)
              | (Ok requested, f) =>
                  append_zstd_loop fuel' f rest d event_storage_bytes limit key
                    (persisted + count) (sat_add persisted_bytes requested)
              end
          end
      end
  end.

Definition append_zstd_blocks (f : File) (prepared : list EventEnvelope) (d : Draws)
    (event_storage_bytes limit : N) (key : option EncryptionKey) : AppendResult :=
  append_zstd_loop (length prepared) f prepared d event_storage_bytes limit key 0 0.

(** Assigning sequence numbers to the batch. *)
Fixpoint prepare_batch (batch : list PendingEvent) (d : Draws) (sequence index : N)
    : storage_result (list EventEnvelope) :=
  match batch with
  | [] => Ok []
  | event :: batch' =>
      event_sequence ← ok_or (checked_add sequence index) (Writer "event sequence overflow");
      rest ← prepare_batch batch' d sequence (index + 1);
      Ok (from_pending (uuids d event_sequence) event_sequence event :: rest)
  end.

Definition append_records (fmt : EventLogFormat) :=
  match fmt with Jsonl => append_jsonl_records | ZstdBlocks => append_zstd_blocks end.

Definition stopped (reason : string) : StorageError :=
  Writer ("durable event batch append failed; writer stopped to preserve ordering: " +:+ reason).

(** The acknowledgements: the persisted prefix gets its sequence numbers. *)
Definition replies (persisted : N) (failure : option StorageError) (prepared : list EventEnvelope) : list Reply :=
  (fun '(index, e) =>
     if index <? persisted then Sent (Ok (ev_sequence e))
     else Sent (Err (match failure with Some e => AppendFailed e | None => NotPersisted end)))
  <$> enumerate prepared.

Definition append_batch (w : WriterState) (batch : list PendingEvent) (d : Draws)
    (fmt : EventLogFormat) (limit : N) (key : option EncryptionKey)
    : storage_result unit * WriterState * list Reply :=
  match prepare_batch batch d (w_sequence w) 0 with
  | Err e => (Err e, w, (fun _ => Dropped) <$> batch)
  | Ok prepared =>
      let r := append_records fmt (w_file w) prepared d (w_event_storage_bytes w) limit key in
      let '(synced, f) :=
        if 0 <? ar_persisted r then sync_data (ar_file r) else (Ok tt, ar_file r) in
      match synced with
      | Err error =>
          (Err (stopped (error_message error)),
           mkWriterState f (w_sequence w) (w_event_storage_bytes w) (w_stats w),
           (fun _ => Sent (Err (SyncFailed error))) <$> prepared)
      | Ok _ =>
          match checked_add (w_sequence w) (ar_persisted r) with
          | None =>
              (Err (Writer "event sequence overflow"),
               mkWriterState f (w_sequence w) (w_event_storage_bytes w) (w_stats w),
               (fun _ => Dropped) <$> prepared)
          | Some sequence =>
              (match ar_failure r with Some _ => Err (stopped "append failed") | None => Ok tt end,
               mkWriterState f sequence
                 (sat_add (w_event_storage_bytes w) (ar_persisted_bytes r))
                 (mkWriterStats
                    (wrapping_add (ws_events (w_stats w)) (ar_persisted r))
                    (wrapping_add (ws_event_storage_bytes (w_stats w)) (ar_persisted_bytes r))
                    (if 0 <? ar_persisted r
                     then wrapping_add (ws_event_sync_batches (w_stats w)) 1
                     else ws_event_sync_batches (w_stats w))),
               replies (ar_persisted r) (ar_failure r) prepared)
          end
      end
  end.

(** ** [RunStore::create_with_encryption] and [writer_loop] *)

(** Opening the log: recovery with repair, the budget and run checks, and the
    start of [writer_loop] up to its command loop. *)
Definition open_writer (f : File) (run_id : string) (fmt : EventLogFormat) (limit : N)
    (key : option EncryptionKey) : storage_result WriterState * File :=
  if match detect_event_log_format (Some (content f)) with
     | Some existing => negb (bool_decide (existing = fmt)) | None => false end
  then (Err (InvalidPolicy "event log format differs from the capture policy"), f)
  else
    match recover_events_with_key (Some (content f)) true key with
    | Err e => (Err e, f)
    | Ok (report, repaired) =>
        let content := default [] repaired in
        (** a repair truncates the file and syncs it *)
        let f := if discarded_tail_bytes report =? 0 then f
                 else mkFile content (nlen content) (operations f) in
        if limit <? valid_bytes report
        then (Err (EventStorageBudgetExceeded (valid_bytes report) 0 limit), f)
        else
          match
            (if 0 <? valid_events report then
               _ ← for_each_run_event_with_key (Some content) run_id key (fun _ _ => Ok tt) tt; Ok tt
             else Ok tt) with
          | Err e => (Err e, f)
          | Ok _ =>
              let stats := mkWriterStats (valid_events report) (valid_bytes report) 0 in
              let start := mkWriterState f (sat_add (last_sequence report) 1)
                             (valid_bytes report) stats in
              match detect_event_log_format (Some content), fmt with
              | None, ZstdBlocks =>
                  let header_bytes := nlen EVENT_BLOCK_HEADER in
                  if limit <? header_bytes
                  then (Err (EventStorageBudgetExceeded (valid_bytes report) header_bytes limit), f)
                  else
                    match write_all f EVENT_BLOCK_HEADER with
                    | (Err e, f) => (Err (Io e), f)
                    | (Ok _, f) =>
                        match sync_data f with
                        | (Err e, f) => (Err (Io e), f)
                        | (Ok _, f) =>
                            (Ok (mkWriterState f (w_sequence start)
                                   (sat_add (valid_bytes report) header_bytes)
                                   (mkWriterStats (valid_events report)
                                      (wrapping_add (valid_bytes report) header_bytes) 0)), f)
                        end
                    end
              | _, _ => (Ok start, f)
              end
          end
    end.

(** Commands as the loop takes them from the channel: the pending appends it
    drains at once form a batch. *)
Inductive WriterCommand :=
| Append (batch : list PendingEvent)
| Flush
| Shutdown.

Inductive Outcome :=
| Appended (replies : list Reply)
| Flushed (r : result IoError WriterStats).

Fixpoint writer_commands (w : WriterState) (commands : list (WriterCommand * Draws))
    (fmt : EventLogFormat) (limit : N) (key : option EncryptionKey)
    : storage_result WriterStats * WriterState * list Outcome :=
  match commands with
  | [] =>
      let '(synced, f) := sync_data (w_file w) in
      let w := mkWriterState f (w_sequence w) (w_event_storage_bytes w) (w_stats w) in
      (match synced with Ok _ => Ok (w_stats w) | Err e => Err (Io e) end, w, [])
  | (Append batch, d) :: commands' =>
      let '(r, w, rs) := append_batch w batch d fmt limit key in
      match r with
      | Err e => (Err e, w, [Appended rs])
      | Ok _ =>
          let '(r, w, out) := writer_commands w commands' fmt limit key in
          (r, w, Appended rs :: out)
      end
  | (command, _) :: commands' =>
      let '(synced, f) := sync_data (w_file w) in
      let w := mkWriterState f (w_sequence w) (w_event_storage_bytes w) (w_stats w) in
      let snapshot := w_stats w in
      match synced, command with
      | Err e, _ => (Err (Writer "event flush failed"), w, [Flushed (Err e)])
      | Ok _, Shutdown => (Ok snapshot, w, [Flushed (Ok snapshot)])
      | Ok _, _ =>
          let '(r, w, out) := writer_commands w commands' fmt limit key in
          (r, w, Flushed (Ok snapshot) :: out)
      end
  end.
End Writer.
