(* ===== verification/WriterSpec.v ===== *)
(** * What the event writer guarantees

    [append_batch] refines the abstract append of a prefix of the batch to a
    list of events, whatever writes and syncs fail; over any history of
    batches, crashes and reopenings every acknowledged event stays in the log. *)

From Stdlib Require Import Strings.Byte.
From S2P Require Import Prelude RustStd External Json Input Model Policy Crypto EventLog EventLogSpec Writer.
From stdpp Require Import options.
Local Open Scope N_scope.
#[local] Unset Default Proof Using.

Section WriterSpec.
Context {dig : Digest} {hx : Hex} {b64 : Base64} {aead : Aead} {zstd : Zstd}
        {serde : Serde} {serdeb : SerdeBlock} {disk : Disk}.
Context {digl : DigestLaws} {hxl : HexLaws} {b64l : Base64Laws} {aeadl : AeadLaws}
        {zstdl : ZstdLaws} {serdel : SerdeLaws} {serdebl : SerdeBlockLaws}.
Implicit Types (key : option EncryptionKey) (f : File) (d : Draws).

(** ** Writing one line *)

(** [f'] is [f] with [data] appended and nothing more known durable. *)
Definition extends f f' (data : bytes) : Prop :=
  content f' = content f ++ data /\ durable f' = durable f.

Lemma extends_trans f f' f'' a b : extends f f' a -> extends f' f'' b -> extends f f'' (a ++ b).
Proof. intros [H1 H2] [H3 H4]. split; [by rewrite H3, H1, app_assoc|congruence]. Qed.

Lemma write_all_spec f data :
  match write_all f data with
  | (Ok _, f') => extends f f' data
  | (Err _, f') => exists tail, extends f f' tail /\ tail `prefix_of` data /\
                     nlen tail <= nlen data - 1
  end.
Proof.
  unfold write_all. destruct (write_fault (operations f)); [|done].
  eexists. split; [done|]. split; [|nlia].
  exists (ndrop (N.min n (nlen data - 1)) data). by rewrite ntake_ndrop.
Qed.

(** A failed line leaves an unterminated piece of it. *)
Lemma write_line_spec f line :
  match write_line f line with
  | (Ok _, f') => extends f f' (line ++ [LF])
  | (Err _, f') => exists tail, extends f f' tail /\ tail `prefix_of` line
  end.
Proof.
  unfold write_line. pose proof (write_all_spec f line) as H1.
  destruct (write_all f line) as [[[]|e] f1].
  - pose proof (write_all_spec f1 [LF]) as H2. destruct (write_all f1 [LF]) as [[[]|e] f2].
    + by eapply extends_trans.
    + destruct H2 as (tail & H2 & _ & Hl). exists line. split; [|done].
      destruct tail; [|nlia]. rewrite <-(app_nil_r line). by eapply extends_trans.
  - destruct H1 as (tail & H1 & Hp & _). by exists tail.
Qed.

Lemma check_budget_ok used requested limit u :
  check_budget used requested limit = Ok u -> used + requested <= limit.
Proof.
  unfold check_budget. destruct (checked_add _ _) eqn:E; [|done].
  apply checked_add_Some in E as [-> _]. case_match; [done|]. by reflect_N.
Qed.

Lemma append_line_spec f line used limit :
  nlen line + 1 <= u64_max ->
  match append_line f line used limit with
  | (Ok requested, f') =>
      extends f f' (line ++ [LF]) /\ requested = nlen line + 1 /\ used + requested <= limit
  | (Err _, f') => exists tail, extends f f' tail /\
                     (tail = [] \/ tail `prefix_of` line /\ used + nlen line + 1 <= limit)
  end.
Proof.
  intros Hlen. unfold append_line. rewrite sat_add_exact by done.
  destruct (check_budget used (nlen line + 1) limit) eqn:E.
  - apply check_budget_ok in E. pose proof (write_line_spec f line) as Hw.
    destruct (write_line f line) as [[[]|e] f'].
    + done.
    + destruct Hw as (tail & ? & ?). exists tail. split; [done|]. right. split; [done|lia].
  - exists []. split; [|by left]. split; [by rewrite app_nil_r|done].
Qed.

(** ** Appending a batch to the log *)

(** What an interrupted write leaves: nothing, or a piece of the line of the
    next group of events, which would have fitted the budget. *)
Definition cut_line (fmt : EventLogFormat) key (rest : list EventEnvelope) (used limit : N)
    (tail : bytes) : Prop :=
  tail = [] \/ exists g line rest', rest = g ++ rest' /\ written_group fmt key g line /\
    tail `prefix_of` line /\ used + nlen line + 1 <= limit.

(** The result of an append that had already persisted [p] events and [b]
    bytes: a prefix of the batch is stored as groups on complete lines, a cut
    line may follow, and the accounting is exact and within the budget. *)
Definition appended (fmt : EventLogFormat) key f (prepared : list EventEnvelope)
    (used limit p b : N) (r : AppendResult) : Prop :=
  exists groups lines tail rest,
    prepared = concat groups ++ rest /\
    Forall2 (written_group fmt key) groups lines /\
    extends f (ar_file r) (join_log lines ++ tail) /\
    ar_persisted r = p + nlen (concat groups) /\
    ar_persisted_bytes r = b + nlen (join_log lines) /\
    (lines = [] \/ used + b + nlen (join_log lines) <= limit) /\
    cut_line fmt key rest (used + b + nlen (join_log lines)) limit tail /\
    (ar_failure r = None -> rest = [] /\ tail = []).

Lemma appended_nothing fmt key f prepared used limit p b failure tail f' :
  extends f f' tail -> cut_line fmt key prepared (used + b) limit tail ->
  (failure = None -> prepared = [] /\ tail = []) ->
  appended fmt key f prepared used limit p b (mkAppendResult f' p b failure).
Proof.
  intros He Hc Hf. exists [], [], tail, prepared.
  assert (forall n, n + nlen (join_log []) = n) as Hz by apply N.add_0_r.
  rewrite !Hz. split_and!; try done; try by left.
Qed.

Lemma appended_cons fmt key f f' g line prepared used limit p b r :
  written_group fmt key g line -> extends f f' (line ++ [LF]) ->
  used + b + nlen line + 1 <= limit ->
  appended fmt key f' prepared used limit (p + nlen g) (b + (nlen line + 1)) r ->
  appended fmt key f (g ++ prepared) used limit p b r.
Proof.
  intros Hw He Hb (groups & lines & tail & rest & -> & Hg & He' & Hp & Hbytes & Hlim & Hc & Hf).
  exists (g :: groups), (line :: lines), tail, rest. cbn [concat]. rewrite join_log_cons.
  replace (used + b + nlen (line ++ LF :: join_log lines))
    with (used + (b + (nlen line + 1)) + nlen (join_log lines)) by nlia.
  split_and!; try done.
  - by rewrite app_assoc.
  - by constructor.
  - pose proof (extends_trans _ _ _ _ _ He He') as H. by rewrite <-app_assoc in H |- *.
  - rewrite Hp. nlia.
  - rewrite Hbytes. nlia.
  - right. destruct Hlim as [->|Hlim]; [|done]. cbn. nlia.
Qed.

Lemma extends_refl f : extends f f [].
Proof. split; [by rewrite app_nil_r|done]. Qed.
#[local] Hint Resolve extends_refl : iorec.

Lemma append_jsonl_loop_spec key d prepared f used limit p b :
  (forall n, nlen (nonces d n) = 24) -> limit <= u64_max ->
  used + b <= u64_max -> p + nlen prepared <= u64_max ->
  appended Jsonl key f prepared used limit p b
    (append_jsonl_loop f prepared d used limit key p b).
Proof.
  intros Hn Hlim. revert f p b. induction prepared as [|e prepared IH]; intros f p b Hu Hp;
    cbn [append_jsonl_loop].
  { eapply appended_nothing; [auto with iorec|by left|done]. }
  destruct (encode_envelope e key (nonces d (ev_sequence e))) as [line|error] eqn:E.
  2:{ eapply appended_nothing; [auto with iorec|by left|done]. }
  assert (written_group Jsonl key [e] line) as Hw by (exists e; split; [done|by eexists]).
  pose proof (written_group_line _ _ _ _ Hw) as [_ Hlen]. rewrite sat_add_exact by done.
  pose proof (append_line_spec f line (used + b) limit) as Ha.
  specialize (Ha ltac:(cbn in Hlen; unfold MAX_EVENT_RECORD_BYTES, u64_max in *; lia)).
  destruct (append_line f line (used + b) limit) as [[requested|error] f'].
  - destruct Ha as (He & -> & Hb). rewrite !sat_add_exact by nlia.
    apply (appended_cons Jsonl key f f' [e] line prepared); [done|done|lia|]. apply IH; nlia.
  - destruct Ha as (tail & He & Hc). eapply appended_nothing; [done| |done].
    destruct Hc as [->|[Hc Hb]]; [by left|right]. by exists [e], line, prepared.
Qed.

(** ** Blocks *)

Lemma fill_block_spec prepared plaintext count texts plaintext' count' rest :
  fill_block prepared plaintext count = Ok (plaintext', count', rest) ->
  plaintext = join_log texts ->
  exists block texts', prepared = block ++ rest /\ Forall2 plain_line block texts' /\
    plaintext' = plaintext ++ join_log texts' /\ count' = count + nlen block /\
    (count < MAX_EVENT_BLOCK_EVENTS -> plaintext = [] -> prepared <> [] -> block <> []).
Proof.
  revert plaintext count texts. induction prepared as [|e prepared IH];
    cbn [fill_block]; intros plaintext count texts H Ht.
  { inv_ok. simplify_eq. exists [], []. cbn. by rewrite app_nil_r, nlen_nil, N.add_0_r. }
  destruct (N.ltb_spec count MAX_EVENT_BLOCK_EVENTS) as [Hc|Hc]; cbn [negb] in H.
  2:{ inv_ok. simplify_eq. exists [], []. cbn. rewrite app_nil_r, nlen_nil, N.add_0_r.
      split_and!; try done. lia. }
  inv_ok. case_match eqn:E1.
  { inv_ok. simplify_eq. exists [], []. cbn. rewrite app_nil_r, nlen_nil, N.add_0_r.
    split_and!; try done. intros _ Hp. apply andb_true_iff in E1 as [E1 _].
    by rewrite bool_decide_eq_true_2 in E1. }
  case_match eqn:E2; [done|].
  destruct (IH _ _ (texts ++ [x]) H) as (block & texts' & -> & Hp & -> & -> & _).
  { rewrite Ht, join_log_app. unfold join_log. cbn. by rewrite app_nil_r. }
  exists (e :: block), (x :: texts'). rewrite join_log_cons. split_and!; try done.
  - by constructor.
  - by rewrite <-!app_assoc.
  - rewrite nlen_cons. lia.
Qed.

Lemma encode_plaintext_sequence e text : encode_plaintext_envelope e = Ok text -> 0 < ev_sequence e.
Proof. intros (Hv & _)%encode_plaintext_ok. by apply validate_wf, wf_sequence in Hv. Qed.

Lemma append_zstd_loop_spec key d prepared fuel f used limit p b run_id last :
  (forall n, nlen (nonces d n) = 24) -> limit <= u64_max ->
  used + b <= u64_max ->
  of_run run_id prepared -> sequenced last prepared -> (length prepared <= fuel)%nat ->
  appended ZstdBlocks key f prepared used limit p b
    (append_zstd_loop fuel f prepared d used limit key p b).
Proof.
  intros Hn Hlim. revert prepared f p b last. induction fuel as [|fuel IH];
    intros prepared f p b last Hu Hrun Hseq Hfuel.
  all: destruct prepared as [|e prepared]; cbn [append_zstd_loop];
    try (cbn in Hfuel; lia);
    try (eapply appended_nothing; [auto with iorec|by left|done]).
  destruct (fill_block (e :: prepared) [] 0) as [[[plaintext count] rest]|error] eqn:E.
  2:{ eapply appended_nothing; [auto with iorec|by left|done]. }
  destruct (fill_block_spec _ _ _ [] _ _ _ E eq_refl)
    as (block & texts & Hsplit & Hp & -> & -> & Hne).
  specialize (Hne ltac:(done) eq_refl ltac:(done)). cbn [app] in *. rewrite N.add_0_l in *.
  destruct (encode_event_block _ _ _ _ _ _) as [line|error] eqn:Eb.
  2:{ eapply appended_nothing; [auto with iorec|by left|done]. }
  rewrite Hsplit in Hrun, Hseq |- *. apply Forall_app in Hrun as [Hrun1 Hrun2].
  apply sequenced_app in Hseq as [Hseq1 Hseq2].
  assert (ev_run_id e = run_id /\ ev_sequence e = last + 1) as [He1 He2].
  { destruct block as [|e' block]; [done|]. injection Hsplit as <- _.
    apply Forall_cons in Hrun1 as [? _]. by destruct Hseq1 as [? _]. }
  assert (written_group ZstdBlocks key block line) as Hw.
  { exists texts, (nonces d (ev_sequence e)), run_id, last. rewrite He1, He2 in Eb.
    rewrite He2. by split_and!. }
  pose proof (written_group_line _ _ _ _ Hw) as [_ Hlen]. rewrite sat_add_exact by done.
  pose proof (append_line_spec f line (used + b) limit) as Ha.
  specialize (Ha ltac:(cbn in Hlen; unfold MAX_EVENT_BLOCK_RECORD_BYTES, u64_max in *; lia)).
  destruct (append_line f line (used + b) limit) as [[requested|error] f'].
  - destruct Ha as (He & -> & Hb). rewrite sat_add_exact by lia.
    apply (appended_cons ZstdBlocks key f f' block line rest); [done|done|lia|].
    apply (IH rest f' _ _ (last + nlen block)); try done; [lia|].
    apply (f_equal length) in Hsplit. rewrite length_app in Hsplit.
    destruct block; [done|]. cbn in Hsplit, Hfuel. lia.
  - destruct Ha as (tail & He & Hc). eapply appended_nothing; [done| |done].
    destruct Hc as [->|[Hc Hb]]; [by left|right]. by exists block, line, rest.
Qed.

(** Both formats. *)
Lemma append_records_spec fmt key d prepared f used limit run_id last :
  (forall n, nlen (nonces d n) = 24) -> limit <= u64_max -> used <= u64_max ->
  of_run run_id prepared -> sequenced last prepared ->
  appended fmt key f prepared used limit 0 0
    (append_records fmt f prepared d used limit key).
Proof.
  intros Hn Hl Hu Hr Hs. destruct fmt; cbn [append_records].
  - apply append_jsonl_loop_spec; try done; [lia|].
    destruct prepared; [done|]. pose proof (sequenced_bound _ _ Hs ltac:(done)). lia.
  - eapply append_zstd_loop_spec; try done. lia.
Qed.

(** ** Batches *)

Lemma prepare_batch_spec batch d last index :
  last + 1 + index + nlen batch < u64_max ->
  exists prepared, prepare_batch batch d (last + 1) index = Ok prepared /\
    sequenced (last + index) prepared /\
    Forall2 (fun event e => e = from_pending (ev_event_id e) (ev_sequence e) event) batch prepared.
Proof.
  revert index. induction batch as [|event batch IH]; intros index Hb.
  { exists []. by repeat split. }
  cbn [prepare_batch]. rewrite (proj2 (checked_add_Some _ _ (last + 1 + index))) by (split; [done|nlia]).
  cbn [mbind result_bind ok_or].
  destruct (IH (index + 1)) as (prepared & -> & Hs & Hf); [nlia|]. cbn [mbind result_bind].
  eexists. split; [done|]. split.
  - cbn [sequenced from_pending ev_sequence]. split_and!; [lia|nlia|].
    by replace (last + index + 1) with (last + (index + 1)) by lia.
  - by constructor.
Qed.

Lemma prepared_of_run run_id batch prepared :
  Forall2 (fun event e => e = from_pending (ev_event_id e) (ev_sequence e) event) batch prepared ->
  Forall (fun event => pe_run_id event = run_id) batch -> of_run run_id prepared.
Proof.
  induction 1 as [|event e batch prepared He _ IH]; [constructor|].
  intros [Hr Hrs]%Forall_cons. constructor; [by rewrite He|by apply IH].
Qed.

(** The events a batch acknowledged. *)
Fixpoint acknowledged (prepared : list EventEnvelope) (rs : list Reply) : list EventEnvelope :=
  match prepared, rs with
  | e :: prepared', Sent (Ok _) :: rs' => e :: acknowledged prepared' rs'
  | _ :: prepared', _ :: rs' => acknowledged prepared' rs'
  | _, _ => []
  end.

Lemma acknowledged_none prepared rs :
  Forall (fun r => match r with Sent (Ok _) => False | _ => True end) rs ->
  acknowledged prepared rs = [].
Proof.
  intros H. revert prepared. induction H as [|r rs Hr Hrs IH]; intros [|e prepared]; try done.
  destruct r as [[]|]; [done|apply IH|apply IH].
Qed.

Lemma replies_from i persisted failure prepared :
  acknowledged prepared
    ((fun '(index, e) =>
       if index <? persisted then Sent (Ok (ev_sequence e))
       else Sent (Err (match failure with Some e => AppendFailed e | None => NotPersisted end)))
     <$> enumerate_from i prepared) = ntake (persisted - i) prepared.
Proof.
  revert i. induction prepared as [|e prepared IH]; intros i; [done|].
  cbn [enumerate_from fmap list_fmap]. destruct (N.ltb_spec i persisted) as [Hi|Hi].
  - cbn [acknowledged ntake]. rewrite IH, (proj2 (N.eqb_neq _ _)) by lia.
    by replace (persisted - (i + 1)) with (N.pred (persisted - i)) by lia.
  - cbn [acknowledged ntake]. rewrite IH.
    replace (persisted - i) with 0 by lia. replace (persisted - (i + 1)) with 0 by lia.
    by destruct prepared.
Qed.

Lemma acknowledged_replies persisted failure prepared :
  acknowledged prepared (replies persisted failure prepared) = ntake persisted prepared.
Proof. unfold replies, enumerate. rewrite replies_from. by rewrite N.sub_0_r. Qed.

(** The state between batches: the file is exactly the log of the events
    numbered so far, and the counters agree with it. *)
Record writer_inv (fmt : EventLogFormat) key (run_id : string) (limit : N) (w : WriterState)
    (groups : list (list EventEnvelope)) (lines : list bytes) : Prop := {
  wi_stored : stored fmt key groups lines;
  wi_run : of_run run_id (concat groups);
  wi_content : content (w_file w) = log_bytes fmt lines;
  wi_durable : durable (w_file w) <= nlen (log_bytes fmt lines);
  wi_sequence : w_sequence w = nlen (concat groups) + 1;
  wi_bytes : w_event_storage_bytes w = nlen (log_bytes fmt lines);
  wi_budget : nlen (log_bytes fmt lines) <= limit;
  wi_limit : limit <= u64_max;
}.

Lemma log_bytes_app fmt lines lines' :
  log_bytes fmt (lines ++ lines') = log_bytes fmt lines ++ join_log lines'.
Proof. unfold log_bytes. by rewrite join_log_app, app_assoc. Qed.

Lemma stored_app fmt key groups lines groups' lines' :
  stored fmt key groups lines -> Forall2 (written_group fmt key) groups' lines' ->
  sequenced (nlen (concat groups)) (concat groups') ->
  nlen (log_bytes fmt (lines ++ lines')) <= u64_max ->
  stored fmt key (groups ++ groups') (lines ++ lines').
Proof.
  intros [Hg Hs Hsz] Hg' Hs' Hsz'. split; [by apply Forall2_app| |done].
  rewrite concat_app. apply sequenced_app. by rewrite N.add_0_l.
Qed.

(** Where a batch leaves the system, whatever failed.  [groups'] and [lines']
    were stored completely; [acked] are the acknowledged events. *)
Record batch_outcome (fmt : EventLogFormat) key (run_id : string) (limit : N)
    (groups : list (list EventEnvelope)) (lines : list bytes) (prepared acked : list EventEnvelope)
    (ok : bool) (w w' : WriterState) : Prop := {
  bo_log : exists groups' lines' more, prepared = concat groups' ++ more /\
    stored fmt key (groups ++ groups') (lines ++ lines') /\
    of_run run_id (concat (groups ++ groups')) /\
    nlen (log_bytes fmt (lines ++ lines')) <= limit /\
    content (w_file w') `prefix_of` log_bytes fmt (lines ++ lines') /\
    log_bytes fmt lines `prefix_of` content (w_file w') /\
    durable (w_file w') <= nlen (content (w_file w')) /\
    durable (w_file w) <= durable (w_file w') /\
    (acked = [] \/ exists m, acked = concat (take m groups') /\ (m <= length groups')%nat /\
       nlen (log_bytes fmt (lines ++ take m lines')) <= durable (w_file w')) /\
    (ok = true -> acked = prepared /\ concat groups' = prepared /\
       writer_inv fmt key run_id limit w' (groups ++ groups') (lines ++ lines'));
}.

Lemma written_group_nonempty fmt key g line : written_group fmt key g line -> g <> [].
Proof.
  destruct fmt; cbn [written_group].
  - by intros (e & -> & _).
  - intros Hw. by apply written_block_line in Hw as (_ & ? & _).
Qed.

Lemma written_groups_nil fmt key gs ls :
  Forall2 (written_group fmt key) gs ls -> concat gs = [] -> ls = [].
Proof.
  intros [|g line gs' ls' Hw _] H; [done|]. apply written_group_nonempty in Hw.
  cbn in H. by apply app_nil in H as [? _].
Qed.

(** The log with the complete lines of an append, and with the line that was
    cut if there is one. *)
Lemma cut_line_log fmt key limit groups lines prepared gs ls rest tail :
  stored fmt key groups lines -> nlen (log_bytes fmt lines) <= limit -> limit <= u64_max ->
  prepared = concat gs ++ rest -> Forall2 (written_group fmt key) gs ls ->
  sequenced (nlen (concat groups)) prepared ->
  (ls = [] \/ nlen (log_bytes fmt lines) + nlen (join_log ls) <= limit) ->
  cut_line fmt key rest (nlen (log_bytes fmt lines) + nlen (join_log ls)) limit tail ->
  exists groups' lines' more, prepared = concat groups' ++ more /\
    stored fmt key (groups ++ groups') (lines ++ lines') /\
    nlen (log_bytes fmt (lines ++ lines')) <= limit /\
    log_bytes fmt lines ++ join_log ls ++ tail `prefix_of` log_bytes fmt (lines ++ lines') /\
    take (length gs) groups' = gs /\ take (length gs) lines' = ls /\
    (tail = [] -> groups' = gs /\ lines' = ls).
Proof.
  intros Hst Hb Hl -> Hg Hs Hls Hc. pose proof (Forall2_length _ _ _ Hg) as Hlen.
  assert (nlen (log_bytes fmt lines) + nlen (join_log ls) <= limit) as Hls'
    by (destruct Hls as [->|?]; [change (nlen (join_log [])) with 0; lia|done]).
  destruct (decide (tail = [])) as [->|Hne].
  - exists gs, ls, rest. rewrite log_bytes_app, app_nil_r. apply sequenced_app in Hs as [Hs _].
    split_and!; try done; [|nlia|by rewrite take_ge|by rewrite take_ge by lia].
    apply stored_app; try done. rewrite log_bytes_app. nlia.
  - destruct Hc as [->|(g & line & rest' & -> & Hw & Ht & Hlim)]; [done|].
    exists (gs ++ [g]), (ls ++ [line]), rest'.
    assert (nlen (log_bytes fmt (lines ++ ls ++ [line])) <= limit) as Hsz.
    { rewrite log_bytes_app, join_log_app, join_log_cons. cbn. nlia. }
    split_and!; try done.
    + rewrite concat_app. cbn. by rewrite app_nil_r, <-app_assoc.
    + apply stored_app; try done; [by apply Forall2_app; [|constructor]| |lia].
      rewrite concat_app. cbn. rewrite app_nil_r. rewrite app_assoc in Hs.
      by apply sequenced_app in Hs as [Hs _].
    + rewrite log_bytes_app, join_log_app. do 2 apply prefix_app. rewrite join_log_cons.
      etrans; [exact Ht|]. by apply prefix_app_r.
    + by rewrite take_app_length.
    + by rewrite Hlen, take_app_length.
Qed.

Lemma append_batch_lemma fmt key run_id limit w groups lines batch d :
  writer_inv fmt key run_id limit w groups lines ->
  (forall n, nlen (nonces d n) = 24) -> Forall (fun event => pe_run_id event = run_id) batch ->
  nlen (concat groups) + 1 + nlen batch < u64_max ->
  exists prepared, prepare_batch batch d (w_sequence w) 0 = Ok prepared /\
    Forall2 (fun event e => e = from_pending (ev_event_id e) (ev_sequence e) event) batch prepared /\
    let '(res, w', rs) := append_batch w batch d fmt limit key in
    batch_outcome fmt key run_id limit groups lines prepared (acknowledged prepared rs) (is_ok res) w w'.
Proof.
  intros [Hst Hrun Hc Hd Hseq Hb Hbud Hl] Hn Hbr Hmax.
  destruct (prepare_batch_spec batch d (nlen (concat groups)) 0) as (prepared & Hprep & Hs & Hf); [lia|].
  exists prepared. rewrite Hseq. split; [done|]. split; [done|]. unfold append_batch.
  rewrite Hseq, Hprep, Hb. rewrite N.add_0_r in Hs.
  pose proof (prepared_of_run _ _ _ Hf Hbr) as Hpr.
  destruct (append_records_spec fmt key d prepared (w_file w) (nlen (log_bytes fmt lines)) limit run_id
    (nlen (concat groups))) as (gs & ls & tail & rest & Hsplit & Hg & [He1 He2] & Hp & Hpb & Hls & Hcut & Hfail);
    [done..|lia|done|done|].
  rewrite N.add_0_r in Hls, Hcut. rewrite N.add_0_l in Hp, Hpb.
  set (r := append_records fmt (w_file w) prepared d (nlen (log_bytes fmt lines)) limit key) in *.
  destruct (cut_line_log fmt key limit groups lines prepared gs ls rest tail)
    as (groups' & lines' & more & Hsp & Hst' & Hbud' & Hpre & Htg & Htl & Hnotail); try done.
  rewrite Hc in He1.
  assert (of_run run_id (concat (groups ++ groups'))) as Hrun'.
  { rewrite concat_app. apply Forall_app. split; [done|].
    rewrite Hsp in Hpr. by apply Forall_app in Hpr as [? _]. }
  assert (log_bytes fmt lines `prefix_of` content (ar_file r)) as Hold
    by (rewrite He1; by apply prefix_app_r).
  assert (nlen (log_bytes fmt lines) <= nlen (content (ar_file r))) as Holdn
    by (rewrite He1; nlia).
  assert (content (ar_file r) `prefix_of` log_bytes fmt (lines ++ lines')) as Hcp by (by rewrite He1).
  assert (nlen (concat gs) <= nlen prepared) as Hgp by (rewrite Hsplit; nlia).
  assert (nlen prepared = nlen batch) as Hpl by (unfold nlen; by rewrite (Forall2_length _ _ _ Hf)).
  destruct (N.ltb_spec 0 (ar_persisted r)) as [Hpos|Hzero].
  - unfold sync_data. destruct (sync_fails (operations (ar_file r))).
    + split. exists groups', lines', more. cbn [w_file content durable is_ok].
      split_and!; try done; [lia..|]. left. apply acknowledged_none, Forall_fmap, Forall_true. done.
    + rewrite (proj2 (checked_add_Some _ _ (nlen (concat groups) + 1 + nlen (concat gs))))
        by (rewrite Hp; split; [done|lia]).
      rewrite acknowledged_replies, Hp, Hsplit, ntake_app_exact.
      split. exists groups', lines', more. cbn [w_file content durable].
      split_and!; try done.
      * by rewrite <-Hsplit.
      * lia.
      * right. exists (length gs). rewrite Htl. split; [by rewrite Htg|].
        split; [by rewrite <-Htg at 1; rewrite length_take; lia|]. rewrite He1, log_bytes_app. nlia.
      * destruct (ar_failure r) eqn:Ef; [done|]. intros _. destruct (Hfail eq_refl) as [-> ->].
        destruct (Hnotail eq_refl) as [-> ->]. rewrite app_nil_r in *. split; [done|]. split; [done|].
        split; cbn [w_file w_sequence w_event_storage_bytes content durable]; try done.
        -- by rewrite He1, log_bytes_app.
        -- by rewrite He1, log_bytes_app.
        -- rewrite concat_app. nlia.
        -- rewrite log_bytes_app in Hbud' |- *. rewrite Hpb, sat_add_exact by nlia. nlia.
  - assert (concat gs = []) as Hgs by (apply nlen_0; lia).
    assert (ls = []) as -> by (by eapply written_groups_nil).
    rewrite (proj2 (checked_add_Some _ _ (nlen (concat groups) + 1)))
      by (replace (ar_persisted r) with 0 by lia; split; lia).
    rewrite acknowledged_replies. replace (ar_persisted r) with 0 by lia.
    assert (forall l : list EventEnvelope, ntake 0 l = []) as Hnt by (by intros []).
    rewrite Hnt. split. exists groups', lines', more. cbn [w_file content durable].
    split_and!; try done; [lia..|by left|].
    destruct (ar_failure r) eqn:Ef; [done|]. intros _. destruct (Hfail eq_refl) as [-> ->].
    destruct (Hnotail eq_refl) as [-> ->]. rewrite Hgs in *. cbn in Hsplit.
    split; [done|]. split; [done|].
    assert (gs = []) as -> by (by inversion Hg).
    rewrite !app_nil_r in *.
    split; cbn [w_file w_sequence w_event_storage_bytes content durable]; try done.
    + lia.
    + rewrite Hpb. change (nlen (join_log [])) with 0. rewrite sat_add_exact; lia.
Qed.

(** One batch, whatever write or sync fails: the log is extended by whole
    groups of events from the front of the batch, followed at most by a cut
    line; every acknowledged event is durable; the budget is respected; and a
    batch that reports success stored and acknowledged all of its events and
    leaves the writer ready for the next one. *)
Theorem append_batch_refines fmt key run_id limit w groups lines batch d :
  writer_inv fmt key run_id limit w groups lines ->
  (forall n, nlen (nonces d n) = 24) -> Forall (fun event => pe_run_id event = run_id) batch ->
  nlen (concat groups) + 1 + nlen batch < u64_max ->
  exists prepared, prepare_batch batch d (w_sequence w) 0 = Ok prepared /\
    Forall2 (fun event e => e = from_pending (ev_event_id e) (ev_sequence e) event) batch prepared /\
    let '(res, w', rs) := append_batch w batch d fmt limit key in
    batch_outcome fmt key run_id limit groups lines prepared (acknowledged prepared rs) (is_ok res) w w'.
Proof. apply append_batch_lemma. Qed.

(** ** Histories of one run *)

(** The log file, the running writer if there is one, and every event
    acknowledged so far. *)
Record System := mkSystem {
  sys_file : File;
  sys_writer : option WriterState;
  sys_acked : list EventEnvelope;
}.

Definition start_system : System := mkSystem (mkFile [] 0 0) None [].

Section History.
Context (fmt : EventLogFormat) (key : option EncryptionKey) (run_id : string) (limit : N).

Inductive step : System -> System -> Prop :=
| step_open f acked r f' :
    open_writer f run_id fmt limit key = (r, f') ->
    step (mkSystem f None acked)
      (mkSystem f' (match r with Ok w => Some w | Err _ => None end) acked)
| step_batch w acked batch d prepared res w' rs :
    (forall n, nlen (nonces d n) = 24) ->
    Forall (fun event => pe_run_id event = run_id) batch ->
    w_sequence w + nlen batch < u64_max ->
    prepare_batch batch d (w_sequence w) 0 = Ok prepared ->
    append_batch w batch d fmt limit key = (res, w', rs) ->
    step (mkSystem (w_file w) (Some w) acked)
      (mkSystem (w_file w') (if is_ok res then Some w' else None)
         (acked ++ acknowledged prepared rs))
| step_crash f writer acked survived :
    survived `prefix_of` content f -> durable f <= nlen survived ->
    step (mkSystem f writer acked)
      (mkSystem (mkFile survived (nlen survived) (operations f)) None acked).

(** What holds of every history. *)
Record sys_inv (s : System) (groups : list (list EventEnvelope)) (lines : list bytes) : Prop := {
  si_stored : stored fmt key groups lines;
  si_run : of_run run_id (concat groups);
  si_budget : nlen (log_bytes fmt lines) <= N.max limit (nlen (log_header fmt));
  si_content : content (sys_file s) `prefix_of` log_bytes fmt lines;
  si_durable : durable (sys_file s) <= nlen (content (sys_file s));
  si_acked : sys_acked s = [] \/ exists k, sys_acked s `sublist_of` concat (take k groups) /\
    (k <= length lines)%nat /\ nlen (log_bytes fmt (take k lines)) <= durable (sys_file s);
  si_writer : forall w, sys_writer s = Some w ->
    w_file w = sys_file s /\ writer_inv fmt key run_id limit w groups lines;
}.

Lemma prefix_by_length {A} (a b c : list A) :
  a `prefix_of` c -> b `prefix_of` c -> nlen a <= nlen b -> a `prefix_of` b.
Proof.
  intros Ha Hb Hl. destruct (prefix_weak_total _ _ _ Ha Hb) as [?|[r ->]]; [done|].
  assert (r = []) as -> by (apply nlen_0; nlia). by rewrite app_nil_r.
Qed.

Lemma log_bytes_take_prefix k lines : log_bytes fmt (take k lines) `prefix_of` log_bytes fmt lines.
Proof.
  exists (join_log (drop k lines)). by rewrite <-log_bytes_app, take_drop.
Qed.

Lemma log_bytes_take_mono j k lines :
  (j <= k)%nat -> log_bytes fmt (take j lines) `prefix_of` log_bytes fmt (take k lines).
Proof. intros Hjk. rewrite <-(Nat.min_l j k Hjk), <-take_take. apply log_bytes_take_prefix. Qed.

Lemma sys_inv_crash f writer acked survived groups lines :
  sys_inv (mkSystem f writer acked) groups lines ->
  survived `prefix_of` content f -> durable f <= nlen survived ->
  sys_inv (mkSystem (mkFile survived (nlen survived) (operations f)) None acked) groups lines.
Proof.
  intros [Hst Hrun Hb Hc Hd Ha Hw] Hs Hl. cbn [sys_file sys_acked sys_writer content durable] in *.
  split; cbn [sys_file sys_acked sys_writer content durable]; try done.
  - by etrans.
  - destruct Ha as [?|(k & Hk & Hkl & Hkd)]; [by left|]. right. exists k. split_and!; [done..|lia].
Qed.

Lemma sys_inv_batch w acked groups lines batch d prepared res w' rs :
  sys_inv (mkSystem (w_file w) (Some w) acked) groups lines ->
  (forall n, nlen (nonces d n) = 24) -> Forall (fun event => pe_run_id event = run_id) batch ->
  w_sequence w + nlen batch < u64_max ->
  prepare_batch batch d (w_sequence w) 0 = Ok prepared ->
  append_batch w batch d fmt limit key = (res, w', rs) ->
  exists groups' lines',
    sys_inv (mkSystem (w_file w') (if is_ok res then Some w' else None)
               (acked ++ acknowledged prepared rs)) groups' lines'.
Proof.
  intros [Hst Hrun Hb Hc Hd Ha Hw] Hn Hbr Hmax Hp Happ.
  cbn [sys_file sys_acked sys_writer] in *. destruct (Hw w eq_refl) as [_ Hinv].
  destruct (append_batch_lemma _ _ _ _ _ _ _ batch d Hinv Hn Hbr) as (prepared' & Hp' & _ & Hout).
  { rewrite <-(wi_sequence _ _ _ _ _ _ _ Hinv). lia. }
  rewrite Hp in Hp'. injection Hp' as <-. rewrite Happ in Hout.
  destruct Hout as [(groups' & lines' & more & -> & Hst' & Hrun' & Hbud & Hcp & Hcl & Hdc & Hdl & Hack & Hok)].
  exists (groups ++ groups'), (lines ++ lines').
  split; cbn [sys_file sys_acked sys_writer]; try done; [lia| |].
  - assert (length groups = length lines) as Hlen by (destruct Hst as [Hg _ _]; by apply Forall2_length in Hg).
    assert (acked `sublist_of` concat groups) as Hold.
    { destruct Ha as [->|(k & Hk & _)]; [apply sublist_nil_l|]. etrans; [exact Hk|].
      rewrite <-(take_drop k groups) at 2. rewrite concat_app. by apply sublist_inserts_r. }
    destruct Hack as [->|(m & -> & Hml & Hm)].
    + rewrite app_nil_r. destruct Ha as [->|(k & Hk & Hkl & Hkd)]; [by left|].
      right. exists k. rewrite length_app, !take_app_le by lia. split_and!; [done|lia|lia].
    + right. exists (length groups + m)%nat.
      rewrite take_app_add, Hlen, take_app_add, length_app.
      destruct Hst' as [Hg _ _]. apply Forall2_length in Hg. rewrite !length_app in Hg.
      split_and!; [|lia|done]. rewrite concat_app. by apply sublist_app.
  - intros w0 Hw0. destruct (is_ok res); [|done]. injection Hw0 as <-. split; [done|]. by apply Hok.
Qed.

(** The file after recovery: [kept] of the file, durable when a tail was cut. *)
Definition repaired (f : File) (kept tail : bytes) : File :=
  if nlen tail =? 0 then f else mkFile kept (nlen kept) (operations f).

Lemma repaired_content f kept tail : content f = kept ++ tail -> content (repaired f kept tail) = kept.
Proof.
  intros Hc. unfold repaired. destruct (N.eqb_spec (nlen tail) 0) as [E|E]; [|done].
  apply nlen_0 in E as ->. by rewrite Hc, app_nil_r.
Qed.

Lemma sys_inv_repaired f acked groups lines kept tail k :
  sys_inv (mkSystem f None acked) groups lines -> content f = kept ++ tail ->
  (kept = log_bytes fmt (take k lines) \/ kept = [] /\ k = 0%nat) ->
  (forall m, (m <= length lines)%nat -> log_bytes fmt (take m lines) `prefix_of` content f -> (m <= k)%nat) ->
  sys_inv (mkSystem (repaired f kept tail) None acked) groups lines /\
  (acked = [] \/ exists j, acked `sublist_of` concat (take j groups) /\ (j <= k)%nat /\
     (j <= length lines)%nat /\ nlen (log_bytes fmt (take j lines)) <= durable (repaired f kept tail) /\
     kept = log_bytes fmt (take k lines)).
Proof.
  intros [Hst Hrun Hb Hc Hd Ha Hw] Hcont Hk Hm.
  cbn [sys_file sys_acked sys_writer] in *. pose proof (repaired_content _ _ _ Hcont) as Hrc.
  assert (acked = [] \/ exists j, acked `sublist_of` concat (take j groups) /\ (j <= k)%nat /\
     (j <= length lines)%nat /\ nlen (log_bytes fmt (take j lines)) <= durable (repaired f kept tail) /\
     kept = log_bytes fmt (take k lines)) as Hacked.
  { destruct Ha as [?|(j & Hj & Hjl & Hjd)]; [by left|].
    assert (log_bytes fmt (take j lines) `prefix_of` content f) as Hpre.
    { eapply prefix_by_length; [apply log_bytes_take_prefix|done|lia]. }
    pose proof (Hm j Hjl Hpre) as Hjk. destruct Hk as [->|[-> ->]].
    - right. exists j. split_and!; try done. unfold repaired.
      destruct (N.eqb_spec (nlen tail) 0); [done|]. cbn [durable].
      destruct (log_bytes_take_mono j k lines Hjk) as [r ->]. nlia.
    - left. assert (j = 0%nat) as -> by lia. by apply sublist_nil_r in Hj. }
  split; [|done]. split; cbn [sys_file sys_acked sys_writer]; try done.
  - rewrite Hrc. etrans; [|exact Hc]. rewrite Hcont. by apply prefix_app_r.
  - rewrite Hrc. unfold repaired. destruct (N.eqb_spec (nlen tail) 0) as [E|E]; [|cbn; lia].
    apply nlen_0 in E as ->. rewrite app_nil_r in Hcont. by rewrite <-Hcont.
  - destruct Hacked as [?|(j & ? & ? & ? & ? & ?)]; [by left|right; eauto].
Qed.

Hypothesis limit_u64 : limit <= u64_max.

Lemma stored_nil : stored fmt key [] [].
Proof. split; [constructor|done|]. destruct fmt; vm_compute; discriminate. Qed.

(** A writer that starts on a recovered log. *)
Lemma sys_inv_start f acked groups lines k n :
  sys_inv (mkSystem f None acked) groups lines ->
  content f = log_bytes fmt (take k lines) -> n = nlen (concat (take k groups)) ->
  nlen (log_bytes fmt (take k lines)) <= limit ->
  (acked = [] \/ exists j, acked `sublist_of` concat (take j groups) /\ (j <= k)%nat /\
     (j <= length lines)%nat /\ nlen (log_bytes fmt (take j lines)) <= durable f) ->
  let w := mkWriterState f (sat_add n 1) (nlen (log_bytes fmt (take k lines)))
             (mkWriterStats n (nlen (log_bytes fmt (take k lines))) 0) in
  sys_inv (mkSystem f (Some w) acked) (take k groups) (take k lines).
Proof.
  intros [Hst Hrun Hb Hc Hd Ha Hw] Hcont -> Hlim Hacked w.
  cbn [sys_file sys_acked sys_writer] in *.
  pose proof (stored_take _ _ _ _ k Hst) as Hst'.
  assert (of_run run_id (concat (take k groups))) as Hrun'.
  { destruct (concat_take_prefix k groups) as [m ->]. by apply Forall_take. }
  split; cbn [sys_file sys_acked sys_writer]; try done; [lia|by rewrite Hcont| |].
  - destruct Hacked as [?|(j & Hj & Hjk & Hjl & Hjd)]; [by left|right]. exists j.
    rewrite !take_take, Nat.min_l, length_take by done. split_and!; [done|lia|done].
  - intros w0 [= <-]. unfold w. split; [done|].
    split; cbn [w_file w_sequence w_event_storage_bytes]; try done.
    + by rewrite <-Hcont.
    + destruct Hst' as [_ Hs _]. destruct (concat (take k groups)) as [|e es] eqn:E; [done|].
      pose proof (sequenced_bound _ _ Hs ltac:(done)). rewrite sat_add_exact; lia.
Qed.

Lemma sys_inv_header f acked groups lines f' :
  sys_inv (mkSystem f None acked) groups lines -> acked = [] ->
  content f' `prefix_of` log_header fmt -> durable f' <= nlen (content f') ->
  sys_inv (mkSystem f' None acked) [] [].
Proof.
  intros _ -> Hc Hd. split; cbn [sys_file sys_acked sys_writer]; try done.
  - apply stored_nil.
  - constructor.
  - unfold log_bytes. cbn [join_log map concat]. rewrite app_nil_r. lia.
  - unfold log_bytes. cbn [join_log map concat]. by rewrite app_nil_r.
  - by left.
Qed.

(** Writing the header into an empty compressed log. *)
Lemma sys_inv_write_header f acked groups lines stats :
  fmt = ZstdBlocks -> sys_inv (mkSystem f None acked) groups lines -> acked = [] ->
  content f = [] -> nlen EVENT_BLOCK_HEADER <= limit ->
  let '(r, f') :=
    match write_all f EVENT_BLOCK_HEADER with
    | (Err e, f) => (Err (Io e), f)
    | (Ok _, f) =>
        match sync_data f with
        | (Err e, f) => (Err (Io e), f)
        | (Ok _, f) =>
            (Ok (mkWriterState f 1 (sat_add 0 (nlen EVENT_BLOCK_HEADER)) stats), f)
        end
    end : storage_result WriterState * File in
  sys_inv (mkSystem f' (match r with Ok w => Some w | Err _ => None end) acked) [] [].
Proof.
  intros Hfmt Hinv Ha Hc Hlim. pose proof (write_all_spec f EVENT_BLOCK_HEADER) as Hw.
  assert (durable f = 0) as Hd.
  { destruct Hinv as [_ _ _ _ Hd _ _]. cbn [sys_file] in Hd. rewrite Hc, nlen_nil in Hd. lia. }
  assert (EVENT_BLOCK_HEADER = log_header fmt) as Hh by (by rewrite Hfmt).
  destruct (write_all f EVENT_BLOCK_HEADER) as [[[]|e] f1].
  - destruct Hw as [Hc1 Hd1]. rewrite Hc in Hc1. cbn [app] in Hc1. unfold sync_data.
    destruct (sync_fails (operations f1)).
    + eapply sys_inv_header; [done|done| |]; cbn [content durable].
      * by rewrite Hc1, Hh.
      * rewrite Hd1. lia.
    + pose proof (sys_inv_header f acked groups lines
        (mkFile (content f1) (nlen (content f1)) (operations f1 + 1)) Hinv Ha
        ltac:(cbn; by rewrite Hc1, Hh) (N.le_refl _)) as Hinv'.
      pose proof (sys_inv_start _ acked [] [] 0 0 Hinv') as Hs. cbn [content take] in Hs.
      destruct Hinv' as [I1 I2 I3 I4 I5 I6 _]. split; try done.
      intros w [= <-]. split; [done|]. cbn [sys_file] in *.
      assert (log_bytes fmt [] = EVENT_BLOCK_HEADER) as Hlb
        by (unfold log_bytes; cbn [join_log map concat]; by rewrite app_nil_r).
      split; cbn [w_file w_sequence w_event_storage_bytes content durable]; rewrite ?Hlb, ?Hc1; done.
  - destruct Hw as (tail & [Hc1 Hd1] & Ht & _). rewrite Hc in Hc1. cbn [app] in Hc1.
    eapply sys_inv_header; [done|done| |].
    + by rewrite Hc1, <-Hh.
    + rewrite Hd1. lia.
Qed.

Lemma sys_inv_open f acked groups lines r f' :
  sys_inv (mkSystem f None acked) groups lines ->
  open_writer f run_id fmt limit key = (r, f') ->
  exists groups' lines',
    sys_inv (mkSystem f' (match r with Ok w => Some w | Err _ => None end) acked) groups' lines'.
Proof.
  intros Hinv. pose proof Hinv as [Hst _ _ Hc _ _ _]. cbn [sys_file] in Hc.
  destruct (recover_cut_lemma _ _ _ _ _ true Hst Hc) as (k & kept & tail & Hcont & Ht & Hk & Hrec & Hm).
  destruct (sys_inv_repaired _ _ _ _ _ _ _ Hinv Hcont Hk Hm) as [Hinv1 Hacked].
  unfold open_writer.
  assert (match detect_event_log_format (Some (content f)) with
    | Some existing => negb (bool_decide (existing = fmt)) | None => false end = false) as ->.
  { destruct (detect_cut _ _ _ _ _ Hst Hc) as [->| ->]; [done|]. by rewrite bool_decide_eq_true_2. }
  rewrite Hrec. cbn [from_option id discarded_tail_bytes cut_report valid_bytes valid_events last_sequence].
  fold (repaired f kept tail).
  destruct (N.ltb_spec limit (nlen kept)) as [_|Hlim]; [intros [= <- <-]; eauto|].
  destruct (if 0 <? _ then _ else _) as [[]|e]; [|intros [= <- <-]; eauto].
  pose proof (repaired_content _ _ _ Hcont) as Hrc.
  destruct Hk as [->|[-> ->]].
  - assert (match detect_event_log_format (Some (log_bytes fmt (take k lines))), fmt with
      | None, ZstdBlocks => False | _, _ => True end) as Hdet.
    { destruct fmt; [by destruct (detect_event_log_format _)|].
      by rewrite detect_zstd by (done || by right; apply prefix_app_r). }
    intros Ho. exists (take k groups), (take k lines).
    assert ((r, f') = (Ok (mkWriterState (repaired f (log_bytes fmt (take k lines)) tail)
      (sat_add (nlen (concat (take k groups))) 1) (nlen (log_bytes fmt (take k lines)))
      (mkWriterStats (nlen (concat (take k groups))) (nlen (log_bytes fmt (take k lines))) 0)),
      repaired f (log_bytes fmt (take k lines)) tail)) as E.
    { by destruct (detect_event_log_format _), fmt. }
    injection E as -> ->. apply (sys_inv_start _ _ groups lines); try done.
    destruct Hacked as [?|(j & ? & ? & ? & ? & ?)]; [by left|right; eauto].
  - assert (acked = []) as Ha.
    { destruct Hacked as [?|(j & Hj & Hjk & _)]; [done|]. assert (j = 0%nat) as -> by lia.
      by apply sublist_nil_r in Hj. }
    cbn [detect_event_log_format take concat]. destruct fmt eqn:Efmt.
    + intros [= <- <-]. exists (take 0 groups), (take 0 lines). rewrite <-Efmt in *.
      pose proof (sys_inv_start _ _ _ _ 0 0 Hinv1) as Hs.
      assert (log_bytes fmt (take 0 lines) = []) as E by (by rewrite Efmt).
      rewrite E in Hs. apply Hs; try done. by left.
    + destruct (N.ltb_spec limit (nlen EVENT_BLOCK_HEADER)) as [_|Hl]; [intros [= <- <-]; eauto|].
      rewrite <-Efmt in *.
      pose proof (sys_inv_write_header _ _ _ _
        (mkWriterStats 0 (wrapping_add 0 (nlen EVENT_BLOCK_HEADER)) 0) Efmt Hinv1 Ha Hrc Hl) as Hwh.
      intros Ho. exists [], [].
      destruct (write_all _ _) as [[[]|e] f1]; [destruct (sync_data f1) as [[[]|e] f2]|];
        injection Ho as <- <-; exact Hwh.
Qed.

Lemma history_lemma s : rtc step start_system s -> exists groups lines, sys_inv s groups lines.
Proof.
  intros H. assert (exists groups lines, sys_inv start_system groups lines) as Hstart.
  { exists [], []. split; cbn [sys_file sys_acked sys_writer start_system content durable]; try done.
    - apply stored_nil.
    - constructor.
    - unfold log_bytes. cbn [join_log map concat]. rewrite app_nil_r. lia.
    - apply prefix_nil.
    - by left. }
  revert Hstart. induction H as [s|s1 s2 s3 Hstep Hrest IH]; [done|].
  intros (groups & lines & Hinv). apply IH. clear IH Hrest.
  destruct Hstep as [f acked r f' Ho|w acked batch d prepared res w' rs Hn Hr Hm Hp Ha
    |f writer acked survived Hs Hd].
  - by eapply sys_inv_open.
  - by eapply sys_inv_batch.
  - exists groups, lines. by eapply sys_inv_crash.
Qed.

(** C31: Every history of one run (batches whose writes and syncs may fail,
    crashes that keep any prefix of the file at or above what was synced,
    reopenings, in any order and number) keeps the invariant: the file is a
    cut of a log of consecutive events within the budget, in which the
    acknowledged events occur in order within the durable part. *)
Theorem history_invariant s :
  rtc step start_system s -> exists groups lines, sys_inv s groups lines.
Proof. apply history_lemma. Qed.

(** Reading everything. *)
Definition collect (acc : list EventEnvelope) (e : EventEnvelope) : storage_result (list EventEnvelope) :=
  Ok (acc ++ [e]).

Lemma try_fold_collect acc es : try_fold collect acc es = Ok (acc ++ es).
Proof.
  revert acc. induction es as [|e es IH]; intros acc; cbn; [by rewrite app_nil_r|].
  rewrite IH. by rewrite <-app_assoc.
Qed.

Lemma read_all groups lines :
  stored fmt key groups lines ->
  exists report, for_each_event_with_key (Some (log_bytes fmt lines)) key collect [] =
    Ok (report, concat groups).
Proof.
  intros Hst. pose proof Hst as [Hg Hs _].
  pose proof (detect_cut _ _ _ _ _ Hst (reflexivity _)) as Hd.
  pose proof (recover_format_complete _ _ _ _ [] Hst (not_elem_of_nil _) (N.le_0_l _)) as Hr.
  pose proof (recover_events_cut fmt key (log_bytes fmt lines) [] _ false
    ltac:(by rewrite app_nil_r) Hr) as Hrec. rewrite app_nil_r in Hrec.
  destruct (open_reader_pending fmt key groups lines []) as (r & Ho & Hpend);
    [rewrite app_nil_r|done|].
  { destruct Hd as [Hd|Hd]; [right|by left]. split; [done|]. by destruct fmt. }
  rewrite app_nil_r in Ho. unfold for_each_event_with_key. rewrite Hrec.
  cbn [mbind result_bind cut_report valid_events]. rewrite Ho. cbn [mbind result_bind].
  replace (N.to_nat (nlen (concat groups))) with (length (concat groups)) by (unfold nlen; lia).
  erewrite visit_events_spec by done. rewrite try_fold_collect. cbn. eauto.
Qed.

(** C1: Acknowledged means durable: after any history and then any crash, the
    log that is left recovers, its events are numbered 1 to n without gaps,
    reading the recovered file returns all of them, and every event that was
    ever acknowledged is among them, in the order of acknowledgement. *)
Theorem acknowledged_events_survive s survived :
  rtc step start_system s ->
  survived `prefix_of` content (sys_file s) -> durable (sys_file s) <= nlen survived ->
  exists es report recovered report',
    recover_events_with_key (Some survived) true key = Ok (report, Some recovered) /\
    valid_events report = nlen es /\ sequenced 0 es /\
    sys_acked s `sublist_of` es /\
    for_each_event_with_key (Some recovered) key collect [] = Ok (report', es).
Proof.
  intros Hreach Hs Hd.
  assert (exists groups lines, sys_inv (mkSystem (mkFile survived (nlen survived)
    (operations (sys_file s))) None (sys_acked s)) groups lines) as (groups & lines & Hinv).
  { destruct (history_lemma s Hreach) as (groups & lines & Hinv). exists groups, lines.
    destruct s as [f writer acked]. by apply (sys_inv_crash f writer). }
  pose proof Hinv as [Hst Hrun _ Hc _ Ha _]. cbn [sys_file sys_acked content durable] in *.
  destruct (recover_cut_lemma _ _ _ _ _ true Hst Hc) as (k & kept & tail & Hcont & Ht & Hk & Hrec & Hm).
  pose proof (stored_take _ _ _ _ k Hst) as Hst'.
  assert (exists report', for_each_event_with_key (Some kept) key collect [] =
    Ok (report', concat (take k groups))) as [report' Hread].
  { destruct Hk as [->|[-> ->]]; [by apply read_all|]. by eexists. }
  exists (concat (take k groups)), (cut_report (nlen (concat (take k groups))) kept tail true), kept, report'.
  split_and!; try done; [by destruct Hst'|].
  destruct (sys_inv_repaired _ _ _ _ kept tail k Hinv Hcont Hk Hm)
    as [_ [->|(j & Hj & Hjk & _)]]; [apply sublist_nil_l|].
  etrans; [exact Hj|]. rewrite <-(take_drop j (take k groups)), concat_app, take_take, Nat.min_l by done.
  by apply sublist_inserts_r.
Qed.
End History.
End WriterSpec.

(** ** Witnesses *)

Module WriterExamples.
Import Concrete ConcreteSerde ConcreteBlock CryptoExamples.

(** A disk on which the fourth operation, a write, stops after 3 bytes. *)
Definition flaky : Disk := {|
  write_fault k := if k =? 3 then Some 3 else None;
  sync_fails _ := false;
|}.
#[local] Existing Instance flaky.

Definition draws : Draws := mkDraws (fun _ => nonce) (fun n => N.shiftl 7 76 + n).
Definition batch : list PendingEvent := [new_pending "run" "proxy" "request" 0%Z].
Definition file0 : File := mkFile [] 0 0.
Definition writer0 : WriterState := mkWriterState file0 1 0 (mkWriterStats 0 0 0).

Lemma writer0_inv : writer_inv Jsonl None "run" 100000 writer0 [] [].
Proof.
  split; [split; [constructor|done|]|constructor| | | | | |];
    first [reflexivity|vm_compute; discriminate].
Qed.

Lemma append_batch_refines_witness :
  exists prepared, prepare_batch batch draws 1 0 = Ok prepared /\
    Forall2 (fun event e => e = from_pending (ev_event_id e) (ev_sequence e) event) batch prepared /\
    let '(res, w', rs) := append_batch writer0 batch draws Jsonl 100000 None in
    batch_outcome Jsonl None "run" 100000 [] [] prepared (acknowledged prepared rs) (is_ok res) writer0 w'.
Proof.
  apply (append_batch_refines Jsonl None "run" 100000 writer0 [] [] batch draws);
    [apply writer0_inv|done|by repeat constructor|done].
Defined.

(** The history: open, one batch that succeeds, one whose write is cut. *)
Definition prepared1 : list EventEnvelope := default [] (ok (prepare_batch batch draws 1 0)).
Definition prepared2 : list EventEnvelope := default [] (ok (prepare_batch batch draws 2 0)).
Definition out1 := append_batch writer0 batch draws Jsonl 100000 None.
Definition writer1 : WriterState := snd (fst out1).
Definition out2 := append_batch writer1 batch draws Jsonl 100000 None.
Definition final : System :=
  mkSystem (w_file (snd (fst out2))) (if is_ok (fst (fst out2)) then Some (snd (fst out2)) else None)
    (([] ++ acknowledged prepared1 (snd out1)) ++ acknowledged prepared2 (snd out2)).

Lemma final_reachable : rtc (step Jsonl None "run" 100000) start_system final.
Proof.
  eapply rtc_l.
  { apply (step_open Jsonl None "run" 100000 file0 [] (Ok writer0) file0). vm_compute. reflexivity. }
  assert (forall {A B C} (p : A * B * C), p = (fst (fst p), snd (fst p), snd p)) as Hp
    by (by intros A B C [[]]).
  eapply rtc_l.
  { eapply (step_batch Jsonl None "run" 100000 writer0 [] batch draws prepared1);
      [done|by repeat constructor|done|vm_compute; reflexivity|apply (Hp _ _ _ out1)]. }
  apply rtc_once. fold writer1.
  assert (is_ok (fst (fst out1)) = true) as -> by (vm_compute; reflexivity).
  eapply (step_batch Jsonl None "run" 100000 writer1 _ batch draws prepared2);
    [done|by repeat constructor|done|vm_compute; reflexivity|apply (Hp _ _ _ out2)].
Qed.

Lemma history_invariant_witness :
  exists groups lines, sys_inv Jsonl None "run" 100000 final groups lines.
Proof.
  apply (history_invariant Jsonl None "run" 100000); [done|apply final_reachable].
Defined.

Lemma acknowledged_events_survive_witness :
  exists es report recovered report',
    recover_events_with_key (Some (content (sys_file final))) true None = Ok (report, Some recovered) /\
    valid_events report = nlen es /\ sequenced 0 es /\
    sys_acked final `sublist_of` es /\
    for_each_event_with_key (Some recovered) None collect [] = Ok (report', es).
Proof.
  apply (acknowledged_events_survive Jsonl None "run" 100000); [done|apply final_reachable|done|].
  vm_compute. discriminate.
Defined.
End WriterExamples.
