(* ===== verification/BlobStore.v ===== *)
(** * src/blob_keys.rs and the blob half of src/storage.rs

    Content-addressed payload files, the wrapped class keys they are
    encrypted with, and the reservation of files and bytes against the run's
    budget.  A run directory is its files; [read_regular_limited] reads a file
    no longer than a limit. *)

From Stdlib Require Import Strings.Byte.
From S2P Require Import Prelude RustStd External Json Input Model Policy Crypto EventLog.
From stdpp Require Import options.
Local Open Scope N_scope.
#[local] Unset Default Proof Using.

Definition MAX_WRAPPED_KEY_BYTES : N := 1024.
Definition MAX_RETENTION_STATE_BYTES : N := 64 * 1024.
Definition ENCRYPTED_BLOB_OVERHEAD_BYTES : N := 8 + 24 + 16.
Definition MAX_BLOB_DIRECTORY_ENTRIES : N := 250000.
Definition MAX_SINGLE_BLOB_BYTES : N := MAX_CAPTURE_BODY_BYTES.

(** ** Blob classes *)

Inductive BlobClass := Body | Pcap | TlsSecrets.
#[export] Instance BlobClass_eq_dec : EqDecision BlobClass.
Proof. solve_decision. Defined.

Definition all_classes : list BlobClass := [Body; Pcap; TlsSecrets].

Definition class_str (c : BlobClass) : string :=
  match c with Body => "body" | Pcap => "pcap" | TlsSecrets => "tls_secrets" end.

Definition from_media_type (media_type : option string) : BlobClass :=
  match media_type with
  | Some t =>
      if str_eqb t "application/vnd.tcpdump.pcap" then Pcap
      else if str_eqb t "application/x-nss-key-log" then TlsSecrets
      else Body
  | None => Body
  end.

Definition class_parse (value : string) : io_result BlobClass :=
  if str_eqb value "body" then Ok Body
  else if str_eqb value "pcap" then Ok Pcap
  else if str_eqb value "tls_secrets" then Ok TlsSecrets
  else Err (io_error InvalidData "unsupported blob retention class").

Record BlobKeyring := mkKeyring {
  kr_body : EncryptionKey;
  kr_pcap : EncryptionKey;
  kr_tls_secrets : EncryptionKey;
}.

Definition keyring_key (k : BlobKeyring) (c : BlobClass) : EncryptionKey :=
  match c with Body => kr_body k | Pcap => kr_pcap k | TlsSecrets => kr_tls_secrets k end.

Inductive ClassErasurePhase := Intent | PhaseComplete.

Record ClassErasureState := mkErasureState {
  es_schema_version : N;
  es_class : BlobClass;
  es_phase : ClassErasurePhase;
  es_operation_id : Uuid;
  es_envelope_sha256 : string;
  es_blob_files : N;
  es_blob_storage_bytes : N;
  es_requested_at : DateTime;
  es_completed_at : option DateTime;
}.

Class SerdeErasure := {
  erasure_to_vec : ClassErasureState -> option bytes;
  erasure_from_slice : bytes -> option ClassErasureState;
}.

(** ** The run directory *)

Record RunDir := mkRunDir {
  rd_blobs : gmap string bytes;
  rd_keys : option (gmap string bytes);
  rd_retention : gmap string bytes;
}.

Definition not_found : IoError := io_error NotFound "no such file".

Definition read_regular_limited (files : gmap string bytes) (name : string) (limit : N)
    : io_result bytes :=
  content ← ok_or (files !! name) not_found;
  if limit <? nlen content then Err (io_error InvalidData "file exceeds the limit") else Ok content.

(** ** Names *)

Definition validate_blob_hash (hash : string) : io_result unit :=
  if canonical_hash hash then Ok tt else Err (io_error InvalidData "blob SHA-256 is invalid").

Definition blob_file_name (hash : string) (class : option BlobClass) : io_result string :=
  validate_blob_hash hash;;
  Ok (match class with
      | None => "sha256-" +:+ hash
      | Some c => class_str c +:+ "-sha256-" +:+ hash
      end).

Fixpoint parse_class_name (classes : list BlobClass) (name : string)
    : io_result (option BlobClass * string) :=
  match classes with
  | [] => Err (io_error InvalidData "blob file name is not recognized")
  | c :: classes' =>
      match str_strip_prefix (class_str c +:+ "-sha256-") name with
      | Some hash => validate_blob_hash hash;; Ok (Some c, hash)
      | None => parse_class_name classes' name
      end
  end.

Definition parse_blob_file_name (name : string) : io_result (option BlobClass * string) :=
  match str_strip_prefix "sha256-" name with
  | Some hash => validate_blob_hash hash;; Ok (None, hash)
  | None => parse_class_name all_classes name
  end.

Definition file_identity (class : option BlobClass) (hash : string) : string :=
  match class with
  | None => "sha256:" +:+ hash
  | Some c => class_str c +:+ ":sha256:" +:+ hash
  end.

Definition identity_class (identity : string) : option BlobClass :=
  List.find (fun c => match str_strip_prefix (class_str c) identity with
                      | Some suffix => str_starts_with ":sha256:" suffix
                      | None => false end) all_classes.

Definition envelope_file_name (c : BlobClass) : string := class_str c +:+ ".key.enc".
Definition erasure_file_name (c : BlobClass) : string := class_str c +:+ ".state.enc".

(** [has_keyring]; the directory's permissions are the environment's. *)
Definition has_keyring (d : RunDir) : bool := match rd_keys d with Some _ => true | None => false end.

Definition reference_identity (d : RunDir) (r : PayloadRef) : string :=
  if has_keyring d then class_str (from_media_type (ref_media_type r)) +:+ ":" +:+ ref_sha256 r
  else ref_sha256 r.

Section BlobStore.
Context {dig : Digest} {hx : Hex} {b64 : Base64} {aead : Aead} {serde : Serde} {serdee : SerdeErasure}.

(** ** Erasure states *)

Definition validate_erasure_state (s : ClassErasureState) (class : BlobClass) : io_result unit :=
  envelope_hash ← ok_or (str_strip_prefix "sha256:" (es_envelope_sha256 s))
                    (io_error InvalidData "invalid envelope SHA-256");
  let timestamp_consistent :=
    match es_phase s, es_completed_at s with
    | Intent, None => true
    | PhaseComplete, Some completed => (es_requested_at s <=? completed)%Z
    | _, _ => false
    end in
  if negb (es_schema_version s =? 1) || negb (bool_decide (es_class s = class))
     || uuid_is_nil (es_operation_id s) || negb timestamp_consistent
     || negb (is_ok (validate_blob_hash envelope_hash))
  then Err (io_error InvalidData "retention state is inconsistent") else Ok tt.

Definition read_erasure_state (d : RunDir) (run_key : EncryptionKey) (class : BlobClass)
    : io_result (option ClassErasureState) :=
  match read_regular_limited (rd_retention d) (erasure_file_name class) MAX_RETENTION_STATE_BYTES with
  | Err e => if bool_decide (error_kind e = NotFound) then Ok None else Err e
  | Ok encoded =>
      plaintext ← decrypt_retention_state run_key encoded;
      state ← ok_or (erasure_from_slice plaintext) (io_error InvalidData "JSON");
      validate_erasure_state state class;;
      Ok (Some state)
  end.

Definition write_erasure_state (d : RunDir) (run_key : EncryptionKey) (nonce : bytes)
    (s : ClassErasureState) : io_result RunDir :=
  validate_erasure_state s (es_class s);;
  plaintext ← ok_or (erasure_to_vec s) (io_error InvalidData "serialization");
  encoded ← encrypt_retention_state run_key nonce plaintext;
  Ok (mkRunDir (rd_blobs d) (rd_keys d) (<[erasure_file_name (es_class s) := encoded]> (rd_retention d))).

(** ** Class keys *)

Definition load_class_key (d : RunDir) (run_key : EncryptionKey) (class : BlobClass)
    : io_result (option EncryptionKey) :=
  match rd_keys d with
  | None => Ok None
  | Some keys =>
      match read_regular_limited keys (envelope_file_name class) MAX_WRAPPED_KEY_BYTES with
      | Ok encoded => key ← unwrap_data_key run_key encoded (class_str class); Ok (Some key)
      | Err e =>
          if bool_decide (error_kind e = NotFound) then
            state ← read_erasure_state d run_key class;
            match state with
            | Some _ => Err (io_error NotFound "blob class was cryptographically erased")
            | None => Err (io_error InvalidData "blob class key envelope is missing")
            end
          else Err e
      end
  end.

Definition require_active_key (key : option EncryptionKey) : io_result EncryptionKey :=
  ok_or key (io_error InvalidData "class key cannot be loaded from a legacy run").

Definition load_keyring (d : RunDir) (run_key : EncryptionKey) : io_result BlobKeyring :=
  body ← (k ← load_class_key d run_key Body; require_active_key k);
  pcap ← (k ← load_class_key d run_key Pcap; require_active_key k);
  tls ← (k ← load_class_key d run_key TlsSecrets; require_active_key k);
  Ok (mkKeyring body pcap tls).

(** Random bytes drawn for a class: its key and the nonce that wraps it. *)
Definition KeyDraws := BlobClass -> bytes * bytes.

(** [initialize_keyring]: all envelopes are written in a temporary directory
    that is renamed into place at the end. *)
Definition initialize_keyring (d : RunDir) (run_key : EncryptionKey) (draws : KeyDraws)
    : io_result RunDir :=
  envelopes ← try_map (fun c =>
      '(_, wrapped) ← generate_wrapped_data_key run_key (fst (draws c)) (snd (draws c)) (class_str c);
      Ok (envelope_file_name c, wrapped)) all_classes;
  match rd_keys d with
  | Some _ => Err (io_error AlreadyExists "blob key directory exists")
  | None => Ok (mkRunDir (rd_blobs d) (Some (list_to_map envelopes)) (rd_retention d))
  end.

Definition prepare_for_writer (d : RunDir) (run_key : option EncryptionKey) (has_legacy_data : bool)
    (draws : KeyDraws) : io_result (option BlobKeyring * RunDir) :=
  match run_key with
  | None => Ok (None, d)
  | Some run_key =>
      if has_keyring d then keyring ← load_keyring d run_key; Ok (Some keyring, d)
      else if has_legacy_data then Ok (None, d)
      else
        d ← initialize_keyring d run_key draws;
        keyring ← load_keyring d run_key;
        Ok (Some keyring, d)
  end.

(** ** Reading a payload reference *)

Definition read_blob_reference (d : RunDir) (r : PayloadRef) (run_key : option EncryptionKey)
    (max_plaintext_bytes : N) : io_result bytes :=
  hash ← ok_or (str_strip_prefix "sha256:" (ref_sha256 r))
           (io_error InvalidData "blob reference has no SHA-256 prefix");
  validate_blob_hash hash;;
  if max_plaintext_bytes <? ref_size r
  then Err (io_error InvalidData "blob reference exceeds the caller safety limit")
  else
    let class_keyed := has_keyring d in
    let class := from_media_type (ref_media_type r) in
    name ← blob_file_name hash (if class_keyed then Some class else None);
    encoded_limit ← ok_or (checked_add (ref_size r) ENCRYPTED_BLOB_OVERHEAD_BYTES)
                      (io_error InvalidData "blob size overflows usize");
    encoded ← read_regular_limited (rd_blobs d) name encoded_limit;
    plaintext ←
      (if is_encrypted_blob encoded then
         run_key ← ok_or run_key (io_error PermissionDenied
                                    "encrypted blob requires the matching effective run key");
         key ← (if class_keyed then
                  k ← load_class_key d run_key class;
                  ok_or k (io_error InvalidData "class-keyed blob has no class encryption key")
                else Ok run_key);
         decrypt_blob key encoded hash
       else if class_keyed || match run_key with Some _ => true | None => false end
       then Err (io_error InvalidData "plaintext blob found in an encrypted run")
       else Ok encoded);
    if negb (nlen plaintext =? ref_size r) || negb (str_eqb (hex_encode (sha256 plaintext)) hash)
    then Err (io_error InvalidData "blob content does not match its reference")
    else Ok plaintext.

(** ** Storing a payload *)

(** The cloneable handle's blob state: the directory, the two atomic counters
    and the statistics.  Operations on one blob hold its lock; each counter
    update is one atomic step. *)
Record Store := mkStore {
  st_dir : RunDir;
  st_files : N;
  st_storage : N;
  st_blobs : N;
  st_blob_bytes : N;
}.

(** The fixed part of the handle. *)
Record StoreConfig := mkStoreConfig {
  sc_policy : CapturePolicy;
  sc_encryption : option EncryptionKey;
  sc_blob_keys : option BlobKeyring;
}.

(** [fetch_add] and [fetch_sub] wrap. *)
Definition u64_add (a b : N) : N := (a + b) mod 2 ^ 64.
Definition u64_sub (a b : N) : N := (a + (2 ^ 64 - b)) mod 2 ^ 64.

(** What the operating system does to one [persist_blob]: the creation of the
    temporary file fails; its write or sync fails with some bytes in the file;
    the directory cannot be opened or the rename fails for another reason than
    an existing target; the clean-up fails; the final directory sync fails. *)
Record PersistFaults := mkFaults {
  pf_create_fails : bool;
  pf_write : option N;
  pf_rename_fails : bool;
  pf_remove_fails : bool;
  pf_sync_fails : bool;
}.

Definition no_faults : PersistFaults := mkFaults false None false false false.
Definition os_error : IoError := io_error Other "input/output error".

Definition original_blob_storage_bytes (plaintext_bytes : N) (encrypted : bool) : io_result N :=
  ok_or (checked_add plaintext_bytes (if encrypted then ENCRYPTED_BLOB_OVERHEAD_BYTES else 0))
    (io_error InvalidData "blob size overflows u64").

(** The comparison with an existing blob, made at two places of the source. *)
Definition matches_existing (encoded plaintext : bytes) (encryption : option EncryptionKey)
    (hash : string) (expected : N) : io_result unit :=
  if negb (nlen encoded =? expected)
  then Err (io_error InvalidData "existing content-addressed blob has an unexpected size")
  else
    existing ← match encryption with Some key => decrypt_blob key encoded hash | None => Ok encoded end;
    if bool_decide (existing = plaintext) then Ok tt
    else Err (io_error InvalidData "existing content-addressed blob does not match its digest").

Definition existing_blob_matches (blobs : gmap string bytes) (name : string) (plaintext : bytes)
    (encryption : option EncryptionKey) (hash : string) (expected_storage_bytes : N)
    : io_result bool :=
  match read_regular_limited blobs name expected_storage_bytes with
  | Err e => if bool_decide (error_kind e = NotFound) then Ok false else Err e
  | Ok encoded => matches_existing encoded plaintext encryption hash expected_storage_bytes;; Ok true
  end.

(** The name of the temporary file, from the displayed process and random
    identifiers. *)
Definition temporary_name (pid uuid : string) : string :=
  ".blob-" +:+ pid +:+ "-" +:+ uuid +:+ ".tmp".

(** The closure of [persist_blob]: its result, [committed], the directory. *)
Definition write_and_rename (blobs : gmap string bytes) (temporary name : string)
    (encoded plaintext : bytes) (encryption : option EncryptionKey) (hash : string)
    (o : PersistFaults) : io_result bool * bool * gmap string bytes :=
  if pf_create_fails o then (Err os_error, false, blobs)
  else match blobs !! temporary with
  | Some _ => (Err (io_error AlreadyExists "file exists"), false, blobs)
  | None =>
      match pf_write o with
      | Some n => (Err os_error, false, <[temporary := ntake n encoded]> blobs)
      | None =>
          let written := <[temporary := encoded]> blobs in
          if pf_rename_fails o then (Err os_error, false, written)
          else match written !! name with
          | None => (Ok true, true, <[name := encoded]> (delete temporary written))
          | Some _ =>
              (existing ← read_regular_limited written name (nlen encoded);
               matches_existing existing plaintext encryption hash (nlen encoded);;
               Ok false, false, written)
          end
      end
  end.

(** The error reported when the clean-up fails after the closure's result. *)
Definition cleanup_error (r : io_result bool) (cleanup : IoError) : IoError :=
  match r with
  | Ok _ => cleanup
  | Err e => io_error (error_kind e) "temporary blob cleanup also failed"
  end.

(** [persist_blob]; a [BlobPersistError] is the error with [storage_retained].
    Removing a temporary file that is not there is an error. *)
Definition persist_blob (blobs : gmap string bytes) (temporary name : string)
    (encoded plaintext : bytes) (encryption : option EncryptionKey) (hash : string)
    (o : PersistFaults) : result (IoError * bool) bool * gmap string bytes :=
  let '(r, committed, blobs) :=
    write_and_rename blobs temporary name encoded plaintext encryption hash o in
  let cleanup : io_result (gmap string bytes) :=
    if committed then Ok blobs
    else match blobs !! temporary with
    | None => Err not_found
    | Some _ => if pf_remove_fails o then Err os_error else Ok (delete temporary blobs)
    end in
  match cleanup with
  | Err e => (Err (cleanup_error r e, true), blobs)
  | Ok blobs =>
      match r with
      | Err e => (Err (e, committed), blobs)
      | Ok created =>
          if pf_sync_fails o then (Err (os_error, committed), blobs) else (Ok created, blobs)
      end
  end.

Definition with_blobs (s : Store) (blobs : gmap string bytes) : Store :=
  mkStore (mkRunDir blobs (rd_keys (st_dir s)) (rd_retention (st_dir s)))
    (st_files s) (st_storage s) (st_blobs s) (st_blob_bytes s).

Definition reserve_blob_file_count (used limit : N) : storage_result N :=
  if limit <=? used then Err (BlobFileLimitExceeded used limit) else Ok (used + 1).

Definition reserve_blob_file (s : Store) : storage_result Store :=
  files ← reserve_blob_file_count (st_files s) MAX_BLOB_DIRECTORY_ENTRIES;
  Ok (mkStore (st_dir s) files (st_storage s) (st_blobs s) (st_blob_bytes s)).

Definition reserve_blob_storage (c : StoreConfig) (s : Store) (requested : N) : storage_result Store :=
  let limit := max_run_blob_storage_bytes (sc_policy c) in
  next ← ok_or (checked_add (st_storage s) requested)
           (BlobStorageBudgetExceeded (st_storage s) requested limit);
  if limit <? next then Err (BlobStorageBudgetExceeded (st_storage s) requested limit)
  else Ok (mkStore (st_dir s) (st_files s) next (st_blobs s) (st_blob_bytes s)).

Definition release_blob_file (s : Store) : Store :=
  mkStore (st_dir s) (u64_sub (st_files s) 1) (st_storage s) (st_blobs s) (st_blob_bytes s).

Definition release_blob_storage (s : Store) (n : N) : Store :=
  mkStore (st_dir s) (st_files s) (u64_sub (st_storage s) n) (st_blobs s) (st_blob_bytes s).

Definition count_blob (s : Store) (n : N) : Store :=
  mkStore (st_dir s) (st_files s) (st_storage s) (u64_add (st_blobs s) 1)
    (u64_add (st_blob_bytes s) n).

(** What [store_blob_with_limit] computes before it takes the blob's lock. *)
Record Prepared := mkPrepared {
  pr_reference : PayloadRef;
  pr_captured : bytes;
  pr_hash : string;
  pr_name : string;
  pr_encryption : option EncryptionKey;
  pr_expected : N;
}.

Definition prepare_blob (c : StoreConfig) (data : bytes) (media_type : option string) (limit : N)
    : storage_result Prepared :=
  let limit := N.min limit MAX_SINGLE_BLOB_BYTES in
  let captured := if limit <? nlen data then ntake limit data else data in
  let truncated := negb (nlen captured =? nlen data) in
  let hash := hex_encode (sha256 captured) in
  let class := match sc_blob_keys c with Some _ => Some (from_media_type media_type) | None => None end in
  name ← from_io (blob_file_name hash class);
  let encryption := match sc_blob_keys c with
                    | Some keys => Some (keyring_key keys (from_media_type media_type))
                    | None => sc_encryption c end in
  expected ← from_io (original_blob_storage_bytes (nlen captured)
               (match encryption with Some _ => true | None => false end));
  let size := if truncated then nlen captured else nlen data in
  Ok (mkPrepared (mkPayloadRef ("sha256:" +:+ hash) size media_type truncated)
        captured hash name encryption expected).

(** The blocking task: encrypt, then persist.  The random choices are the
    nonce and the name of the temporary file. *)
Definition encrypt_and_persist (p : Prepared) (blobs : gmap string bytes) (nonce : bytes)
    (temporary : string) (o : PersistFaults) : result (IoError * bool) bool * gmap string bytes :=
  match (match pr_encryption p with
         | Some key => encrypt_blob key nonce (pr_captured p) (pr_hash p)
         | None => Ok (pr_captured p) end) with
  | Err e => (Err (e, false), blobs)
  | Ok encoded =>
      persist_blob blobs temporary (pr_name p) encoded (pr_captured p) (pr_encryption p) (pr_hash p) o
  end.

Definition check_existing (p : Prepared) (s : Store) : storage_result bool :=
  from_io (existing_blob_matches (rd_blobs (st_dir s)) (pr_name p) (pr_captured p)
             (pr_encryption p) (pr_hash p) (pr_expected p)).

Definition store_blob_with_limit (c : StoreConfig) (s : Store) (data : bytes)
    (media_type : option string) (limit : N) (nonce : bytes) (temporary : string)
    (o : PersistFaults) : storage_result PayloadRef * Store :=
  match prepare_blob c data media_type limit with
  | Err e => (Err e, s)
  | Ok p =>
      match check_existing p s with
      | Err e => (Err e, s)
      | Ok true => (Ok (pr_reference p), s)
      | Ok false =>
          match reserve_blob_file s with
          | Err e => (Err e, s)
          | Ok s =>
              match reserve_blob_storage c s (pr_expected p) with
              | Err e => (Err e, release_blob_file s)
              | Ok s =>
                  let '(persistence, blobs) :=
                    encrypt_and_persist p (rd_blobs (st_dir s)) nonce temporary o in
                  let s := with_blobs s blobs in
                  match persistence with
                  | Err (e, storage_retained) =>
                      (Err (Io e), if storage_retained then s
                                   else release_blob_storage (release_blob_file s) (pr_expected p))
                  | Ok true => (Ok (pr_reference p), count_blob s (nlen (pr_captured p)))
                  | Ok false =>
                      (Ok (pr_reference p), release_blob_storage (release_blob_file s) (pr_expected p))
                  end
              end
          end
      end
  end.

Definition store_blob (c : StoreConfig) (s : Store) (data : bytes) (media_type : option string)
    (nonce : bytes) (temporary : string) (o : PersistFaults) : storage_result PayloadRef * Store :=
  store_blob_with_limit c s data media_type (max_blob_bytes (sc_policy c)) nonce temporary o.

Definition store_sensitive_blob (c : StoreConfig) (s : Store) (data : bytes)
    (media_type : option string) (nonce : bytes) (temporary : string) (o : PersistFaults)
    : storage_result PayloadRef * Store :=
  match sc_encryption c with
  | None => (Err (Writer "sensitive evidence requires at-rest encryption"), s)
  | Some _ => store_blob_with_limit c s data media_type (nlen data) nonce temporary o
  end.

(** ** Opening the store *)

(** [blob_directory_inventory]: the number of files and their bytes; every
    entry of the modelled directory is a regular file. *)
Definition blob_directory_inventory (blobs : gmap string bytes) : io_result (N * N) :=
  try_fold (fun '(entries, total) '(_, content) =>
    let entries := sat_add entries 1 in
    if MAX_BLOB_DIRECTORY_ENTRIES <? entries
    then Err (io_error InvalidData "blob directory exceeds its entry safety limit")
    else
      total ← ok_or (checked_add total (nlen content))
                (io_error InvalidData "blob directory size overflows u64");
      Ok (entries, total)) (0, 0) (map_to_list blobs).

(** The blob part of [create_with_encryption]; [has_events] is whether the
    recovery of the event log found events. *)
Definition open_blobs (d : RunDir) (policy : CapturePolicy) (encryption : option EncryptionKey)
    (has_events : bool) (draws : KeyDraws) : storage_result (StoreConfig * Store) :=
  '(files, storage) ← from_io (blob_directory_inventory (rd_blobs d));
  if max_run_blob_storage_bytes policy <? storage
  then Err (BlobStorageBudgetExceeded storage 0 (max_run_blob_storage_bytes policy))
  else
    '(keys, d) ← from_io (prepare_for_writer d encryption ((0 <? files) || has_events) draws);
    Ok (mkStoreConfig policy encryption keys, mkStore d files storage 0 0).

(** ** Concurrent stores

    A task is one call of [store_blob_with_limit], at the next of its atomic
    steps.  The per-blob lock only removes interleavings.  [TPersist] is one
    step although it writes, syncs and renames: until the rename it works on a
    temporary file of its own, whose name holds a fresh identifier and is no
    blob's, and the rename itself replaces nothing and is atomic; what its
    faults leave is part of the step. *)
Inductive Task :=
| TCheck (p : Prepared)
| TReserveFile (p : Prepared)
| TReserveStorage (p : Prepared)
| TPersist (p : Prepared)
| TReleaseFile (p : Prepared)
| TReleaseBoth (p : Prepared)
| TReleaseStorage (p : Prepared)
| TCount (p : Prepared).

(** One step of one task: the shared store after it and what is left to do. *)
Definition task_step (c : StoreConfig) (t : Task) (s : Store) (nonce : bytes)
    (temporary : string) (o : PersistFaults) : Store * option Task :=
  match t with
  | TCheck p =>
      (s, match check_existing p s with Ok false => Some (TReserveFile p) | _ => None end)
  | TReserveFile p =>
      match reserve_blob_file s with Ok s => (s, Some (TReserveStorage p)) | Err _ => (s, None) end
  | TReserveStorage p =>
      match reserve_blob_storage c s (pr_expected p) with
      | Ok s => (s, Some (TPersist p)) | Err _ => (s, Some (TReleaseFile p)) end
  | TPersist p =>
      let '(persistence, blobs) := encrypt_and_persist p (rd_blobs (st_dir s)) nonce temporary o in
      (with_blobs s blobs,
       match persistence with
       | Err (_, true) => None
       | Err (_, false) | Ok false => Some (TReleaseBoth p)
       | Ok true => Some (TCount p)
       end)
  | TReleaseFile p => (release_blob_file s, None)
  | TReleaseBoth p => (release_blob_file s, Some (TReleaseStorage p))
  | TReleaseStorage p => (release_blob_storage s (pr_expected p), None)
  | TCount p => (count_blob s (nlen (pr_captured p)), None)
  end.

Inductive stores_step (c : StoreConfig) : Store * list Task -> Store * list Task -> Prop :=
| call_step s ts data media_type limit p :
    prepare_blob c data media_type limit = Ok p ->
    stores_step c (s, ts) (s, TCheck p :: ts)
| run_step s ts1 t ts2 nonce pid uuid o s' next :
    nlen nonce = 24 ->
    task_step c t s nonce (temporary_name pid uuid) o = (s', next) ->
    stores_step c (s, ts1 ++ t :: ts2) (s', ts1 ++ option_list next ++ ts2).
End BlobStore.
