(* ===== verification/BlobStoreSpec.v ===== *)
(** * What the blob store guarantees

    Budgets under concurrent stores and operating-system faults, the round
    trip of a stored payload, the persistence of earlier payloads, class keys
    and file names. *)

From Stdlib Require Import Strings.Byte.
From S2P Require Import Prelude RustStd External Json Input Model Policy Crypto EventLog BlobStore.
From stdpp Require Import options.
Local Open Scope N_scope.
#[local] Unset Default Proof Using.

(** ** The size of a directory *)

Definition dir_files (blobs : gmap string bytes) : N := N.of_nat (size blobs).
Definition dir_bytes (blobs : gmap string bytes) : N :=
  map_fold (fun _ content total => nlen content + total) 0 blobs.

Lemma dir_insert blobs name content : blobs !! name = None ->
  dir_files (<[name := content]> blobs) = dir_files blobs + 1 /\
  dir_bytes (<[name := content]> blobs) = nlen content + dir_bytes blobs.
Proof.
  intros H. unfold dir_files, dir_bytes. rewrite map_size_insert_None by done. split; [lia|].
  apply (map_fold_insert_L (fun _ content total => nlen content + total)); [|done].
  intros. lia.
Qed.

Lemma dir_delete_le blobs name :
  dir_files (delete name blobs) <= dir_files blobs /\
  dir_bytes (delete name blobs) <= dir_bytes blobs.
Proof.
  destruct (blobs !! name) as [content|] eqn:E.
  - destruct (dir_insert (delete name blobs) name content (lookup_delete_eq _ _)) as [H1 H2].
    rewrite insert_delete_id in H1, H2 by done. lia.
  - by rewrite delete_id.
Qed.

Lemma delete_inserted (blobs : gmap string bytes) (name : string) (content : bytes) :
  blobs !! name = None -> delete name (<[name := content]> blobs) = blobs.
Proof. intros H. by rewrite delete_insert_eq, delete_id. Qed.

Lemma u64_sub_exact a b : b <= a -> a <= u64_max -> u64_sub a b = a - b.
Proof.
  unfold u64_sub, u64_max. intros H1 H2.
  replace (a + (2 ^ 64 - b)) with ((a - b) + 1 * 2 ^ 64) by lia.
  rewrite N.Div0.mod_add. apply N.mod_small. lia.
Qed.

Lemma inventory_fold (l : list (string * bytes)) e t e' t' : e <= MAX_BLOB_DIRECTORY_ENTRIES ->
  try_fold (fun '(entries, total) '(_, content) =>
    let entries := sat_add entries 1 in
    if MAX_BLOB_DIRECTORY_ENTRIES <? entries
    then Err (io_error InvalidData "blob directory exceeds its entry safety limit")
    else
      total ← ok_or (checked_add total (nlen content))
                (io_error InvalidData "blob directory size overflows u64");
      Ok (entries, total)) (e, t) l = Ok (e', t') ->
  e' = e + nlen l /\ e' <= MAX_BLOB_DIRECTORY_ENTRIES /\
  t' = t + foldr (fun kv acc => nlen (snd kv) + acc) 0 l.
Proof.
  revert e t. induction l as [|[k content] l IH]; intros e t He H.
  { cbn in *. injection H as <- <-. rewrite nlen_nil. lia. }
  cbn [try_fold] in H. apply bind_ok in H as ([e1 t1] & H1 & H2).
  rewrite sat_add_exact in H1 by (unfold MAX_BLOB_DIRECTORY_ENTRIES, u64_max in *; lia).
  cbn zeta in H1. destruct (N.ltb_spec MAX_BLOB_DIRECTORY_ENTRIES (e + 1)); [done|].
  apply bind_ok in H1 as (t2 & H1 & [= <- <-]). apply ok_or_ok, checked_add_Some in H1 as [-> _].
  destruct (IH (e + 1) (t + nlen content) ltac:(assumption) H2) as (-> & H3 & ->). cbn [foldr snd]. nlia.
Qed.

Lemma inventory_exact blobs e t : blob_directory_inventory blobs = Ok (e, t) ->
  e = dir_files blobs /\ t = dir_bytes blobs /\ e <= MAX_BLOB_DIRECTORY_ENTRIES.
Proof.
  intros H. apply inventory_fold in H as (-> & H & ->); [|unfold MAX_BLOB_DIRECTORY_ENTRIES; lia].
  split_and!; [|unfold dir_bytes|done].
  - unfold dir_files, nlen. by rewrite length_map_to_list.
  - rewrite map_fold_foldr. rewrite N.add_0_l. clear.
    induction (map_to_list blobs) as [|[k v] l IH]; cbn; [done|]. by rewrite IH.
Qed.

Section Spec.
Context {dig : Digest} {hx : Hex} {b64 : Base64} {aead : Aead} {serde : Serde} {serdee : SerdeErasure}.
Context {aeadl : AeadLaws}.

(** ** What one [persist_blob] does to the directory *)

(** The directory afterwards, against the result: a blob that was not there is
    now complete under its name; or at most one file no longer than the
    encoded blob is left, and the error says so; or nothing is left. *)
Definition persist_effect (blobs : gmap string bytes) (temporary name : string) (encoded : bytes)
    (r : result (IoError * bool) bool) (blobs' : gmap string bytes) : Prop :=
  match r with
  | Ok true => blobs !! name = None /\ blobs' = <[name := encoded]> blobs
  | Err (_, true) =>
      blobs' = blobs
      \/ (exists k content, (k = temporary \/ k = name) /\ blobs !! k = None /\
          nlen content <= nlen encoded /\ blobs' = <[k := content]> blobs)
  | _ => blobs' = blobs \/ blobs' = delete temporary blobs
  end.

Lemma write_and_rename_effect blobs temporary name encoded plaintext enc hash o :
  match write_and_rename blobs temporary name encoded plaintext enc hash o with
  | (r, true, blobs') => r = Ok true /\ blobs !! name = None /\ blobs' = <[name := encoded]> blobs
  | (r, false, blobs') =>
      r <> Ok true /\
      (blobs' = blobs /\ (exists e, r = Err e)
       \/ (blobs !! temporary = None /\ exists content,
           nlen content <= nlen encoded /\ blobs' = <[temporary := content]> blobs))
  end.
Proof.
  unfold write_and_rename. destruct (pf_create_fails o); [by eauto 10|].
  destruct (blobs !! temporary) eqn:Et; [by eauto 10|].
  destruct (pf_write o) as [n|].
  { split; [done|]. right. split; [done|]. eexists. split; [|done]. rewrite nlen_ntake. lia. }
  cbn zeta. destruct (pf_rename_fails o); [split; [done|]; right; by eauto|].
  destruct (<[temporary := encoded]> blobs !! name) eqn:En.
  - split; [|right; by eauto]. intros H. by repeat (apply bind_ok in H as (? & _ & H)).
  - apply lookup_insert_None in En as [En Hne]. rewrite delete_inserted by done. done.
Qed.

Lemma persist_blob_effect blobs temporary name encoded plaintext enc hash o r blobs' :
  persist_blob blobs temporary name encoded plaintext enc hash o = (r, blobs') ->
  persist_effect blobs temporary name encoded r blobs'.
Proof.
  unfold persist_blob. intros H.
  pose proof (write_and_rename_effect blobs temporary name encoded plaintext enc hash o) as Hw.
  destruct (write_and_rename _ _ _ _ _ _ _ _) as [[r1 [|]] blobs1]; cbn zeta in H.
  - destruct Hw as (-> & Hn & ->). destruct (pf_sync_fails o); injection H as <- <-; [|done].
    right. exists name, encoded. by auto.
  - destruct Hw as [Hr Hw].
    destruct (blobs1 !! temporary) eqn:Et.
    + destruct (pf_remove_fails o).
      * injection H as <- <-. destruct Hw as [[-> _]|(Hn & content & Hl & ->)]; [by left|].
        right. eauto 10.
      * assert (delete temporary blobs1 = blobs \/ delete temporary blobs1 = delete temporary blobs).
        { destruct Hw as [[-> _]|(Hn & content & Hl & ->)]; [by right|left]. by apply delete_inserted. }
        destruct r1 as [[|]|]; [done| |]; [destruct (pf_sync_fails o)|]; by injection H as <- <-.
    + injection H as <- <-. destruct Hw as [[-> _]|(Hn & content & Hl & ->)]; [by left|].
      by rewrite lookup_insert_eq in Et.
Qed.

(** The bytes of a payload on disk. *)
Definition encoding (p : Prepared) (nonce : bytes) : io_result bytes :=
  match pr_encryption p with
  | Some key => encrypt_blob key nonce (pr_captured p) (pr_hash p)
  | None => Ok (pr_captured p)
  end.

Lemma prepare_blob_ok c data media_type limit p : prepare_blob c data media_type limit = Ok p ->
  let limit := N.min limit MAX_SINGLE_BLOB_BYTES in
  let captured := if limit <? nlen data then ntake limit data else data in
  let class := match sc_blob_keys c with Some _ => Some (from_media_type media_type) | None => None end in
  pr_captured p = captured /\ pr_hash p = hex_encode (sha256 captured) /\
  blob_file_name (pr_hash p) class = Ok (pr_name p) /\
  pr_encryption p = match sc_blob_keys c with
                    | Some keys => Some (keyring_key keys (from_media_type media_type))
                    | None => sc_encryption c end /\
  pr_expected p = nlen captured
                  + (if pr_encryption p then ENCRYPTED_BLOB_OVERHEAD_BYTES else 0) /\
  pr_reference p = mkPayloadRef ("sha256:" +:+ pr_hash p) (nlen captured) media_type
                     (negb (nlen captured =? nlen data)).
Proof.
  unfold prepare_blob. intros H. cbn zeta in *.
  apply bind_ok in H as (name & H1 & H). apply bind_ok in H as (expected & H2 & H).
  injection H as <-. cbn [pr_captured pr_hash pr_name pr_encryption pr_expected pr_reference].
  apply map_err_ok in H1. apply map_err_ok in H2.
  apply ok_or_ok, checked_add_Some in H2 as [-> _].
  split_and!; [done..| |].
  - by destruct (sc_blob_keys c), (sc_encryption c).
  - f_equal. destruct (N.eqb_spec (nlen (if N.min limit MAX_SINGLE_BLOB_BYTES <? nlen data
      then ntake (N.min limit MAX_SINGLE_BLOB_BYTES) data else data)) (nlen data)); done.
Qed.

Definition well_prepared (p : Prepared) : Prop :=
  pr_expected p = nlen (pr_captured p)
                  + (if pr_encryption p then ENCRYPTED_BLOB_OVERHEAD_BYTES else 0).

Lemma encoding_length p nonce encoded : well_prepared p -> nlen nonce = 24 ->
  encoding p nonce = Ok encoded -> nlen encoded = pr_expected p.
Proof.
  unfold well_prepared, encoding. intros -> Hn H.
  destruct (pr_encryption p).
  - apply encrypt_framed_length in H; [|done]. rewrite H.
    unfold ENCRYPTED_BLOB_OVERHEAD_BYTES. change (nlen BLOB_MAGIC) with 8. lia.
  - injection H as <-. lia.
Qed.

(** ** Budgets *)

Definition task_blob (t : Task) : Prepared :=
  match t with
  | TCheck p | TReserveFile p | TReserveStorage p | TPersist p
  | TReleaseFile p | TReleaseBoth p | TReleaseStorage p | TCount p => p
  end.

(** The files and bytes a task has reserved and the directory does not hold. *)
Definition held_files (t : Task) : N :=
  match t with TReserveStorage _ | TPersist _ | TReleaseFile _ | TReleaseBoth _ => 1 | _ => 0 end.
Definition held_bytes (t : Task) : N :=
  match t with TPersist p | TReleaseBoth p | TReleaseStorage p => pr_expected p | _ => 0 end.

Definition total (f : Task -> N) (ts : list Task) : N := foldr (fun t acc => f t + acc) 0 ts.

Lemma total_app f ts1 ts2 : total f (ts1 ++ ts2) = total f ts1 + total f ts2.
Proof. unfold total. induction ts1 as [|t ts1 IH]; [done|]. cbn [app foldr]. rewrite IH. lia. Qed.

(** Everything on disk and everything reserved is accounted for, and the
    accounts stay within the limits. *)
Record accounted (c : StoreConfig) (s : Store) (files bytes : N) : Prop := {
  acc_files : dir_files (rd_blobs (st_dir s)) + files <= st_files s;
  acc_files_limit : st_files s <= MAX_BLOB_DIRECTORY_ENTRIES;
  acc_bytes : dir_bytes (rd_blobs (st_dir s)) + bytes <= st_storage s;
  acc_bytes_limit : st_storage s <= N.min u64_max (max_run_blob_storage_bytes (sc_policy c));
}.

Definition stores_inv (c : StoreConfig) (x : Store * list Task) : Prop :=
  accounted c x.1 (total held_files x.2) (total held_bytes x.2) /\
  Forall (fun t => well_prepared (task_blob t)) x.2.

Lemma encrypt_and_persist_accounted p blobs nonce temporary o r blobs' :
  well_prepared p -> nlen nonce = 24 ->
  encrypt_and_persist p blobs nonce temporary o = (r, blobs') ->
  match r with
  | Ok true | Err (_, true) =>
      dir_files blobs' <= dir_files blobs + 1 /\ dir_bytes blobs' <= dir_bytes blobs + pr_expected p
  | _ => dir_files blobs' <= dir_files blobs /\ dir_bytes blobs' <= dir_bytes blobs
  end.
Proof.
  intros Hp Hn H. unfold encrypt_and_persist in H. fold (encoding p nonce) in H.
  destruct (encoding p nonce) as [encoded|e] eqn:E; [|by injection H as <- <-].
  apply (encoding_length _ _ _ Hp Hn) in E. apply persist_blob_effect in H.
  pose proof (dir_delete_le blobs temporary).
  destruct r as [[|]|[e [|]]]; cbn in H.
  - destruct H as [Hl ->]. destruct (dir_insert _ _ encoded Hl). lia.
  - by destruct H as [-> | ->].
  - destruct H as [->|(k & content & _ & Hl & Hc & ->)]; [lia|].
    destruct (dir_insert _ _ content Hl). lia.
  - by destruct H as [-> | ->].
Qed.

Definition next_files (t : option Task) : N := from_option held_files 0 t.
Definition next_bytes (t : option Task) : N := from_option held_bytes 0 t.

(** One step of a task moves its share of the accounts; [files] and [bytes]
    are the shares of the other tasks. *)
Lemma task_step_accounted c t s nonce temporary o s' next files bytes :
  well_prepared (task_blob t) -> nlen nonce = 24 ->
  task_step c t s nonce temporary o = (s', next) ->
  accounted c s (held_files t + files) (held_bytes t + bytes) ->
  accounted c s' (next_files next + files) (next_bytes next + bytes).
Proof.
  intros Hp Hn H [A1 A2 A3 A4].
  assert (MAX_BLOB_DIRECTORY_ENTRIES <= u64_max) as Hmax by done.
  destruct t as [p|p|p|p|p|p|p|p]; cbn [task_step held_files held_bytes task_blob] in *.
  - injection H as <- <-. destruct (check_existing p s) as [[|]|]; by split; cbn in *.
  - unfold reserve_blob_file, reserve_blob_file_count in H.
    destruct (N.leb_spec MAX_BLOB_DIRECTORY_ENTRIES (st_files s)); injection H as <- <-;
      split; cbn in *; lia.
  - unfold reserve_blob_storage in H.
    destruct (checked_add (st_storage s) (pr_expected p)) as [n|] eqn:E; cbn in H;
      [apply checked_add_Some in E as [-> E]|injection H as <- <-; split; cbn in *; lia].
    destruct (N.ltb_spec (max_run_blob_storage_bytes (sc_policy c)) (st_storage s + pr_expected p));
      injection H as <- <-; split; cbn in *; lia.
  - destruct (encrypt_and_persist _ _ _ _ _) as [r blobs'] eqn:E.
    apply encrypt_and_persist_accounted in E; [|done..].
    injection H as <- <-. destruct r as [[|]|[e [|]]]; split; cbn in *; lia.
  - injection H as <- <-. split; cbn in *; rewrite ?u64_sub_exact by lia; lia.
  - injection H as <- <-. split; cbn in *; rewrite ?u64_sub_exact by lia; lia.
  - injection H as <- <-. split; cbn in *; rewrite ?u64_sub_exact by lia; lia.
  - injection H as <- <-. by split; cbn in *.
Qed.

Lemma next_prepared c t s nonce temporary o s' next :
  task_step c t s nonce temporary o = (s', next) ->
  Forall (fun t' => task_blob t' = task_blob t) (option_list next).
Proof.
  destruct t; cbn; intros H; repeat case_match; simplify_eq; by repeat constructor.
Qed.

Lemma stores_step_inv c x y : stores_inv c x -> stores_step c x y -> stores_inv c y.
Proof.
  intros [Ha Hw] Hs. destruct Hs as [s ts data media_type limit p Hp|s ts1 t ts2 nonce pid uuid o s' next Hn Ht].
  - split; [done|]. constructor; [|done]. cbn.
    apply prepare_blob_ok in Hp as (Hc & _ & _ & _ & He & _). unfold well_prepared. by rewrite Hc, He.
  - cbn [fst snd] in *. apply Forall_app in Hw as [Hw1 Hw2]. apply Forall_cons in Hw2 as [Hwt Hw2]. split.
    + cbn [fst snd]. rewrite !total_app in *. cbn [total foldr] in Ha.
      fold (total held_files ts2) (total held_bytes ts2) in Ha.
      replace (total held_files ts1 + (total held_files (option_list next) + total held_files ts2))
        with (next_files next + (total held_files ts1 + total held_files ts2))
        by (destruct next; cbn; lia).
      replace (total held_bytes ts1 + (total held_bytes (option_list next) + total held_bytes ts2))
        with (next_bytes next + (total held_bytes ts1 + total held_bytes ts2))
        by (destruct next; cbn; lia).
      eapply task_step_accounted; [done..|].
      by replace (held_files t + (total held_files ts1 + total held_files ts2)) with
        (total held_files ts1 + (held_files t + total held_files ts2)) by lia;
      replace (held_bytes t + (total held_bytes ts1 + total held_bytes ts2)) with
        (total held_bytes ts1 + (held_bytes t + total held_bytes ts2)) by lia.
    + cbn [snd]. rewrite !Forall_app. split_and!; [done| |done].
      eapply Forall_impl; [by eapply next_prepared|]. cbn. intros t' ->. done.
Qed.

Lemma open_blobs_inv d policy enc has_events draws c s :
  max_run_blob_storage_bytes policy <= u64_max ->
  open_blobs d policy enc has_events draws = Ok (c, s) -> stores_inv c (s, []).
Proof.
  unfold open_blobs. intros Hp H. apply bind_ok in H as ([files storage] & H1 & H).
  apply map_err_ok, inventory_exact in H1 as (-> & -> & Hf).
  destruct (N.ltb_spec (max_run_blob_storage_bytes policy) (dir_bytes (rd_blobs d))); [done|].
  apply bind_ok in H as ([keys d'] & H1 & H). injection H as <- <-.
  apply map_err_ok in H1.
  assert (rd_blobs d' = rd_blobs d) as Hd.
  { unfold prepare_for_writer in H1. destruct enc as [k|]; [|by injection H1 as _ <-].
    destruct (has_keyring d); [apply bind_ok in H1 as (? & _ & H1); by injection H1 as _ <-|].
    destruct (_ || _); [by injection H1 as _ <-|].
    apply bind_ok in H1 as (d1 & H2 & H1). apply bind_ok in H1 as (? & _ & H1).
    injection H1 as <- <-. unfold initialize_keyring in H2.
    apply bind_ok in H2 as (? & _ & H2). destruct (rd_keys d); [done|]. by injection H2 as <-. }
  split; [|constructor]. split; cbn [fst snd st_dir st_files st_storage sc_policy total foldr];
    rewrite ?Hd; lia.
Qed.

(** C7: However the stores of a run interleave and whatever the operating
    system refuses, from the opening of the run on the blob directory never
    holds more files or more bytes than the safety limit and the run's storage
    budget, temporary files included; and the two counters are within them. *)
Theorem blob_budget_holds d policy enc has_events draws c s x
    (Hpolicy : max_run_blob_storage_bytes policy <= u64_max)
    (Hopen : open_blobs d policy enc has_events draws = Ok (c, s))
    (Hreach : rtc (stores_step c) (s, []) x) :
  dir_files (rd_blobs (st_dir x.1)) <= st_files x.1 <= MAX_BLOB_DIRECTORY_ENTRIES /\
  dir_bytes (rd_blobs (st_dir x.1)) <= st_storage x.1 <= max_run_blob_storage_bytes (sc_policy c).
Proof.
  apply open_blobs_inv in Hopen; [|done].
  assert (stores_inv c x) as [[A1 A2 A3 A4] _].
  { clear Hpolicy. induction Hreach; eauto using stores_step_inv. }
  lia.
Qed.

(** ** A call is a run of its steps *)

Lemma one_step c s t nonce pid uuid o s' next : nlen nonce = 24 ->
  task_step c t s nonce (temporary_name pid uuid) o = (s', next) ->
  forall ts, stores_step c (s, t :: ts) (s', option_list next ++ ts).
Proof. intros Hn H ts. by apply (run_step c s [] t ts nonce pid uuid o). Qed.

Ltac steps Hn pid uuid o :=
  eapply rtc_l; [eapply (one_step _ _ _ _ pid uuid o _ _ Hn); cbn [task_step]|cbn [option_list app]].

Lemma store_runs c s data media_type limit nonce pid uuid o r s' ts : nlen nonce = 24 ->
  store_blob_with_limit c s data media_type limit nonce (temporary_name pid uuid) o = (r, s') ->
  rtc (stores_step c) (s, ts) (s', ts).
Proof.
  intros Hn H. unfold store_blob_with_limit in H.
  destruct (prepare_blob c data media_type limit) as [p|] eqn:Hp; [|by simplify_eq].
  eapply rtc_l; [by eapply call_step|].
  destruct (check_existing p s) as [[|]|] eqn:Hc.
  1, 3: injection H as <- <-; steps Hn pid uuid o; [by rewrite Hc|done].
  steps Hn pid uuid o; [by rewrite Hc|].
  destruct (reserve_blob_file s) as [s1|] eqn:H1.
  2: { injection H as <- <-. steps Hn pid uuid o; [by rewrite H1|done]. }
  steps Hn pid uuid o; [by rewrite H1|].
  destruct (reserve_blob_storage c s1 (pr_expected p)) as [s2|] eqn:H2.
  2: { injection H as <- <-. steps Hn pid uuid o; [by rewrite H2|]. by steps Hn pid uuid o. }
  steps Hn pid uuid o; [by rewrite H2|].
  destruct (encrypt_and_persist p (rd_blobs (st_dir s2)) nonce (temporary_name pid uuid) o)
    as [q blobs] eqn:H3.
  steps Hn pid uuid o; [by rewrite H3|]. destruct q as [[|]|[e [|]]]; injection H as <- <-.
  - by steps Hn pid uuid o.
  - steps Hn pid uuid o; [done|]. by steps Hn pid uuid o.
  - done.
  - steps Hn pid uuid o; [done|]. by steps Hn pid uuid o.
Qed.

(** ** Blobs stay *)

(** The directory keeps its keys, its retention states and every file that is
    not a temporary one. *)
Record keeps (d d' : RunDir) : Prop := {
  keeps_keys : rd_keys d' = rd_keys d;
  keeps_retention : rd_retention d' = rd_retention d;
  keeps_blobs : forall name content, str_starts_with ".blob-" name = false ->
    rd_blobs d !! name = Some content -> rd_blobs d' !! name = Some content;
}.

Lemma keeps_refl d : keeps d d.
Proof. by split. Qed.

Lemma keeps_trans d1 d2 d3 : keeps d1 d2 -> keeps d2 d3 -> keeps d1 d3.
Proof.
  intros [A1 A2 A3] [B1 B2 B3]. split; [congruence..|]. eauto.
Qed.

Lemma temporary_name_prefix pid uuid : str_starts_with ".blob-" (temporary_name pid uuid) = true.
Proof.
  unfold str_starts_with, temporary_name. rewrite as_bytes_app. apply starts_with_app.
Qed.

Lemma persist_effect_keeps blobs pid uuid name encoded r blobs' :
  persist_effect blobs (temporary_name pid uuid) name encoded r blobs' ->
  forall k content, str_starts_with ".blob-" k = false ->
    blobs !! k = Some content -> blobs' !! k = Some content.
Proof.
  intros H k content Hk Hl. pose proof (temporary_name_prefix pid uuid) as Ht.
  assert (temporary_name pid uuid <> k) as Hne by congruence.
  destruct r as [[|]|[e [|]]]; cbn in H.
  - destruct H as [Hn ->]. rewrite lookup_insert_ne; congruence.
  - destruct H as [-> | ->]; [done|]. by rewrite lookup_delete_ne.
  - destruct H as [->|(k' & c' & _ & Hn & _ & ->)]; [done|].
    rewrite lookup_insert_ne; congruence.
  - destruct H as [-> | ->]; [done|]. by rewrite lookup_delete_ne.
Qed.

Lemma encrypt_and_persist_keeps p s nonce pid uuid o r blobs' :
  encrypt_and_persist p (rd_blobs (st_dir s)) nonce (temporary_name pid uuid) o = (r, blobs') ->
  keeps (st_dir s) (st_dir (with_blobs s blobs')).
Proof.
  intros H. split; [done..|]. cbn. unfold encrypt_and_persist in H.
  fold (encoding p nonce) in H. destruct (encoding p nonce) as [encoded|]; [|by simplify_eq].
  apply persist_blob_effect in H. by eapply persist_effect_keeps.
Qed.

Lemma stores_step_keeps c x y : stores_step c x y -> keeps (st_dir x.1) (st_dir y.1).
Proof.
  intros [s ts data media_type limit p Hp|s ts1 t ts2 nonce pid uuid o s' next Hn Ht];
    [apply keeps_refl|]. cbn [fst].
  destruct t; cbn [task_step] in Ht.
  4: { destruct (encrypt_and_persist _ _ _ _ _) as [r blobs] eqn:E. injection Ht as <- <-.
       by eapply encrypt_and_persist_keeps. }
  - injection Ht as <- <-. apply keeps_refl.
  - destruct (reserve_blob_file s) as [s1|] eqn:E; injection Ht as <- <-; [|apply keeps_refl].
    apply bind_ok in E as (n & _ & [= <-]). apply keeps_refl.
  - destruct (reserve_blob_storage c s (pr_expected p)) as [s1|] eqn:E; injection Ht as <- <-;
      [|apply keeps_refl].
    apply bind_ok in E as (n & _ & E). case_match; [done|]. injection E as <-. apply keeps_refl.
  - injection Ht as <- <-. apply keeps_refl.
  - injection Ht as <- <-. apply keeps_refl.
  - injection Ht as <- <-. apply keeps_refl.
  - injection Ht as <- <-. apply keeps_refl.
Qed.

Lemma stores_keep c x y : rtc (stores_step c) x y -> keeps (st_dir x.1) (st_dir y.1).
Proof.
  induction 1 as [x|x y z H _ IH]; [apply keeps_refl|].
  eapply keeps_trans; [|done]. by eapply stores_step_keeps.
Qed.

(** ** Reading back *)

(** The handle's keys are those of the run directory. *)
Definition consistent (c : StoreConfig) (d : RunDir) : Prop :=
  match sc_encryption c, sc_blob_keys c with
  | Some key, Some keys => has_keyring d = true /\
      forall class, load_class_key d key class = Ok (Some (keyring_key keys class))
  | _, Some _ => False
  | _, None => has_keyring d = false
  end.

Lemma load_keyring_ok d key keys : load_keyring d key = Ok keys ->
  forall class, load_class_key d key class = Ok (Some (keyring_key keys class)).
Proof.
  unfold load_keyring. intros H.
  apply bind_ok in H as (b & H1 & H). apply bind_ok in H as (p & H2 & H).
  apply bind_ok in H as (t & H3 & [= <-]).
  apply bind_ok in H1 as (kb & H1 & H4). apply ok_or_ok in H4 as ->.
  apply bind_ok in H2 as (kp & H2 & H4). apply ok_or_ok in H4 as ->.
  apply bind_ok in H3 as (kt & H3 & H4). apply ok_or_ok in H4 as ->.
  by intros [].
Qed.

Lemma open_blobs_consistent d policy enc has_events draws c s :
  (enc = None -> has_keyring d = false) ->
  open_blobs d policy enc has_events draws = Ok (c, s) -> consistent c (st_dir s).
Proof.
  unfold open_blobs. intros He H. apply bind_ok in H as ([files storage] & _ & H).
  case_match; [done|]. apply bind_ok in H as ([keys d'] & H1 & H). injection H as <- <-.
  apply map_err_ok in H1. unfold consistent, prepare_for_writer in *. cbn.
  destruct enc as [k|]; [|injection H1 as <- <-; by apply He].
  destruct (has_keyring d) eqn:Hk.
  { apply bind_ok in H1 as (keys' & H1 & [= <- <-]). split; [done|]. by apply load_keyring_ok. }
  destruct (_ || _); [by injection H1 as <- <-|].
  apply bind_ok in H1 as (d1 & H2 & H1). apply bind_ok in H1 as (keys' & H3 & [= <- <-]).
  split; [|by apply load_keyring_ok]. unfold initialize_keyring in H2.
  apply bind_ok in H2 as (? & _ & H2). destruct (rd_keys d); [done|]. by injection H2 as <-.
Qed.

Lemma keeps_load_class_key d d' key class : keeps d d' ->
  load_class_key d' key class = load_class_key d key class.
Proof.
  intros [H1 H2 _]. unfold load_class_key, read_erasure_state. by rewrite H1, H2.
Qed.

Lemma keeps_consistent c d d' : keeps d d' -> consistent c d -> consistent c d'.
Proof.
  intros Hk. pose proof (keeps_load_class_key d d') as Hl. destruct (Hk) as [H1 _ _].
  unfold consistent, has_keyring in *. rewrite H1.
  destruct (sc_encryption c), (sc_blob_keys c); try done.
  intros [H2 H3]. split; [done|]. intros class. by rewrite Hl.
Qed.

Lemma blob_file_name_ok hash class name : blob_file_name hash class = Ok name ->
  validate_blob_hash hash = Ok tt /\ str_starts_with ".blob-" name = false.
Proof.
  unfold blob_file_name. intros H. apply bind_ok in H as ([] & H1 & [= <-]).
  split; [done|]. by destruct class as [[]|].
Qed.

(** The content of a blob file that stands for a payload. *)
Definition stored_as (p : Prepared) (encoded : bytes) : Prop :=
  nlen encoded = pr_expected p /\
  match pr_encryption p with
  | Some key => decrypt_blob key encoded (pr_hash p) = Ok (pr_captured p)
  | None => encoded = pr_captured p
  end.

Lemma matches_existing_ok p encoded :
  matches_existing encoded (pr_captured p) (pr_encryption p) (pr_hash p) (pr_expected p) = Ok tt ->
  stored_as p encoded.
Proof.
  unfold matches_existing, stored_as.
  destruct (N.eqb_spec (nlen encoded) (pr_expected p)) as [H1|]; cbn [negb]; [|done].
  intros H. apply bind_ok in H as (existing & H2 & H). case_bool_decide as H3; [|done]. subst.
  split; [done|]. destruct (pr_encryption p); [done|]. by injection H2.
Qed.

Lemma encoding_stored_as p nonce encoded : well_prepared p -> nlen nonce = 24 ->
  encoding p nonce = Ok encoded -> stored_as p encoded.
Proof.
  intros Hp Hn H. split; [by eapply encoding_length|]. unfold encoding in H.
  destruct (pr_encryption p); [|by injection H as <-].
  by eapply decrypt_framed_encrypt.
Qed.

Lemma read_regular_ok files name limit content :
  read_regular_limited files name limit = Ok content <->
  files !! name = Some content /\ nlen content <= limit.
Proof.
  unfold read_regular_limited. destruct (files !! name) as [x|]; cbn; [|naive_solver].
  destruct (N.ltb_spec limit (nlen x)); naive_solver lia.
Qed.

Lemma check_existing_ok p s : check_existing p s = Ok true ->
  exists encoded, rd_blobs (st_dir s) !! pr_name p = Some encoded /\ stored_as p encoded.
Proof.
  unfold check_existing, existing_blob_matches. intros H. apply map_err_ok in H.
  destruct (read_regular_limited _ _ _) as [encoded|e] eqn:E; [|by case_match].
  apply read_regular_ok in E as [E _]. apply bind_ok in H as ([] & H & _).
  exists encoded. split; [done|]. by apply matches_existing_ok.
Qed.

Lemma persist_blob_stored p blobs pid uuid nonce encoded o created blobs' :
  well_prepared p -> nlen nonce = 24 -> encoding p nonce = Ok encoded ->
  str_starts_with ".blob-" (pr_name p) = false ->
  persist_blob blobs (temporary_name pid uuid) (pr_name p) encoded (pr_captured p)
    (pr_encryption p) (pr_hash p) o = (Ok created, blobs') ->
  exists content, blobs' !! pr_name p = Some content /\ stored_as p content.
Proof.
  intros Hp Hn He Hname H. pose proof (temporary_name_prefix pid uuid) as Ht.
  assert (temporary_name pid uuid <> pr_name p) as Hne by congruence.
  destruct created.
  { apply persist_blob_effect in H as [_ ->]. exists encoded.
    split; [apply lookup_insert_eq|by eapply encoding_stored_as]. }
  unfold persist_blob, write_and_rename in H. destruct (pf_create_fails o); [by repeat case_match|].
  destruct (blobs !! temporary_name pid uuid); [by repeat case_match|].
  destruct (pf_write o); [by repeat case_match|]. cbn zeta in H.
  destruct (pf_rename_fails o); [by repeat case_match|].
  rewrite lookup_insert_ne in H by done. destruct (blobs !! pr_name p) as [x|] eqn:Hx;
    [|by repeat case_match].
  rewrite lookup_insert_eq in H. destruct (pf_remove_fails o); [done|].
  destruct (read_regular_limited _ _ _ ≫= _) as [[|]|] eqn:E;
    [by destruct (pf_sync_fails o)| |done].
  destruct (pf_sync_fails o); [done|]. injection H as <-.
  apply bind_ok in E as (y & E1 & E2). apply read_regular_ok in E1 as [E1 _].
  rewrite lookup_insert_ne in E1 by done.
  apply bind_ok in E2 as ([] & E2 & _). exists y.
  rewrite lookup_delete_ne by done. rewrite lookup_insert_ne by done. split; [done|].
  apply matches_existing_ok. by rewrite <-(encoding_length p nonce encoded).
Qed.

(** What is kept of a payload under a size limit. *)
Definition captured_part (limit : N) (data : bytes) : bytes :=
  ntake (N.min limit MAX_SINGLE_BLOB_BYTES) data.

Lemma captured_part_eq limit data :
  (if N.min limit MAX_SINGLE_BLOB_BYTES <? nlen data
   then ntake (N.min limit MAX_SINGLE_BLOB_BYTES) data else data) = captured_part limit data.
Proof. unfold captured_part. case_match eqn:E; [done|]. reflect_N. by rewrite ntake_all. Qed.

Lemma captured_part_length limit data : nlen (captured_part limit data) <= MAX_SINGLE_BLOB_BYTES.
Proof. unfold captured_part. rewrite nlen_ntake. lia. Qed.

Lemma decrypt_blob_encrypted key encoded hash b :
  decrypt_blob key encoded hash = Ok b -> is_encrypted_blob encoded = true.
Proof.
  unfold decrypt_blob, decrypt_framed_with, is_encrypted_blob. intros H.
  by destruct (starts_with BLOB_MAGIC encoded).
Qed.

Lemma strip_sha256 hash : str_strip_prefix "sha256:" ("sha256:" +:+ hash) = Some hash.
Proof. by apply str_strip_prefix_spec. Qed.

Lemma consistent_class c d (class : BlobClass) : consistent c d ->
  (if has_keyring d then Some class else None) =
  match sc_blob_keys c with Some _ => Some class | None => None end.
Proof.
  unfold consistent. destruct (sc_encryption c), (sc_blob_keys c); try done;
    [intros [-> _]|intros ->..]; done.
Qed.

Lemma final_check k hash : hash = hex_encode (sha256 k) ->
  (if negb (nlen k =? nlen k) || negb (str_eqb (hex_encode (sha256 k)) hash)
   then Err (io_error InvalidData "blob content does not match its reference") else Ok k) = Ok k.
Proof. intros ->. rewrite N.eqb_refl. unfold str_eqb. by rewrite bool_decide_eq_true_2. Qed.

(** What is read from a reference has its size and its digest. *)
Lemma read_blob_checked d r key max content : read_blob_reference d r key max = Ok content ->
  nlen content = ref_size r /\ str_strip_prefix "sha256:" (ref_sha256 r) = Some (hex_encode (sha256 content)).
Proof.
  intros H. unfold read_blob_reference in H. apply bind_ok in H as (hash & Hh%ok_or_ok & H).
  apply bind_ok in H as ([] & _ & H). case_match; [done|]. cbn zeta in H.
  apply bind_ok in H as (name & _ & H). apply bind_ok in H as (limit & _ & H).
  apply bind_ok in H as (encoded & _ & H). apply bind_ok in H as (plaintext & _ & H).
  case_match eqn:E; [done|]. injection H as <-. reflect_N. split; [done|]. rewrite Hh. f_equal. symmetry. by apply str_eqb_true.
Qed.

(** Every check of [read_blob_reference] before the content is decoded. *)
Lemma read_blob_reference_stored c d data media_type limit p content max :
  prepare_blob c data media_type limit = Ok p -> consistent c d ->
  rd_blobs d !! pr_name p = Some content -> stored_as p content ->
  nlen (pr_captured p) <= max ->
  read_blob_reference d (pr_reference p) (sc_encryption c) max =
    match pr_encryption p with
    | Some _ => Ok (pr_captured p)
    | None => if is_encrypted_blob content
              then Err (io_error PermissionDenied "encrypted blob requires the matching effective run key")
              else Ok (pr_captured p)
    end.
Proof.
  intros Hp Hc Hl [Hlen Hs] Hmax.
  apply prepare_blob_ok in Hp as (Hcap & Hh & Hname & Henc & Hexp & ->).
  rewrite captured_part_eq in *. rewrite <-Hcap in *.
  assert (nlen (pr_captured p) <= MAX_SINGLE_BLOB_BYTES) as Hsmall
    by (rewrite Hcap; apply captured_part_length).
  unfold read_blob_reference. cbn [ref_sha256 ref_size ref_media_type].
  rewrite strip_sha256. cbn [ok_or mbind result_bind].
  destruct (blob_file_name_ok _ _ _ Hname) as [Hv _]. rewrite Hv. cbn [mbind result_bind].
  destruct (N.ltb_spec max (nlen (pr_captured p))); [lia|].
  rewrite (consistent_class _ _ (from_media_type media_type) Hc).
  rewrite Hname. cbn [mbind result_bind].
  unfold checked_add. rewrite (proj2 (N.leb_le _ _))
    by (etrans; [apply N.add_le_mono_r, Hsmall|done]).
  cbn [ok_or mbind result_bind].
  rewrite (proj2 (read_regular_ok _ _ _ content)); [|split; [done|rewrite Hlen, Hexp; by case_match; lia]].
  cbn [mbind result_bind].
  unfold consistent in Hc. destruct (pr_encryption p) as [key|].
  - rewrite (decrypt_blob_encrypted _ _ _ _ Hs).
    destruct (sc_encryption c) as [run_key|], (sc_blob_keys c) as [keys|]; try done.
    + destruct Hc as [-> Hc]. cbn [ok_or mbind result_bind]. rewrite Hc. injection Henc as ->.
      cbn [ok_or mbind result_bind]. rewrite Hs. by apply final_check.
    + rewrite Hc. injection Henc as ->. cbn [ok_or mbind result_bind]. rewrite Hs. by apply final_check.
  - destruct (sc_encryption c) as [run_key|], (sc_blob_keys c) as [keys|]; try done.
    rewrite Hc. destruct (is_encrypted_blob content); [done|]. cbn. subst content. by apply final_check.
Qed.

Lemma store_ok c s data media_type limit nonce pid uuid o r s' : nlen nonce = 24 ->
  store_blob_with_limit c s data media_type limit nonce (temporary_name pid uuid) o = (Ok r, s') ->
  exists p content, prepare_blob c data media_type limit = Ok p /\ r = pr_reference p /\
    rd_blobs (st_dir s') !! pr_name p = Some content /\ stored_as p content.
Proof.
  intros Hn H. unfold store_blob_with_limit in H.
  destruct (prepare_blob c data media_type limit) as [p|] eqn:Hp; [|done]. exists p.
  destruct (prepare_blob_ok _ _ _ _ _ Hp) as (Hcap & _ & Hname & _ & Hexp & _).
  apply blob_file_name_ok in Hname as [_ Hname].
  assert (well_prepared p) as Hw by (unfold well_prepared; by rewrite Hcap).
  destruct (check_existing p s) as [[|]|] eqn:Hc; [|clear Hc|done].
  { injection H as <- <-. apply check_existing_ok in Hc as (content & ? & ?). by exists content. }
  destruct (reserve_blob_file s) as [s1|]; [|done].
  destruct (reserve_blob_storage c s1 (pr_expected p)) as [s2|]; [|done].
  unfold encrypt_and_persist in H. fold (encoding p nonce) in H.
  destruct (encoding p nonce) as [encoded|] eqn:He; [|done].
  destruct (persist_blob _ _ _ _ _ _ _ _) as [q blobs] eqn:Hb.
  destruct q as [created|[e b]]; [|done].
  apply (persist_blob_stored p _ _ _ nonce) in Hb as (content & Hl & Hs); [|done..].
  exists content. destruct created; injection H as <- <-; done.
Qed.

(** What a call returned can be read from every later directory. *)
Lemma stored_reads c s data media_type limit nonce pid uuid o r s' d max : nlen nonce = 24 ->
  consistent c (st_dir s) ->
  store_blob_with_limit c s data media_type limit nonce (temporary_name pid uuid) o = (Ok r, s') ->
  keeps (st_dir s') d -> (sc_encryption c = None -> is_encrypted_blob (captured_part limit data) = false) ->
  nlen (captured_part limit data) <= max ->
  read_blob_reference d r (sc_encryption c) max = Ok (captured_part limit data) /\
  ref_truncated r = negb (nlen (captured_part limit data) =? nlen data).
Proof.
  intros Hnonce Hc Hstore K2 Hplain Hmax.
  pose proof (stores_keep _ _ _ (store_runs _ _ _ _ _ _ _ _ _ _ _ [] Hnonce Hstore)) as K1. cbn [fst] in K1.
  apply store_ok in Hstore as (p & content & Hp & -> & Hl & Hs); [|done].
  destruct (prepare_blob_ok _ _ _ _ _ Hp) as (Hcap & _ & Hname & Henc & _ & Href).
  rewrite captured_part_eq in *. apply blob_file_name_ok in Hname as [_ Hname].
  split; [|by rewrite Href].
  rewrite (read_blob_reference_stored c d data media_type limit p content max); try done.
  - rewrite Hcap. destruct (pr_encryption p) eqn:Ep; [done|].
    destruct Hs as [_ Hs]. rewrite Ep in Hs. rewrite Hs, Hcap, Hplain; [done|].
    by destruct (sc_blob_keys c); congruence.
  - eapply keeps_consistent, keeps_consistent; done.
  - by apply (keeps_blobs _ _ K2).
  - by rewrite Hcap.
Qed.

(** C6: A payload whose store was acknowledged can be read back: opened on any
    run directory, after any interleaving of stores, a call that returns a
    reference, whatever the faults it met, leaves a blob that
    [read_blob_reference] resolves to exactly the captured prefix of the
    payload, and every later interleaving of stores keeps it so.  The run is
    encrypted, or the payload does not begin with the marker of an encrypted
    blob. *)
Theorem stored_payload_readable d policy enc has_events draws c s s1 ts data media_type limit
    nonce pid uuid o r s2 s3 ts3 max
    (Hkeys : enc = None -> has_keyring d = false)
    (Hopen : open_blobs d policy enc has_events draws = Ok (c, s))
    (Hbefore : rtc (stores_step c) (s, []) (s1, ts))
    (Hnonce : nlen nonce = 24)
    (Hstore : store_blob_with_limit c s1 data media_type limit nonce (temporary_name pid uuid) o
              = (Ok r, s2))
    (Hafter : rtc (stores_step c) (s2, ts) (s3, ts3))
    (Hplain : enc = None -> is_encrypted_blob (captured_part limit data) = false)
    (Hmax : nlen (captured_part limit data) <= max) :
  read_blob_reference (st_dir s3) r enc max = Ok (captured_part limit data) /\
  ref_truncated r = negb (nlen (captured_part limit data) =? nlen data).
Proof.
  pose proof (open_blobs_consistent _ _ _ _ _ _ _ Hkeys Hopen) as Hc.
  assert (sc_encryption c = enc) as He.
  { unfold open_blobs in Hopen. apply bind_ok in Hopen as ([] & _ & H). case_match; [done|].
    apply bind_ok in H as ([] & _ & H). by injection H as <- <-. }
  rewrite <-He in *. eapply stored_reads; [done| |done|by apply (stores_keep _ _ _ Hafter)|done|done].
  eapply keeps_consistent, Hc. by apply (stores_keep _ _ _ Hbefore).
Qed.

(** In an unencrypted run a payload that begins with the eight bytes of the
    encrypted-blob marker is accepted, and its reference can never be read:
    every read is refused for want of a key. *)
Theorem marker_payload_unreadable c s data media_type limit nonce pid uuid o r s' max
    (Hplain : sc_encryption c = None)
    (Hkeys : consistent c (st_dir s))
    (Hnonce : nlen nonce = 24)
    (Hmarker : is_encrypted_blob (captured_part limit data) = true)
    (Hstore : store_blob_with_limit c s data media_type limit nonce (temporary_name pid uuid) o
              = (Ok r, s'))
    (Hmax : nlen (captured_part limit data) <= max) :
  read_blob_reference (st_dir s') r None max
  = Err (io_error PermissionDenied "encrypted blob requires the matching effective run key").
Proof.
  pose proof (stores_keep _ _ _ (store_runs _ _ _ _ _ _ _ _ _ _ _ [] Hnonce Hstore)) as K.
  apply store_ok in Hstore as (p & content & Hp & -> & Hl & Hs); [|done].
  destruct (prepare_blob_ok _ _ _ _ _ Hp) as (Hcap & _ & Hname & Henc & _ & Href).
  rewrite captured_part_eq in *.
  rewrite <-Hplain, (read_blob_reference_stored c (st_dir s') data media_type limit p content max);
    try done.
  - assert (pr_encryption p = None) as Hn.
    { rewrite Henc. unfold consistent in Hkeys. rewrite Hplain in *. by destruct (sc_blob_keys c). }
    destruct Hs as [_ Hs]. rewrite Hn in *. by rewrite Hs, Hcap, Hmarker.
  - by eapply keeps_consistent.
  - by rewrite Hcap.
Qed.

(** A store whose temporary file cannot be created leaves the directory as
    it was and keeps its reservation for good: the file count and the bytes
    stay charged although nothing was written, because removing the file that
    was never created fails and is taken for storage left behind. *)
Theorem failed_create_stays_charged c s data media_type limit nonce temporary o p encoded
    (Hp : prepare_blob c data media_type limit = Ok p)
    (Hnew : check_existing p s = Ok false)
    (Hencoded : encoding p nonce = Ok encoded)
    (Htemp : rd_blobs (st_dir s) !! temporary = None)
    (Hfiles : st_files s < MAX_BLOB_DIRECTORY_ENTRIES)
    (Hbytes : st_storage s + pr_expected p <= N.min u64_max (max_run_blob_storage_bytes (sc_policy c)))
    (Hcreate : pf_create_fails o = true) :
  exists e, store_blob_with_limit c s data media_type limit nonce temporary o =
    (Err (Io e), mkStore (st_dir s) (st_files s + 1) (st_storage s + pr_expected p)
                   (st_blobs s) (st_blob_bytes s)).
Proof.
  unfold store_blob_with_limit. rewrite Hp, Hnew.
  unfold reserve_blob_file, reserve_blob_file_count.
  rewrite (proj2 (N.leb_gt _ _)) by done. cbn [mbind result_bind].
  unfold reserve_blob_storage. cbn [st_storage st_dir st_files st_blobs st_blob_bytes].
  unfold checked_add. rewrite (proj2 (N.leb_le _ _)) by lia. cbn [ok_or mbind result_bind].
  rewrite (proj2 (N.ltb_ge _ _)) by lia. cbn [st_dir].
  unfold encrypt_and_persist. fold (encoding p nonce). rewrite Hencoded.
  unfold persist_blob, write_and_rename. rewrite Hcreate. cbn zeta. rewrite Htemp.
  eexists. unfold with_blobs. by destruct s as [[] ? ? ? ?].
Qed.

(** ** Class keys *)

Definition drawn_key (draws : KeyDraws) (class : BlobClass) : EncryptionKey :=
  new_key (fst (draws class)).

Definition proper_draws (draws : KeyDraws) : Prop :=
  forall class, nlen (fst (draws class)) = 32 /\ nlen (snd (draws class)) = 24.

Lemma unwrap_generated key draws class k wrapped : proper_draws draws ->
  generate_wrapped_data_key key (fst (draws class)) (snd (draws class)) (class_str class)
    = Ok (k, wrapped) ->
  unwrap_data_key key wrapped (class_str class) = Ok (drawn_key draws class) /\
  nlen wrapped <= MAX_WRAPPED_KEY_BYTES.
Proof.
  intros Hd H. destruct (Hd class) as [H1 H2]. unfold generate_wrapped_data_key in H.
  apply bind_ok in H as ([] & Hv & H). apply bind_ok in H as (w & H & [= <- <-]).
  unfold unwrap_data_key. rewrite Hv. cbn [mbind result_bind]. split.
  - unfold decrypt_framed. erewrite decrypt_framed_encrypt by done. cbn [mbind result_bind].
    rewrite H1. done.
  - erewrite encrypt_framed_length by done. rewrite H1. by vm_compute.
Qed.

Lemma initialized_class_keys d key draws d' class : proper_draws draws ->
  initialize_keyring d key draws = Ok d' ->
  load_class_key d' key class = Ok (Some (drawn_key draws class)).
Proof.
  intros Hd H. unfold initialize_keyring in H. apply bind_ok in H as (envelopes & H & H').
  destruct (rd_keys d) as [?|]; [done|]. injection H' as <-.
  cbn [try_map all_classes] in H.
  apply bind_ok in H as (x1 & H1 & H). apply bind_ok in H as (l1 & H & [= <-]).
  apply bind_ok in H as (x2 & H2 & H). apply bind_ok in H as (l2 & H & [= <-]).
  apply bind_ok in H as (x3 & H3 & H). apply bind_ok in H as (l3 & [= <-] & [= <-]).
  apply bind_ok in H1 as ([k1 w1] & H1 & [= <-]). apply bind_ok in H2 as ([k2 w2] & H2 & [= <-]).
  apply bind_ok in H3 as ([k3 w3] & H3 & [= <-]).
  assert (exists w k, (list_to_map [(envelope_file_name Body, w1); (envelope_file_name Pcap, w2);
      (envelope_file_name TlsSecrets, w3)] : gmap string bytes) !! envelope_file_name class = Some w /\
      generate_wrapped_data_key key (fst (draws class)) (snd (draws class)) (class_str class)
        = Ok (k, w)) as (w & k & Hl & Hg).
  { destruct class; [exists w1, k1|exists w2, k2|exists w3, k3]; split; done. }
  destruct (unwrap_generated _ _ _ _ _ Hd Hg) as [Hu Hn].
  unfold load_class_key. cbn [rd_keys]. rewrite (proj2 (read_regular_ok _ _ _ w)) by done.
  by rewrite Hu.
Qed.

(** A fresh encrypted run gets the keys that were drawn, and every later
    opening of the run unwraps the same ones. *)
Theorem keyring_roundtrip d key draws has_legacy_data keys d'
    (Hfresh : rd_keys d = None)
    (Hdraws : proper_draws draws)
    (Hprepare : prepare_for_writer d (Some key) false draws = Ok (keys, d')) :
  keys = Some (mkKeyring (drawn_key draws Body) (drawn_key draws Pcap) (drawn_key draws TlsSecrets)) /\
  forall later, prepare_for_writer d' (Some key) has_legacy_data later = Ok (keys, d').
Proof.
  unfold prepare_for_writer in *. unfold has_keyring in Hprepare. rewrite Hfresh in Hprepare.
  apply bind_ok in Hprepare as (d1 & H1 & H). apply bind_ok in H as (ks & H2 & [= <- <-]).
  assert (ks = mkKeyring (drawn_key draws Body) (drawn_key draws Pcap) (drawn_key draws TlsSecrets))
    as ->.
  { pose proof (load_keyring_ok _ _ _ H2) as Hl.
    assert (forall class, keyring_key ks class = drawn_key draws class) as Hk.
    { intros class. specialize (Hl class).
      rewrite (initialized_class_keys _ _ _ _ _ Hdraws H1) in Hl. congruence. }
    destruct ks as [a b t]. pose proof (Hk Body) as <-. pose proof (Hk Pcap) as <-.
    by pose proof (Hk TlsSecrets) as <-. }
  split; [done|]. intros later. rewrite H2.
  assert (has_keyring d1 = true) as ->; [|done].
  unfold initialize_keyring in H1. apply bind_ok in H1 as (? & _ & H1). rewrite Hfresh in H1.
  by injection H1 as <-.
Qed.
End Spec.

(** ** Names *)

Lemma parse_blob_file_name_ok hash class name :
  blob_file_name hash class = Ok name -> parse_blob_file_name name = Ok (class, hash).
Proof.
  intros H. unfold blob_file_name in H. apply bind_ok in H as ([] & Hv & [= <-]).
  unfold parse_blob_file_name. destruct class as [[]|].
  - cbn [class_str].
    change (str_strip_prefix "sha256-" ("body" +:+ "-sha256-" +:+ hash)) with (@None string).
    cbn [all_classes parse_class_name].
    rewrite (proj2 (str_strip_prefix_spec _ _ hash)) by done. by rewrite Hv.
  - cbn [class_str].
    change (str_strip_prefix "sha256-" ("pcap" +:+ "-sha256-" +:+ hash)) with (@None string).
    cbn [all_classes parse_class_name].
    change (str_strip_prefix (class_str Body +:+ "-sha256-") ("pcap" +:+ "-sha256-" +:+ hash))
      with (@None string). cbn match.
    rewrite (proj2 (str_strip_prefix_spec _ _ hash)) by done. by rewrite Hv.
  - cbn [class_str].
    change (str_strip_prefix "sha256-" ("tls_secrets" +:+ "-sha256-" +:+ hash)) with (@None string).
    cbn [all_classes parse_class_name].
    change (str_strip_prefix (class_str Body +:+ "-sha256-") ("tls_secrets" +:+ "-sha256-" +:+ hash))
      with (@None string).
    change (str_strip_prefix (class_str Pcap +:+ "-sha256-") ("tls_secrets" +:+ "-sha256-" +:+ hash))
      with (@None string). cbn match.
    rewrite (proj2 (str_strip_prefix_spec _ _ hash)) by done. by rewrite Hv.
  - rewrite (proj2 (str_strip_prefix_spec _ _ hash)) by done. by rewrite Hv.
Qed.

(** The name of a blob file determines the class and the digest it was
    made from, as does the identity used for locking and retention. *)
Theorem blob_name_roundtrip hash class name (H : blob_file_name hash class = Ok name) :
  parse_blob_file_name name = Ok (class, hash) /\
  identity_class (file_identity class hash) = class.
Proof. split; [by apply parse_blob_file_name_ok|]. by destruct class as [[]|]. Qed.

(** ** Witnesses *)

Module BlobExamples.
Import Concrete ConcreteSerde CryptoExamples.

#[local] Instance no_erasure : SerdeErasure := {|
  erasure_to_vec _ := None; erasure_from_slice _ := None;
|}.

Definition dir0 : RunDir := mkRunDir ∅ None ∅.
Definition key_draws : KeyDraws := fun class => (raw_key, nonce).
Definition data : bytes := as_bytes "request body".
Definition marked : bytes := as_bytes "IORECBL1 payload".

(** The handle on a new run directory, with and without a key. *)
Definition opened (enc : option EncryptionKey) : StoreConfig * Store :=
  default (mkStoreConfig default_policy None None, mkStore dir0 0 0 0 0)
    (ok (open_blobs dir0 default_policy enc false key_draws)).

Lemma opened_ok enc : enc = None \/ enc = Some key ->
  open_blobs dir0 default_policy enc false key_draws = Ok ((opened enc).1, (opened enc).2).
Proof. intros [-> | ->]; vm_compute; reflexivity. Qed.

(** One call, whose final directory sync fails or not. *)
Definition temp : string := temporary_name "1" "u".
Definition call (enc : option EncryptionKey) (d : bytes) (o : PersistFaults) :=
  store_blob_with_limit (opened enc).1 (opened enc).2 d None 1000 nonce temp o.
Definition sync_fault : PersistFaults := mkFaults false None false false true.

Lemma blob_budget_holds_witness :
  let x := ((call (Some key) data sync_fault).2, @nil Task) in
  dir_files (rd_blobs (st_dir x.1)) <= st_files x.1 <= MAX_BLOB_DIRECTORY_ENTRIES /\
  dir_bytes (rd_blobs (st_dir x.1)) <= st_storage x.1
    <= max_run_blob_storage_bytes (sc_policy (opened (Some key)).1).
Proof.
  cbn zeta.
  apply (blob_budget_holds dir0 default_policy (Some key) false key_draws (opened (Some key)).1
           (opened (Some key)).2).
  - vm_compute. discriminate.
  - apply opened_ok. by right.
  - eapply (store_runs _ _ _ _ _ nonce "1" "u" sync_fault (call (Some key) data sync_fault).1);
      [done|]. apply surjective_pairing.
Defined.

Definition reference (enc : option EncryptionKey) (d : bytes) : PayloadRef :=
  default (mkPayloadRef "" 0 None false) (ok (call enc d no_faults).1).

Definition after (enc : option EncryptionKey) (d : bytes) : Store := (call enc d no_faults).2.

Lemma call_ok enc d : (enc = None /\ d = marked) \/ (enc = Some key /\ d = data) ->
  store_blob_with_limit (opened enc).1 (opened enc).2 d None 1000 nonce (temporary_name "1" "u")
    no_faults = (Ok (reference enc d), after enc d).
Proof.
  intros H. change (call enc d no_faults = (Ok (reference enc d), after enc d)).
  rewrite (surjective_pairing (call enc d no_faults)). f_equal.
  destruct H as [[-> ->]|[-> ->]]; vm_compute; reflexivity.
Qed.

Lemma stored_payload_readable_witness :
  read_blob_reference (st_dir (after (Some key) data)) (reference (Some key) data)
    (Some key) 1000 = Ok (captured_part 1000 data) /\
  ref_truncated (reference (Some key) data) = negb (nlen (captured_part 1000 data) =? nlen data).
Proof.
  exact (stored_payload_readable dir0 default_policy (Some key) false key_draws
    (opened (Some key)).1 (opened (Some key)).2 (opened (Some key)).2 [] data None 1000 nonce "1" "u"
    no_faults (reference (Some key) data) (after (Some key) data) (after (Some key) data) [] 1000
    ltac:(discriminate) (opened_ok (Some key) (or_intror eq_refl)) (rtc_refl _ _) eq_refl
    (call_ok (Some key) data (or_intror (conj eq_refl eq_refl))) (rtc_refl _ _)
    ltac:(discriminate) ltac:(vm_compute; discriminate)).
Defined.

Lemma marker_payload_unreadable_witness :
  read_blob_reference (st_dir (after None marked)) (reference None marked) None 1000
  = Err (io_error PermissionDenied "encrypted blob requires the matching effective run key").
Proof.
  exact (marker_payload_unreadable (opened None).1 (opened None).2 marked None 1000 nonce "1" "u"
    no_faults (reference None marked) (after None marked) 1000
    ltac:(vm_compute; reflexivity) ltac:(vm_compute; reflexivity) eq_refl
    ltac:(vm_compute; reflexivity)
    (call_ok None marked (or_introl (conj eq_refl eq_refl))) ltac:(vm_compute; discriminate)).
Defined.

Definition prepared : Prepared :=
  default (mkPrepared (mkPayloadRef "" 0 None false) [] "" "" None 0)
    (ok (prepare_blob (opened None).1 data None 1000)).

Lemma failed_create_stays_charged_witness :
  exists e, store_blob_with_limit (opened None).1 (opened None).2 data None 1000 nonce temp
      (mkFaults true None false false false) =
    (Err (Io e), mkStore (st_dir (opened None).2) (st_files (opened None).2 + 1)
                   (st_storage (opened None).2 + pr_expected prepared)
                   (st_blobs (opened None).2) (st_blob_bytes (opened None).2)).
Proof.
  apply (failed_create_stays_charged (opened None).1 (opened None).2 data None 1000 nonce temp
    (mkFaults true None false false false) prepared (pr_captured prepared)).
  1-4: vm_compute; reflexivity.
  - vm_compute. reflexivity.
  - vm_compute. discriminate.
  - reflexivity.
Defined.

Definition keyed : option BlobKeyring * RunDir :=
  default (None, dir0) (ok (prepare_for_writer dir0 (Some key) false key_draws)).

Lemma keyring_roundtrip_witness :
  keyed.1 = Some (mkKeyring (drawn_key key_draws Body) (drawn_key key_draws Pcap)
                    (drawn_key key_draws TlsSecrets)) /\
  forall later, prepare_for_writer keyed.2 (Some key) true later = Ok (keyed.1, keyed.2).
Proof.
  apply (keyring_roundtrip dir0 key key_draws true).
  - reflexivity.
  - intros class. split; reflexivity.
  - vm_compute. reflexivity.
Defined.

Lemma blob_name_roundtrip_witness :
  parse_blob_file_name ("pcap-sha256-" +:+ hex_encode (sha256 data))
    = Ok (Some Pcap, hex_encode (sha256 data)) /\
  identity_class (file_identity (Some Pcap) (hex_encode (sha256 data))) = Some Pcap.
Proof. apply blob_name_roundtrip. vm_compute. reflexivity. Defined.
End BlobExamples.
