(* ===== verification/RunStore.v ===== *)
(** * src/storage.rs: the handle of a run

    [RunStore], as the collectors of a run hold it: events are handed to the
    writer task and acknowledged, payloads go to the blob store, and whatever
    could not be represented is counted.  What the handle cannot decide itself,
    the clocks, the answers of the writer, the nonces and the faults of the file
    system, is an oracle that is asked once per step. *)

From Stdlib Require Import Strings.Byte.
From S2P Require Import Prelude RustStd External Json Input Model Policy Crypto EventLog BlobStore.
From stdpp Require Import options.
Local Open Scope N_scope.
#[local] Unset Default Proof Using.

(** What becomes of a command on the channel of the writer. *)
Inductive WriterAnswer :=
  | Sequenced (sequence : N)
  | Refused (reason : string)
  | ChannelClosed
  | ReplyDropped.

(** A run: what its handle is opened with, and the oracle. *)
Record Run := mkRun {
  rn_config : StoreConfig;
  rn_run_id : string;
  rn_now : nat -> DateTime;
  rn_elapsed_ns : nat -> N;
  rn_closed : nat -> bool;
  rn_answer : nat -> PendingEvent -> WriterAnswer;
  rn_draw : nat -> bytes * string * PersistFaults;
}.

(** What a run has stored, the drops it has noted, and the steps of the oracle. *)
Record RunState := mkRunState {
  rs_blobs : Store;
  rs_events : list PendingEvent;
  rs_drops : N;
  rs_steps : nat;
}.
#[export] Instance RunState_settable : Settable RunState := fun s =>
  mkRunState (rs_blobs s) (rs_events s) (rs_drops s) (rs_steps s).

(** ** Drops *)

Definition note_capture_drops (count : N) (s : RunState) : RunState :=
  s <| rs_drops ::= fun n => u64_add n count |>.
Definition note_capture_drop (s : RunState) : RunState := note_capture_drops 1 s.

(** ** Events *)

Section Handle.
Context (run : Run).

(** [RunStore::event] *)
Definition store_event (s : RunState) (source kind : string) : PendingEvent :=
  new_pending (rn_run_id run) source kind (rn_now run (rs_steps s))
    <| pe_monotonic_ns := rn_elapsed_ns run (rs_steps s) |>.

(** [RunStore::append] *)
Definition append (s : RunState) (e : PendingEvent) : storage_result N * RunState :=
  let n := rs_steps s in
  let s := s <| rs_steps ::= S |> in
  if rn_closed run n then (Err (Writer "writer has been shut down"), s)
  else if negb (str_eqb (pe_run_id e) (rn_run_id run)) then (Err (Writer "event run_id does not match store"), s)
  else
    let e := if pe_monotonic_ns e =? 0 then e <| pe_monotonic_ns := rn_elapsed_ns run n |> else e in
    match rn_answer run n e with
    | ChannelClosed => (Err (Writer "writer command channel closed"), note_capture_drop s)
    | ReplyDropped => (Err (Writer "writer dropped append acknowledgement"), note_capture_drop s)
    | Refused reason => (Err (Writer reason), note_capture_drop s)
    | Sequenced sequence => (Ok sequence, s <| rs_events ::= fun l => l ++ [e] |>)
    end.

(** ** Payloads *)

Section Payloads.
Context {dig : Digest} {hx : Hex} {b64 : Base64} {aead : Aead} {serde : Serde} {serdee : SerdeErasure}.

(** [store.store_blob(..)] and [store.store_sensitive_blob(..)] *)
Definition put_with (store : StoreConfig -> Store -> bytes -> option string -> bytes -> string -> PersistFaults ->
      storage_result PayloadRef * Store) (s : RunState) (data : bytes) (media_type : option string)
    : storage_result PayloadRef * RunState :=
  let '(nonce, temporary, faults) := rn_draw run (rs_steps s) in
  let '(r, blobs) := store (rn_config run) (rs_blobs s) data media_type nonce temporary faults in
  (r, s <| rs_blobs := blobs |> <| rs_steps ::= S |>).
Definition put_blob : RunState -> bytes -> option string -> storage_result PayloadRef * RunState := put_with store_blob.
Definition put_sensitive_blob : RunState -> bytes -> option string -> storage_result PayloadRef * RunState :=
  put_with store_sensitive_blob.
End Payloads.

(** ** What the operations do to the counters *)

Lemma append_spec s e r s' : append s e = (r, s') ->
  rs_blobs s' = rs_blobs s /\ rs_steps s' = S (rs_steps s) /\
  match r with
  | Ok sequence => rs_drops s' = rs_drops s /\ exists e', rs_events s' = rs_events s ++ [e'] /\
      rn_answer run (rs_steps s) e' = Sequenced sequence /\ pe_run_id e = rn_run_id run /\
      e' = e <| pe_monotonic_ns := pe_monotonic_ns e' |> /\ (pe_monotonic_ns e <> 0 -> e' = e)
  | Err _ => rs_events s' = rs_events s /\ (rs_drops s' = rs_drops s \/ rs_drops s' = u64_add (rs_drops s) 1)
  end.
Proof.
  unfold append. cbn zeta. destruct (rn_closed run _); [intros [= <- <-]; naive_solver|].
  destruct (str_eqb _ _) eqn:Er; cbn [negb]; [|intros [= <- <-]; naive_solver]. apply str_eqb_true in Er.
  set (e' := if _ =? 0 then _ else _).
  assert (e' = e <| pe_monotonic_ns := pe_monotonic_ns e' |> /\ (pe_monotonic_ns e <> 0 -> e' = e)) as [He1 He2].
  { unfold e'. destruct (N.eqb_spec (pe_monotonic_ns e) 0); by destruct e. }
  destruct (rn_answer run _ e') eqn:Ea; intros [= <- <-]; cbn; split_and!; auto. exists e'. by split_and!.
Qed.
End Handle.

(** [k] captures were noted as dropped on the way; the counter wraps. *)
Definition dropped (k : N) (s s' : RunState) : Prop := (rs_drops s + k) mod 2 ^ 64 = rs_drops s' mod 2 ^ 64.

Lemma dropped_notes k s : dropped k s (note_capture_drops k s).
Proof. unfold dropped. cbn -[N.pow]. unfold u64_add. by rewrite N.Div0.mod_mod. Qed.
Lemma dropped_note s : dropped 1 s (note_capture_drop s).
Proof. apply dropped_notes. Qed.
Lemma dropped_same s s' : rs_drops s' = rs_drops s -> dropped 0 s s'.
Proof. unfold dropped. by intros ->; rewrite N.add_0_r. Qed.
Lemma dropped_trans k k' s s' s'' : dropped k s s' -> dropped k' s' s'' -> dropped (k + k') s s''.
Proof.
  unfold dropped. intros H <-. rewrite <-(N.Div0.add_mod_idemp_l (rs_drops s')), <-H, N.Div0.add_mod_idemp_l.
  f_equal. lia.
Qed.

(** A counter that is where it was has not moved, if it did not go around. *)
Lemma dropped_none k s s' : dropped k s s' -> k < 2 ^ 64 -> rs_drops s' = rs_drops s -> k = 0.
Proof.
  unfold dropped. intros H Hk E. rewrite E in H.
  pose proof (N.Div0.div_mod (rs_drops s + k) (2 ^ 64)) as H1. pose proof (N.Div0.div_mod (rs_drops s) (2 ^ 64)) as H2.
  rewrite H in H1. assert (k = 2 ^ 64 * ((rs_drops s + k) / 2 ^ 64 - rs_drops s / 2 ^ 64)) as Hm; [nia|].
  destruct ((rs_drops s + k) / 2 ^ 64 - rs_drops s / 2 ^ 64); lia.
Qed.

Lemma append_dropped run s e r s' : append run s e = (r, s') ->
  exists k, k <= 1 /\ dropped k s s' /\ (is_ok r = true -> k = 0).
Proof.
  intros (_ & _ & H)%append_spec. destruct r as [n|error].
  - destruct H as [H _]. exists 0. split; [lia|]. by split; [apply dropped_same|].
  - destruct H as [_ [H|H]]; [exists 0|exists 1]; (split; [lia|]); (split; [|done]); [by apply dropped_same|].
    unfold dropped. rewrite H. unfold u64_add. by rewrite N.Div0.mod_mod.
Qed.
