(* ===== verification/TlsKeylog.v ===== *)
(** * src/tls_keylog.rs

    The key log of the TLS sessions a run makes: the lines the recorder's own
    client writes into the pipe, and the task that reads the pipe, stores each
    secret as an encrypted payload and appends an event that does not contain it.
    What the kernel delivers is a list of wakeups, each with the reads it
    answers. *)

From Stdlib Require Import Strings.Byte.
From S2P Require Import Prelude RustStd External Json Input Model Policy Crypto EventLog BlobStore RunStore.
From stdpp Require Import options.
Local Open Scope N_scope.
#[local] Unset Default Proof Using.

Definition MAX_LINE_BYTES : N := 4096.
Definition MAX_BUFFER_BYTES : N := 64 * 1024.
Definition MAX_DEDUP_RECORDS : N := 65536.

(** ** Lines *)

Definition CR : byte := x0d.

Definition is_label_byte (b : byte) : bool := is_ascii_uppercase b || is_ascii_digit b || beqb b x5f.
Definition label_refused (label : string) : bool :=
  str_is_empty label || (64 <? str_len label) || negb (str_all is_label_byte label).

Section Lines.
Context {hx : Hex}.

(** The line [RustlsKeyLogger::log] writes, if it writes one. *)
Definition key_log_line (label : string) (client_random secret : bytes) : option bytes :=
  if label_refused label || negb ((32 <=? nlen client_random) && (nlen client_random <=? 64))
     || negb ((16 <=? nlen secret) && (nlen secret <=? 256))
  then None
  else Some (as_bytes (label +:+ " " +:+ hex_encode client_random +:+ " " +:+ hex_encode secret) ++ [LF]).
End Lines.

Record ParsedRecord := mkParsedRecord {
  parsed_label : string;
  parsed_client_random : bytes;
}.

(** [u8::is_ascii_whitespace] and [str::split_ascii_whitespace] *)
Definition is_ascii_whitespace (b : byte) : bool :=
  beqb b x20 || beqb b x09 || beqb b x0a || beqb b x0c || beqb b x0d.
Definition split_ascii_whitespace (l : bytes) : list bytes :=
  List.filter (fun field => negb (bool_decide (field = []))) (split_on is_ascii_whitespace l).

Definition valid_hex (value : bytes) (minimum maximum : N) : bool :=
  (minimum <=? nlen value) && (nlen value <=? maximum) && (nlen value mod 2 =? 0)
  && forallb is_ascii_hexdigit value.

Definition parse_record (record : bytes) : option ParsedRecord :=
  if negb (utf8_valid record) then None
  else
    match split_ascii_whitespace record with
    | [label; client_random; secret] =>
        if label_refused (of_bytes label) || negb (valid_hex client_random 64 128) || negb (valid_hex secret 32 512)
        then None
        else Some (mkParsedRecord (of_bytes label) client_random)
    | _ => None
    end.

(** [seen] without order: a digest and whether it is new. *)
Definition record_digest_is_new (seen : list bytes) (digest : bytes) : bool * list bytes :=
  if bool_decide (digest ∈ seen) then (false, seen)
  else (true, digest :: (if MAX_DEDUP_RECORDS <=? nlen seen then [] else seen)).

(** The first line of a buffer and what follows it. *)
Fixpoint next_line (l : bytes) : option (bytes * bytes) :=
  match l with
  | [] => None
  | b :: l' => if beqb b LF then Some ([], l')
               else match next_line l' with Some (line, rest) => Some (b :: line, rest) | None => None end
  end.

(** [while record.last() is LF or CR { record.pop() }] *)
Definition trim_end (record : bytes) : bytes :=
  reverse (skip_while (fun b => beqb b LF || beqb b CR) (reverse record)).

Definition is_comment (record : bytes) : bool :=
  match record with [] => true | b :: _ => beqb b x23 end.

(** ** The task *)

(** One answer of the kernel to a read of the pipe. *)
Inductive FifoRead := Bytes (data : bytes) | Failed.

Section Task.
Context {dig : Digest} {hx : Hex} {b64 : Base64} {aead : Aead} {serde : Serde} {serdee : SerdeErasure}.
Context (run : Run).

(** [store.append(event).await] *)
Definition append_keylog (s : RunState) (e : PendingEvent) : io_result unit * RunState :=
  match append run s e with
  | (Ok _, s) => (Ok tt, s)
  | (Err _, s) => (Err (io_error Other "append"), s)
  end.

(** The readings of the clocks, and an event of this task at some readings. *)
Definition clock (s : RunState) : DateTime * N := (rn_now run (rs_steps s), rn_elapsed_ns run (rs_steps s)).
Definition keylog_event (now : DateTime * N) (kind : string) (raw : option PayloadRef) (normalized : Value)
    (omitted : list string) (confidence : option f32) (evidence : list string) : PendingEvent :=
  new_pending (rn_run_id run) "tls-keylog" kind (fst now)
    <| pe_monotonic_ns := snd now |> <| pe_raw := raw |> <| pe_normalized := Some normalized |>
    <| pe_redaction := mkRedactionRecord "encrypted-secret" ["tls_secret"] omitted |>
    <| pe_confidence := confidence |> <| pe_evidence := evidence |>.

Definition rejected_event (now : DateTime * N) (record : bytes) (reason : string) : PendingEvent :=
  keylog_event now "tls_key_log_record_rejected" None
    (json_object [("reason", JString reason); ("bytes", json_u64 (nlen record));
                  ("sha256", JString (hex_encode (sha256 record)))])
    ["record"] None [].

Definition secret_event (now : DateTime * N) (parsed : ParsedRecord) (raw : PayloadRef) : PendingEvent :=
  keylog_event now "tls_key_log_secret" (Some raw)
    (json_object [("label", JString (parsed_label parsed));
                  ("client_random_sha256", JString (hex_encode (sha256 (parsed_client_random parsed))))])
    [] (Some f32_one) ["nss_sslkeylogfile"].

Definition record_rejected (s : RunState) (record : bytes) (reason : string) : io_result unit * RunState :=
  append_keylog s (rejected_event (clock s) record reason).

(** A rejection and its drop, unless the rejection cannot be persisted. *)
Definition reject (s : RunState) (record : bytes) (reason : string) : io_result unit * RunState :=
  match record_rejected s record reason with
  | (Ok _, s) => (Ok tt, note_capture_drop s)
  | (Err e, s) => (Err e, s)
  end.

(** [store.store_sensitive_blob(&record, ...)] *)
Definition store_secret (s : RunState) (record : bytes) : io_result PayloadRef * RunState :=
  match put_sensitive_blob run s record (Some "application/x-nss-key-log") with
  | (Ok raw, s) => (Ok raw, s)
  | (Err _, s) => (Err (io_error Other "store"), s)
  end.

(** One round of the loop of [consume_lines], after the line was taken from the
    buffer. *)
Definition consume_record (s : RunState) (seen : list bytes) (line : bytes)
    : io_result unit * (RunState * list bytes) :=
  let record := trim_end line in
  if is_comment record then (Ok tt, (s, seen))
  else if MAX_LINE_BYTES <? nlen record then
    let '(r, s) := reject s record "record_limit" in (r, (s, seen))
  else
    match parse_record record with
    | None => let '(r, s) := reject s record "invalid_format" in (r, (s, seen))
    | Some parsed =>
        let '(new, seen) := record_digest_is_new seen (sha256 record) in
        if negb new then (Ok tt, (s, seen))
        else
          match store_secret s record with
          | (Err e, s) => (Err e, (s, seen))
          | (Ok raw, s) =>
              if ref_truncated raw then let '(r, s) := reject s record "storage_limit" in (r, (s, seen))
              else
                let '(r, s) := append_keylog s (secret_event (clock s) parsed raw) in
                (r, (s, seen))
          end
    end.

(** [consume_lines]: a buffer has at most as many lines as bytes. *)
Fixpoint consume_lines (fuel : nat) (s : RunState) (buffered : bytes) (seen : list bytes)
    : io_result unit * (RunState * bytes * list bytes) :=
  match fuel, next_line buffered with
  | S fuel, Some (line, rest) =>
      match consume_record s seen line with
      | (Ok _, (s, seen)) => consume_lines fuel s rest seen
      | (Err e, (s, seen)) => (Err e, (s, rest, seen))
      end
  | _, _ => (Ok tt, (s, buffered, seen))
  end.

(** The inner loop of [capture]: the buffer, whether a read did not fit, and the
    reads it left. *)
Fixpoint drain (buffered : bytes) (reads : list FifoRead) : io_result (bytes * bool * list FifoRead) :=
  match reads with
  | [] => Ok (buffered, false, [])
  | Failed :: _ => Err (io_error Other "read")
  | Bytes [] :: reads' => Ok (buffered, false, reads')
  | Bytes chunk :: reads' =>
      let remaining := sat_sub MAX_BUFFER_BYTES (nlen buffered) in
      let retained := N.min remaining (nlen chunk) in
      let buffered := buffered ++ ntake retained chunk in
      if negb (retained =? nlen chunk) then Ok (buffered, true, reads')
      else if nlen buffered =? MAX_BUFFER_BYTES then Ok (buffered, false, reads')
      else drain buffered reads'
  end.

(** The variables of [capture]. *)
Record Capturing := mkCapturing {
  ca_log : RunState;
  ca_buffered : bytes;
  ca_seen : list bytes;
  ca_persistence_available : bool;
}.

(** After the reads of a wakeup. *)
Definition persist (log : RunState) (buffered : bytes) (seen : list bytes) (available : bool) : Capturing :=
  if available then
    match consume_lines (length buffered) log buffered seen with
    | (Ok _, (log, buffered, seen)) => mkCapturing log buffered seen true
    | (Err _, (log, buffered, seen)) => mkCapturing (note_capture_drop log) buffered seen false
    end
  else mkCapturing log buffered seen false.

Definition on_overflow (overflow : bool) (c : Capturing) : Capturing :=
  if negb (ca_persistence_available c) then mkCapturing (ca_log c) [] (ca_seen c) false
  else if overflow || (MAX_BUFFER_BYTES <=? nlen (ca_buffered c)) then
    match record_rejected (ca_log c) (ca_buffered c) "buffer_limit" with
    | (Ok _, log) => mkCapturing (note_capture_drop log) [] (ca_seen c) true
    | (Err _, log) => mkCapturing (note_capture_drop (note_capture_drop log)) [] (ca_seen c) false
    end
  else c.

(** The loop, until the wakeup at which the shutdown is seen; what is then still
    in the pipe stays there. *)
Fixpoint capture_loop (wakeups : list (list FifoRead)) (pending : list FifoRead) (c : Capturing)
    : io_result unit * Capturing * list FifoRead :=
  match wakeups with
  | [] => (Ok tt, c, pending)
  | arrived :: wakeups =>
      match drain (ca_buffered c) (pending ++ arrived) with
      | Err e => (Err e, c, [])
      | Ok (buffered, overflow, pending) =>
          capture_loop wakeups pending
            (on_overflow overflow (persist (ca_log c) buffered (ca_seen c) (ca_persistence_available c)))
      end
  end.

(** What follows the loop. *)
Definition finish_capture (c : Capturing) : RunState :=
  if ca_persistence_available c && negb (forallb is_ascii_whitespace (ca_buffered c)) then
    match record_rejected (ca_log c) (ca_buffered c) "unterminated_record" with
    | (Ok _, log) => note_capture_drop log
    | (Err _, log) => note_capture_drop (note_capture_drop log)
    end
  else ca_log c.

(** [capture]: its result, the store, and what it left in the pipe. *)
Definition capture (s : RunState) (wakeups : list (list FifoRead)) : io_result unit * RunState * list FifoRead :=
  match capture_loop wakeups [] (mkCapturing s [] [] true) with
  | (Ok _, c, pending) => (Ok tt, finish_capture c, pending)
  | (Err e, c, pending) => (Err e, ca_log c, pending)
  end.
End Task.
