(* ===== verification/TlsKeylogSpec.v ===== *)
(** * What the key log keeps

    The capture of src/tls_keylog.rs: unless it notes a drop, every line of the
    pipe that was read is a secret that can be read back from the store, or
    repeats one; the lines the recorder's own client writes are never
    rejected. *)

From Stdlib Require Import Strings.Byte.
From S2P Require Import Prelude RustStd External Json Input Model Policy Crypto EventLog EventLogSpec BlobStore BlobStoreSpec RunStore TlsKeylog.
From stdpp Require Import options.
Local Open Scope N_scope.
#[local] Unset Default Proof Using.

(** ** Lines *)

Lemma next_line_some l line rest : next_line l = Some (line, rest) -> l = line ++ LF :: rest /\ LF ∉ line.
Proof.
  revert line. induction l as [|b l IH]; intros line; [done|]. cbn. destruct (beqb b LF) eqn:E.
  - apply beqb_true in E. subst b. intros [= <- <-]. split; [done|apply not_elem_of_nil].
  - destruct (next_line l) as [[line' rest']|]; [|done]. intros [= <- <-].
    destruct (IH _ eq_refl) as [-> Hn]. split; [done|]. rewrite not_elem_of_cons. split; [|done].
    intros Hb. subst b. by rewrite beqb_refl in E.
Qed.

Lemma next_line_none l : next_line l = None -> LF ∉ l.
Proof.
  induction l as [|b l IH]; cbn; [intros _; apply not_elem_of_nil|]. destruct (beqb b LF) eqn:E; [done|].
  destruct (next_line l) as [[? ?]|]; [done|]. intros _. rewrite not_elem_of_cons. split; [|by apply IH].
  intros Hb. subst b. by rewrite beqb_refl in E.
Qed.

(** The records of some lines. *)
Definition records (lines : list bytes) : list bytes :=
  List.filter (fun r => negb (is_comment r)) (trim_end <$> lines).

Lemma records_snoc lines line :
  records (lines ++ [line]) = records lines ++ (if is_comment (trim_end line) then [] else [trim_end line]).
Proof. unfold records. rewrite fmap_app, List.filter_app. cbn. by destruct (is_comment _). Qed.

(** ** The invariant *)

Section Capture.
Context {dig : Digest} {hx : Hex} {b64 : Base64} {aead : Aead} {serde : Serde} {serdee : SerdeErasure}
  {aeadl : AeadLaws}.
Context (run : Run).
Hypothesis Hdraw : forall n, exists nonce pid uuid faults,
  rn_draw run n = (nonce, temporary_name pid uuid, faults) /\ nlen nonce = 24.
#[local] Notation config := (rn_config run).

(** A secret that was stored, and its event. *)
Record Entry := mkEntry {
  en_record : bytes;
  en_parsed : ParsedRecord;
  en_raw : PayloadRef;
  en_now : DateTime * N;
}.
Definition event_of (en : Entry) : PendingEvent := secret_event run (en_now en) (en_parsed en) (en_raw en).

Definition readable (d : RunDir) (raw : PayloadRef) (record : bytes) : Prop :=
  forall d' max, keeps d d' -> nlen record <= max ->
    read_blob_reference d' raw (sc_encryption config) max = Ok record.

(** After these lines, all of which were kept. *)
Record logged (s0 s : RunState) (seen : list bytes) (lines : list bytes) (entries : list Entry) : Prop := {
  lg_consistent : consistent config (st_dir (rs_blobs s));
  lg_events : rs_events s = rs_events s0 ++ (event_of <$> entries);
  lg_order : en_record <$> entries `sublist_of` records lines;
  lg_entries : Forall (fun en => parse_record (en_record en) = Some (en_parsed en) /\
                 readable (st_dir (rs_blobs s)) (en_raw en) (en_record en)) entries;
  lg_formed : Forall (fun r => nlen r <= MAX_LINE_BYTES /\ is_Some (parse_record r)) (records lines);
  lg_covered : forall r, r ∈ records lines -> sha256 r ∈ sha256 ∘ en_record <$> entries;
  lg_seen : forall x, x ∈ seen -> x ∈ sha256 ∘ en_record <$> entries;
}.

Lemma readable_later d d' raw record : keeps d d' -> readable d raw record -> readable d' raw record.
Proof. intros Hk H d'' max Hk' Hm. apply H; [by eapply keeps_trans|done]. Qed.

(** A line that adds nothing: a comment, or a record whose digest was seen. *)
Lemma logged_skip s0 s seen lines entries line : logged s0 s seen lines entries ->
  is_comment (trim_end line) = true \/
  (nlen (trim_end line) <= MAX_LINE_BYTES /\ is_Some (parse_record (trim_end line)) /\ sha256 (trim_end line) ∈ seen) ->
  logged s0 s seen (lines ++ [line]) entries.
Proof.
  intros [H1 H2 H3 H4 H5 H6 H7] Hl. destruct (is_comment (trim_end line)) eqn:Ec.
  - split; try done; by rewrite records_snoc, Ec, app_nil_r.
  - destruct Hl as [|(Hn & Hp & Hs)]; [done|]. split; try done; rewrite records_snoc, Ec.
    + by apply sublist_inserts_r.
    + apply Forall_app. split; [done|]. by apply Forall_singleton.
    + intros r [Hr|Hr%list_elem_of_singleton]%elem_of_app; [auto|]. subst r. auto.
Qed.

Lemma append_keylog_spec s e r s' : append_keylog run s e = (r, s') ->
  rs_blobs s' = rs_blobs s /\ exists k, k <= 1 /\ dropped k s s' /\
  (r = Ok tt -> k = 0 /\ exists m, rs_events s' = rs_events s ++ [e <| pe_monotonic_ns := m |>]).
Proof.
  unfold append_keylog. destruct (append run s e) as [a s1] eqn:E. intros H.
  assert (s1 = s' /\ (r = Ok tt -> is_ok a = true)) as [-> Hr] by (destruct a; injection H as <- <-; by split).
  destruct (append_dropped _ _ _ _ _ E) as (k & Hk & Hd & Hz). apply append_spec in E as (Hb & _ & Ha).
  split; [done|]. exists k. split; [done|]. split; [done|]. intros Ho. split; [by apply Hz, Hr|].
  destruct a as [n|]; [|discriminate (Hr Ho)]. destruct Ha as (_ & e' & He & _ & _ & Hm & _).
  exists (pe_monotonic_ns e'). by rewrite <-Hm.
Qed.

Lemma reject_spec s record reason r s' : reject run s record reason = (r, s') ->
  exists k, k <= 1 /\ dropped k s s' /\ (r = Ok tt -> k = 1).
Proof.
  unfold reject, record_rejected. destruct (append_keylog _ _ _) as [[[]|e] s1] eqn:E;
    apply append_keylog_spec in E as (_ & k & Hk & Hd & Hz); intros [= <- <-].
  - destruct (Hz eq_refl) as [-> _]. exists (0 + 1). split; [done|]. split; [|done].
    eapply dropped_trans; [done|apply dropped_note].
  - by exists k.
Qed.

(** A secret that was stored and not truncated reads back from then on. *)
Lemma store_secret_spec s record raw s' : consistent config (st_dir (rs_blobs s)) ->
  store_secret run s record = (raw, s') ->
  rs_drops s' = rs_drops s /\ rs_events s' = rs_events s /\ keeps (st_dir (rs_blobs s)) (st_dir (rs_blobs s')) /\
  forall r, raw = Ok r -> ref_truncated r = false -> readable (st_dir (rs_blobs s')) r record.
Proof.
  intros Hc. unfold store_secret, put_sensitive_blob, put_with.
  destruct (Hdraw (rs_steps s)) as (nonce & pid & uuid & faults & -> & Hn).
  unfold store_sensitive_blob. destruct (sc_encryption config) as [key|] eqn:He.
  2: { intros [= <- <-]. split_and!; try done; apply keeps_refl. }
  destruct (store_blob_with_limit _ _ _ _ _ _ _ _) as [r store] eqn:E.
  pose proof (stores_keep _ _ _ (store_runs _ _ _ _ _ _ _ _ _ _ _ [] Hn E)) as K. cbn [fst] in K. intros H.
  assert (s' = s <| rs_blobs := store |> <| rs_steps ::= S |> /\ forall x, raw = Ok x -> r = Ok x) as [-> Hx]
    by (destruct r; injection H as <- <-; split; try done; by intros x [= ->]).
  split; [done|]. split; [done|]. split; [done|]. intros x Hraw Ht.
  rewrite (Hx _ Hraw) in E. intros d' max K' Hmax.
  assert (forall m, nlen (captured_part (nlen record) record) <= m ->
    read_blob_reference d' x (sc_encryption config) m = Ok (captured_part (nlen record) record) /\
    ref_truncated x = negb (nlen (captured_part (nlen record) record) =? nlen record)) as Hread.
  { intros m. eapply stored_reads; try done. by rewrite He. }
  assert (captured_part (nlen record) record = record) as Hcap.
  { destruct (Hread (nlen record)) as [_ H2]; [unfold captured_part; rewrite nlen_ntake; lia|]. rewrite Ht in H2.
    symmetry in H2. apply negb_false_iff, N.eqb_eq in H2. unfold captured_part in *. rewrite nlen_ntake in H2.
    apply ntake_all. lia. }
  rewrite Hcap in Hread. by apply Hread.
Qed.

(** A new secret, stored and announced. *)
Lemma logged_new s0 s s1 s2 seen seen' lines entries line parsed raw now : logged s0 s seen lines entries ->
  is_comment (trim_end line) = false -> nlen (trim_end line) <= MAX_LINE_BYTES ->
  parse_record (trim_end line) = Some parsed ->
  (forall x, x ∈ seen' -> x = sha256 (trim_end line) \/ x ∈ seen) ->
  keeps (st_dir (rs_blobs s)) (st_dir (rs_blobs s1)) -> rs_events s1 = rs_events s ->
  readable (st_dir (rs_blobs s1)) raw (trim_end line) -> rs_blobs s2 = rs_blobs s1 ->
  rs_events s2 = rs_events s1 ++ [secret_event run now parsed raw] ->
  exists en, logged s0 s2 seen' (lines ++ [line]) (entries ++ [en]).
Proof.
  intros [H1 H2 H3 H4 H5 H6 H7] Hc Hn Hp Hseen Hk E1 Hr Es E2.
  exists (mkEntry (trim_end line) parsed raw now).
  split; rewrite ?Es, ?records_snoc, ?Hc, ?fmap_app.
  - by eapply keeps_consistent.
  - by rewrite E2, E1, H2, <-app_assoc.
  - by apply sublist_app.
  - apply Forall_app. split; [|by apply Forall_singleton]. eapply Forall_impl; [exact H4|]. cbn.
    intros en [Ha Hb]. split; [done|]. by eapply readable_later.
  - apply Forall_app. split; [done|]. apply Forall_singleton. by rewrite Hp.
  - intros r [Hr'|Hr'%list_elem_of_singleton]%elem_of_app; apply elem_of_app; [left; auto|right]. subst r. by left.
  - intros x [->|Hx]%Hseen; apply elem_of_app; [right; by left|left; auto].
Qed.

Lemma digest_new seen digest new seen' : record_digest_is_new seen digest = (new, seen') ->
  (new = false -> seen' = seen /\ digest ∈ seen) /\ forall x, x ∈ seen' -> x = digest \/ x ∈ seen.
Proof.
  unfold record_digest_is_new. case_bool_decide as H; intros [= <- <-]; [by split; [|right]|].
  split; [done|]. intros x [->|Hx]%elem_of_cons; [by left|right]. by destruct (_ <=? _); [apply not_elem_of_nil in Hx|].
Qed.

Lemma store_secret_drops s record raw s' : store_secret run s record = (raw, s') -> rs_drops s' = rs_drops s.
Proof.
  unfold store_secret, put_sensitive_blob, put_with. destruct (rn_draw _ _) as [[nonce temporary] faults].
  destruct (store_sensitive_blob _ _ _ _ _ _ _) as [[r|e] st]; by intros [= <- <-].
Qed.

(** What follows from a step that noted no drop. *)
Definition keeping (s : RunState) (seen : list bytes) (s' : RunState) (seen' : list bytes) (new : list bytes) : Prop :=
  forall s0 lines entries, logged s0 s seen lines entries -> exists entries', logged s0 s' seen' (lines ++ new) entries'.

Lemma keeping_nil s seen : keeping s seen s seen [].
Proof. intros s0 lines entries H. rewrite app_nil_r. by exists entries. Qed.
Lemma keeping_app s seen s1 seen1 s2 seen2 new new' :
  keeping s seen s1 seen1 new -> keeping s1 seen1 s2 seen2 new' -> keeping s seen s2 seen2 (new ++ new').
Proof. intros H1 H2 s0 lines entries H. destruct (H1 _ _ _ H) as [e He]. rewrite app_assoc. by eapply H2. Qed.

(** A line is kept, or a drop is noted, or the round fails. *)
Lemma consume_record_spec s seen line r s' seen' :
  consume_record run s seen line = (r, (s', seen')) ->
  exists k, k <= 1 /\ dropped k s s' /\ (r = Ok tt -> k = 0 -> keeping s seen s' seen' [line]).
Proof.
  intros H. unfold consume_record in H. cbn zeta in H.
  assert (forall s1 reason (seen1 : list bytes), rs_drops s1 = rs_drops s ->
    (let '(r, s) := reject run s1 (trim_end line) reason in (r, (s, seen1))) = (r, (s', seen')) ->
    exists k, k <= 1 /\ dropped k s s' /\ (r = Ok tt -> k = 0 -> keeping s seen s' seen' [line])) as Hreject.
  { clear H. intros s1 reason seen1 Hd. destruct (reject run s1 (trim_end line) reason) as [r1 s2] eqn:E.
    intros [= <- <- _]. destruct (reject_spec _ _ _ _ _ E) as (k & Hk & Hdr & Hone). exists (0 + k). split; [lia|]. split.
    - eapply dropped_trans; [by apply dropped_same|done].
    - intros Ho. specialize (Hone Ho). lia. }
  destruct (is_comment (trim_end line)) eqn:Ec.
  { injection H as <- <- <-. exists 0. split; [lia|]. split; [by apply dropped_same|].
    intros _ _ s0 lines entries Hl. exists entries. apply logged_skip; [done|by left]. }
  destruct (N.ltb_spec MAX_LINE_BYTES (nlen (trim_end line))) as [Hn|Hn]; [by eapply Hreject|].
  destruct (parse_record (trim_end line)) as [parsed|] eqn:Hp; [|by eapply Hreject].
  destruct (record_digest_is_new seen (sha256 (trim_end line))) as [new seen1] eqn:En.
  apply digest_new in En as [Hold Hseen]. destruct new; cbn [negb] in H.
  2: { injection H as <- <- <-. destruct (Hold eq_refl) as [-> Hin]. exists 0. split; [lia|]. split; [by apply dropped_same|].
       intros _ _ s0 lines entries Hl. exists entries. apply logged_skip; [done|right]. by rewrite Hp. }
  destruct (store_secret run s (trim_end line)) as [[raw|e] s1] eqn:Es; pose proof (store_secret_drops _ _ _ _ Es) as Hd.
  2: { injection H as <- <- <-. exists 0. split; [lia|]. by split; [apply dropped_same|]. }
  destruct (ref_truncated raw) eqn:Et; [by eapply Hreject|].
  destruct (append_keylog _ _ _) as [r2 s2] eqn:Ea. injection H as <- <- <-.
  apply append_keylog_spec in Ea as (Hst & k & Hk & Hd2 & Hev2). exists (0 + k). split; [lia|].
  split; [eapply dropped_trans; [by apply dropped_same|done]|]. intros Ho _ s0 lines entries Hl.
  destruct (Hev2 Ho) as (_ & m & Hm).
  apply store_secret_spec in Es as (_ & Hev & Hkeep & Hr); [|by apply (lg_consistent _ _ _ _ _ Hl)].
  destruct (logged_new s0 s s1 s2 seen seen1 lines entries line parsed raw (fst (clock run s1), m)) as [en Hen]; eauto.
Qed.

Lemma consume_lines_spec fuel s buffered seen r s' buffered' seen' :
  consume_lines run fuel s buffered seen = (r, (s', buffered', seen')) ->
  (length buffered <= fuel)%nat -> exists k, k + nlen buffered' <= nlen buffered /\ dropped k s s' /\
    (r = Ok tt -> k = 0 -> exists new, buffered = join_log new ++ buffered' /\ LF ∉ buffered' /\
       keeping s seen s' seen' new).
Proof.
  revert s buffered seen. induction fuel as [|fuel IH]; intros s buffered seen H Hf; cbn in H.
  { injection H as <- <- <- <-. destruct buffered; [|cbn in Hf; lia]. exists 0. split; [lia|]. split; [by apply dropped_same|].
    intros _ _. exists []. split; [done|]. split; [apply not_elem_of_nil|apply keeping_nil]. }
  destruct (next_line buffered) as [[line rest]|] eqn:En.
  2: { injection H as <- <- <- <-. exists 0. split; [lia|]. split; [by apply dropped_same|]. intros _ _. exists [].
       split; [done|]. split; [by apply next_line_none|apply keeping_nil]. }
  apply next_line_some in En as [-> Hn]. rewrite length_app in Hf. cbn in Hf.
  destruct (consume_record _ s seen line) as [[[]|e] [s1 seen1]] eqn:Ec;
    destruct (consume_record_spec _ _ _ _ _ _ Ec) as (k & Hk & Hd & Hkeep); rewrite nlen_app, nlen_cons.
  - destruct (IH _ _ _ H) as (k' & Hk' & Hd' & Hkeep'); [lia|]. exists (k + k'). split; [lia|].
    split; [by eapply dropped_trans|]. intros -> Hz. destruct Hkeep' as (new & -> & Hlf & Hnew); [done|lia|].
    exists (line :: new). rewrite join_log_cons. split; [by rewrite <-app_assoc|]. split; [done|].
    change (line :: new) with ([line] ++ new). eapply keeping_app; [|done]. apply Hkeep; [done|lia].
  - injection H as <- <- <- <-. exists k. split; [lia|]. by split.
Qed.

(** The bytes some reads deliver. *)
Definition data_of (reads : list FifoRead) : bytes :=
  concat (omap (fun r => match r with Bytes data => Some data | Failed => None end) reads).

Lemma data_of_app l k : data_of (l ++ k) = data_of l ++ data_of k.
Proof. unfold data_of. by rewrite omap_app, concat_app. Qed.

Lemma drain_spec buffered reads buffered' overflow pending : nlen buffered <= MAX_BUFFER_BYTES ->
  drain buffered reads = Ok (buffered', overflow, pending) ->
  nlen buffered' <= MAX_BUFFER_BYTES /\
  (overflow = false -> exists used, reads = used ++ pending /\ buffered' = buffered ++ data_of used).
Proof.
  revert buffered. induction reads as [|[data|] reads IH]; intros buffered Hb; cbn; [| |done].
  { intros [= <- <- <-]. split; [done|]. intros _. exists []. split; [done|]. symmetry. apply app_nil_r. }
  destruct data as [|b data].
  { intros [= <- <- <-]. split; [done|]. intros _. exists [Bytes []]. split; [done|]. symmetry. apply app_nil_r. }
  set (chunk := b :: data). set (retained := N.min _ _).
  assert (nlen (buffered ++ ntake retained chunk) <= MAX_BUFFER_BYTES) as Hl.
  { rewrite nlen_app, nlen_ntake. unfold retained, sat_sub. lia. }
  destruct (N.eqb_spec retained (nlen chunk)) as [Hr|Hr]; cbn [negb]; [|by intros [= <- <- <-]].
  rewrite (ntake_all retained chunk) in * by lia.
  destruct (_ =? _).
  - intros [= <- <- <-]. split; [done|]. intros _. exists [Bytes chunk]. split; [done|].
    unfold data_of. cbn [omap list_omap concat]. by rewrite app_nil_r.
  - intros H. destruct (IH _ Hl H) as [H1 H2]. split; [done|]. intros Ho. destruct (H2 Ho) as (used & -> & ->).
    exists (Bytes chunk :: used). split; [done|]. by rewrite <-app_assoc.
Qed.

Lemma record_rejected_drops s record reason r s' : record_rejected run s record reason = (r, s') ->
  exists k, k <= 1 /\ dropped k s s'.
Proof. unfold record_rejected. intros (_ & k & Hk & Hd & _)%append_keylog_spec. by exists k. Qed.

Lemma dropped_rejected k s s1 : dropped k s s1 -> dropped (k + 1) s (note_capture_drop s1) /\
  dropped (k + 2) s (note_capture_drop (note_capture_drop s1)).
Proof.
  intros H. assert (dropped (k + 1) s (note_capture_drop s1)) as H1 by (eapply dropped_trans, dropped_note; done).
  split; [done|]. replace (k + 2) with (k + 1 + 1) by lia. by eapply dropped_trans, dropped_note.
Qed.

Lemma persist_spec log buffered seen available :
  let c := persist run log buffered seen available in
  exists k, k <= nlen buffered + 1 /\ dropped k log (ca_log c) /\ nlen (ca_buffered c) <= nlen buffered /\
    (k = 0 -> available = true -> ca_persistence_available c = true /\
       exists new, buffered = join_log new ++ ca_buffered c /\ keeping log seen (ca_log c) (ca_seen c) new).
Proof.
  cbn zeta. unfold persist. destruct available.
  2: { exists 0. split; [lia|]. split; [by apply dropped_same|]. by split. }
  destruct (consume_lines _ _ _ _ _) as [[[]|e] [[s1 b1] seen1]] eqn:E;
    apply consume_lines_spec in E as (k & Hk & Hd & Hkeep); try done; cbn [ca_log ca_buffered ca_persistence_available ca_seen].
  - exists k. split; [lia|]. split; [done|]. split; [lia|]. intros Hz _. split; [done|].
    destruct Hkeep as (new & -> & _ & Hnew); [done..|]. by exists new.
  - exists (k + 1). split; [lia|]. split; [by eapply dropped_trans, dropped_note|]. split; [lia|]. lia.
Qed.

Lemma wakeup_spec log buffered seen available overflow :
  let c := on_overflow run overflow (persist run log buffered seen available) in
  exists k, k <= nlen buffered + 4 /\ dropped k log (ca_log c) /\ nlen (ca_buffered c) <= nlen buffered /\
    (k = 0 -> available = true -> overflow = false /\ ca_persistence_available c = true /\
       exists new, buffered = join_log new ++ ca_buffered c /\ keeping log seen (ca_log c) (ca_seen c) new).
Proof.
  cbn zeta. destruct (persist_spec log buffered seen available) as (k & Hk & Hd & Hl & Hkeep).
  set (c := persist _ _ _ _ _) in *. unfold on_overflow.
  destruct (ca_persistence_available c) eqn:Ea; cbn [negb].
  2: { exists k. split; [lia|]. split; [done|]. split; [cbn; unfold nlen; cbn; lia|]. intros Hz Hav.
       by destruct (Hkeep Hz Hav) as [? _]. }
  destruct (overflow || _) eqn:Eo.
  - destruct (record_rejected _ _ _ _) as [[[]|e] s1] eqn:Er;
      apply record_rejected_drops in Er as (k' & Hk' & Er); destruct (dropped_rejected _ _ _ Er) as [H1 H2];
      cbn [ca_log ca_buffered]; [exists (k + (k' + 1))|exists (k + (k' + 2))]; (split; [lia|]);
      (split; [by eapply dropped_trans|]);
      (split; [unfold nlen; cbn; lia|lia]).
  - apply orb_false_iff in Eo as [-> _]. exists k. split; [lia|]. split; [done|]. split; [done|].
    intros Hz Hav. split; [done|]. split; [done|]. by apply Hkeep.
Qed.

Lemma capture_loop_spec wakeups pending c r c' pending' : nlen (ca_buffered c) <= MAX_BUFFER_BYTES ->
  capture_loop run wakeups pending c = (r, c', pending') ->
  exists k, k <= (MAX_BUFFER_BYTES + 4) * nlen wakeups /\ dropped k (ca_log c) (ca_log c') /\
    (r = Ok tt -> k = 0 -> ca_persistence_available c = true -> ca_persistence_available c' = true /\
       exists used new, pending ++ concat wakeups = used ++ pending' /\
         ca_buffered c ++ data_of used = join_log new ++ ca_buffered c' /\
         keeping (ca_log c) (ca_seen c) (ca_log c') (ca_seen c') new).
Proof.
  revert pending c. induction wakeups as [|arrived wakeups IH]; intros pending c Hb H; cbn [capture_loop] in H.
  { injection H as <- <- <-. exists 0. split; [lia|]. split; [by apply dropped_same|]. intros _ _ Ha. split; [done|].
    exists [], []. split; [apply app_nil_r|]. split; [apply app_nil_r|apply keeping_nil]. }
  rewrite nlen_cons. destruct (drain _ _) as [[[buffered overflow] pending1]|e] eqn:Ed.
  2: { injection H as <- <- <-. exists 0. split; [lia|]. by split; [apply dropped_same|]. }
  destruct (drain_spec _ _ _ _ _ Hb Ed) as [Hl Hused].
  destruct (wakeup_spec (ca_log c) buffered (ca_seen c) (ca_persistence_available c) overflow) as (k & Hk & Hd & Hb' & Hkeep).
  destruct (IH pending1 _ (N.le_trans _ _ _ Hb' Hl) H) as (k' & Hk' & Hd' & Hkeep'). exists (k + k'). split; [nia|].
  split; [by eapply dropped_trans|]. intros Ho Hz Ha. destruct Hkeep as (-> & Ha' & new & Hbuf & Hnew); [lia|done|].
  destruct Hkeep' as (Ha'' & used' & new' & Hp & He & Hnew'); [done|lia|done|]. split; [done|].
  destruct (Hused eq_refl) as (used & Hpend & Hdata). exists (used ++ used'), (new ++ new'). cbn [concat].
  split; [by rewrite app_assoc, Hpend, <-!app_assoc, Hp|]. split; [|by eapply keeping_app].
  by rewrite data_of_app, app_assoc, <-Hdata, Hbuf at 1; rewrite join_log_app, <-!app_assoc, He.
Qed.

Lemma finish_capture_spec c : exists k, k <= 3 /\ dropped k (ca_log c) (finish_capture run c) /\
  (k = 0 -> ca_persistence_available c = true ->
     finish_capture run c = ca_log c /\ forallb is_ascii_whitespace (ca_buffered c) = true).
Proof.
  unfold finish_capture. destruct (_ && _) eqn:E.
  - destruct (record_rejected _ _ _ _) as [[[]|e] s1] eqn:Er; apply record_rejected_drops in Er as (k & Hk & Er);
      destruct (dropped_rejected _ _ _ Er) as [H1 H2]; [exists (k + 1)|exists (k + 2)]; (split; [lia|]); (split; [done|lia]).
  - exists 0. split; [lia|]. split; [by apply dropped_same|]. intros _ Ha. rewrite Ha in E. by apply negb_false_iff in E.
Qed.

Lemma logged_start s : consistent config (st_dir (rs_blobs s)) -> logged s s [] [] [].
Proof.
  intros Hc. split; cbn; try done; first [by rewrite app_nil_r|by constructor|by intros x Hx%elem_of_nil].
Qed.

(** C23: The capture of key records loses nothing in silence.  If it ends without
    an error and the count of drops is where it was, then what was read from the
    pipe is a sequence of lines and white space, every line is empty, a comment
    or a well-formed record, the events that were appended announce, in order and
    without their content, secrets that read back from the encrypted store, and
    for every record one with the same digest is among them. *)
Theorem keylog_capture_accounted s wakeups s' pending
    (Hconsistent : consistent config (st_dir (rs_blobs s)))
    (Hfew : (MAX_BUFFER_BYTES + 4) * nlen wakeups + 3 < 2 ^ 64)
    (Hrun : capture run s wakeups = (Ok tt, s', pending))
    (Hdrops : rs_drops s' = rs_drops s) :
  exists used lines rest entries, concat wakeups = used ++ pending /\ data_of used = join_log lines ++ rest /\
    forallb is_ascii_whitespace rest = true /\
    Forall (fun r => nlen r <= MAX_LINE_BYTES /\ is_Some (parse_record r)) (records lines) /\
    rs_events s' = rs_events s ++ (event_of <$> entries) /\ en_record <$> entries `sublist_of` records lines /\
    Forall (fun en => parse_record (en_record en) = Some (en_parsed en) /\
              readable (st_dir (rs_blobs s')) (en_raw en) (en_record en)) entries /\
    forall r, r ∈ records lines -> sha256 r ∈ sha256 ∘ en_record <$> entries.
Proof.
  unfold capture in Hrun. destruct (capture_loop _ _ _ _) as [[r c] pending1] eqn:E.
  assert (r = Ok tt /\ finish_capture run c = s' /\ pending1 = pending) as (-> & <- & ->)
    by (destruct r as [[]|]; [injection Hrun as <- <-|]; done).
  apply capture_loop_spec in E as (k & Hk & Hd & Hkeep); [|done]. cbn in Hd.
  destruct (finish_capture_spec c) as (k' & Hk' & Hd' & Hfin).
  assert (k + k' = 0) as Hz by (eapply dropped_none; [by eapply dropped_trans|lia|done]).
  destruct Hkeep as (Ha & used & new & Hp & He & Hnew); [done|lia|done|]. destruct Hfin as [Hs Hw]; [lia|done|].
  destruct (Hnew _ _ _ (logged_start s Hconsistent)) as [entries [H1 H2 H3 H4 H5 H6 H7]]. rewrite Hs in *.
  exists used, new, (ca_buffered c), entries. by split_and!.
Qed.
End Capture.

(** ** The recorder's own lines *)

Section Written.
Context {hx : Hex} {hxl : HexLaws}.

(** The bytes of a field of a line: ASCII, and neither white space nor the
    start of a comment. *)
Definition plain (b : byte) : bool := (b2n b <? 128) && negb (is_ascii_whitespace b) && negb (beqb b x23).

Lemma all_plain (p : byte -> bool) l : (forall b, p b = true -> plain b = true) -> forallb p l = true ->
  Forall (fun b => plain b = true) l.
Proof. intros Hp H. rewrite forallb_forall in H. apply Forall_forall. intros b Hb. by apply Hp, H, list_elem_of_In. Qed.

Lemma label_plain b : is_label_byte b = true -> plain b = true.
Proof. by destruct b. Qed.
Lemma hex_plain b : is_lower_hex b = true -> plain b = true.
Proof. by destruct b. Qed.
Lemma hex_digit b : is_lower_hex b = true -> is_ascii_hexdigit b = true.
Proof. by destruct b. Qed.
Lemma plain_white b : plain b = true -> is_ascii_whitespace b = false.
Proof. unfold plain. intros [[_ H%negb_true_iff]%andb_true_iff _]%andb_true_iff. done. Qed.

Lemma utf8_valid_ascii l : Forall (fun b => b2n b < 128) l -> utf8_valid l = true.
Proof. induction 1 as [|b l Hb Hl IH]; [done|]. cbn. by rewrite (proj2 (N.ltb_lt _ _) Hb). Qed.

Lemma white_end l b : Forall (fun b => plain b = true) (l ++ [b]) -> forall k, trim_end (k ++ l ++ [b]) = k ++ l ++ [b].
Proof.
  rewrite Forall_app, Forall_singleton. intros [_ Hb] k. unfold trim_end. rewrite app_assoc, reverse_snoc. cbn [skip_while].
  apply plain_white in Hb. unfold is_ascii_whitespace in Hb. rewrite !orb_false_iff in Hb.
  destruct Hb as [[[[_ _] Hlf] _] Hcr]. unfold LF, CR. rewrite Hlf, Hcr. cbn [orb].
  by rewrite reverse_cons, reverse_involutive.
Qed.

Lemma plain_ascii l : Forall (fun b => plain b = true) l -> Forall (fun b => b2n b < 128) l.
Proof. intros H. eapply Forall_impl; [exact H|]. intros b [[Hb%N.ltb_lt _]%andb_true_iff _]%andb_true_iff. done. Qed.
Lemma plain_fields l : Forall (fun b => plain b = true) l -> Forall (fun b => is_ascii_whitespace b = false) l.
Proof. intros H. eapply Forall_impl; [exact H|]. apply plain_white. Qed.

(** Three fields with a blank between them. *)
Lemma three_fields x y z : Forall (fun b => plain b = true) x -> Forall (fun b => plain b = true) y ->
  Forall (fun b => plain b = true) z -> x <> [] -> y <> [] -> z <> [] ->
  let record := x ++ x20 :: y ++ x20 :: z in
  utf8_valid record = true /\ split_ascii_whitespace record = [x; y; z] /\ LF ∉ record /\
  is_comment record = false /\ trim_end record = record.
Proof.
  intros Hx Hy Hz Nx Ny Nz. cbn zeta.
  assert (forall l, Forall (fun b => plain b = true) l -> LF ∉ l) as Hlf.
  { intros l Hl Hin. rewrite Forall_forall in Hl. by specialize (Hl _ Hin). }
  split_and!.
  - apply utf8_valid_ascii. rewrite !Forall_app, !Forall_cons, !Forall_app, !Forall_cons.
    split_and!; try apply plain_ascii; done.
  - unfold split_ascii_whitespace. rewrite split_on_app, split_on_app, split_on_no_sep by (try apply plain_fields; done).
    cbn. by rewrite !bool_decide_eq_false_2.
  - rewrite !not_elem_of_app, !not_elem_of_cons, !not_elem_of_app, !not_elem_of_cons. split_and!; auto; done.
  - destruct Hx as [|b x Hb Hx]; [done|]. cbn. unfold plain in Hb. rewrite !andb_true_iff in Hb.
    by destruct Hb as [_ Hb%negb_true_iff].
  - destruct z as [|b z _] using rev_ind; [done|].
    replace (x ++ x20 :: y ++ x20 :: z ++ [b]) with ((x ++ x20 :: y ++ [x20]) ++ z ++ [b])
      by (rewrite <-app_assoc; cbn; by rewrite <-app_assoc). by apply white_end.
Qed.

(** C28: A line the recorder's own TLS client logs is accepted by the capture: it
    is one line, within the limits, not a comment, and parses as the label and
    the client random it was made from. *)
Theorem own_lines_accepted label client_random secret line
    (H : key_log_line label client_random secret = Some line) :
  exists record, line = record ++ [LF] /\ LF ∉ record /\ trim_end record = record /\ is_comment record = false /\
    nlen record <= MAX_LINE_BYTES /\
    parse_record record = Some (mkParsedRecord label (as_bytes (hex_encode client_random))).
Proof.
  unfold key_log_line in H. destruct (_ || _) eqn:E; [done|]. injection H as <-.
  rewrite !orb_false_iff, !negb_false_iff, !andb_true_iff, !N.leb_le in E. destruct E as [[Hl [H1 H2]] [H3 H4]].
  set (record := as_bytes _). exists record. split; [done|].
  assert (record = as_bytes label ++ x20 :: as_bytes (hex_encode client_random) ++ x20 :: as_bytes (hex_encode secret))
    as Er by (unfold record; by rewrite !as_bytes_app).
  pose proof (hex_encode_length client_random) as L1. pose proof (hex_encode_length secret) as L2. unfold str_len in L1, L2.
  assert (forall l, Forall (fun b => plain b = true) (as_bytes (hex_encode l))) as Hhex.
  { intros l. apply (all_plain is_lower_hex); [apply hex_plain|apply hex_encode_lower]. }
  assert (forall l m n, m <= nlen (as_bytes (hex_encode l)) -> nlen (as_bytes (hex_encode l)) <= n ->
    valid_hex (as_bytes (hex_encode l)) m n = true) as Hvalid.
  { intros l m n Hm Hn. unfold valid_hex. rewrite (proj2 (N.leb_le _ _) Hm), (proj2 (N.leb_le _ _) Hn).
    pose proof (hex_encode_length l) as L. unfold str_len in L. rewrite L, N.mul_comm, N.Div0.mod_mul. cbn.
    pose proof (hex_encode_lower l) as Hlow. unfold str_all in Hlow. rewrite forallb_forall in Hlow |- *.
    intros b Hb. by apply hex_digit, Hlow. }
  pose proof Hl as Hl'. unfold label_refused in Hl. rewrite !orb_false_iff, N.ltb_ge, negb_false_iff in Hl.
  destruct Hl as [[Hne Hlen] Hall]. unfold str_len in Hlen.
  destruct (three_fields (as_bytes label) (as_bytes (hex_encode client_random)) (as_bytes (hex_encode secret)))
    as (Hu & Hs & Hlf & Hc & Ht); try apply Hhex.
  { by apply (all_plain is_label_byte); [apply label_plain|]. }
  { intros E. apply (f_equal of_bytes) in E. rewrite of_as_bytes in E. by subst label. }
  { intros E. rewrite E in L1. unfold nlen in *. cbn in L1. lia. }
  { intros E. rewrite E in L2. unfold nlen in *. cbn in L2. lia. }
  rewrite Er. split_and!; try done.
  - rewrite nlen_app, nlen_cons, nlen_app, nlen_cons, L1, L2. unfold MAX_LINE_BYTES. lia.
  - unfold parse_record. rewrite Hu, Hs, of_as_bytes, Hl', !Hvalid by lia. done.
Qed.
End Written.

(** ** Witnesses *)

Module KeylogExamples.
Import Concrete ConcreteSerde CryptoExamples.
#[local] Instance no_erasures : SerdeErasure := {| erasure_to_vec _ := None; erasure_from_slice _ := None |}.

Definition random : bytes := replicate 32 xaa.
Definition secret : bytes := replicate 16 xbb.
Definition line : bytes := default [] (key_log_line "CLIENT_RANDOM" random secret).

Lemma own_lines_accepted_witness :
  exists record, line = record ++ [LF] /\
    parse_record record = Some (mkParsedRecord "CLIENT_RANDOM" (as_bytes (hex_encode random))).
Proof.
  destruct (own_lines_accepted "CLIENT_RANDOM" random secret line eq_refl) as (record & H1 & _ & _ & _ & _ & H2).
  exists record. split; [exact H1|exact H2].
Defined.

(** An encrypted run, a comment, a secret in two reads, and the secret again. *)
Definition config : StoreConfig := mkStoreConfig default_policy (Some key) None.
Definition start : RunState := mkRunState (mkStore (mkRunDir ∅ None ∅) 0 0 0 0) [] 3 0.
Definition draw (n : nat) : bytes * string * PersistFaults :=
  (nonce, temporary_name "7" "u", mkFaults false None false false false).
Definition run : Run := mkRun config "run" (fun _ => 0%Z) N.of_nat (fun _ => false) (fun n _ => Sequenced (N.of_nat n)) draw.
Lemma drawn n : exists nonce pid uuid faults, rn_draw run n = (nonce, temporary_name pid uuid, faults) /\ nlen nonce = 24.
Proof. by eexists _, _, _, _. Qed.

Definition wakeups : list (list FifoRead) :=
  [[Bytes (as_bytes "# keys" ++ [LF]); Bytes (take 20 line)]; [Bytes (drop 20 line ++ line); Bytes [x20]]].
Definition captured : io_result unit * RunState * list FifoRead := capture run start wakeups.

Lemma captured_ok : capture run start wakeups = (Ok tt, captured.1.2, []).
Proof. vm_compute. reflexivity. Qed.
Lemma captured_drops : rs_drops captured.1.2 = rs_drops start.
Proof. vm_compute. reflexivity. Qed.
Lemma start_consistent : consistent config (st_dir (rs_blobs start)).
Proof. done. Qed.

Lemma keylog_capture_accounted_witness :
  length (rs_events captured.1.2) = 1%nat /\
  exists used lines rest entries, concat wakeups = used ++ [] /\ data_of used = join_log lines ++ rest /\
    rs_events captured.1.2 = rs_events start ++ (event_of run <$> entries) /\
    Forall (fun en => parse_record (en_record en) = Some (en_parsed en) /\
              readable run (st_dir (rs_blobs captured.1.2)) (en_raw en) (en_record en)) entries.
Proof.
  split; [vm_compute; reflexivity|].
  destruct (keylog_capture_accounted run drawn start wakeups captured.1.2 []
              start_consistent ltac:(vm_compute; reflexivity) captured_ok captured_drops)
    as (used & lines & rest & entries & H1 & H2 & _ & _ & H3 & _ & H4 & _).
  exists used, lines, rest, entries. split; [exact H1|]. split; [exact H2|]. split; [exact H3|exact H4].
Defined.
End KeylogExamples.
