(* ===== verification/AuditLog.v ===== *)
(** * src/audit.rs: the hash-chained audit log

    One JSON record per line; each record carries the hash of the previous
    one and its own.  [append] verifies the whole log under an exclusive lock
    before it writes.  The record-count limit is an argument of the generic
    definitions, [MAX_AUDIT_RECORDS] in the ones the program calls. *)

From Stdlib Require Import Strings.Byte.
From S2P Require Import Prelude RustStd External Json Input Model Crypto EventLog EventLogSpec.
From stdpp Require Import options.
Local Open Scope N_scope.
#[local] Unset Default Proof Using.

Definition MAX_AUDIT_RECORD_BYTES : N := 16 * 1024.
Definition MAX_AUDIT_RECORDS : N := 10000000.

Record AuditRecord := mkAuditRecord {
  a_schema_version : N;
  a_sequence : N;
  a_event_id : Uuid;
  a_wall_time : DateTime;
  a_effective_uid : N;
  a_process_id : N;
  a_action : string;
  a_outcome : string;
  a_run_id : string;
  a_details : option Value;
  a_previous_sha256 : option string;
  a_record_sha256 : string;
}.

(** What [append] reads from its environment. *)
Record AuditContext := mkAuditContext {
  ctx_event_id : Uuid;
  ctx_wall_time : DateTime;
  ctx_uid : N;
  ctx_pid : N;
}.

Class SerdeAudit := {
  audit_to_vec : AuditRecord -> option bytes;
  audit_from_slice : bytes -> option AuditRecord;
}.

Class SerdeAuditLaws `{!SerdeAudit} := {
  audit_roundtrip : forall r b, audit_to_vec r = Some b -> audit_from_slice b = Some r;
  audit_text : forall r b, audit_to_vec r = Some b -> LF ∉ b /\ b <> [];
}.

Inductive AuditMatch :=
| Request (action outcome request_id : string)
| Run (action outcome run_id : string).

Record AuditScan := mkAuditScan {
  scan_records : N;
  scan_last_record : option AuditRecord;
}.

Section Audit.
Context {dig : Digest} {hx : Hex} {serde : SerdeAudit}.

(** ** Validation *)

Definition validate_label (name value : string) : result string unit :=
  ensure (negb (str_is_empty value) && (str_len value <=? 256)
          && negb (str_any (fun b => beqb b x00 || beqb b CR || beqb b LF) value))
    ("audit " +:+ name +:+ " is empty, too long, or contains delimiters").

Definition validate_hash (value : string) : result string unit :=
  match str_strip_prefix "sha256:" value with
  | None => Err "audit hash has no sha256 prefix"
  | Some hash =>
      ensure ((str_len hash =? 64) && str_all is_ascii_hexdigit hash) "audit hash is invalid"
  end.

Definition validate_record (r : AuditRecord) : result string unit :=
  ensure (a_schema_version r =? 1) "unsupported audit schema";;
  ensure (0 <? a_sequence r) "audit sequence must be positive";;
  ensure (negb (uuid_is_nil (a_event_id r))) "audit event ID must not be nil";;
  validate_label "action" (a_action r);;
  validate_label "outcome" (a_outcome r);;
  validate_label "run ID" (a_run_id r);;
  validate_hash (a_record_sha256 r);;
  match a_previous_sha256 r with Some previous => validate_hash previous | None => Ok tt end.

Definition with_hash (r : AuditRecord) (hash : string) : AuditRecord :=
  mkAuditRecord (a_schema_version r) (a_sequence r) (a_event_id r) (a_wall_time r)
    (a_effective_uid r) (a_process_id r) (a_action r) (a_outcome r) (a_run_id r) (a_details r)
    (a_previous_sha256 r) hash.

Definition record_hash (r : AuditRecord) : result string string :=
  canonical ← ok_or (audit_to_vec (with_hash r "")) "serialization";
  Ok ("sha256:" +:+ hex_encode (sha256 canonical)).

(** ** [verify_locked_file_matching] *)

Definition matches (target : AuditMatch) (r : AuditRecord) : bool :=
  match target with
  | Request action outcome request_id =>
      str_eqb (a_action r) action && str_eqb (a_outcome r) outcome
      && bool_decide (((a_details r ≫= get "request_id") ≫= as_str) = Some request_id)
  | Run action outcome run_id =>
      str_eqb (a_action r) action && str_eqb (a_outcome r) outcome && str_eqb (a_run_id r) run_id
  end.

(** The variables of the loop. *)
Record VerifyState := mkVerifyState {
  v_previous_hash : option string;
  v_records : N;
  v_last_record : option AuditRecord;
  v_matched : bool;
}.

Definition verify_start : VerifyState := mkVerifyState None 0 None false.

(** The loop body after a line was read and its newline removed. *)
Definition verify_line (max_records : N) (target : option AuditMatch) (s : VerifyState)
    (line : bytes) : result string VerifyState :=
  ensure (negb (bool_decide (line = [])) && (nlen line <=? MAX_AUDIT_RECORD_BYTES))
    "audit record is empty or exceeds its safety limit";;
  map_err error_message (validate_json_complexity line);;
  record ← ok_or (audit_from_slice line) "JSON";
  validate_record record;;
  let records := sat_add (v_records s) 1 in
  ensure (records <=? max_records) "audit log exceeds the record-count safety limit";;
  ensure (a_sequence record =? records) "audit sequence is not contiguous";;
  ensure (bool_decide (a_previous_sha256 record = v_previous_hash s)) "audit hash chain is broken";;
  hash ← record_hash record;
  ensure (str_eqb (a_record_sha256 record) hash) "audit record hash mismatch";;
  Ok (mkVerifyState (Some (a_record_sha256 record)) records (Some record)
        (v_matched s || match target with Some t => matches t record | None => false end)).

(** Every round that continues consumed a line. *)
Fixpoint verify_loop (fuel : nat) (max_records : N) (target : option AuditMatch)
    (reader : bytes) (s : VerifyState) : result string VerifyState :=
  match fuel with
  | O => Ok s
  | S fuel' =>
      let '(line, rest) := read_until_lf (MAX_AUDIT_RECORD_BYTES + 2) reader in
      if bool_decide (line = []) then Ok s
      else
        ensure (ends_with_lf line) "audit log ends with an incomplete record";;
        s ← verify_line max_records target s (removelast line);
        verify_loop fuel' max_records target rest s
  end.

Definition verify_matching_with (max_records : N) (file : bytes) (target : option AuditMatch)
    : result string (AuditScan * bool) :=
  s ← verify_loop (S (length file)) max_records target file verify_start;
  Ok (mkAuditScan (v_records s) (v_last_record s), v_matched s).

Definition verify_locked_file_matching := verify_matching_with MAX_AUDIT_RECORDS.

Definition verify_locked_file (file : bytes) : result string AuditScan :=
  '(scan, _) ← verify_locked_file_matching file None; Ok scan.

(** [verify]: the number of records and the last hash of a valid log. *)
Definition verify (file : option bytes) : result string (N * option string) :=
  file ← ok_or file "no such file";
  scan ← verify_locked_file file;
  Ok (scan_records scan, a_record_sha256 <$> scan_last_record scan).

(** ** [append] *)

(** The record [append] builds on a verified log. *)
Definition next_record (previous : option AuditRecord) (ctx : AuditContext)
    (action outcome run_id : string) (details : option Value) : result string AuditRecord :=
  sequence ← match previous with
             | None => Ok 1
             | Some r => ok_or (checked_add (a_sequence r) 1) "audit sequence overflow"
             end;
  let record := mkAuditRecord 1 sequence (ctx_event_id ctx) (ctx_wall_time ctx) (ctx_uid ctx)
    (ctx_pid ctx) action outcome run_id details (a_record_sha256 <$> previous) "" in
  hash ← record_hash record;
  Ok (with_hash record hash).

(** [fault = Some n] makes the write stop after [n] bytes.  The result comes
    with the file afterwards. *)
Definition append_with (max_records : N) (file : bytes) (ctx : AuditContext)
    (action outcome run_id : string) (details : option Value) (fault : option N)
    : result string AuditRecord * bytes :=
  let prepared :=
    validate_label "action" action;;
    validate_label "outcome" outcome;;
    validate_label "run ID" run_id;;
    '(scan, _) ← verify_matching_with max_records file None;
    record ← next_record (scan_last_record scan) ctx action outcome run_id details;
    validate_record record;;
    text ← ok_or (audit_to_vec record) "serialization";
    map_err error_message (validate_json_complexity text);;
    ensure (nlen text <=? MAX_AUDIT_RECORD_BYTES) "audit record exceeds the safety limit";;
    Ok (record, text ++ [LF]) in
  match prepared with
  | Err e => (Err e, file)
  | Ok (record, data) =>
      match fault with
      | None => (Ok record, file ++ data)
      | Some n => (Err "write failed", file ++ ntake (N.min n (nlen data - 1)) data)
      end
  end.

Definition append := append_with MAX_AUDIT_RECORDS.

(** ** Searches *)

Definition has_record (file : option bytes) (target : AuditMatch) : result string bool :=
  match file with
  | None => Ok false
  | Some file => '(_, matched) ← verify_locked_file_matching file (Some target); Ok matched
  end.

Definition has_request_record (file : option bytes) (action outcome request_id : string)
    : result string bool :=
  validate_label "action" action;;
  validate_label "outcome" outcome;;
  validate_label "request ID" request_id;;
  has_record file (Request action outcome request_id).

Definition has_run_record (file : option bytes) (action outcome run_id : string)
    : result string bool :=
  validate_label "action" action;;
  validate_label "outcome" outcome;;
  validate_label "run ID" run_id;;
  has_record file (Run action outcome run_id).

(** ** The log as a list of records *)

Section Laws.
Context {hxl : HexLaws} {serdel : SerdeAuditLaws}.
Implicit Types (max : N) (t : option AuditMatch).

Lemma ends_with_lf_inv l : ends_with_lf l = true -> exists x, l = x ++ [LF] /\ removelast l = x.
Proof.
  unfold ends_with_lf. intros H%bool_decide_eq_true. apply last_Some in H as [x ->].
  exists x. split; [done|]. by rewrite removelast_last.
Qed.

Lemma verify_loop_sound fuel max t reader s s' :
  (length reader < fuel)%nat -> verify_loop fuel max t reader s = Ok s' ->
  exists lines, reader = join_log lines /\ Forall (fun line => LF ∉ line) lines /\
    try_fold (verify_line max t) s lines = Ok s'.
Proof.
  revert reader s. induction fuel as [|fuel IH]; intros reader s Hf H; [lia|]. cbn [verify_loop] in H.
  destruct (read_until_lf (MAX_AUDIT_RECORD_BYTES + 2) reader) as [line rest] eqn:E.
  case_bool_decide as Hl.
  - subst line. apply read_until_lf_nil in E as ->; [|done]. inv_ok. by exists [].
  - apply bind_ok in H as (u & Hend & H). apply bind_ok in H as (s1 & Hline & H).
    apply ensure_ok, ends_with_lf_inv in Hend as (x & -> & Hx). rewrite Hx in Hline.
    pose proof (read_until_lf_inner _ _ _ _ x E eq_refl) as Hlf.
    apply read_until_lf_app in E as ->. rewrite !length_app in Hf. cbn in Hf.
    destruct (IH rest s1) as (lines & -> & Hls & Hfold); [lia|done|].
    exists (x :: lines). split_and!; [by rewrite join_log_cons, <-app_assoc|by constructor|].
    cbn [try_fold]. by rewrite Hline.
Qed.

Lemma verify_loop_fold fuel max t lines s tail :
  Forall (fun line => LF ∉ line) lines -> Forall (fun line => nlen line <= MAX_AUDIT_RECORD_BYTES) lines ->
  (length lines < fuel)%nat -> LF ∉ tail -> nlen tail <= MAX_AUDIT_RECORD_BYTES ->
  verify_loop fuel max t (join_log lines ++ tail) s =
    (s' ← try_fold (verify_line max t) s lines;
     if bool_decide (tail = []) then Ok s' else Err "audit log ends with an incomplete record").
Proof.
  intros Hlf. revert fuel s. induction Hlf as [|line lines Hl Hls IH]; intros fuel s Hlen Hf Ht Htl;
    (destruct fuel as [|fuel]; [cbn in Hf; lia|]); cbn [verify_loop].
  - cbn [join_log map concat app try_fold mbind result_bind].
    rewrite read_until_lf_tail by (done || lia).
    case_bool_decide; [done|]. by rewrite ends_with_lf_tail.
  - apply Forall_cons in Hlen as [Hn Hlen]. rewrite join_log_cons, <-app_assoc. cbn [app].
    rewrite read_until_lf_line by (done || lia). rewrite line_not_nil, ends_with_lf_line, removelast_last.
    cbn [ensure mbind result_bind try_fold].
    destruct (verify_line max t s line); cbn [mbind result_bind]; [|done].
    apply IH; try done. cbn in Hf. lia.
Qed.

(** What a verified line is. *)
Lemma verify_line_ok max t s line s' :
  verify_line max t s line = Ok s' ->
  exists r, audit_from_slice line = Some r /\ nlen line <= MAX_AUDIT_RECORD_BYTES /\
    a_sequence r = sat_add (v_records s) 1 /\ sat_add (v_records s) 1 <= max /\
    a_previous_sha256 r = v_previous_hash s /\ record_hash r = Ok (a_record_sha256 r) /\
    s' = mkVerifyState (Some (a_record_sha256 r)) (sat_add (v_records s) 1) (Some r)
           (v_matched s || match t with Some t => matches t r | None => false end).
Proof.
  unfold verify_line. intros H. inv_ok. reflect_N.
  repeat match goal with H : bool_decide _ = true |- _ => apply bool_decide_eq_true in H end.
  match goal with H : str_eqb _ _ = true |- _ => apply str_eqb_true in H as <- end.
  exists x1. by split_and!.
Qed.

(** The records of a file. *)
Definition log_of (file : bytes) (rs : list AuditRecord) : Prop :=
  exists lines, file = join_log lines /\ Forall (fun line => LF ∉ line) lines /\
    Forall2 (fun line r => audit_from_slice line = Some r) lines rs.

(** The chain: sequence numbers, previous hashes and own hashes. *)
Fixpoint chained (previous : option string) (n : N) (rs : list AuditRecord) : Prop :=
  match rs with
  | [] => True
  | r :: rs' =>
      a_sequence r = sat_add n 1 /\ a_previous_sha256 r = previous /\
      record_hash r = Ok (a_record_sha256 r) /\
      chained (Some (a_record_sha256 r)) (sat_add n 1) rs'
  end.

Lemma verify_fold_ok max t lines s s' :
  try_fold (verify_line max t) s lines = Ok s' ->
  exists rs, Forall2 (fun line r => audit_from_slice line = Some r) lines rs /\
    Forall (fun line => nlen line <= MAX_AUDIT_RECORD_BYTES) lines /\
    chained (v_previous_hash s) (v_records s) rs /\
    v_last_record s' = match last rs with Some r => Some r | None => v_last_record s end /\
    v_matched s' = v_matched s || match t with Some t => existsb (matches t) rs | None => false end.
Proof.
  revert s. induction lines as [|line lines IH]; cbn [try_fold]; intros s H.
  { inv_ok. exists []. cbn. split_and!; try done. by destruct t; rewrite orb_false_r. }
  inv_ok. destruct (verify_line_ok _ _ _ _ _ H0) as (r & Hr & Hlen & Hseq & Hmax & Hprev & Hhash & ->).
  destruct (IH _ H) as (rs & Hrs & Hlens & Hch & Hlast & Hm).
  exists (r :: rs). cbn [v_previous_hash v_records v_last_record v_matched] in *.
  split_and!; [by constructor|by constructor|done| |].
  - rewrite Hlast, last_cons. by destruct (last rs).
  - rewrite Hm. cbn [existsb]. destruct t; [by rewrite orb_assoc|by rewrite !orb_false_r].
Qed.

Lemma log_of_functional file rs rs' : log_of file rs -> log_of file rs' -> rs = rs'.
Proof.
  intros (lines & -> & Hlf & H) (lines' & Heq & Hlf' & H').
  assert (lines = lines') as <-.
  { clear H H'. revert lines' Heq Hlf'. induction Hlf as [|x lines Hx Hlf IH]; intros [|y lines'] Heq Hy.
    - done.
    - rewrite join_log_cons in Heq. by destruct y.
    - rewrite join_log_cons in Heq. by destruct x.
    - apply Forall_cons in Hy as [Hy Hys]. rewrite !join_log_cons in Heq.
      assert (x = y /\ join_log lines = join_log lines') as [-> E].
      { pose proof (read_until_lf_line (nlen x + nlen y + 1) x (join_log lines) Hx ltac:(lia)) as E1.
        rewrite Heq, read_until_lf_line in E1 by (done || lia). injection E1 as E1 E2.
        by apply app_inj_tail in E1 as [-> _]. }
      f_equal. by apply IH. }
  revert rs' H'. induction H as [|line r lines rs Hr H IH]; inversion 1; subst; [done|].
  apply Forall_cons in Hlf as [_ Hlf]. f_equal; [congruence|]. by apply IH.
Qed.

Lemma verify_matching_ok max file t scan m :
  verify_matching_with max file t = Ok (scan, m) ->
  exists lines rs s, file = join_log lines /\ Forall (fun line => LF ∉ line) lines /\
    Forall (fun line => nlen line <= MAX_AUDIT_RECORD_BYTES) lines /\
    try_fold (verify_line max t) verify_start lines = Ok s /\
    Forall2 (fun line r => audit_from_slice line = Some r) lines rs /\ chained None 0 rs /\
    scan = mkAuditScan (v_records s) (v_last_record s) /\ v_last_record s = last rs /\
    m = match t with Some t => existsb (matches t) rs | None => false end.
Proof.
  unfold verify_matching_with. intros H. apply bind_ok in H as (s & Hs & H). inv_ok.
  apply verify_loop_sound in Hs as (lines & -> & Hlf & Hfold); [|lia].
  destruct (verify_fold_ok _ _ _ _ _ Hfold) as (rs & Hrs & Hlen & Hch & Hlast & Hm).
  exists lines, rs, s. cbn in Hlast, Hm. simplify_eq. split_and!; try done.
  rewrite Hlast. by destruct (last rs).
Qed.

(** The loop variables agree with the last record. *)
Definition verify_inv (s : VerifyState) : Prop :=
  v_previous_hash s = a_record_sha256 <$> v_last_record s /\
  match v_last_record s with Some r => a_sequence r = v_records s | None => v_records s = 0 end.

Lemma verify_fold_inv max t lines s :
  try_fold (verify_line max t) verify_start lines = Ok s -> verify_inv s.
Proof.
  intros H. refine (try_fold_inv verify_inv _ lines verify_start s _ _ H); [|by split].
  intros x line y _ _ Hy. destruct (verify_line_ok _ _ _ _ _ Hy) as (r & _ & _ & Hseq & _ & _ & _ & ->).
  by split.
Qed.

Lemma record_hash_with_hash r h : record_hash (with_hash r h) = record_hash r.
Proof. done. Qed.

Lemma next_record_ok s ctx action outcome run_id details record :
  verify_inv s -> next_record (v_last_record s) ctx action outcome run_id details = Ok record ->
  a_sequence record = v_records s + 1 /\ a_previous_sha256 record = v_previous_hash s /\
  record_hash record = Ok (a_record_sha256 record) /\ v_records s + 1 <= u64_max.
Proof.
  intros [Hprev Hseq] H. unfold next_record in H.
  apply bind_ok in H as (n & Hn & H). apply bind_ok in H as (hash & Hhash & H). inv_ok.
  cbn [with_hash a_sequence a_previous_sha256 a_record_sha256]. rewrite Hprev.
  assert (n = v_records s + 1 /\ v_records s + 1 <= u64_max) as [-> Hmax].
  { destruct (v_last_record s) as [r|].
    - apply ok_or_ok, checked_add_Some in Hn as [-> Hn]. by rewrite Hseq in *.
    - inv_ok. rewrite Hseq. done. }
  split_and!; try done.
Qed.

Lemma append_with_ok max file ctx action outcome run_id details fault record file' :
  append_with max file ctx action outcome run_id details fault = (Ok record, file') ->
  fault = None /\ exists scan text,
    verify_matching_with max file None = Ok (scan, false) /\
    next_record (scan_last_record scan) ctx action outcome run_id details = Ok record /\
    validate_record record = Ok tt /\ audit_to_vec record = Some text /\
    validate_json_complexity text = Ok tt /\ nlen text <= MAX_AUDIT_RECORD_BYTES /\
    file' = file ++ text ++ [LF].
Proof.
  unfold append_with. intros H. destruct (validate_label "action" action;; _) as [[r data]|e] eqn:E; [|done].
  destruct fault; [done|]. injection H as -> <-. split; [done|]. inv_ok.
  destruct x2 as [scan m]. inv_ok. simplify_eq. reflect_N.
  repeat match goal with u : unit |- _ => destruct u end.
  match goal with H : audit_to_vec _ = Some ?text |- _ => exists scan, text end.
  split_and!; try done.
  destruct (verify_matching_ok _ _ _ _ _ H2) as (? & ? & ? & _ & _ & _ & _ & _ & _ & _ & _ & ->). done.
Qed.

(** One more line on a verified log. *)
Lemma verify_append max t lines s line :
  Forall (fun line => LF ∉ line) (lines ++ [line]) ->
  Forall (fun line => nlen line <= MAX_AUDIT_RECORD_BYTES) (lines ++ [line]) ->
  try_fold (verify_line max t) verify_start lines = Ok s ->
  verify_matching_with max (join_log (lines ++ [line])) t =
    (s' ← verify_line max t s line; Ok (mkAuditScan (v_records s') (v_last_record s'), v_matched s')).
Proof.
  intros Hlf Hlen Hs. unfold verify_matching_with.
  rewrite <-(app_nil_r (join_log (lines ++ [line]))) at 2.
  rewrite verify_loop_fold; try done.
  - rewrite try_fold_app, Hs. cbn [mbind result_bind try_fold].
    destruct (verify_line max t s line); done.
  - pose proof (join_log_length (lines ++ [line])). lia.
  - apply not_elem_of_nil.
Qed.

Lemma append_line_facts max file ctx action outcome run_id details fault record file' :
  append_with max file ctx action outcome run_id details fault = (Ok record, file') ->
  exists lines s text, file = join_log lines /\ file' = join_log (lines ++ [text]) /\
    Forall (fun line => LF ∉ line) (lines ++ [text]) /\
    Forall (fun line => nlen line <= MAX_AUDIT_RECORD_BYTES) (lines ++ [text]) /\
    try_fold (verify_line max None) verify_start lines = Ok s /\
    verify_matching_with max file None = Ok (mkAuditScan (v_records s) (v_last_record s), false) /\
    verify_line max None s text =
      (if v_records s + 1 <=? max
       then Ok (mkVerifyState (Some (a_record_sha256 record)) (v_records s + 1) (Some record) false)
       else Err "audit log exceeds the record-count safety limit").
Proof.
  intros H. apply append_with_ok in H as (_ & scan & text & Hv & Hn & Hval & Hvec & Hc & Hlen & ->).
  pose proof (verify_matching_ok _ _ _ _ _ Hv) as
    (lines & rs & s & -> & Hlf & Hls & Hfold & _ & _ & -> & _ & _).
  destruct (audit_text _ _ Hvec) as [Htlf Hne].
  destruct (next_record_ok s _ _ _ _ _ _ (verify_fold_inv _ _ _ _ Hfold) Hn) as (Hseq & Hprev & Hhash & Hmax).
  exists lines, s, text. split_and!; try done.
  - rewrite join_log_app. f_equal. unfold join_log. cbn. by rewrite app_nil_r.
  - apply Forall_app; by split; [|constructor].
  - apply Forall_app; by split; [|constructor].
  - unfold verify_line. rewrite bool_decide_eq_false_2, (proj2 (N.leb_le _ _) Hlen) by done.
    cbn [negb andb ensure mbind result_bind]. rewrite Hc. cbn [map_err mbind result_bind].
    rewrite (audit_roundtrip _ _ Hvec). cbn [ok_or mbind result_bind]. rewrite Hval.
    cbn [mbind result_bind]. rewrite sat_add_exact by done.
    destruct (v_records s + 1 <=? max); cbn [ensure mbind result_bind]; [|done].
    rewrite Hseq, N.eqb_refl, Hprev, bool_decide_eq_true_2 by done. cbn [ensure mbind result_bind].
    rewrite Hhash. cbn [mbind result_bind]. rewrite (proj2 (str_eqb_true _ _)) by done.
    destruct (verify_fold_ok _ _ _ _ _ Hfold) as (_ & _ & _ & _ & _ & Hm). by rewrite Hm.
Qed.

Lemma append_unverified max file error ctx action outcome run_id details fault :
  verify_matching_with max file None = Err error ->
  exists e, append_with max file ctx action outcome run_id details fault = (Err e, file).
Proof.
  intros Hv. unfold append_with. rewrite Hv.
  destruct (validate_label "action" action), (validate_label "outcome" outcome),
    (validate_label "run ID" run_id); cbn; eauto.
Qed.

(** ** Appending *)

(** A successful append extends the file by one line, and a log below the
    record limit stays verifiable: it has one record more, the last one being
    the record returned. *)
Theorem append_verifies max file ctx action outcome run_id details record file' scan m :
  append_with max file ctx action outcome run_id details None = (Ok record, file') ->
  verify_matching_with max file None = Ok (scan, m) -> scan_records scan < max ->
  file `prefix_of` file' /\
  verify_matching_with max file' None =
    Ok (mkAuditScan (scan_records scan + 1) (Some record), false).
Proof.
  intros H Hv Hmax.
  destruct (append_line_facts _ _ _ _ _ _ _ _ _ _ H)
    as (lines & s & text & -> & -> & Hlf & Hlen & Hfold & Hv' & Hline).
  rewrite Hv' in Hv. injection Hv as <- <-. cbn [scan_records] in *. split.
  - rewrite join_log_app. by apply prefix_app_r.
  - rewrite (verify_append _ _ _ s) by done. rewrite Hline, (proj2 (N.leb_le _ _)) by lia.
    done.
Qed.

(** [append] does not check the record limit that verification enforces:
    on a log that already holds the maximal number of records it still
    succeeds, and the log it leaves no longer verifies, so that every later
    append and search fails. *)
Theorem append_past_limit max file ctx action outcome run_id details record file' scan m :
  append_with max file ctx action outcome run_id details None = (Ok record, file') ->
  verify_matching_with max file None = Ok (scan, m) -> scan_records scan = max ->
  verify_matching_with max file' None = Err "audit log exceeds the record-count safety limit" /\
  forall ctx' action' outcome' run_id' details' fault,
    exists e, append_with max file' ctx' action' outcome' run_id' details' fault = (Err e, file').
Proof.
  intros H Hv Hmax.
  destruct (append_line_facts _ _ _ _ _ _ _ _ _ _ H)
    as (lines & s & text & -> & -> & Hlf & Hlen & Hfold & Hv' & Hline).
  rewrite Hv' in Hv. injection Hv as <- <-. cbn [scan_records] in *.
  assert (verify_matching_with max (join_log (lines ++ [text])) None
    = Err "audit log exceeds the record-count safety limit") as Hbad.
  { rewrite (verify_append _ _ _ s) by done. by rewrite Hline, (proj2 (N.leb_gt _ _)) by lia. }
  split; [done|]. intros. by eapply append_unverified.
Qed.

(** A write that fails after part of the record leaves a log that is never
    extended again: verification reports the incomplete record, and every
    later append fails and leaves the file as it is. *)
Theorem torn_append_stops max file ctx action outcome run_id details n e file' :
  append_with max file ctx action outcome run_id details (Some n) = (Err e, file') ->
  file' <> file ->
  verify_matching_with max file' None = Err "audit log ends with an incomplete record" /\
  forall ctx' action' outcome' run_id' details' fault,
    exists e', append_with max file' ctx' action' outcome' run_id' details' fault = (Err e', file').
Proof.
  intros H Hne.
  assert (verify_matching_with max file' None = Err "audit log ends with an incomplete record") as Hbad.
  { destruct (append_with max file ctx action outcome run_id details None) as [[record|e0] f0] eqn:E.
    2:{ exfalso. unfold append_with in H, E.
        destruct (validate_label "action" action;; _) as [[? ?]|]; [done|]. by simplify_eq. }
    destruct (append_line_facts _ _ _ _ _ _ _ _ _ _ E)
      as (lines & s & text & -> & -> & Hlf & Hlen & Hfold & Hv' & Hline).
    unfold append_with in H, E. destruct (validate_label "action" action;; _) as [[r data]|]; [|done].
    injection E as -> E. injection H as <- <-.
    rewrite join_log_app in E. apply app_inv_head in E.
    assert (data = text ++ [LF]) as -> by (by rewrite E; unfold join_log; cbn; rewrite app_nil_r).
    replace (nlen (text ++ [LF]) - 1) with (nlen text) in * by nlia.
    apply Forall_app in Hlf as [Hlf [Ht _]%Forall_cons]. apply Forall_app in Hlen as [Hlen [Htl _]%Forall_cons].
    set (tail := ntake (N.min n (nlen text)) (text ++ [LF])) in *.
    assert (tail `prefix_of` text) as [rest Hrest].
    { unfold tail. rewrite ntake_take, take_app_le by (unfold nlen; lia).
      eexists. symmetry. apply take_drop. }
    rewrite Hrest in Ht, Htl.
    unfold verify_matching_with. rewrite verify_loop_fold; try done.
    - rewrite Hfold. cbn [mbind result_bind]. rewrite bool_decide_eq_false_2; [done|].
      intros Hnil. apply Hne. by rewrite Hnil, app_nil_r.
    - pose proof (join_log_length lines). rewrite length_app. lia.
    - intros Hin. apply Ht, elem_of_app. by left.
    - nlia. }
  split; [done|]. intros. by eapply append_unverified.
Qed.

(** ** The head hash commits to the whole log *)

(** No two of these records have different canonical texts with one digest. *)
Definition collision_free (rs rs' : list AuditRecord) : Prop :=
  forall r r' a a', r ∈ rs -> r' ∈ rs' ->
    audit_to_vec (with_hash r "") = Some a -> audit_to_vec (with_hash r' "") = Some a' ->
    sha256 a = sha256 a' -> a = a'.

Lemma record_hash_inj rs rs' r r' :
  collision_free rs rs' -> r ∈ rs -> r' ∈ rs' ->
  record_hash r = Ok (a_record_sha256 r) -> record_hash r' = Ok (a_record_sha256 r') ->
  a_record_sha256 r = a_record_sha256 r' -> r = r'.
Proof.
  intros Hcf Hr Hr' H1 H2 Heq. unfold record_hash in H1, H2.
  apply bind_ok in H1 as (a & Ha & H1). apply bind_ok in H2 as (a' & Ha' & H2).
  apply ok_or_ok in Ha, Ha'. injection H1 as H1. injection H2 as H2.
  assert (a = a') as <-.
  { apply (Hcf r r'); try done. rewrite <-H1, <-H2 in Heq.
    apply (f_equal as_bytes) in Heq. rewrite !as_bytes_app in Heq.
    apply app_inv_head, as_bytes_inj, (f_equal hex_decode) in Heq.
    rewrite !hex_decode_encode in Heq. by injection Heq. }
  apply audit_roundtrip in Ha, Ha'. rewrite Ha in Ha'.
  assert (with_hash r "" = with_hash r' "") as E by (by apply (inj Some)).
  assert (forall q, q = with_hash (with_hash q "") (a_record_sha256 q)) as Hq by (by intros []).
  by rewrite (Hq r), (Hq r'), E, Heq.
Qed.

Lemma chained_snoc previous n rs r :
  chained previous n (rs ++ [r]) ->
  chained previous n rs /\ record_hash r = Ok (a_record_sha256 r) /\
  a_previous_sha256 r = match last rs with Some q => Some (a_record_sha256 q) | None => previous end.
Proof.
  revert previous n. induction rs as [|q rs IH]; cbn; intros previous n; [naive_solver|].
  intros (Hs & Hp & Hh & H). destruct (IH _ _ H) as (H1 & H2 & H3). split_and!; try done.
  rewrite H3. destruct rs as [|q' rs]; [done|]. cbn.
  destruct (last (q' :: rs)) eqn:E; [done|]. by apply last_None in E.
Qed.

Lemma chain_determined rs rs' :
  collision_free rs rs' -> chained None 0 rs -> chained None 0 rs' ->
  a_record_sha256 <$> last rs = a_record_sha256 <$> last rs' -> rs = rs'.
Proof.
  revert rs'. induction rs as [|r rs IH] using rev_ind; intros rs' Hcf Hc Hc' Hl.
  { destruct rs' as [|r' rs' _] using rev_ind; [done|]. by rewrite last_snoc in Hl. }
  destruct rs' as [|r' rs' _] using rev_ind; [by rewrite last_snoc in Hl|].
  rewrite !last_snoc in Hl. injection Hl as Hl.
  apply chained_snoc in Hc as (Hc & Hh & Hp), Hc' as (Hc' & Hh' & Hp').
  assert (r = r') as <- by (by eapply (record_hash_inj _ _ r r' Hcf); [set_solver..| | |]).
  f_equal. apply IH; [|done|done|].
  - intros x y a a' Hx Hy. apply Hcf; apply elem_of_app; by left.
  - rewrite Hp' in Hp. by destruct (last rs), (last rs').
Qed.

Lemma verify_ok file n h :
  verify (Some file) = Ok (n, h) ->
  exists rs, log_of file rs /\ chained None 0 rs /\ h = a_record_sha256 <$> last rs.
Proof.
  unfold verify, verify_locked_file, verify_locked_file_matching. cbn [ok_or mbind result_bind]. intros H.
  apply bind_ok in H as (scan & Hs & H). injection H as _ <-.
  apply bind_ok in Hs as ([scan' m] & Hs & E). injection E as <-.
  destruct (verify_matching_ok _ _ _ _ _ Hs)
    as (lines & rs & s & -> & Hlf & _ & _ & Hrs & Hch & -> & Hl & _).
  exists rs. split_and!; [by exists lines|done|]. cbn. by rewrite Hl.
Qed.

(** C22: Tamper evidence: a verified log is determined by the hash of its last
    record.  Two logs that both verify with the same last hash hold the same
    records, unless SHA-256 collides on two of the records themselves. *)
Theorem head_hash_commits file file' rs rs' n n' h :
  log_of file rs -> log_of file' rs' -> collision_free rs rs' ->
  verify (Some file) = Ok (n, h) -> verify (Some file') = Ok (n', h) -> rs = rs'.
Proof.
  intros Hl Hl' Hcf Hv Hv'.
  destruct (verify_ok _ _ _ Hv) as (rs1 & H1 & Hc1 & Hh1).
  destruct (verify_ok _ _ _ Hv') as (rs2 & H2 & Hc2 & Hh2).
  rewrite (log_of_functional _ _ _ Hl H1) in *. rewrite (log_of_functional _ _ _ Hl' H2) in *.
  apply chain_determined; try done. congruence.
Qed.

(** A search that succeeds on a log answers exactly whether one of its
    records matches the action, the outcome and the request or run. *)
Theorem search_exact file rs target found :
  log_of file rs -> has_record (Some file) target = Ok found ->
  found = existsb (matches target) rs.
Proof.
  intros Hl H. unfold has_record, verify_locked_file_matching in H.
  apply bind_ok in H as ([scan m] & Hs & H). inv_ok.
  destruct (verify_matching_ok _ _ _ _ _ Hs)
    as (lines & rs1 & s & -> & Hlf & _ & _ & Hrs & _ & _ & _ & ->).
  by rewrite (log_of_functional _ _ _ Hl ltac:(by exists lines)).
Qed.
End Laws.
End Audit.

(** ** Witnesses *)

Module AuditExamples.
Import Concrete ConcreteSerde.

#[export] Instance AuditRecord_eq_dec : EqDecision AuditRecord.
Proof. solve_decision. Defined.
(** A serializer of some records, given with their texts. *)
Section Table.
Context (table : list (AuditRecord * bytes)).

Definition table_serde : SerdeAudit := {|
  audit_to_vec r := snd <$> List.find (fun e => bool_decide (e.1 = r)) table;
  audit_from_slice b := fst <$> List.find (fun e => bool_decide (e.2 = b)) table;
|}.

Definition table_reads : Prop :=
  Forall (fun e => @audit_from_slice table_serde e.2 = Some e.1 /\ LF ∉ e.2 /\ e.2 <> []) table.
#[export] Instance table_reads_dec : Decision table_reads.
Proof. unfold table_reads. apply _. Defined.

Lemma table_laws : table_reads -> @SerdeAuditLaws table_serde.
Proof.
  unfold table_reads. rewrite Forall_forall. intros H. split; intros r b Hb; cbn [audit_to_vec table_serde] in Hb;
    destruct (List.find _ table) as [e|] eqn:E; try done; injection Hb as <-;
    apply find_some in E as [Hin%list_elem_of_In <-%bool_decide_eq_true]; by apply H in Hin as (? & ? & ?).
Qed.
End Table.

(** A record and its sealed form, with texts made from a number. *)
Definition sealed_as (r : AuditRecord) (text : bytes) : AuditRecord :=
  with_hash r ("sha256:" +:+ hex_encode (sha256 text)).
Definition entries (i : N) (r : AuditRecord) : list (AuditRecord * bytes) :=
  let text := be_bytes 1 (65 + 2 * i) in [(r, text); (sealed_as r text, be_bytes 1 (66 + 2 * i))].

Definition ctx : AuditContext := mkAuditContext 5 7%Z 0 1.
Definition erase_record : AuditRecord := mkAuditRecord 1 1 5 7%Z 0 1 "erase" "ok" "run" None None "".
Definition export_record : AuditRecord :=
  mkAuditRecord 1 2 5 7%Z 0 1 "export" "ok" "run" None
    (Some (a_record_sha256 (sealed_as erase_record (be_bytes 1 65)))) "".
Definition table : list (AuditRecord * bytes) := entries 0 erase_record ++ entries 1 export_record.
#[local] Instance serde_audit : SerdeAudit := table_serde table.
#[local] Instance serde_audit_laws : SerdeAuditLaws.
Proof. apply table_laws. apply (@bool_decide_unpack _ (table_reads_dec _)). vm_compute. exact I. Qed.
Definition first := append_with 2 [] ctx "erase" "ok" "run" None None.
Definition log1 : bytes := snd first.
Definition second := append_with 2 log1 ctx "export" "ok" "run" None None.
Definition log2 : bytes := snd second.

Definition scan_of (file : bytes) : AuditScan :=
  match verify_matching_with 2 file None with Ok (scan, _) => scan | Err _ => mkAuditScan 0 None end.
Definition record_of (r : result string AuditRecord * bytes) : AuditRecord :=
  match fst r with Ok record => record | Err _ => mkAuditRecord 0 0 0 0%Z 0 0 "" "" "" None None "" end.

Lemma append_verifies_witness :
  scan_records (scan_of log1) < 2 /\
  log1 `prefix_of` log2 /\
  verify_matching_with 2 log2 None =
    Ok (mkAuditScan (scan_records (scan_of log1) + 1) (Some (record_of second)), false).
Proof.
  assert (scan_records (scan_of log1) < 2) as H by (vm_compute; reflexivity).
  split; [exact H|].
  apply (append_verifies 2 log1 ctx "export" "ok" "run" None (record_of second) log2
    (scan_of log1) false); [vm_compute; reflexivity..|exact H].
Defined.

Lemma append_past_limit_witness :
  verify_matching_with 1 log2 None = Err "audit log exceeds the record-count safety limit" /\
  forall ctx' action' outcome' run_id' details' fault,
    exists e, append_with 1 log2 ctx' action' outcome' run_id' details' fault = (Err e, log2).
Proof.
  apply (append_past_limit 1 log1 ctx "export" "ok" "run" None (record_of second) log2
    (scan_of log1) false); vm_compute; reflexivity.
Defined.

Definition torn := append_with 2 log1 ctx "export" "ok" "run" None (Some 1).

Lemma torn_append_stops_witness :
  snd torn <> log1 /\
  verify_matching_with 2 (snd torn) None = Err "audit log ends with an incomplete record".
Proof.
  assert (snd torn <> log1) as H.
  { intros H. apply (f_equal nlen) in H. revert H. vm_compute. discriminate. }
  split; [exact H|].
  refine (proj1 (torn_append_stops 2 log1 ctx "export" "ok" "run" None 1 "write failed" _ _ H)).
  vm_compute. reflexivity.
Defined.

Lemma log1_of : log_of log1 [record_of first].
Proof.
  exists [removelast log1]. split_and!.
  - vm_compute. reflexivity.
  - constructor; [|constructor]. apply (bool_decide_unpack _). vm_compute. done.
  - constructor; [vm_compute; reflexivity|constructor].
Qed.

Definition hash1 : option string := a_record_sha256 <$> scan_last_record (scan_of log1).

Lemma head_hash_commits_witness :
  verify (Some log1) = Ok (1, hash1) /\ [record_of first] = [record_of first].
Proof.
  assert (verify (Some log1) = Ok (1, hash1)) as Hv by (vm_compute; reflexivity).
  split; [exact Hv|].
  apply (head_hash_commits log1 log1 _ _ 1 1 hash1 log1_of log1_of); [|exact Hv|exact Hv].
  intros r r' a a' ->%list_elem_of_singleton ->%list_elem_of_singleton Ha Ha' _. congruence.
Defined.

Lemma search_exact_witness : true = existsb (matches (Run "erase" "ok" "run")) [record_of first].
Proof.
  apply (search_exact log1 [record_of first] (Run "erase" "ok" "run") true log1_of).
  vm_compute. reflexivity.
Defined.
End AuditExamples.
