(* ===== verification/Sse.v ===== *)
(** * src/sse.rs: the incremental server-sent-events parser

    The proxy tees a provider response to the agent and feeds the same chunks
    to [SseParser::push].  The parser keeps the bytes of the unfinished event,
    cuts off an event at each blank line and decodes its fields. *)

From Stdlib Require Import Strings.Byte.
From S2P Require Import Prelude RustStd.
From stdpp Require Import options.

Definition DEFAULT_MAX_EVENT_BYTES : N := 8 * 1024 * 1024.

Record SseEvent := mkSseEvent {
  sse_raw : bytes;
  sse_event : option string;
  sse_id : option string;
  sse_retry_ms : option N;
  sse_data : bytes;
  sse_valid_utf8 : bool;
}.

Inductive SseError :=
| EventTooLarge (limit : N).

Record SseParser := mkSseParser {
  buffer : bytes;
  max_event_bytes : N;
}.

(** ** Operations *)

(** The scan of [find_event_end] from offset [index], with the count of line
    ends seen since the last other byte. *)
Fixpoint find_event_end_from (l : bytes) (index consecutive_line_ends : N) : option N :=
  match l with
  | [] => None
  | b :: l1 =>
      if beqb b CR then
        match l1 with
        | c :: l2 =>
            if beqb c LF then
              if 2 <=? consecutive_line_ends + 1 then Some (index + 2)
              else find_event_end_from l2 (index + 2) (consecutive_line_ends + 1)
            else if 2 <=? consecutive_line_ends + 1 then Some (index + 1)
            else find_event_end_from l1 (index + 1) (consecutive_line_ends + 1)
        | [] =>
            if 2 <=? consecutive_line_ends + 1 then Some (index + 1)
            else find_event_end_from l1 (index + 1) (consecutive_line_ends + 1)
        end
      else if beqb b LF then
        if 2 <=? consecutive_line_ends + 1 then Some (index + 1)
        else find_event_end_from l1 (index + 1) (consecutive_line_ends + 1)
      else find_event_end_from l1 (index + 1) 0
  end.

Definition find_event_end (l : bytes) : option N := find_event_end_from l 0 0.

(** The mutable locals of [parse_event]. *)
Record Fields := mkFields {
  f_event : option string;
  f_id : option string;
  f_retry_ms : option N;
  f_data_lines : list bytes;
  f_valid_utf8 : bool;
}.

Definition is_line_end (b : byte) : bool := beqb b LF || beqb b CR.
Definition colon : byte := x3a.

(** Field name and value of a line, split at the first colon; one space after
    the colon is dropped. *)
Definition field_value (line : bytes) : bytes * bytes :=
  match position (fun b => beqb b colon) line with
  | Some separator =>
      let value := ndrop (separator + 1) line in
      (ntake separator line,
       match value with
       | b :: value' => if beqb b x20 then value' else value
       | [] => value
       end)
  | None => (line, [])
  end.

Definition process_line (f : Fields) (line : bytes) : Fields :=
  if match line with [] => true | b :: _ => beqb b colon end then f
  else
    let '(field, value) := field_value line in
    if bool_decide (field = as_bytes "event") then
      match from_utf8 value with
      | Some text => mkFields (Some text) (f_id f) (f_retry_ms f) (f_data_lines f) (f_valid_utf8 f)
      | None => mkFields (f_event f) (f_id f) (f_retry_ms f) (f_data_lines f) false
      end
    else if bool_decide (field = as_bytes "id") then
      match from_utf8 value with
      | Some text =>
          if str_any (beqb x00) text
          then mkFields (f_event f) (f_id f) (f_retry_ms f) (f_data_lines f) false
          else mkFields (f_event f) (Some text) (f_retry_ms f) (f_data_lines f) (f_valid_utf8 f)
      | None => mkFields (f_event f) (f_id f) (f_retry_ms f) (f_data_lines f) false
      end
    else if bool_decide (field = as_bytes "retry") then
      mkFields (f_event f) (f_id f) (from_utf8 value ≫= parse_uint u64_max)
        (f_data_lines f) (f_valid_utf8 f)
    else if bool_decide (field = as_bytes "data") then
      mkFields (f_event f) (f_id f) (f_retry_ms f) (f_data_lines f ++ [value])
        (f_valid_utf8 f && utf8_valid value)
    else f.

(** Data lines joined by a line feed. *)
Fixpoint join_lines (lines : list bytes) : bytes :=
  match lines with
  | [] => []
  | [line] => line
  | line :: rest => line ++ LF :: join_lines rest
  end.

Definition parse_event (raw : bytes) : SseEvent :=
  let f := foldl process_line (mkFields None None None [] true) (split_on is_line_end raw) in
  mkSseEvent raw (f_event f) (f_id f) (f_retry_ms f) (join_lines (f_data_lines f))
    (f_valid_utf8 f).

(** The [while let] loop of [push] on buffer [buf]; every iteration removes at
    least two bytes, so [length buf] iterations are enough. *)
Fixpoint drain_events (fuel : nat) (limit : N) (buf : bytes) (output : list SseEvent)
    : result SseError (list SseEvent * bytes) :=
  match find_event_end buf with
  | None => Ok (output, buf)
  | Some end_ =>
      if limit <? end_ then Err (EventTooLarge limit)
      else match fuel with
      | O => Ok (output, buf)
      | S fuel' =>
          drain_events fuel' limit (ndrop end_ buf) (output ++ [parse_event (ntake end_ buf)])
      end
  end.

Definition push (p : SseParser) (chunk : bytes)
    : result SseError (list SseEvent) * SseParser :=
  let buf := buffer p ++ chunk in
  match drain_events (length buf) (max_event_bytes p) buf [] with
  | Err e => (Err e, mkSseParser [] (max_event_bytes p))
  | Ok (output, rest) =>
      if max_event_bytes p <? nlen rest
      then (Err (EventTooLarge (max_event_bytes p)), mkSseParser [] (max_event_bytes p))
      else (Ok output, mkSseParser rest (max_event_bytes p))
  end.

Definition new (max_event_bytes : N) : SseParser := mkSseParser [] max_event_bytes.
Definition default_parser : SseParser := new DEFAULT_MAX_EVENT_BYTES.

Definition finish (p : SseParser) : option bytes :=
  if bool_decide (buffer p = []) then None else Some (buffer p).

(** The chunk loop of the proxy, as far as the parser goes and while its events
    can be persisted: the events of a chunk are recorded as they come, and after
    an error the parser is gone and the remaining chunks are not parsed. *)
Fixpoint push_all (parser : option SseParser) (chunks : list bytes) : list SseEvent * option SseParser :=
  match chunks with
  | [] => ([], parser)
  | chunk :: chunks' =>
      match parser with
      | None => push_all None chunks'
      | Some p =>
          match push p chunk with
          | (Err _, _) => push_all None chunks'
          | (Ok events, p') =>
              let '(events', parser') := push_all (Some p') chunks' in (events ++ events', parser')
          end
      end
  end.

(** ** The scan *)

Lemma find_event_end_from_bounds l i c e :
  find_event_end_from l i c = Some e -> i < e <= i + nlen l.
Proof.
  revert i c e. induction l as [l IH] using (induction_ltof1 _ (@length byte)).
  unfold ltof in IH. intros i c e. destruct l as [|b l1]; cbn; [done|].
  assert (forall i' c', find_event_end_from l1 i' c' = Some e -> i' < e <= i' + nlen l1) as IH1
    by (intros i' c' ?; eapply (IH l1); [cbn; lia|done]).
  destruct (beqb b CR).
  - destruct l1 as [|d l2].
    + case_match; intros ?; simplify_eq; nlia.
    + assert (forall i' c', find_event_end_from l2 i' c' = Some e -> i' < e <= i' + nlen l2) as IH2
        by (intros i' c' ?; eapply (IH l2); [cbn; lia|done]).
      destruct (beqb d LF); case_match; intros H'; simplify_eq; try nlia.
      * apply IH2 in H'. nlia.
      * apply IH1 in H'. nlia.
  - destruct (beqb b LF); [case_match|]; intros H'; simplify_eq; try nlia;
      apply IH1 in H'; nlia.
Qed.

(** The bytes before an event end are an event on their own. *)
Lemma find_event_end_from_take l i c e :
  find_event_end_from l i c = Some e ->
  find_event_end_from (ntake (e - i) l) i c = Some e.
Proof.
  revert i c e. induction l as [l IH] using (induction_ltof1 _ (@length byte)).
  unfold ltof in IH. intros i c e H. destruct l as [|b l1]; [done|].
  pose proof (find_event_end_from_bounds _ _ _ _ H) as [Hi _].
  assert (forall j l', (length l' < length (b :: l1))%nat -> forall c',
    find_event_end_from l' (i + j) c' = Some e ->
    find_event_end_from (ntake (e - i - j) l') (i + j) c' = Some e) as IH'.
  { intros j l' Hl c' H'. apply IH in H'; [|done]. by replace (e - i - j) with (e - (i + j)) by lia. }
  cbn [ntake]. replace (e - i =? 0) with false by (symmetry; apply N.eqb_neq; lia).
  rewrite <-N.sub_1_r. cbn in H |- *.
  destruct (beqb b CR) eqn:EC.
  - destruct l1 as [|d l2]; [by cbn|]. destruct (beqb d LF) eqn:ED.
    + assert (i + 1 < e) as Hi2.
      { case_match; simplify_eq; [lia|].
        match goal with H : find_event_end_from _ _ _ = _ |- _ =>
          apply find_event_end_from_bounds in H end. lia. }
      cbn [ntake]. replace (e - i - 1 =? 0) with false by (symmetry; apply N.eqb_neq; lia).
      rewrite ED. case_match; [done|]. rewrite <-N.sub_1_r, <-N.sub_add_distr.
      apply IH'; [cbn; lia|done].
    + destruct (2 <=? c + 1) eqn:E2.
      * simplify_eq. by replace (i + 1 - i - 1) with 0 by lia.
      * apply IH' in H; [|cbn; lia]. cbn [ntake].
        destruct (e - i - 1 =? 0) eqn:E0; cbn [ntake] in H; rewrite E0 in H; [done|].
        by rewrite ED.
  - destruct (beqb b LF) eqn:EL; [case_match; [done|]|]; (apply IH'; [cbn; lia|done]).
Qed.

Lemma find_event_end_take l e :
  find_event_end l = Some e -> find_event_end (ntake e l) = Some (nlen (ntake e l)).
Proof.
  intros H. pose proof (find_event_end_from_bounds _ _ _ _ H) as Hb.
  apply find_event_end_from_take in H. rewrite N.sub_0_r in H.
  unfold find_event_end. rewrite H. f_equal. nlia.
Qed.

(** ** Segmentation: the specification of [push]

    [Segments buf raws rest]: the buffer is cut into the complete events
    [raws], in order, and the unfinished [rest]. *)

Inductive Segments : bytes -> list bytes -> bytes -> Prop :=
| Segments_done buf :
    find_event_end buf = None -> Segments buf [] buf
| Segments_step buf e raws rest :
    find_event_end buf = Some e ->
    Segments (ndrop e buf) raws rest ->
    Segments buf (ntake e buf :: raws) rest.

Definition fits (limit : N) (raw : bytes) : bool := nlen raw <=? limit.

Lemma fits_nil limit : fits limit [] = true.
Proof. apply N.leb_le, N.le_0_l. Qed.

Lemma Segments_total buf : exists raws rest, Segments buf raws rest.
Proof.
  induction buf as [buf IH] using (induction_ltof1 _ (@length byte)). unfold ltof in IH.
  destruct (find_event_end buf) as [e|] eqn:E; [|eauto using Segments].
  pose proof (find_event_end_from_bounds _ _ _ _ E) as Hb.
  destruct (IH (ndrop e buf)) as (raws & rest & H).
  { rewrite ndrop_drop, length_drop. unfold nlen in Hb. lia. }
  eauto using Segments.
Qed.

Lemma Segments_concat buf raws rest : Segments buf raws rest -> buf = concat raws ++ rest.
Proof.
  induction 1 as [|buf e raws rest _ _ IH]; [done|]. cbn. rewrite <-app_assoc, <-IH.
  by rewrite ntake_ndrop.
Qed.

Lemma Segments_complete buf raws rest :
  Segments buf raws rest ->
  Forall (fun raw => find_event_end raw = Some (nlen raw)) raws /\ find_event_end rest = None.
Proof. induction 1; naive_solver eauto using find_event_end_take. Qed.

Lemma Segments_unique buf raws rest raws' rest' :
  Segments buf raws rest -> Segments buf raws' rest' -> raws = raws' /\ rest = rest'.
Proof.
  intros H. revert raws'. induction H as [buf E|buf e raws rest E _ IH]; intros raws' H'.
  - inversion H'; subst; [done|congruence].
  - inversion H' as [|? e' ? ? E' H1]; subst; [congruence|]. rewrite E in E'. injection E' as <-.
    by destruct (IH _ H1) as [-> ->].
Qed.

(** [drain_events] computes the segmentation, or reports the limit when one
    of the events is larger; the fuel of [push] is enough. *)
Lemma drain_events_spec buf raws rest fuel limit out :
  Segments buf raws rest -> (length buf <= fuel)%nat ->
  drain_events fuel limit buf out =
    if forallb (fits limit) raws then Ok (out ++ map parse_event raws, rest)
    else Err (EventTooLarge limit).
Proof.
  intros H. revert fuel out. induction H as [buf E|buf e raws rest E H IH]; intros fuel out Hf.
  - destruct fuel; cbn; rewrite E; by rewrite app_nil_r.
  - pose proof (find_event_end_from_bounds _ _ _ _ E) as Hb. cbn [forallb map].
    replace (fits limit (ntake e buf)) with (e <=? limit)
      by (unfold fits; f_equal; nlia).
    destruct fuel as [|fuel]; [unfold nlen in Hb; lia|]. cbn [drain_events]. rewrite E.
    rewrite N.ltb_antisym. destruct (e <=? limit); cbn [negb andb]; [|done].
    rewrite IH, <-app_assoc; [done|].
    rewrite ndrop_drop, length_drop. unfold nlen in Hb. lia.
Qed.

Lemma push_spec p chunk raws rest :
  Segments (buffer p ++ chunk) raws rest ->
  push p chunk =
    let m := max_event_bytes p in
    if forallb (fits m) (raws ++ [rest]) then (Ok (map parse_event raws), mkSseParser rest m)
    else (Err (EventTooLarge m), mkSseParser [] m).
Proof.
  intros H. unfold push. rewrite (drain_events_spec _ _ _ _ _ _ H) by lia.
  cbn zeta. rewrite forallb_app. cbn [forallb]. rewrite andb_true_r. destruct (forallb _ raws); [|done].
  cbn. unfold fits. rewrite N.ltb_antisym. by destruct (_ <=? _).
Qed.

(** A buffer that is exactly one event. *)
Lemma push_single m r :
  find_event_end r = Some (nlen r) -> nlen r <= m -> push (new m) r = (Ok [parse_event r], new m).
Proof.
  intros He Hm. rewrite (push_spec (new m) r [r] []).
  - cbn. rewrite fits_nil. unfold fits. by rewrite (proj2 (N.leb_le _ _) Hm).
  - cbn. rewrite <-(ntake_all (nlen r) r) at 2 by lia. apply Segments_step; [done|].
    rewrite <-(app_nil_r r) at 2. rewrite ndrop_app_exact. by constructor.
Qed.

(** The parser state between two pushes. *)
Definition parser_inv (p : SseParser) : Prop :=
  find_event_end (buffer p) = None /\ nlen (buffer p) <= max_event_bytes p.

Lemma parser_inv_new m : parser_inv (new m).
Proof. split; [done|apply N.le_0_l]. Qed.

Lemma push_inv p chunk r p' :
  parser_inv p -> push p chunk = (r, p') -> parser_inv p' /\ max_event_bytes p' = max_event_bytes p.
Proof.
  intros _ H. destruct (Segments_total (buffer p ++ chunk)) as (raws & rest & HS).
  rewrite (push_spec _ _ _ _ HS) in H. cbn zeta in H.
  destruct (forallb _ _) eqn:E; simplify_eq; [|by repeat split; apply N.le_0_l].
  apply forallb_Forall, Forall_app in E as [_ E]. apply Forall_cons in E as [E _].
  apply N.leb_le in E. apply Segments_complete in HS as [_ HS]. done.
Qed.

(** An event the parser hands out: decoded from a complete block of at most
    the configured size. *)
Definition delivered (limit : N) (ev : SseEvent) : Prop :=
  ev = parse_event (sse_raw ev) /\
  find_event_end (sse_raw ev) = Some (nlen (sse_raw ev)) /\
  nlen (sse_raw ev) <= limit.

Lemma push_ok p chunk evs p' :
  push p chunk = (Ok evs, p') ->
  buffer p ++ chunk = concat (map sse_raw evs) ++ buffer p' /\
  Forall (delivered (max_event_bytes p)) evs.
Proof.
  intros H. destruct (Segments_total (buffer p ++ chunk)) as (raws & rest & HS).
  rewrite (push_spec _ _ _ _ HS) in H. cbn zeta in H.
  destruct (forallb _ _) eqn:E; simplify_eq. cbn.
  rewrite (Segments_concat _ _ _ HS), map_map. cbn. rewrite map_id. split; [done|].
  apply forallb_Forall, Forall_app in E as [E _]. apply Segments_complete in HS as [HS _].
  apply Forall_map. rewrite Forall_forall in E, HS |- *. intros raw Hin. cbn.
  specialize (E _ Hin). apply N.leb_le in E. split; [done|]. split; [|done]. by apply HS.
Qed.

Lemma push_all_None chunks : push_all None chunks = ([], None).
Proof. by induction chunks. Qed.

(** C27: The parser loses nothing: after any sequence of accepted chunks, the
    raw bytes of the delivered events followed by the pending buffer are the
    bytes received, in order; every delivered event is one complete block
    within the size limit with the fields [parse_event] reads from it; and the
    parser's invariant holds again. *)
Theorem push_all_lossless p chunks evs p' :
  parser_inv p -> push_all (Some p) chunks = (evs, Some p') ->
  buffer p ++ concat chunks = concat (map sse_raw evs) ++ buffer p' /\
  Forall (delivered (max_event_bytes p)) evs /\
  parser_inv p'.
Proof.
  revert p evs. induction chunks as [|chunk chunks IH]; cbn [push_all concat]; intros p evs Hp H.
  - simplify_eq. by rewrite app_nil_r.
  - destruct (push p chunk) as [[evs1|] p1] eqn:E1; [|by rewrite push_all_None in H].
    destruct (push_all (Some p1) chunks) as [evs2 p2] eqn:E2. simplify_eq.
    destruct (push_inv _ _ _ _ Hp E1) as [Hp1 Hm].
    apply push_ok in E1 as [Hc HF]. apply IH in E2 as (Hc2 & HF2 & Hp2); [|done].
    rewrite map_app, concat_app, app_assoc, Hc, <-app_assoc, Hc2, <-app_assoc, <-Hm.
    rewrite Hm in *. rewrite Forall_app. done.
Qed.

(** ** Independence from chunk boundaries *)

Definition no_CR (l : bytes) : Prop := Forall (fun b => beqb b CR = false) l.

(** Line ends at the end of a CR-free block. *)
Definition trailing_ends (c : N) (l : bytes) : N :=
  foldl (fun c b => if beqb b LF then c + 1 else 0) c l.

(** On CR-free input the scan of a concatenation resumes where the scan of
    the first part stopped. *)
Lemma find_event_end_from_app l k i c :
  no_CR l ->
  find_event_end_from (l ++ k) i c =
    match find_event_end_from l i c with
    | Some e => Some e
    | None => find_event_end_from k (i + nlen l) (trailing_ends c l)
    end.
Proof.
  intros Hl. revert i c. induction Hl as [|b l Hb Hl IH]; intros i c.
  - cbn. by rewrite N.add_0_r.
  - cbn [app find_event_end_from trailing_ends foldl]. rewrite Hb.
    destruct (beqb b LF); [case_match; [done|]|];
      rewrite IH; (case_match; [done|]); unfold trailing_ends; f_equal; nlia.
Qed.

Lemma find_event_end_app_Some l k e :
  no_CR l -> find_event_end l = Some e -> find_event_end (l ++ k) = Some e.
Proof. intros Hl H. unfold find_event_end in *. by rewrite find_event_end_from_app, H. Qed.

Lemma find_event_end_app_None l k e :
  no_CR l -> find_event_end l = None -> find_event_end (l ++ k) = Some e -> nlen l < e.
Proof.
  intros Hl H. unfold find_event_end in *. rewrite find_event_end_from_app, H by done.
  intros H'%find_event_end_from_bounds. lia.
Qed.

Lemma no_CR_ndrop e l : no_CR l -> no_CR (ndrop e l).
Proof. unfold no_CR. rewrite ndrop_drop. apply Forall_drop. Qed.

Lemma Segments_app a b raws rest raws' rest' :
  no_CR a -> Segments a raws rest -> Segments (rest ++ b) raws' rest' ->
  Segments (a ++ b) (raws ++ raws') rest'.
Proof.
  intros Ha H H'. induction H as [|a e raws rest E H IH]; [done|].
  pose proof (find_event_end_from_bounds _ _ _ _ E) as Hb.
  assert (ntake e a = ntake e (a ++ b)) as ->.
  { rewrite !ntake_take, take_app_le; [done|]. unfold nlen in Hb. lia. }
  cbn. apply Segments_step; [by apply find_event_end_app_Some|].
  replace (ndrop e (a ++ b)) with (ndrop e a ++ b)
    by (rewrite !ndrop_drop, drop_app_le; [done|unfold nlen in Hb; lia]).
  eauto using no_CR_ndrop.
Qed.

(** An unfinished block over the limit stays over the limit, however the
    stream goes on. *)
Lemma Segments_overflow r b raws rest limit :
  no_CR r -> find_event_end r = None -> limit < nlen r ->
  Segments (r ++ b) raws rest -> forallb (fits limit) (raws ++ [rest]) = false.
Proof.
  intros Hr E Hlim H. inversion H as [|? e ? ? E']; subst; cbn.
  - unfold fits. rewrite (proj2 (N.leb_gt _ _)); [done|]. nlia.
  - eapply find_event_end_app_None in E' as He; [|done..].
    unfold fits at 1. rewrite (proj2 (N.leb_gt _ _)); [done|].
    apply find_event_end_from_bounds in E'. nlia.
Qed.

(** Fed chunk by chunk, the parser delivers the events of the whole stream, or
    some of the first of them if one is too large. *)
Lemma push_all_segments p chunks raws rest :
  parser_inv p -> no_CR (buffer p ++ concat chunks) -> Segments (buffer p ++ concat chunks) raws rest ->
  let m := max_event_bytes p in
  if forallb (fits m) (raws ++ [rest])
  then push_all (Some p) chunks = (map parse_event raws, Some (mkSseParser rest m))
  else exists k, push_all (Some p) chunks = (map parse_event (take k raws), None).
Proof.
  cbn zeta. revert p raws rest. induction chunks as [|chunk chunks IH]; intros p raws rest Hp Hcr HSS; cbn [push_all concat] in *.
  { destruct Hp as [He Hl]. rewrite app_nil_r in HSS. inversion HSS as [|? e ? ? E]; subst; [|congruence].
    cbn. unfold fits. rewrite (proj2 (N.leb_le _ _) Hl). by destruct p. }
  rewrite app_assoc in Hcr. unfold no_CR in Hcr. apply Forall_app in Hcr as [Ha Hb].
  destruct (Segments_total (buffer p ++ chunk)) as (raws1 & rest1 & HS).
  destruct (Segments_total (rest1 ++ concat chunks)) as (raws2 & rest2 & HS2).
  assert (no_CR rest1) as Hrest.
  { rewrite (Segments_concat _ _ _ HS) in Ha. unfold no_CR. by apply Forall_app in Ha as [_ ?]. }
  pose proof (Segments_app _ _ _ _ _ _ Ha HS HS2) as H. rewrite <-app_assoc in H.
  destruct (Segments_unique _ _ _ _ _ HSS H) as [-> ->]. rewrite (push_spec _ _ _ _ HS). cbn zeta.
  rewrite !forallb_app. destruct (forallb (fits _) raws1) eqn:Eraws; cbn [andb].
  2: { exists 0%nat. by rewrite push_all_None. }
  destruct (forallb (fits _) [rest1]) eqn:Erest.
  - assert (parser_inv (mkSseParser rest1 (max_event_bytes p))) as Hp1.
    { split; [by apply Segments_complete in HS as [_ ?]|]. cbn in Erest |- *. rewrite andb_true_r in Erest.
      by apply N.leb_le. }
    specialize (IH _ raws2 rest2 Hp1 (proj2 (Forall_app _ _ _) (conj Hrest Hb)) HS2). cbn [max_event_bytes] in IH.
    rewrite forallb_app in IH. destruct (forallb _ raws2 && _); [by rewrite IH, map_app|].
    destruct IH as [k ->]. exists (length raws1 + k)%nat. by rewrite take_app_add, map_app.
  - cbn in Erest. rewrite andb_true_r in Erest. apply N.leb_gt in Erest.
    pose proof (Segments_overflow _ _ _ _ _ Hrest (proj2 (Segments_complete _ _ _ HS)) Erest HS2) as Hov.
    rewrite forallb_app in Hov. rewrite Hov. exists 0%nat. by rewrite push_all_None.
Qed.

(** C36: For streams that end their lines with LF alone, how the network cuts the
    stream into chunks decides neither whether it is accepted nor, if it is, the
    events and the fragment that is left: they are those of feeding the stream at
    once.  If the stream has an event that is too large, every way of cutting it
    ends without a parser, and what was recorded before are the first events of
    the stream, as many as the cuts let through. *)
Theorem push_all_chunk_invariant p chunks :
  parser_inv p -> no_CR (buffer p ++ concat chunks) ->
  match push p (concat chunks) with
  | (Ok events, p') => push_all (Some p) chunks = (events, Some p')
  | (Err _, _) => exists raws rest k, Segments (buffer p ++ concat chunks) raws rest /\
      push_all (Some p) chunks = (map parse_event (take k raws), None)
  end.
Proof.
  intros Hp Hcr. destruct (Segments_total (buffer p ++ concat chunks)) as (raws & rest & HS).
  pose proof (push_all_segments _ _ _ _ Hp Hcr HS) as H. rewrite (push_spec _ _ _ _ HS). cbn zeta in *.
  destruct (forallb _ _); [done|]. destruct H as [k Hk]. by exists raws, rest, k.
Qed.

(** ** Render / parse round trip

    [render_event] writes an event the way a conforming server does; it is the
    specification side of the round trip. *)

Definition render_field (name value : bytes) : bytes :=
  name ++ colon :: x20 :: value.

Definition render_lines (name : option string) (id : option string) (payload : bytes)
    : list bytes :=
  match name with Some t => [render_field (as_bytes "event") (as_bytes t)] | None => [] end ++
  match id with Some t => [render_field (as_bytes "id") (as_bytes t)] | None => [] end ++
  map (render_field (as_bytes "data")) (split_on (beqb LF) payload).

Definition terminate_lines (lines : list bytes) : bytes :=
  concat (map (fun line => line ++ [LF]) lines) ++ [LF].

Definition render_event (name id : option string) (payload : bytes) : bytes :=
  terminate_lines (render_lines name id payload).

Definition no_line_end (l : bytes) : Prop := Forall (fun b => is_line_end b = false) l.

(** A header text a server may send: UTF-8 on one line. *)
Definition header_text (t : string) : Prop :=
  no_line_end (as_bytes t) /\ utf8_valid (as_bytes t) = true.

Lemma join_split_lines l : join_lines (split_on (beqb LF) l) = l.
Proof.
  induction l as [|b l IH]; [done|]. cbn.
  pose proof (split_on_nonempty (beqb LF) l) as Hne.
  destruct (beqb LF b) eqn:E; destruct (split_on (beqb LF) l) as [|piece rest] eqn:Es; try done.
  - apply beqb_true in E as <-. cbn in IH |- *. by rewrite IH.
  - cbn in IH |- *. destruct rest; cbn in *; by rewrite <-IH.
Qed.

Lemma split_terminate_lines lines :
  Forall no_line_end lines ->
  split_on is_line_end (terminate_lines lines) = lines ++ [[]; []].
Proof.
  unfold terminate_lines. induction 1 as [|line lines Hl _ IH]; [done|].
  cbn. rewrite <-!app_assoc. cbn. rewrite split_on_app by done. by f_equal.
Qed.

Lemma field_value_render name value :
  Forall (fun b => beqb b colon = false) name ->
  field_value (render_field name value) = (name, value).
Proof.
  intros Hn. unfold field_value, render_field.
  rewrite (position_app (fun b => beqb b colon)) by done.
  rewrite ntake_app_exact. f_equal.
  replace (nlen name + 1) with (nlen (name ++ [colon])) by nlia.
  replace (name ++ colon :: x20 :: value) with ((name ++ [colon]) ++ x20 :: value)
    by by rewrite <-app_assoc.
  by rewrite ndrop_app_exact.
Qed.

Lemma from_utf8_text t : header_text t -> from_utf8 (as_bytes t) = Some t.
Proof. intros [_ H]. unfold from_utf8. by rewrite H, of_as_bytes. Qed.

Lemma render_field_head name value :
  Forall (fun b => beqb b colon = false) name -> name <> [] ->
  match render_field name value with [] => true | b :: _ => beqb b colon end = false.
Proof. destruct name as [|b name]; [done|]. by inversion 1. Qed.

(** Decide the field comparisons of a rendered line. *)
Ltac process_rendered :=
  match goal with |- context [process_line ?f (render_field ?n ?v)] =>
    unfold process_line;
    rewrite (render_field_head n v), (field_value_render n v) by (done || by repeat constructor)
  end;
  repeat first [rewrite (bool_decide_eq_true_2 _ eq_refl) | rewrite bool_decide_eq_false_2 by done].

Lemma process_event f t :
  header_text t ->
  process_line f (render_field (as_bytes "event") (as_bytes t)) =
    mkFields (Some t) (f_id f) (f_retry_ms f) (f_data_lines f) (f_valid_utf8 f).
Proof. intros Ht. process_rendered. by rewrite from_utf8_text. Qed.

Lemma process_id f t :
  header_text t -> str_any (beqb x00) t = false ->
  process_line f (render_field (as_bytes "id") (as_bytes t)) =
    mkFields (f_event f) (Some t) (f_retry_ms f) (f_data_lines f) (f_valid_utf8 f).
Proof. intros Ht Hz. process_rendered. by rewrite from_utf8_text, Hz. Qed.

Lemma process_data_lines values f :
  Forall (fun v => utf8_valid v = true) values ->
  foldl process_line f (map (render_field (as_bytes "data")) values) =
    mkFields (f_event f) (f_id f) (f_retry_ms f) (f_data_lines f ++ values) (f_valid_utf8 f).
Proof.
  intros Hv. revert f. induction Hv as [|v values Hv _ IH]; intros f; cbn [map foldl].
  - rewrite app_nil_r. by destruct f.
  - rewrite IH. process_rendered. cbn. by rewrite Hv, andb_true_r, <-app_assoc.
Qed.

Lemma no_line_end_render name value :
  no_line_end name -> no_line_end value -> no_line_end (render_field name value).
Proof.
  intros Hn Hv. unfold no_line_end, render_field. apply Forall_app. split; [done|].
  by repeat constructor.
Qed.

Lemma render_lines_ok name id payload :
  (forall t, name = Some t -> header_text t) ->
  (forall t, id = Some t -> header_text t) ->
  no_CR payload ->
  Forall no_line_end (render_lines name id payload) /\
  Forall (fun line => line <> []) (render_lines name id payload) /\
  render_lines name id payload <> [].
Proof.
  intros Hn Hi Hp. unfold render_lines.
  assert (Forall no_line_end (split_on (beqb LF) payload)) as Hs.
  { pose proof (split_on_Forall (beqb LF) payload) as Hs.
    rewrite Forall_forall in Hs |- *. intros piece Hin. specialize (Hs _ Hin).
    apply Forall_forall. intros b Hb.
    assert (b ∈ payload) as Hbp.
    { rewrite <-(join_split_lines payload). revert piece Hin Hs Hb.
      generalize (split_on (beqb LF) payload) as ls. clear. intros ls.
      induction ls as [|l ls IH]; intros piece Hin Hs Hb; [by apply elem_of_nil in Hin|].
      destruct ls as [|l' ls]; cbn [join_lines].
      - apply elem_of_cons in Hin as [->|[]%not_elem_of_nil]. done.
      - apply elem_of_cons in Hin as [->|Hin]; apply elem_of_app; [by left|right; right; eauto]. }
    unfold is_line_end. apply orb_false_iff. rewrite Forall_forall in Hs. split.
    - specialize (Hs _ Hb). cbn in Hs. by rewrite beqb_false in *.
    - unfold no_CR in Hp. rewrite Forall_forall in Hp. by apply Hp. }
  pose proof (split_on_nonempty (beqb LF) payload) as Hne.
  assert (no_line_end (as_bytes "data") /\ no_line_end (as_bytes "event") /\
    no_line_end (as_bytes "id")) as (? & ? & ?) by (repeat split; by repeat constructor).
  repeat split.
  - rewrite !Forall_app, Forall_map. repeat split.
    + destruct name as [t|]; [|constructor]. apply Forall_singleton, no_line_end_render; [done|by apply Hn].
    + destruct id as [t|]; [|constructor]. apply Forall_singleton, no_line_end_render; [done|by apply Hi].
    + eapply Forall_impl; [done|]. intros piece ?. by apply no_line_end_render.
  - rewrite !Forall_app, Forall_map. split; [by destruct name; repeat constructor|].
    split; [by destruct id; repeat constructor|]. by apply Forall_forall.
  - intros H'. apply app_nil in H' as [_ H']. apply app_nil in H' as [_ H'].
    by apply map_eq_nil in H'.
Qed.

Lemma find_event_end_skip line k i c :
  no_line_end line -> line <> [] ->
  find_event_end_from (line ++ k) i c = find_event_end_from k (i + nlen line) 0.
Proof.
  intros Hl. revert i c. induction Hl as [|b line Hb Hl IH]; intros i c; [done|]. intros _.
  unfold is_line_end in Hb. apply orb_false_iff in Hb as [Hb1 Hb2]. cbn. rewrite Hb1, Hb2.
  destruct line as [|b' line]; [done|]. rewrite IH by done. f_equal. nlia.
Qed.

Lemma find_event_end_line line k i c :
  no_line_end line -> line <> [] ->
  find_event_end_from (line ++ LF :: k) i c = find_event_end_from k (i + nlen line + 1) 1.
Proof. intros. by rewrite find_event_end_skip. Qed.

Lemma terminate_lines_cons line lines :
  terminate_lines (line :: lines) = line ++ LF :: terminate_lines lines.
Proof. unfold terminate_lines. cbn. by rewrite <-!app_assoc. Qed.

Lemma find_event_end_terminate lines i c :
  Forall no_line_end lines -> Forall (fun line => line <> []) lines -> lines <> [] ->
  find_event_end_from (terminate_lines lines) i c = Some (i + nlen (terminate_lines lines)).
Proof.
  intros H. revert i c. induction H as [|line lines Hl H IH]; intros i c Hne Hnil; [done|].
  apply Forall_cons in Hne as [Hne Hnes].
  rewrite terminate_lines_cons, find_event_end_line by done.
  destruct lines as [|line' lines].
  - cbn. f_equal. nlia.
  - rewrite IH by done. f_equal. nlia.
Qed.

(** An event written in the wire format (optional [id:] and [event:]
    lines, one [data:] line per line of the payload, a blank line) is read
    back as exactly one event with that name, identifier and payload, and the
    parser is left empty. *)
Theorem render_parse_roundtrip m name id payload :
  (forall t, name = Some t -> header_text t) ->
  (forall t, id = Some t -> header_text t /\ str_any (beqb x00) t = false) ->
  no_CR payload -> utf8_valid payload = true ->
  nlen (render_event name id payload) <= m ->
  push (new m) (render_event name id payload) =
    (Ok [mkSseEvent (render_event name id payload) name id None payload true], new m).
Proof.
  intros Hn Hi Hp Hu Hm.
  assert (forall t, id = Some t -> header_text t) as Hi' by (intros t Ht; by apply Hi).
  destruct (render_lines_ok name id payload Hn Hi' Hp) as (Hl & Hne & Hnil).
  set (r := render_event name id payload) in *.
  rewrite push_single; [|by apply find_event_end_terminate|done]. do 3 f_equal.
  unfold parse_event, r, render_event.
  rewrite split_terminate_lines, foldl_app by done. cbn [foldl process_line].
  unfold render_lines. rewrite !foldl_app, process_data_lines by by apply utf8_valid_split.
  destruct name as [t|], id as [u|]; cbn [foldl];
    rewrite ?process_id, ?process_event by naive_solver;
    cbn [f_event f_id f_retry_ms f_data_lines f_valid_utf8 app]; by rewrite join_split_lines.
Qed.

(** ** A stream cut between CR and LF *)

(** A CRLF stream that is complete leaves nothing pending when it arrives
    in one chunk, but a lone LF when a chunk ends between the CR and the LF of
    the blank line, which [finish] then reports as an incomplete event. *)
Theorem split_crlf_leaves_fragment m line :
  no_line_end line -> line <> [] -> nlen line + 4 <= m ->
  let stream := line ++ [CR; LF; CR; LF] in
  (snd (push_all (Some (new m)) [stream]) ≫= finish) = None /\
  (snd (push_all (Some (new m)) [line ++ [CR; LF; CR]; [LF]]) ≫= finish) = Some [LF].
Proof.
  intros Hl Hne Hm.
  assert (forall k, k = [CR; LF; CR; LF] \/ k = [CR; LF; CR] ->
    push (new m) (line ++ k) = (Ok [parse_event (line ++ k)], new m)) as Hpush.
  { intros k Hk. set (r := line ++ k).
    apply push_single; [|unfold r; destruct Hk as [-> | ->]; nlia].
    unfold find_event_end, r. destruct Hk as [-> | ->]; rewrite find_event_end_skip by done; cbn; f_equal; nlia. }
  cbn zeta. cbn [push_all]. rewrite !Hpush by tauto. split; [done|].
  rewrite (push_spec (new m) [LF] [] [LF]) by by constructor.
  cbn. unfold fits. by rewrite (proj2 (N.leb_le (nlen [LF]) m)) by (cbn; nlia).
Qed.

(** ** Witnesses *)

Definition sample_chunks : list bytes :=
  [as_bytes "event: m" ++ [LF] ++ as_bytes "data: a" ++ [LF]; as_bytes "data: b" ++ [LF; LF] ++ as_bytes "da"].

Lemma push_all_lossless_witness :
  exists evs p', push_all (Some (new 64)) sample_chunks = (evs, Some p') /\
    concat sample_chunks = concat (map sse_raw evs) ++ buffer p' /\
    Forall (delivered 64) evs /\ parser_inv p'.
Proof.
  eexists _, _. split; [vm_compute; reflexivity|].
  apply (push_all_lossless (new 64) sample_chunks); [apply parser_inv_new|vm_compute; reflexivity].
Defined.

(** The same chunks within a limit they fit in, and within one they do not. *)
Lemma push_all_chunk_invariant_witness :
  push_all (Some (new 64)) sample_chunks =
    (map parse_event [as_bytes "event: m" ++ [LF] ++ as_bytes "data: a" ++ [LF] ++ as_bytes "data: b" ++ [LF; LF]],
     Some (mkSseParser (as_bytes "da") 64)) /\
  exists raws rest k, Segments (concat sample_chunks) raws rest /\
    push_all (Some (new 20)) sample_chunks = (map parse_event (take k raws), None).
Proof.
  split.
  - apply (push_all_chunk_invariant (new 64) sample_chunks); [apply parser_inv_new|]. vm_compute. repeat constructor.
  - apply (push_all_chunk_invariant (new 20) sample_chunks); [apply parser_inv_new|]. vm_compute. repeat constructor.
Defined.

Lemma render_parse_roundtrip_witness :
  let payload := as_bytes "line one" ++ [LF] ++ as_bytes "line two" in
  push (new 128) (render_event (Some "delta") (Some "7") payload) =
    (Ok [mkSseEvent (render_event (Some "delta") (Some "7") payload) (Some "delta") (Some "7") None
           payload true], new 128).
Proof.
  apply (render_parse_roundtrip 128 (Some "delta") (Some "7")
           (as_bytes "line one" ++ [LF] ++ as_bytes "line two")).
  - intros t [= <-]. split; vm_compute; repeat constructor.
  - intros t [= <-]. repeat split; vm_compute; repeat constructor.
  - vm_compute. repeat constructor.
  - reflexivity.
  - vm_compute. discriminate.
Defined.

Lemma split_crlf_leaves_fragment_witness :
  (snd (push_all (Some (new 64)) [as_bytes "data: x" ++ [CR; LF; CR; LF]]) ≫= finish) = None /\
  (snd (push_all (Some (new 64)) [as_bytes "data: x" ++ [CR; LF; CR]; [LF]]) ≫= finish) = Some [LF].
Proof.
  apply (split_crlf_leaves_fragment 64 (as_bytes "data: x")).
  - vm_compute. repeat constructor.
  - discriminate.
  - vm_compute. discriminate.
Defined.
