(* ===== verification/Erasure.v ===== *)
(** * The class-erasure half of src/retention.rs

    Cryptographic erasure of one class of a run's payloads: an authenticated
    intent, the removal of the class key and of the ciphertext, an
    authenticated completion, with the audit log written along.  A procedure
    runs until it returns or the process is killed at one of its writes. *)

From Stdlib Require Import Strings.Byte.
From S2P Require Import Prelude RustStd Proc External Json Input Model ProbePlan Policy Crypto EventLog EventLogSpec Manifest BlobStore BlobStoreSpec AuditLog.
From stdpp Require Import pretty options.
Local Open Scope N_scope.
#[local] Unset Default Proof Using.

(** ** Procedures *)

Record World := mkWorld {
  w_manifest : option bytes;
  w_dir : RunDir;
  w_audit : option bytes;
}.

Notation proc := (Proc.proc World).

Definition message {A} : io_result A -> result string A := map_err error_message.

Definition with_dir (w : World) (d : RunDir) : World := mkWorld (w_manifest w) d (w_audit w).
Definition with_audit (w : World) (audit : bytes) : World := mkWorld (w_manifest w) (w_dir w) (Some audit).

Definition envelope (d : RunDir) (class : BlobClass) : option bytes :=
  rd_keys d ≫= fun keys => keys !! envelope_file_name class.

Definition remove_envelope (d : RunDir) (class : BlobClass) : RunDir :=
  mkRunDir (rd_blobs d) (delete (envelope_file_name class) <$> rd_keys d) (rd_retention d).

Definition remove_blob (d : RunDir) (name : string) : RunDir :=
  mkRunDir (delete name (rd_blobs d)) (rd_keys d) (rd_retention d).

(** What one call takes from its environment: the answers of the upload gate
    and of the lock, the identifier, the times and nonces it draws, what the
    three audit records note, and how much of a record is on disk when the
    process is killed while it writes it. *)
Record ErasureEnv := mkErasureEnv {
  en_gate : result string unit;
  en_lock_free : bool;
  en_operation_id : Uuid;
  en_requested_at : DateTime;
  en_completed_at : DateTime;
  en_intent_nonce : bytes;
  en_complete_nonce : bytes;
  en_intent_ctx : AuditContext;
  en_complete_ctx : AuditContext;
  en_request_ctx : AuditContext;
  en_torn : N;
}.

Record BlobClassErasureReport := mkErasureReport {
  er_run_id : string;
  er_class : BlobClass;
  er_operation_id : Uuid;
  er_request_id : option Uuid;
  er_recovered : bool;
  er_already_complete : bool;
  er_key_envelope_absent : bool;
  er_ciphertext_files_remaining : N;
  er_blob_files_erased : N;
  er_blob_storage_bytes_reclaimed : N;
  er_cryptographic_erasure_verified : bool;
  er_physical_media_erasure_guaranteed : bool;
}.

Definition erasure_report (run_id : string) (state : ClassErasureState) (request_id : option Uuid)
    (recovered already_complete : bool) (ciphertext_files_remaining : N) : BlobClassErasureReport :=
  mkErasureReport run_id (es_class state) (es_operation_id state) request_id recovered
    already_complete true ciphertext_files_remaining (es_blob_files state)
    (es_blob_storage_bytes state) true false.

(** [class_blob_files]: every entry must be the file of some class; the ones
    of this class with their sizes. *)
Definition class_blob_files (blobs : gmap string bytes) (class : BlobClass)
    : result string (list (string * N)) :=
  '(files, _) ← try_fold (fun '(files, entries) '(name, content) =>
    let entries := sat_add entries 1 in
    ensure (entries <=? MAX_BLOB_DIRECTORY_ENTRIES)
      "blob directory exceeds the 250000-entry erasure limit";;
    '(entry_class, _) ← map_err (fun _ => "unrecognized blob file blocks class erasure: " +:+ name)
                          (parse_blob_file_name name);
    ensure (match entry_class with Some _ => true | None => false end)
      "legacy blob file blocks class erasure";;
    Ok (if bool_decide (entry_class = Some class) then files ++ [(name, nlen content)] else files,
        entries)) ([], 0) (map_to_list blobs);
  Ok files.

(** The text of an identifier is the [uuid] crate's. *)
Class UuidDisplay := { uuid_to_string : Uuid -> string }.

Definition details_of {uuid : UuidDisplay} (state : ClassErasureState) (recovered : bool) : Value :=
  JObject [("blob_files", JNumber (PosInt (es_blob_files state)));
           ("blob_storage_bytes", JNumber (PosInt (es_blob_storage_bytes state)));
           ("class", JString (class_str (es_class state)));
           ("envelope_sha256", JString (es_envelope_sha256 state));
           ("physical_media_erasure_guaranteed", JBool false);
           ("recovered", JBool recovered);
           ("request_id", JString (uuid_to_string (es_operation_id state)))].

Definition request_details_of {uuid : UuidDisplay} (state : ClassErasureState) (request_id : Uuid) : Value :=
  JObject [("already_erased", JBool true);
           ("class", JString (class_str (es_class state)));
           ("original_operation_id", JString (uuid_to_string (es_operation_id state)));
           ("request_id", JString (uuid_to_string request_id))].

Section Erasure.
Context {dig : Digest} {hx : Hex} {b64 : Base64} {aead : Aead} {http : Http}
  {serde : Serde} {serdem : SerdeManifest} {serdee : SerdeErasure} {serdea : SerdeAudit}
  {uuid : UuidDisplay}.

Definition envelope_sha256 (encoded : bytes) : string := "sha256:" +:+ hex_encode (sha256 encoded).

(** The effective key of an encrypted run. *)
Definition effective_run_key (m : Manifest) (key : EncryptionKey) : result string EncryptionKey :=
  effective ← message (effective_encryption_key m (Some key));
  ok_or effective "class erasure requires encrypted storage".

(** The checks before anything is read for the class. *)
Definition check_run (w : World) (directory_name : string) (key : EncryptionKey) (env : ErasureEnv)
    : result string (Manifest * EncryptionKey) :=
  manifest ← message (read_manifest (w_manifest w));
  ensure (str_eqb (m_run_id manifest) directory_name) "manifest run ID does not match its directory";;
  ensure (negb (str_eqb (m_status manifest) "running")
          && match m_finished_at manifest with Some _ => true | None => false end)
    "class erasure requires a finalized run";;
  ensure (bool_decide ((sm_encryption (m_storage manifest) ≫= em_blob_key_management)
                       = Some BLOB_KEY_MANAGEMENT_V1))
    "class erasure requires a class-keyed encrypted run";;
  verified ← message (verify_authentication manifest (Some key));
  ensure (bool_decide (verified = Some true))
    "class erasure requires an authenticated encrypted manifest";;
  run_key ← effective_run_key manifest key;
  ensure (has_keyring (w_dir w)) "blob key directory is absent";;
  en_gate env;;
  ensure (en_lock_free env) "class erasure refuses an active writer";;
  Ok (manifest, run_key).

(** ** Audit records *)

(** [append] creates the log when it is absent; an absent log and an empty one
    read the same. *)
Definition append_record {W} (log : W -> option bytes) (with_log : W -> bytes -> W)
    (action outcome run_id : string) (details : Value) (ctx : AuditContext) (torn : N)
    : Proc.proc W unit :=
  update_or
    (fun w => match append (default [] (log w)) ctx action outcome run_id (Some details) None with
              | (Ok _, file) => Ok (with_log w file)
              | (Err e, _) => Err e
              end)
    (fun w => with_log w (append (default [] (log w)) ctx action outcome run_id (Some details) (Some torn)).2).

Definition append_audit : string -> string -> string -> Value -> AuditContext -> N -> proc unit :=
  append_record w_audit with_audit.

Definition ensure_erasure_audit (outcome run_id : string) (state : ClassErasureState)
    (recovered : bool) (ctx : AuditContext) (torn : N) : proc unit :=
  let request_id := uuid_to_string (es_operation_id state) in
  found ← look (fun w => has_request_record (w_audit w) "blob_class_erasure" outcome request_id);
  if found : bool then mret tt
  else
    (if str_eqb outcome "complete" then
       intent ← look (fun w => has_request_record (w_audit w) "blob_class_erasure" "intent" request_id);
       look (fun _ => ensure intent "class erasure completion has no matching audit intent")
     else mret tt);;
    append_audit "blob_class_erasure" outcome run_id (details_of state recovered) ctx torn.

Definition ensure_erasure_request_audit (run_id : string) (state : ClassErasureState)
    (request_id : option Uuid) (ctx : AuditContext) (torn : N) : proc unit :=
  match request_id with
  | None => mret tt
  | Some request_id =>
      if request_id =? es_operation_id state then mret tt
      else
        found ← look (fun w => has_request_record (w_audit w) "blob_class_erasure_request" "complete"
                                 (uuid_to_string request_id));
        if found : bool then mret tt
        else append_audit "blob_class_erasure_request" "complete" run_id
               (request_details_of state request_id) ctx torn
  end.

(** ** The operation *)

Definition persist_state (run_key : EncryptionKey) (nonce : bytes) (state : ClassErasureState)
    : proc unit :=
  update (fun w => d ← message (write_erasure_state (w_dir w) run_key nonce state); Ok (with_dir w d)).

Definition reread_state (run_key : EncryptionKey) (class : BlobClass) (missing : string)
    : proc ClassErasureState :=
  look (fun w => found ← message (read_erasure_state (w_dir w) run_key class); ok_or found missing).

(** The intent of a new erasure. *)
Definition new_intent (w : World) (run_key : EncryptionKey) (class : BlobClass)
    (request_id : option Uuid) (env : ErasureEnv) : result string ClassErasureState :=
  class_key ← message (load_class_key (w_dir w) run_key class);
  _ ← ok_or class_key "class key envelope cannot be authenticated";
  envelope ← message (read_regular_limited (default ∅ (rd_keys (w_dir w)))
                        (envelope_file_name class) MAX_WRAPPED_KEY_BYTES);
  files ← class_blob_files (rd_blobs (w_dir w)) class;
  blob_storage_bytes ← try_fold (fun total file =>
    ok_or (checked_add total (snd file)) "class blob storage size overflows u64") 0 files;
  Ok (mkErasureState 1 class Intent (default (en_operation_id env) request_id)
        (envelope_sha256 envelope) (nlen files) blob_storage_bytes (en_requested_at env) None).

Definition begin_erasure (run_key : EncryptionKey) (class : BlobClass) (request_id : option Uuid)
    (env : ErasureEnv) : proc ClassErasureState :=
  state ← look (fun w => new_intent w run_key class request_id env);
  persist_state run_key (en_intent_nonce env) state;;
  persisted ← reread_state run_key class "class erasure intent was not persisted";
  look (fun _ => ensure ((es_operation_id persisted =? es_operation_id state)
                         && str_eqb (es_envelope_sha256 persisted) (es_envelope_sha256 state))
                   "persisted class erasure intent changed");;
  mret state.

(** The removal of the key; the envelope must be the one of the intent. *)
Definition erase_key (class : BlobClass) (state : ClassErasureState) : proc unit :=
  present ← look (fun w =>
    match read_regular_limited (default ∅ (rd_keys (w_dir w))) (envelope_file_name class)
            MAX_WRAPPED_KEY_BYTES with
    | Ok envelope =>
        ensure (str_eqb (envelope_sha256 envelope) (es_envelope_sha256 state))
          "class key envelope changed after erasure intent";; Ok true
    | Err e => if bool_decide (error_kind e = NotFound) then Ok false else Err (error_message e)
    end);
  if present : bool then update (fun w => Ok (with_dir w (remove_envelope (w_dir w) class))) else mret tt.

Fixpoint remove_files (files : list (string * N)) : proc unit :=
  match files with
  | [] => mret tt
  | (name, _) :: files' =>
      update (fun w => Ok (with_dir w (remove_blob (w_dir w) name)));; remove_files files'
  end.

Definition require_erased (class : BlobClass) (retained_files retained_key : string) (w : World)
    : result string unit :=
  remaining ← class_blob_files (rd_blobs (w_dir w)) class;
  ensure (bool_decide (remaining = [])) retained_files;;
  ensure (bool_decide (envelope (w_dir w) class = None)) retained_key.

Definition completed (state : ClassErasureState) (at_ : DateTime) : ClassErasureState :=
  mkErasureState (es_schema_version state) (es_class state) PhaseComplete (es_operation_id state)
    (es_envelope_sha256 state) (es_blob_files state) (es_blob_storage_bytes state)
    (es_requested_at state) (Some at_).

Definition is_complete (state : ClassErasureState) : bool :=
  match es_phase state with PhaseComplete => true | Intent => false end.

(** After the removals: the completion and the receipt. *)
Definition conclude_erasure (run_id : string) (run_key : EncryptionKey) (class : BlobClass)
    (request_id : option Uuid) (env : ErasureEnv) (recovered : bool) (state : ClassErasureState)
    : proc BlobClassErasureReport :=
  persist_state run_key (en_complete_nonce env) state;;
  persisted ← reread_state run_key class "class erasure completion was not persisted";
  look (fun _ => ensure (is_complete persisted && (es_operation_id persisted =? es_operation_id state))
                   "persisted class erasure completion changed");;
  ensure_erasure_audit "complete" run_id state recovered (en_complete_ctx env) (en_torn env);;
  ensure_erasure_request_audit run_id state request_id (en_request_ctx env) (en_torn env);;
  mret (erasure_report run_id state request_id recovered false 0).

(** From the intent to the receipt. *)
Definition finish_erasure (run_id : string) (run_key : EncryptionKey) (class : BlobClass)
    (request_id : option Uuid) (env : ErasureEnv) (recovered : bool) (state : ClassErasureState)
    : proc BlobClassErasureReport :=
  look (fun _ => ensure (negb (is_complete state)) "invalid class erasure phase");;
  ensure_erasure_audit "intent" run_id state recovered (en_intent_ctx env) (en_torn env);;
  erase_key class state;;
  files ← look (fun w => class_blob_files (rd_blobs (w_dir w)) class);
  remove_files files;;
  look (require_erased class "class ciphertext deletion did not converge"
          "class key envelope deletion did not converge");;
  conclude_erasure run_id run_key class request_id env recovered
    (completed state (en_completed_at env)).

(** The answer for a class that is erased already. *)
Definition confirm_erasure (run_id : string) (class : BlobClass) (request_id : option Uuid)
    (env : ErasureEnv) (state : ClassErasureState) : proc BlobClassErasureReport :=
  look (fun w => ensure (bool_decide (envelope (w_dir w) class = None))
                   "completed class erasure unexpectedly retains its key envelope");;
  remaining ← look (fun w => class_blob_files (rd_blobs (w_dir w)) class);
  look (fun _ => ensure (bool_decide (remaining = [])) "completed class erasure retains ciphertext files");;
  ensure_erasure_audit "complete" run_id state true (en_complete_ctx env) (en_torn env);;
  ensure_erasure_request_audit run_id state request_id (en_request_ctx env) (en_torn env);;
  mret (erasure_report run_id state request_id true true 0).

Definition erase_blob_class_inner (directory_name : string) (class : BlobClass) (key : EncryptionKey)
    (request_id : option Uuid) (env : ErasureEnv) : proc BlobClassErasureReport :=
  '(manifest, run_key) ← look (fun w => check_run w directory_name key env);
  prior_state ← look (fun w => message (read_erasure_state (w_dir w) run_key class));
  match prior_state with
  | Some state =>
      if is_complete state then confirm_erasure (m_run_id manifest) class request_id env state
      else finish_erasure (m_run_id manifest) run_key class request_id env true state
  | None =>
      state ← begin_erasure run_key class request_id env;
      finish_erasure (m_run_id manifest) run_key class request_id env false state
  end.

Definition erase_blob_class (directory_name : string) (class : BlobClass) (key : EncryptionKey)
    (env : ErasureEnv) : proc BlobClassErasureReport :=
  erase_blob_class_inner directory_name class key None env.

Definition erase_blob_class_for_request (directory_name : string) (class : BlobClass)
    (key : EncryptionKey) (request_id : Uuid) (env : ErasureEnv) : proc BlobClassErasureReport :=
  look (fun _ => ensure (negb (uuid_is_nil request_id)) "class-erasure request ID is nil");;
  erase_blob_class_inner directory_name class key (Some request_id) env.

(** What serde_json documents for a state: what is written is read back, and
    the text of a valid state, whose fields are all bounded, is far below the
    64 KiB the reader accepts. *)
Class SerdeErasureLaws := {
  erasure_roundtrip : forall s b, erasure_to_vec s = Some b -> erasure_from_slice b = Some s;
  erasure_short : forall s b, erasure_to_vec s = Some b ->
    validate_erasure_state s (es_class s) = Ok tt -> nlen b <= 32 * 1024;
}.

(** ** The class of a file *)

Definition name_class (name : string) : option BlobClass :=
  match parse_blob_file_name name with Ok (class, _) => class | Err _ => None end.

Lemma class_files_fold class (l : list (string * bytes)) files n files' n' :
  try_fold (fun '(files, entries) '(name, content) =>
    let entries := sat_add entries 1 in
    ensure (entries <=? MAX_BLOB_DIRECTORY_ENTRIES)
      "blob directory exceeds the 250000-entry erasure limit";;
    '(entry_class, _) ← map_err (fun _ => "unrecognized blob file blocks class erasure: " +:+ name)
                          (parse_blob_file_name name);
    ensure (match entry_class with Some _ => true | None => false end)
      "legacy blob file blocks class erasure";;
    Ok (if bool_decide (entry_class = Some class) then files ++ [(name, nlen content)] else files,
        entries)) (files, n) l = Ok (files', n') ->
  Forall (fun '(name, _) => exists c h, parse_blob_file_name name = Ok (Some c, h)) l /\
  forall name, name ∈ files'.*1 <-> name ∈ files.*1 \/ name ∈ l.*1 /\ name_class name = Some class.
Proof.
  revert files n. induction l as [|[name content] l IH]; intros files n H.
  - injection H as -> ->. split; [constructor|]. intros name. rewrite elem_of_nil. tauto.
  - cbn [try_fold] in H. apply bind_ok in H as ([files1 n1] & H1 & H).
    apply bind_ok in H1 as (u & _ & H1). apply bind_ok in H1 as ([c h] & Hp & H1).
    apply map_err_ok in Hp. apply bind_ok in H1 as (u' & Hc & [= <- _]). apply ensure_ok in Hc.
    apply IH in H as [H Hn]. split; [constructor; [|done]; destruct c; [by eauto|done]|].
    intros x. rewrite Hn. cbn [fmap list_fmap fst]. rewrite elem_of_cons.
    assert (name_class name = c) as Hname by (unfold name_class; by rewrite Hp).
    case_bool_decide as E; [rewrite fmap_app, elem_of_app; cbn; rewrite list_elem_of_singleton|]; naive_solver.
Qed.

Lemma class_blob_files_ok blobs class files : class_blob_files blobs class = Ok files ->
  forall name, name ∈ files.*1 <-> is_Some (blobs !! name) /\ name_class name = Some class.
Proof.
  unfold class_blob_files. intros H name. apply bind_ok in H as ([files1 n1] & H & [= <-]).
  apply class_files_fold in H as [_ H]. rewrite H. cbn. rewrite elem_of_nil, list_elem_of_fmap.
  split.
  - intros [[]|[([name' content] & -> & Hin) Hc]]. apply elem_of_map_to_list in Hin. by eauto.
  - intros [[content Hn] Hc]. right. split; [|done]. exists (name, content).
    split; [done|]. by apply elem_of_map_to_list.
Qed.

Lemma class_blob_files_all blobs class files name content :
  class_blob_files blobs class = Ok files -> blobs !! name = Some content ->
  exists c h, parse_blob_file_name name = Ok (Some c, h).
Proof.
  unfold class_blob_files. intros H Hn. apply bind_ok in H as ([files1 n1] & H & _).
  apply class_files_fold in H as [H _]. rewrite Forall_forall in H.
  by apply elem_of_map_to_list, H in Hn.
Qed.

(** ** Audit records *)

Context {hxl : HexLaws} {serdeal : SerdeAuditLaws}.

Definition logged (file : bytes) (target : AuditMatch) : Prop :=
  exists rs, log_of file rs /\ existsb (matches target) rs = true.

Lemma has_request_logged file action outcome id :
  has_request_record file action outcome id = Ok true ->
  logged (default [] file) (Request action outcome id).
Proof.
  unfold has_request_record. intros H. do 3 apply bind_ok in H as (? & _ & H).
  unfold has_record in H. destruct file as [file|]; [|done].
  apply bind_ok in H as ([scan m] & Hs & [= ->]).
  destruct (verify_matching_ok _ _ _ _ _ Hs)
    as (lines & rs & st & -> & Hlf & _ & _ & Hrs & _ & _ & _ & Hm).
  exists rs. split; [by exists lines|done].
Qed.

(** The record that was appended is on the log, and so is what was before. *)
Lemma append_logged_as file ctx action outcome run_id details file' record :
  append file ctx action outcome run_id details None = (Ok record, file') ->
  file `prefix_of` file' /\
  (forall target, (forall r, a_action r = action -> a_outcome r = outcome -> a_run_id r = run_id ->
     a_details r = details -> matches target r = true) -> logged file' target) /\
  forall target, logged file target -> logged file' target.
Proof.
  intros H. apply append_with_ok in H as (_ & scan & text & Hv & Hn & Hval & Hvec & _ & _ & ->).
  destruct (verify_matching_ok _ _ _ _ _ Hv) as (lines & rs & st & -> & Hlf & _ & _ & Hrs & _).
  assert (log_of (join_log lines ++ text ++ [LF]) (rs ++ [record])) as Hlog.
  { exists (lines ++ [text]). destruct (audit_text _ _ Hvec) as [Htlf _]. split_and!.
    - rewrite join_log_app. f_equal. unfold join_log. cbn. by rewrite app_nil_r.
    - apply Forall_app; by split; [|constructor].
    - apply Forall2_app; [done|]. constructor; [by apply audit_roundtrip|constructor]. }
  split; [by eexists|]. split.
  - intros target Ht. exists (rs ++ [record]). split; [done|]. rewrite existsb_app. cbn [existsb].
    unfold next_record in Hn. apply bind_ok in Hn as (q & _ & Hn). apply bind_ok in Hn as (h & _ & [= <-]).
    rewrite Ht by done. by rewrite orb_true_r.
  - intros target (rs' & Hl & Hm). exists (rs ++ [record]). split; [done|].
    rewrite (log_of_functional _ _ _ Hl ltac:(by exists lines)) in Hm.
    by rewrite existsb_app, Hm.
Qed.

Lemma request_matches action outcome run_id details id : get "request_id" details ≫= as_str = Some id ->
  forall r, a_action r = action -> a_outcome r = outcome -> a_run_id r = run_id ->
    a_details r = Some details -> matches (Request action outcome id) r = true.
Proof.
  intros Hid r <- <- _ Hd. cbn [matches]. rewrite Hd. cbn [mbind option_bind].
  by rewrite !(proj2 (str_eqb_true _ _)), bool_decide_eq_true_2 by done.
Qed.

Lemma append_logged file ctx action outcome run_id details file' record id :
  append file ctx action outcome run_id (Some details) None = (Ok record, file') ->
  get "request_id" details ≫= as_str = Some id ->
  file `prefix_of` file' /\ logged file' (Request action outcome id) /\
  forall target, logged file target -> logged file' target.
Proof.
  intros H Hid. destruct (append_logged_as _ _ _ _ _ _ _ _ H) as (Hp & Hl & Hk).
  split; [done|]. split; [|done]. by apply Hl, request_matches.
Qed.

Lemma torn_append_prefix file ctx action outcome run_id details n :
  file `prefix_of` (append file ctx action outcome run_id details (Some n)).2.
Proof.
  unfold append, append_with. destruct (validate_label "action" action;; _) as [[r data]|e]; [|done].
  cbn. by eexists.
Qed.

(** ** Persisted states *)

Context {b64l : Base64Laws} {aeadl : AeadLaws} {serdeel : SerdeErasureLaws}.

Lemma erasure_file_name_inj c c' : erasure_file_name c = erasure_file_name c' -> c = c'.
Proof. by destruct c, c'. Qed.

Lemma envelope_file_name_inj c c' : envelope_file_name c = envelope_file_name c' -> c = c'.
Proof. by destruct c, c'. Qed.

Lemma read_state_class d run_key class st :
  read_erasure_state d run_key class = Ok (Some st) -> es_class st = class.
Proof.
  unfold read_erasure_state. destruct (read_regular_limited _ _ _) as [encoded|e].
  2:{ by case_bool_decide. }
  intros H. do 2 apply bind_ok in H as (? & _ & H). apply bind_ok in H as ([] & Hv & [= ->]).
  unfold validate_erasure_state in Hv. apply bind_ok in Hv as (h & _ & Hv).
  destruct (bool_decide (es_class st = class)) eqn:E; [by apply bool_decide_eq_true in E|].
  by rewrite orb_true_r in Hv.
Qed.

Lemma written_state d run_key nonce st d' :
  nlen nonce = 24 -> write_erasure_state d run_key nonce st = Ok d' ->
  read_erasure_state d' run_key (es_class st) = Ok (Some st) /\
  rd_blobs d' = rd_blobs d /\ rd_keys d' = rd_keys d /\
  forall c, c <> es_class st -> rd_retention d' !! erasure_file_name c = rd_retention d !! erasure_file_name c.
Proof.
  unfold write_erasure_state. intros Hn H. apply bind_ok in H as ([] & Hv & H).
  apply bind_ok in H as (b & Hb & H). apply ok_or_ok in Hb. apply bind_ok in H as (encoded & He & [= <-]).
  split_and!; [|done|done|].
  - unfold read_erasure_state, read_regular_limited. cbn [rd_retention]. rewrite lookup_insert_eq.
    cbn [ok_or mbind result_bind]. pose proof (encrypt_framed_length _ _ _ _ _ _ Hn He) as Hl.
    rewrite (proj2 (N.ltb_ge _ _)).
    2:{ pose proof (erasure_short _ _ Hb Hv). change (nlen RETENTION_STATE_MAGIC) with 8 in Hl.
        unfold MAX_RETENTION_STATE_BYTES. lia. }
    unfold decrypt_retention_state, decrypt_framed.
    rewrite (decrypt_framed_encrypt _ _ _ _ _ _ _ Hn He). cbn [mbind result_bind].
    rewrite (erasure_roundtrip _ _ Hb). cbn [ok_or mbind result_bind]. by rewrite Hv.
  - intros c Hc. cbn [rd_retention]. rewrite lookup_insert_ne; [done|].
    intros E%erasure_file_name_inj. by subst.
Qed.

(** ** The protocol *)

Section Protocol.
Context (class : BlobClass) (run_key : EncryptionKey) (w0 : World).

Notation state_of w := (read_erasure_state (w_dir w) run_key class).

(** Neither the key nor any ciphertext of the class is left. *)
Definition gone (w : World) : Prop :=
  envelope (w_dir w) class = None /\
  forall name, name_class name = Some class -> rd_blobs (w_dir w) !! name = None.

(** A record of this operation was logged, whatever was written after it. *)
Definition recorded (outcome : string) (st : ClassErasureState) (w : World) : Prop :=
  exists file, file `prefix_of` default [] (w_audit w) /\
    logged file (Request "blob_class_erasure" outcome (uuid_to_string (es_operation_id st))).

Record protocol (w : World) : Prop := {
  pr_manifest : w_manifest w = w_manifest w0;
  pr_subset : rd_blobs (w_dir w) ⊆ rd_blobs (w_dir w0);
  pr_others : forall name, name_class name <> Some class ->
    rd_blobs (w_dir w) !! name = rd_blobs (w_dir w0) !! name;
  pr_keys : rd_keys (w_dir w) = rd_keys (w_dir w0) \/
    rd_keys (w_dir w) = delete (envelope_file_name class) <$> rd_keys (w_dir w0);
  pr_retention : forall c, c <> class ->
    rd_retention (w_dir w) !! erasure_file_name c = rd_retention (w_dir w0) !! erasure_file_name c;
  pr_audit : default [] (w_audit w0) `prefix_of` default [] (w_audit w);
  pr_ahead : rd_blobs (w_dir w) <> rd_blobs (w_dir w0) \/ rd_keys (w_dir w) <> rd_keys (w_dir w0) ->
    exists st, state_of w = Ok (Some st) /\ recorded "intent" st w;
  pr_complete : forall st, state_of w = Ok (Some st) -> is_complete st = true ->
    gone w \/ exists st0, state_of w0 = Ok (Some st0) /\ is_complete st0 = true;
}.

Lemma protocol_start : protocol w0.
Proof. split; try done; [by left|by intros [?|?]|]. intros st H1 H2. right. by exists st. Qed.

(** The stages of the operation. *)
Definition at_state (st : ClassErasureState) (w : World) : Prop :=
  protocol w /\ state_of w = Ok (Some st).

(** What an audit append keeps. *)
Definition audit_stable (P : World -> Prop) : Prop :=
  forall w file, default [] (w_audit w) `prefix_of` file -> P w -> P (with_audit w file).

Lemma recorded_stable outcome st : audit_stable (recorded outcome st).
Proof. intros w file Hp (f & Hf & Hl). exists f. split; [by etrans|done]. Qed.

Lemma stable_and (P Q : World -> Prop) :
  audit_stable P -> audit_stable Q -> audit_stable (fun w => P w /\ Q w).
Proof. intros HP HQ w file Hp [H1 H2]. split; [by apply HP|by apply HQ]. Qed.

(** A longer audit log changes nothing else. *)
Lemma protocol_audit w file :
  default [] (w_audit w) `prefix_of` file -> protocol w -> protocol (with_audit w file).
Proof.
  intros Hp [H1 H2 H3 H4 H5 H6 H7 H8]. split; try done.
  - cbn. by etrans.
  - intros Ht. destruct (H7 Ht) as (st & Hs & Hi). exists st. split; [done|].
    by apply recorded_stable.
Qed.

Lemma at_state_stable st : audit_stable (at_state st).
Proof. intros w file Hp [H1 H2]. split; [by apply protocol_audit|done]. Qed.

Lemma append_audit_holds P action outcome run_id details ctx torn id :
  audit_stable P -> (forall w, P w -> protocol w) -> get "request_id" details ≫= as_str = Some id ->
  holds P (append_audit action outcome run_id details ctx torn) protocol
    (fun _ w => P w /\ logged (default [] (w_audit w)) (Request action outcome id)).
Proof.
  intros Hst HP Hid. apply holds_update_or; [done|]. intros w w' Hw H.
  destruct (append _ _ _ _ _ _ None) as [[record|e] file] eqn:E; [|done]. injection H as <-.
  destruct (append_logged _ _ _ _ _ _ _ _ _ E Hid) as (Hp & Hl & _).
  split_and!; [by apply HP, Hst|by apply Hst|done|]. apply HP, Hst; [|done]. apply torn_append_prefix.
Qed.

Lemma ensure_audit_holds P outcome run_id st recovered ctx torn :
  audit_stable P -> (forall w, P w -> protocol w) ->
  holds P (ensure_erasure_audit outcome run_id st recovered ctx torn) protocol
    (fun _ w => P w /\ recorded outcome st w).
Proof.
  intros Hst HP. unfold ensure_erasure_audit. eapply holds_bind; [by apply holds_look|].
  intros [].
  - apply holds_ret. intros w [Hw Hf]. split; [by apply HP|]. split; [done|].
    eexists. split; [done|]. by apply has_request_logged.
  - eapply (holds_bind _ _ (fun _ => P)).
    2:{ intros _. eapply (holds_conseq P P); [done| |by apply (append_audit_holds P _ _ _ _ _ _
          (uuid_to_string (es_operation_id st)))].
        intros [] w [Hw Hl]. split; [done|]. by eexists. }
    destruct (str_eqb outcome "complete").
    + eapply holds_bind; [apply holds_look; by intros w [? _]; apply HP|]. intros intent.
      eapply holds_conseq; [| |by apply (holds_look P)]; cbn; naive_solver.
    + apply holds_ret. intros w [Hw _]. split; [by apply HP|done].
Qed.

Lemma request_audit_holds P run_id st request_id ctx torn :
  audit_stable P -> (forall w, P w -> protocol w) ->
  holds P (ensure_erasure_request_audit run_id st request_id ctx torn) protocol (fun _ => P).
Proof.
  intros Hst HP. assert (forall w, P w -> protocol w /\ P w) as HP2 by (intros w Hw; split; [by apply HP|done]).
  unfold ensure_erasure_request_audit. destruct request_id as [id|]; [|by apply holds_ret].
  destruct (id =? es_operation_id st); [by apply holds_ret|].
  eapply holds_bind; [by apply holds_look|]. intros [].
  - apply holds_ret. intros w [Hw _]. by apply HP2.
  - eapply holds_conseq; [| |by apply (append_audit_holds P)]; cbn; naive_solver.
Qed.

Lemma protocol_dir w d :
  protocol w -> rd_retention d = rd_retention (w_dir w) ->
  rd_blobs d ⊆ rd_blobs (w_dir w) ->
  (forall name, name_class name <> Some class -> rd_blobs d !! name = rd_blobs (w_dir w) !! name) ->
  rd_keys d = rd_keys (w_dir w) \/ rd_keys d = delete (envelope_file_name class) <$> rd_keys (w_dir w) ->
  (exists st, state_of w = Ok (Some st) /\ recorded "intent" st w /\ is_complete st = false) ->
  protocol (with_dir w d).
Proof.
  intros [H1 H2 H3 H4 H5 H6 H7 H8] Hr Hs Ho Hk (st & Hst & Hi & Hc).
  assert (state_of (with_dir w d) = Ok (Some st)) as Hst'
    by (unfold read_erasure_state in *; cbn; by rewrite Hr).
  split; cbn; [done|by etrans| | | |done| |].
  - intros name Hn. by rewrite Ho, H3.
  - destruct H4 as [H4|H4], Hk as [Hk|Hk]; rewrite Hk, H4; [by left|by right|by right|right].
    destruct (rd_keys (w_dir w0)); [|done]. cbn. by rewrite delete_delete_eq.
  - intros c Hne. by rewrite Hr, H5.
  - intros _. exists st. split; [done|]. exact Hi.
  - intros st' E. change (state_of (with_dir w d) = Ok (Some st')) in E. rewrite Hst' in E. injection E as <-. by rewrite Hc.
Qed.

(** An incomplete erasure whose intent is on record. *)
Definition erasing (st : ClassErasureState) (w : World) : Prop :=
  (at_state st w /\ is_complete st = false) /\ recorded "intent" st w.

Lemma erasing_protocol st w : erasing st w -> protocol w.
Proof. by intros [[[H _] _] _]. Qed.

Lemma erasing_dir st w d :
  erasing st w -> rd_retention d = rd_retention (w_dir w) ->
  rd_blobs d ⊆ rd_blobs (w_dir w) ->
  (forall name, name_class name <> Some class -> rd_blobs d !! name = rd_blobs (w_dir w) !! name) ->
  rd_keys d = rd_keys (w_dir w) \/ rd_keys d = delete (envelope_file_name class) <$> rd_keys (w_dir w) ->
  erasing st (with_dir w d).
Proof.
  intros [[[H1 H2] Hc] H3] Hr Hs Ho Hk. split; [|exact H3]. split; [|done]. split.
  - apply protocol_dir; try done. by exists st.
  - unfold read_erasure_state in *. cbn. by rewrite Hr.
Qed.

Lemma erase_key_holds st : holds (erasing st) (erase_key class st) protocol (fun _ => erasing st).
Proof.
  unfold erase_key. eapply holds_bind; [apply holds_look; intros w; apply erasing_protocol|]. intros [].
  - apply holds_update; [intros w [H _]; by eapply erasing_protocol|].
    intros w w' [Hw _] [= <-]. assert (erasing st (with_dir w (remove_envelope (w_dir w) class))) as H.
    { apply erasing_dir; try done. by right. }
    split; [by eapply erasing_protocol|done].
  - apply holds_ret. intros w [Hw _]. split; [by eapply erasing_protocol|done].
Qed.

Lemma remove_files_holds st files :
  (forall name, name ∈ files.*1 -> name_class name = Some class) ->
  holds (erasing st) (remove_files files) protocol (fun _ => erasing st).
Proof.
  induction files as [|[name size] files IH]; intros Hf; cbn [remove_files].
  - apply holds_ret. intros w Hw. split; [by eapply erasing_protocol|done].
  - apply (holds_bind _ _ (fun _ => erasing st)); [|intros _; apply IH; intros x Hx; apply Hf; by right].
    apply holds_update; [intros w; apply erasing_protocol|]. intros w w' Hw [= <-].
    assert (erasing st (with_dir w (remove_blob (w_dir w) name))) as H.
    { apply erasing_dir; try done; cbn; [apply delete_subseteq| |by left].
      intros x Hx. apply lookup_delete_ne. intros E. apply Hx. rewrite <-E. apply Hf. left. }
    split; [by eapply erasing_protocol|done].
Qed.

Lemma none_left blobs : class_blob_files blobs class = Ok [] ->
  forall name, name_class name = Some class -> blobs !! name = None.
Proof.
  intros H name Hn. destruct (blobs !! name) as [content|] eqn:E; [|done]. exfalso.
  assert (name ∈ ([] : list (string * N)).*1) as Hin.
  { apply (class_blob_files_ok _ _ _ H). split; [by eexists|done]. }
  by apply elem_of_nil in Hin.
Qed.

Lemma require_erased_gone a b w : require_erased class a b w = Ok tt -> gone w.
Proof.
  unfold require_erased. intros H. apply bind_ok in H as (files & Hf & H).
  apply bind_ok in H as (u & Hn & H). apply ensure_ok, bool_decide_eq_true in Hn as ->.
  apply ensure_ok, bool_decide_eq_true in H. split; [done|]. by apply none_left.
Qed.

(** The class is erased, and the completion on disk. *)
Definition erased (st : ClassErasureState) (w : World) : Prop :=
  (at_state st w /\ is_complete st = true) /\ gone w.

Lemma erased_stable st : audit_stable (erased st).
Proof. intros w file Hp [[H1 H2] H3]. split; [|done]. split; [by apply at_state_stable|done]. Qed.

Lemma persist_complete_holds st nonce at_ : nlen nonce = 24 -> es_class st = class ->
  holds (fun w => erasing st w /\ gone w) (persist_state run_key nonce (completed st at_)) protocol
    (fun _ => erased (completed st at_)).
Proof.
  intros Hn Hc. apply holds_update; [by intros w [H%erasing_protocol _]|].
  intros w w' [[[[Hp Hs] Hi] Hr] Hg] H. apply bind_ok in H as (d & Hd & [= <-]).
  apply map_err_ok in Hd. apply written_state in Hd as (Hst & Hb & Hk & Hre); [|done].
  cbn [completed es_class] in Hst, Hre. rewrite Hc in Hst, Hre.
  assert (gone (with_dir w d)) as Hg'.
  { unfold gone, envelope in *. cbn. by rewrite Hb, Hk. }
  assert (protocol (with_dir w d)) as Hp'.
  { destruct Hp as [H1 H2 H3 H4 H5 H6 H7 H8]. split; cbn; rewrite ?Hb, ?Hk; try done.
    - intros c Hne. by rewrite Hre, H5.
    - intros _. exists (completed st at_). split; [done|]. exact Hr.
    - intros st' _ _. by left. }
  split; [done|]. split; [|done]. by split.
Qed.

(** What a receipt stands for. *)
Definition receipt (report : BlobClassErasureReport) (w : World) : Prop :=
  er_class report = class /\
  exists st, es_operation_id st = er_operation_id report /\ erased st w /\ recorded "complete" st w.

Lemma audits_holds run_id st request_id recovered ctx1 ctx2 torn a b : es_class st = class ->
  holds (erased st)
    (ensure_erasure_audit "complete" run_id st recovered ctx1 torn;;
     ensure_erasure_request_audit run_id st request_id ctx2 torn;;
     mret (erasure_report run_id st request_id a b 0)) protocol receipt.
Proof.
  intros Hc. assert (forall w, erased st w -> protocol w) as HP by by intros w [[[H _] _] _].
  eapply holds_bind; [apply ensure_audit_holds; [apply erased_stable|done]|]. intros [].
  eapply holds_bind; [apply request_audit_holds|].
  - apply stable_and; [apply erased_stable|apply recorded_stable].
  - intros w [H _]. by apply HP.
  - intros []. apply holds_ret. intros w [H1 H2]. split; [by apply HP|]. split; [done|].
    exists st. by split_and!.
Qed.

Definition proper_env (env : ErasureEnv) : Prop :=
  nlen (en_intent_nonce env) = 24 /\ nlen (en_complete_nonce env) = 24.

Lemma conclude_holds run_id request_id env recovered st at_ : proper_env env -> es_class st = class ->
  holds (fun w => erasing st w /\ gone w)
    (conclude_erasure run_id run_key class request_id env recovered (completed st at_)) protocol receipt.
Proof.
  intros [_ Hnonce] Hc. unfold conclude_erasure.
  assert (forall w, erased (completed st at_) w -> protocol w) as HP by by intros w [[[H _] _] _].
  eapply holds_bind; [by apply persist_complete_holds|]. intros [].
  eapply holds_bind; [apply holds_look, HP|]. intros persisted.
  eapply holds_bind; [apply holds_look; intros w [H _]; by apply HP|]. intros [].
  eapply (holds_conseq _ (erased (completed st at_)) _ receipt receipt);
    [by intros w [[H _] _]|done|by apply audits_holds].
Qed.

Lemma finish_holds run_id request_id env recovered st : proper_env env ->
  holds (at_state st) (finish_erasure run_id run_key class request_id env recovered st) protocol receipt.
Proof.
  intros Henv. apply (holds_pure (es_class st = class)); [by intros w [_ Hs%read_state_class]|]. intros Hc.
  unfold finish_erasure. eapply holds_bind; [apply holds_look; by intros w [H _]|]. intros [].
  apply (holds_conseq _ (fun w => at_state st w /\ is_complete st = false) _ receipt receipt); [|done|].
  { intros w [Hw He]. apply ensure_ok, negb_true_iff in He. by split. }
  apply (holds_bind _ _ (fun _ => erasing st)).
  { apply ensure_audit_holds; [|by intros w [[H _] _]]. apply stable_and; [apply at_state_stable|by intros w file _]. }
  intros []. eapply holds_bind; [apply (erase_key_holds st)|]. intros [].
  eapply holds_bind; [apply holds_look; apply erasing_protocol|]. intros files.
  apply (holds_bind _ _ (fun _ => erasing st)).
  { intros w n out w' n' [Hw Hf]. apply remove_files_holds; [|done].
    intros name Hn. by apply (class_blob_files_ok _ _ _ Hf) in Hn as [_ Hn]. }
  intros []. eapply holds_bind; [apply holds_look; apply erasing_protocol|]. intros [].
  eapply (holds_conseq _ (fun w => erasing st w /\ gone w) _ receipt receipt); [|done|by apply conclude_holds].
  intros w [Hw Hg]. split; [done|]. by eapply require_erased_gone.
Qed.

Lemma begin_holds request_id env : proper_env env ->
  holds (fun w => protocol w /\ state_of w = Ok None) (begin_erasure run_key class request_id env)
    protocol at_state.
Proof.
  intros [Hnonce _]. unfold begin_erasure.
  eapply holds_bind; [apply holds_look; by intros w [H _]|]. intros st.
  apply (holds_bind _ _ (fun _ => at_state st)).
  { apply holds_update; [by intros w [[H _] _]|].
    intros w w' [[Hp Hs] Hst] H. apply bind_ok in H as (d & Hd & [= <-]). apply map_err_ok in Hd.
    apply written_state in Hd as (Hst' & Hb & Hk & Hre); [|done].
    unfold new_intent in Hst. do 5 apply bind_ok in Hst as (? & _ & Hst). injection Hst as <-.
    cbn [es_class] in *.
    assert (protocol (with_dir w d)) as Hp'; [|by split].
    destruct Hp as [H1 H2 H3 H4 H5 H6 H7 H8]. split; cbn; rewrite ?Hb, ?Hk; try done.
    - intros c Hne. by rewrite Hre, H5.
    - intros Ht. destruct (H7 Ht) as (st & Hst & _). congruence.
    - intros st' E Hc. rewrite Hst' in E. by injection E as <-. }
  intros []. eapply holds_bind; [apply holds_look; by intros w [H _]|]. intros persisted.
  eapply holds_bind; [apply holds_look; by intros w [[H _] _]|]. intros [].
  apply holds_ret. intros w [[[H1 H2] _] _]. by split.
Qed.

Lemma confirm_holds run_id request_id env st : is_complete st = true ->
  holds (at_state st) (confirm_erasure run_id class request_id env st) protocol receipt.
Proof.
  intros Hcomp. apply (holds_pure (es_class st = class)); [by intros w [_ Hs%read_state_class]|]. intros Hc.
  unfold confirm_erasure. eapply holds_bind; [apply holds_look; by intros w [H _]|]. intros [].
  eapply holds_bind; [apply holds_look; by intros w [[H _] _]|]. intros files.
  eapply holds_bind; [apply holds_look; by intros w [[[H _] _] _]|]. intros [].
  eapply (holds_conseq _ (erased st) _ receipt receipt); [|done|by apply audits_holds].
  intros w [[[Hw He] Hf] Hn]. apply ensure_ok, bool_decide_eq_true in He.
  apply ensure_ok, bool_decide_eq_true in Hn as ->. split; [by split|]. split; [done|].
  by apply none_left.
Qed.

(** The effective key is the one of the manifest, which never changes. *)
Lemma erase_holds directory_name key request_id env : proper_env env ->
  (forall m, message (read_manifest (w_manifest w0)) = Ok m -> forall k, effective_run_key m key = Ok k ->
     k = run_key) ->
  holds protocol (erase_blob_class_inner directory_name class key request_id env) protocol receipt.
Proof.
  intros Henv Hkey. unfold erase_blob_class_inner. eapply holds_bind; [by apply holds_look|].
  intros [m k]. apply (holds_pure (k = run_key)).
  { intros w [Hp Hc]. unfold check_run in Hc.
      apply bind_ok in Hc as (m' & Hm & Hc). rewrite (pr_manifest _ Hp) in Hm.
      do 3 apply bind_ok in Hc as (? & _ & Hc). do 2 apply bind_ok in Hc as (? & _ & Hc).
      apply bind_ok in Hc as (k' & Hk & Hc). do 3 apply bind_ok in Hc as (? & _ & Hc).
      injection Hc as <- <-. by eapply Hkey. }
  intros ->. eapply holds_bind; [apply holds_look; by intros w [H _]|]. intros [st|].
  - eapply (holds_conseq _ (at_state st) _ receipt receipt); [|done|].
    { intros w [[Hp _] Hs%map_err_ok]. by split. }
    destruct (is_complete st) eqn:E; [by apply confirm_holds|by apply finish_holds].
  - eapply holds_bind; [|intros st; by apply finish_holds].
    eapply (holds_conseq _ _ _ at_state at_state); [|done|by apply begin_holds].
    intros w [[Hp _] Hs%map_err_ok]. by split.
Qed.
End Protocol.

(** ** What erasure promises *)

(** The key under which the run's states and keys are sealed. *)
Definition run_key_of (w : World) (key : EncryptionKey) : result string EncryptionKey :=
  m ← message (read_manifest (w_manifest w)); effective_run_key m key.

Definition keep_others (class : BlobClass) (blobs : gmap string bytes) : gmap string bytes :=
  filter (fun kv => name_class kv.1 <> Some class) blobs.

Lemma run_key_unique w key run_key : run_key_of w key = Ok run_key ->
  forall m, message (read_manifest (w_manifest w)) = Ok m -> forall k, effective_run_key m key = Ok k ->
    k = run_key.
Proof. unfold run_key_of. intros H m Hm k Hk. rewrite Hm in H. cbn in H. congruence. Qed.

Lemma protocol_blobs class run_key w0 w : protocol class run_key w0 w -> gone class w ->
  rd_blobs (w_dir w) = keep_others class (rd_blobs (w_dir w0)).
Proof.
  intros Hp [_ Hg]. apply map_eq. intros name. unfold keep_others.
  destruct (decide (name_class name = Some class)) as [Hc|Hc].
  - rewrite (Hg _ Hc). symmetry. apply map_lookup_filter_None. right. intros content _ Hn. done.
  - rewrite (pr_others _ _ _ _ Hp _ Hc). destruct (rd_blobs (w_dir w0) !! name) as [content|] eqn:E;
      symmetry; [by apply map_lookup_filter_Some|apply map_lookup_filter_None; by left].
Qed.

Lemma protocol_keys class run_key w0 w : protocol class run_key w0 w -> gone class w ->
  rd_keys (w_dir w) = delete (envelope_file_name class) <$> rd_keys (w_dir w0).
Proof.
  intros Hp [Hg _]. destruct (pr_keys _ _ _ _ Hp) as [H|H]; [|done]. unfold envelope in Hg.
  rewrite H in *. destruct (rd_keys (w_dir w0)) as [keys|]; [|done]. cbn in *.
  f_equal. symmetry. by apply delete_id.
Qed.

(** What an erasure of some classes leaves alone. *)
Record spares (erased : BlobClass -> Prop) (d0 d : RunDir) : Prop := {
  sp_blobs : forall name, (forall c, name_class name = Some c -> ~ erased c) ->
    rd_blobs d !! name = rd_blobs d0 !! name;
  sp_keyring : has_keyring d = has_keyring d0;
  sp_envelope : forall c, ~ erased c -> envelope d c = envelope d0 c;
  sp_retention : forall c, ~ erased c ->
    rd_retention d !! erasure_file_name c = rd_retention d0 !! erasure_file_name c;
}.

Lemma spares_refl erased d : spares erased d d.
Proof. by split. Qed.

Lemma spares_trans (erased : BlobClass -> Prop) d d1 d2 : spares erased d d1 -> spares erased d1 d2 ->
  spares erased d d2.
Proof.
  intros [H1 H2 H3 H4] [K1 K2 K3 K4]. split; [intros x Hx; by rewrite K1, H1|by rewrite K2|..];
    intros c Hc; [by rewrite K3, H3|by rewrite K4, H4].
Qed.

Lemma spares_weaken (erased erased' : BlobClass -> Prop) d d' : (forall c, erased c -> erased' c) ->
  spares erased d d' -> spares erased' d d'.
Proof. intros H []. split; auto. intros name Hn. apply sp_blobs0. intros c Hc He. by apply (Hn c Hc), H. Qed.

Lemma protocol_spares class run_key w0 w : protocol class run_key w0 w ->
  spares (fun c => c = class) (w_dir w0) (w_dir w).
Proof.
  intros [H1 H2 H3 H4 H5 H6 H7 H8]. split; [| | |done].
  - intros name Hn. apply H3. intros E. by apply (Hn class).
  - unfold has_keyring. destruct H4 as [-> | ->]; [done|]. by destruct (rd_keys (w_dir w0)).
  - intros c Hc. unfold envelope. destruct H4 as [-> | ->]; [done|].
    destruct (rd_keys (w_dir w0)) as [keys|]; [|done]. cbn. rewrite lookup_delete_ne; [done|].
    intros E%envelope_file_name_inj. by subst.
Qed.

Lemma spares_key erased d0 d run_key c : spares erased d0 d -> ~ erased c ->
  load_class_key d run_key c = load_class_key d0 run_key c.
Proof.
  intros [_ Hk He Hr] Hc. specialize (He c Hc). specialize (Hr c Hc).
  unfold load_class_key, read_erasure_state, read_regular_limited, envelope, has_keyring in *. rewrite Hr.
  destruct (rd_keys d), (rd_keys d0); try done. cbn in He. by rewrite He.
Qed.

(** Payloads without a class of their own, or of a class that was not erased. *)
Lemma spares_reads (erased : BlobClass -> Prop) d0 d key r max : spares erased d0 d ->
  (has_keyring d0 = true -> ~ erased (from_media_type (ref_media_type r))) ->
  read_blob_reference d r key max = read_blob_reference d0 r key max.
Proof.
  intros Hs Hc. unfold read_blob_reference. rewrite (sp_keyring _ _ _ Hs).
  destruct (ok_or (str_strip_prefix _ _) _) as [hash|e]; [|done]. cbn [mbind result_bind].
  destruct (validate_blob_hash hash); [|done]. cbn [mbind result_bind].
  destruct (_ <? _); [done|]. destruct (blob_file_name hash _) as [name|] eqn:En; [|done].
  cbn [mbind result_bind]. destruct (ok_or (checked_add _ _) _) as [limit|]; [|done]. cbn [mbind result_bind].
  assert (read_regular_limited (rd_blobs d) name limit = read_regular_limited (rd_blobs d0) name limit) as ->.
  { unfold read_regular_limited. rewrite (sp_blobs _ _ _ Hs name); [done|].
    unfold name_class. rewrite (parse_blob_file_name_ok _ _ _ En). destruct (has_keyring d0); [|done].
    intros c [= <-]. by apply Hc. }
  destruct (read_regular_limited _ name limit) as [encoded|]; [|done]. cbn [mbind result_bind].
  destruct key as [run_key|]; [|done]. destruct (has_keyring d0); [|done]. cbn [ok_or mbind result_bind].
  by rewrite (spares_key _ _ _ run_key _ Hs (Hc eq_refl)).
Qed.

Lemma gone_reads class w r key max : gone class w -> has_keyring (w_dir w) = true ->
  from_media_type (ref_media_type r) = class ->
  is_ok (read_blob_reference (w_dir w) r key max) = false.
Proof.
  intros [_ Hg] Hk Hc. unfold read_blob_reference. rewrite Hk, Hc.
  destruct (ok_or (str_strip_prefix _ _) _) as [hash|e]; [|done]. cbn [mbind result_bind].
  destruct (validate_blob_hash hash); [|done]. cbn [mbind result_bind].
  destruct (_ <? _); [done|]. destruct (blob_file_name hash _) as [name|] eqn:En; [|done].
  cbn [mbind result_bind]. destruct (ok_or (checked_add _ _) _); [|done]. cbn [mbind result_bind].
  unfold read_regular_limited. rewrite Hg; [done|].
  unfold name_class. by rewrite (parse_blob_file_name_ok _ _ _ En).
Qed.

Lemma gone_class_key class run_key w st : gone class w -> has_keyring (w_dir w) = true ->
  read_erasure_state (w_dir w) run_key class = Ok (Some st) ->
  load_class_key (w_dir w) run_key class = Err (io_error NotFound "blob class was cryptographically erased").
Proof.
  intros [He _] Hk Hs. unfold load_class_key, has_keyring, envelope in *.
  destruct (rd_keys (w_dir w)) as [keys|]; [|done]. cbn in He. unfold read_regular_limited at 1.
  rewrite He. cbn. by rewrite Hs.
Qed.

Lemma erase_checked directory_name class key request_id env w n r s :
  erase_blob_class_inner directory_name class key request_id env (w, n) = (Returned (Ok r), s) ->
  exists m k, check_run w directory_name key env = Ok (m, k).
Proof.
  unfold erase_blob_class_inner, mbind, proc_bind, look. cbn [fst].
  destruct (check_run w directory_name key env) as [[m k]|e]; [by eauto|done].
Qed.

Lemma check_run_keyring w directory_name key env m k :
  check_run w directory_name key env = Ok (m, k) ->
  has_keyring (w_dir w) = true /\ run_key_of w key = Ok k.
Proof.
  unfold check_run, run_key_of. intros H. apply bind_ok in H as (m' & -> & H).
  do 5 apply bind_ok in H as (? & _ & H). apply bind_ok in H as (k' & Hk & H).
  apply bind_ok in H as (u & Hh & H). do 2 apply bind_ok in H as (? & _ & H). injection H as _ <-.
  by apply ensure_ok in Hh.
Qed.

(** C8: An erasure that returns a receipt has removed the class and nothing
    else: the class key is reported as cryptographically erased, no reference
    to a payload of the class can be read any more, every reference of another
    class reads as before, the files and keys left are exactly the other
    classes', and the completion is in the audit log. *)
Theorem erase_removes_class directory_name class key request_id env w n report w' n'
    (Henv : proper_env env)
    (H : erase_blob_class_inner directory_name class key request_id env (w, n) =
         (Returned (Ok report), (w', n'))) :
  exists run_key, run_key_of w key = Ok run_key /\
    load_class_key (w_dir w') run_key class =
      Err (io_error NotFound "blob class was cryptographically erased") /\
    (forall r max, from_media_type (ref_media_type r) = class ->
       is_ok (read_blob_reference (w_dir w') r (Some run_key) max) = false) /\
    (forall r max, from_media_type (ref_media_type r) <> class ->
       read_blob_reference (w_dir w') r (Some run_key) max =
       read_blob_reference (w_dir w) r (Some run_key) max) /\
    rd_blobs (w_dir w') = keep_others class (rd_blobs (w_dir w)) /\
    rd_keys (w_dir w') = delete (envelope_file_name class) <$> rd_keys (w_dir w) /\
    exists file, file `prefix_of` default [] (w_audit w') /\
      logged file (Request "blob_class_erasure" "complete" (uuid_to_string (er_operation_id report))).
Proof.
  destruct (erase_checked _ _ _ _ _ _ _ _ _ H) as (m & run_key & [Hk Hr]%check_run_keyring).
  exists run_key. split; [done|].
  destruct (erase_holds class run_key w directory_name key request_id env Henv (run_key_unique _ _ _ Hr)
    _ _ _ _ _ (protocol_start class run_key w) H) as [Hp HQ].
  destruct (HQ _ eq_refl) as (_ & st & Hop & [[[_ Hs] _] Hg] & Hrec).
  pose proof (protocol_spares _ _ _ _ Hp) as Hsp. pose proof (sp_keyring _ _ _ Hsp) as Hk'. rewrite Hk in Hk'.
  split_and!; [by eapply gone_class_key|intros; by eapply gone_reads
    |intros; by eapply spares_reads|by eapply protocol_blobs|by eapply protocol_keys|].
  by rewrite <-Hop.
Qed.

(** One call, which may fail or be killed at any of its writes. *)
Definition attempt (directory_name : string) (class : BlobClass) (key : EncryptionKey) (w w' : World)
    : Prop :=
  exists request_id env n out n', proper_env env /\
    erase_blob_class_inner directory_name class key request_id env (w, n) = (out, (w', n')).

(** C3: Erasure survives crashes.  After any number of calls, each killed at any
    of its writes (in the middle of an audit record included), failed or
    successful: other classes' files and keys and the manifest are untouched;
    nothing of the class was removed before the authenticated intent was on
    disk and in the audit log; a new completion implies that key and ciphertext
    are gone; and a call that then returns a receipt leaves exactly what an
    uninterrupted one would have left. *)
Theorem erasure_crash_safe directory_name class key run_key w0 w
    (Hkey : run_key_of w0 key = Ok run_key)
    (Hreach : rtc (attempt directory_name class key) w0 w) :
  protocol class run_key w0 w /\
  forall request_id env n report w' n', proper_env env ->
    erase_blob_class_inner directory_name class key request_id env (w, n) =
      (Returned (Ok report), (w', n')) ->
    gone class w' /\ rd_blobs (w_dir w') = keep_others class (rd_blobs (w_dir w0)) /\
    rd_keys (w_dir w') = delete (envelope_file_name class) <$> rd_keys (w_dir w0).
Proof.
  pose proof (run_key_unique _ _ _ Hkey) as Hu.
  assert (protocol class run_key w0 w) as Hp.
  { revert w Hreach. apply (rtc_ind_r (protocol class run_key w0) w0); [apply protocol_start|].
    intros x y _ (request_id & env & n & out & n' & Henv & H) IH.
    by apply (erase_holds class run_key w0 directory_name key request_id env Henv Hu _ _ _ _ _ IH H). }
  split; [done|]. intros request_id env n report w' n' Henv H.
  destruct (erase_holds class run_key w0 directory_name key request_id env Henv Hu _ _ _ _ _ Hp H)
    as [Hp' HQ]. destruct (HQ _ eq_refl) as (_ & st & _ & [_ Hg] & _).
  split_and!; [done|by eapply protocol_blobs|by eapply protocol_keys].
Qed.

(** C40: A temporary file that a failed or killed store left among the blobs
    stops erasure: every call for a class that is not being erased already
    fails and changes nothing, so the class stays readable. *)
Theorem stale_temporary_blocks directory_name class key run_key w pid uuid_text content
    (Hkey : run_key_of w key = Ok run_key)
    (Hfresh : read_erasure_state (w_dir w) run_key class = Ok None)
    (Hstale : rd_blobs (w_dir w) !! temporary_name pid uuid_text = Some content) :
  forall request_id env n, exists e,
    erase_blob_class_inner directory_name class key request_id env (w, n) = (Returned (Err e), (w, n)).
Proof.
  intros request_id env n. unfold erase_blob_class_inner, begin_erasure, mbind, proc_bind, look. cbn [fst].
  destruct (check_run w directory_name key env) as [[m k]|e] eqn:E; [|by eauto].
  destruct (check_run_keyring _ _ _ _ _ _ E) as [_ Hk]. rewrite Hkey in Hk. injection Hk as <-.
  cbn beta iota. cbn [fst]. rewrite Hfresh. cbn [message map_err fst]. destruct (new_intent w run_key class request_id env) eqn:Ei;
    [exfalso|by eauto]. unfold new_intent in Ei. do 3 apply bind_ok in Ei as (? & _ & Ei).
  apply bind_ok in Ei as (files & Hf & _).
  by destruct (class_blob_files_all _ _ _ _ _ Hf Hstale) as (c & h & Hc).
Qed.
End Erasure.

(** ** Witnesses *)

Module ErasureExamples.
Import Concrete ConcreteSerde CryptoExamples ManifestExamples.

#[export] Instance uuid_text : UuidDisplay := {| uuid_to_string u := pretty u |}.

#[export] Instance Phase_eq_dec : EqDecision ClassErasurePhase.
Proof. solve_decision. Defined.
#[export] Instance Erasure_eq_dec : EqDecision ClassErasureState.
Proof. solve_decision. Defined.
(** A finished run with a body and a capture. *)
Definition draws : KeyDraws := fun class => (raw_key, nonce).
Definition digest : string := hex_encode (sha256 (as_bytes "payload")).
Definition keyed_dir : RunDir :=
  default (mkRunDir ∅ None ∅) (ok (initialize_keyring
    (mkRunDir {["body-sha256-" +:+ digest := as_bytes "x"; "pcap-sha256-" +:+ digest := as_bytes "y"]}
       None ∅) run_key draws)).
Definition world : World := mkWorld (Some (canonical ++ [LF])) keyed_dir None.
Definition ctx : AuditContext := mkAuditContext 5 7%Z 0 1.
Definition env : ErasureEnv :=
  mkErasureEnv (Ok tt) true 9 10%Z 11%Z nonce nonce ctx ctx ctx 3.

(** The records of these erasures and their texts. *)
Definition intent_state : ClassErasureState :=
  mkErasureState 1 Body Intent 9
    (envelope_sha256 (default [] (envelope keyed_dir Body))) 1 1 10%Z None.

(** The states of these erasures and their texts. *)
Definition states : list (ClassErasureState * bytes) :=
  [(intent_state, [x41]); (completed intent_state 11%Z, [x42])].
#[export] Instance serde_erasure : SerdeErasure := {|
  erasure_to_vec s := snd <$> List.find (fun e => bool_decide (e.1 = s)) states;
  erasure_from_slice b := fst <$> List.find (fun e => bool_decide (e.2 = b)) states;
|}.
#[export] Instance serde_erasure_laws : SerdeErasureLaws.
Proof.
  assert (Forall (fun e => erasure_from_slice e.2 = Some e.1 /\ nlen e.2 <= 32 * 1024) states) as H.
  { apply (bool_decide_unpack _). vm_compute. exact I. }
  rewrite Forall_forall in H. split; intros s b Hb; cbn [erasure_to_vec serde_erasure] in Hb;
    destruct (List.find _ states) as [e|] eqn:E; try done; injection Hb as <-;
    apply find_some in E as [Hin%list_elem_of_In <-%bool_decide_eq_true]; by apply H in Hin as [? ?].
Qed.

Definition unsigned (sequence : N) (outcome : string) (recovered : bool) (previous : option string)
    : AuditRecord :=
  mkAuditRecord 1 sequence 5 7%Z 0 1 "blob_class_erasure" outcome "run-1"
    (Some (details_of intent_state recovered)) previous "".
Definition intent_record : AuditRecord := unsigned 1 "intent" false None.
Definition complete_record (recovered : bool) : AuditRecord :=
  unsigned 2 "complete" recovered
    (Some (a_record_sha256 (AuditExamples.sealed_as intent_record (be_bytes 1 65)))).

Definition table : list (AuditRecord * bytes) :=
  AuditExamples.entries 0 intent_record ++ AuditExamples.entries 1 (complete_record false)
  ++ AuditExamples.entries 2 (complete_record true).

#[export] Instance serde_table : SerdeAudit := AuditExamples.table_serde table.
#[export] Instance serde_table_laws : SerdeAuditLaws.
Proof. apply AuditExamples.table_laws. apply (@bool_decide_unpack _ (AuditExamples.table_reads_dec _)). vm_compute. exact I. Qed.

Notation run_with w n := (erase_blob_class_inner "run-1" Body key None env (w, n%nat)).
Definition report_of (o : outcome BlobClassErasureReport) : BlobClassErasureReport :=
  match o with
  | Returned (Ok r) => r
  | _ => mkErasureReport "" Body 0 None false false false 0 0 0 false false
  end.

Lemma returned_ok (x : outcome BlobClassErasureReport * (World * nat)) :
  x.1 = Returned (Ok (report_of x.1)) -> x = (Returned (Ok (report_of x.1)), (x.2.1, x.2.2)).
Proof. destruct x as [o [w n]]. cbn. by intros <-. Qed.

Lemma split_result (x : outcome BlobClassErasureReport * (World * nat)) : x = (x.1, (x.2.1, x.2.2)).
Proof. by destruct x as [o [w n]]. Qed.

Lemma proper : proper_env env.
Proof. by split. Qed.

Notation full := (run_with world 20).

Lemma full_ok : erase_blob_class_inner "run-1" Body key None env (world, 20%nat) =
  (Returned (Ok (report_of full.1)), (full.2.1, full.2.2)).
Proof.
  assert (full.1 = Returned (Ok (report_of full.1))) as H by (vm_compute; reflexivity).
  exact (returned_ok full H).
Qed.

Lemma erase_removes_class_witness :
  exists k, run_key_of world key = Ok k /\
    load_class_key (w_dir full.2.1) k Body =
      Err (io_error NotFound "blob class was cryptographically erased") /\
    (forall r max, from_media_type (ref_media_type r) = Body ->
       is_ok (read_blob_reference (w_dir full.2.1) r (Some k) max) = false) /\
    (forall r max, from_media_type (ref_media_type r) <> Body ->
       read_blob_reference (w_dir full.2.1) r (Some k) max =
       read_blob_reference (w_dir world) r (Some k) max) /\
    rd_blobs (w_dir full.2.1) = keep_others Body (rd_blobs (w_dir world)) /\
    rd_keys (w_dir full.2.1) = delete (envelope_file_name Body) <$> rd_keys (w_dir world) /\
    exists file, file `prefix_of` default [] (w_audit full.2.1) /\
      logged file (Request "blob_class_erasure" "complete"
                     (uuid_to_string (er_operation_id (report_of full.1)))).
Proof.
  exact (erase_removes_class "run-1" Body key None env world 20 (report_of full.1) full.2.1 full.2.2
           proper full_ok).
Defined.

(** The process dies with the key removed and the ciphertext still there; the
    next call finishes. *)
Notation killed := (run_with world 3).
Notation resumed := (run_with killed.2.1 20).

Lemma world_key : run_key_of world key = Ok run_key.
Proof. vm_compute. reflexivity. Qed.

Lemma killed_attempt : attempt "run-1" Body key world killed.2.1.
Proof.
  exists None, env, 3%nat, killed.1, killed.2.2. split; [apply proper|].
  exact (split_result killed).
Qed.

Lemma resumed_ok : erase_blob_class_inner "run-1" Body key None env (killed.2.1, 20%nat) =
  (Returned (Ok (report_of resumed.1)), (resumed.2.1, resumed.2.2)).
Proof.
  assert (resumed.1 = Returned (Ok (report_of resumed.1))) as H by (vm_compute; reflexivity).
  exact (returned_ok resumed H).
Qed.

Lemma erasure_crash_safe_witness :
  envelope (w_dir killed.2.1) Body = None /\
  protocol Body run_key world killed.2.1 /\
  gone Body resumed.2.1 /\
  rd_blobs (w_dir resumed.2.1) = keep_others Body (rd_blobs (w_dir world)) /\
  rd_keys (w_dir resumed.2.1) = delete (envelope_file_name Body) <$> rd_keys (w_dir world).
Proof.
  split; [vm_compute; reflexivity|].
  destruct (erasure_crash_safe "run-1" Body key run_key world killed.2.1 world_key
              (rtc_once _ _ killed_attempt)) as [Hp H].
  split; [exact Hp|].
  exact (H None env 20%nat (report_of resumed.1) resumed.2.1 resumed.2.2 proper resumed_ok).
Defined.

Definition stale_dir : RunDir :=
  mkRunDir (<[temporary_name "7" "u" := as_bytes "part"]> (rd_blobs keyed_dir)) (rd_keys keyed_dir)
    (rd_retention keyed_dir).
Definition stale : World := mkWorld (Some (canonical ++ [LF])) stale_dir None.

Lemma stale_key : run_key_of stale key = Ok run_key.
Proof. vm_compute. reflexivity. Qed.

Lemma stale_fresh : read_erasure_state (w_dir stale) run_key Body = Ok None.
Proof. vm_compute. reflexivity. Qed.

Lemma stale_file : rd_blobs (w_dir stale) !! temporary_name "7" "u" = Some (as_bytes "part").
Proof. apply lookup_insert_eq. Qed.

Lemma stale_temporary_blocks_witness :
  exists e, erase_blob_class_inner "run-1" Body key None env (stale, 20%nat) =
    (Returned (Err e), (stale, 20%nat)).
Proof.
  exact (stale_temporary_blocks "run-1" Body key run_key stale "7" "u" (as_bytes "part")
           stale_key stale_fresh stale_file None env 20%nat).
Defined.
End ErasureExamples.
