(* ===== verification/Inspect.v ===== *)
(** * src/inspect.rs

    The inspection of a run: one pass over its events that counts and
    collects, the inventory of its payload files, and the coverage claims
    derived from both.  Ordered maps and sets whose order is visible are sorted
    lists; the others are [gset] and [gmap]. *)

From Stdlib Require Import Strings.Byte.
From S2P Require Import Prelude RustStd External Json Input Model ProbePlan Policy Crypto EventLog Manifest Tasks StateGraph BlobStore.
From stdpp Require Import pretty options.
Local Open Scope N_scope.
#[local] Unset Default Proof Using.

Definition MAX_TRACKED_BLOB_REFERENCES : N := 250000.
Definition MAX_TRACKED_IDENTIFIERS : N := 100000.
Definition MAX_TRACKED_LABELS : N := 1024.
Definition MAX_TRACKED_PROTOCOLS : N := 128.
Definition MAX_TRACKED_EGRESS_CLASSES : N := 8.
Definition MAX_ENCODED_BLOB_BYTES : N := MAX_SINGLE_BLOB_BYTES + ENCRYPTED_BLOB_OVERHEAD_BYTES.

#[export] Instance CoverageCounts_settable : Settable CoverageCounts := fun c =>
  mkCoverageCounts (cc_events c) (cc_event_storage_bytes c) (cc_blobs c) (cc_blob_bytes c)
    (cc_blob_storage_bytes c) (cc_logical_tasks c) (cc_logical_inferences c)
    (cc_transport_attempts c) (cc_completed_attempts c) (cc_incomplete_attempts c) (cc_errors c)
    (cc_input_tokens c) (cc_output_tokens c) (cc_models c).

#[export] Instance Coverage_settable : Settable Coverage := fun c =>
  mkCoverage (cov_claim c) (cov_capture_sources c) (cov_known_gaps c) (cov_observed_tls_surfaces c)
    (cov_observed_egress_classes c) (cov_unknown_tls_surfaces c) (cov_unparsed_connections c)
    (cov_process_network_scan_gaps c) (cov_process_scan_failures c)
    (cov_processes_running_at_stop c) (cov_connections_open_at_stop c) (cov_capture_drops c)
    (cov_unknown_egress c) (cov_task_netns_denied_packets c)
    (cov_blocked_unknown_egress_indicators c) (cov_model_bypass_connections c)
    (cov_possible_quic_connections c) (cov_all_attempts_have_terminal_state c)
    (cov_unresolved_state_references c) (cov_unresolved_payload_references c)
    (cov_unresolved_correlations c) (cov_captured_request_payloads_complete c)
    (cov_captured_response_payloads_complete c) (cov_observed_protocols c).

#[export] Instance StorageMetadata_settable : Settable StorageMetadata := fun m =>
  mkStorageMetadata (sm_events m) (sm_blobs m) (sm_durability m) (sm_recovered_tail_bytes m)
    (sm_encryption m).

#[export] Instance Manifest_settable : Settable Manifest := fun m =>
  mkManifest (m_schema_version m) (m_recorder_version m) (m_run_id m) (m_status m) (m_started_at m)
    (m_finished_at m) (m_exit_code m) (m_command m) (m_probe_plan m) (m_policy m) (m_counts m)
    (m_coverage m) (m_storage m) (m_authentication m).

Record Inspection := mkInspection {
  in_manifest : Manifest;
  in_manifest_authenticated : option bool;
  in_log : RecoveryReport;
  in_blob_files : N;
  in_missing_blobs : list string;
  in_corrupt_blobs : list string;
  in_erased_blob_classes : list string;
  in_erased_blobs : list string;
  in_pending_erasure_classes : list string;
  in_pending_erasure_blobs : list string;
}.

(** ** The event summary *)

Record EventSummary := mkEventSummary {
  su_counts : CoverageCounts;
  su_logical_tasks : gset string;
  su_sources : list string;
  su_referenced_blobs : list (string * N);
  su_terminal_attempts : N;
  su_model_attempts : gset string;
  su_websocket_attempts : gset string;
  su_complete_request_payloads : gset string;
  su_complete_response_payloads : gset string;
  su_incomplete_request_payloads : gset string;
  su_incomplete_response_payloads : gset string;
  su_protocols : CountMap;
  su_unknown_egress : gset string;
  su_model_bypass_connections : gset string;
  su_egress_classes : list (string * gset string);
  su_possible_quic_connections : gset string;
  su_tls_surfaces : gset (N * N * string);
  su_network_scan_gaps : gmap (N * N * string * string) N;
  su_process_scan_failures : N;
  su_processes_running_at_stop : N;
  su_connections_open_at_stop : N;
  su_task_cgroup_remaining : N;
  su_task_cgroup_cleanup_errors : N;
  su_task_netns_target_confined : bool;
  su_task_netns_denied_packets : N;
  su_unresolved_correlations : N;
  su_unresolved_payload_references : N;
}.

#[export] Instance EventSummary_settable : Settable EventSummary := fun s =>
  mkEventSummary (su_counts s) (su_logical_tasks s) (su_sources s) (su_referenced_blobs s)
    (su_terminal_attempts s) (su_model_attempts s) (su_websocket_attempts s)
    (su_complete_request_payloads s) (su_complete_response_payloads s)
    (su_incomplete_request_payloads s) (su_incomplete_response_payloads s) (su_protocols s)
    (su_unknown_egress s) (su_model_bypass_connections s) (su_egress_classes s)
    (su_possible_quic_connections s) (su_tls_surfaces s) (su_network_scan_gaps s)
    (su_process_scan_failures s) (su_processes_running_at_stop s) (su_connections_open_at_stop s)
    (su_task_cgroup_remaining s) (su_task_cgroup_cleanup_errors s)
    (su_task_netns_target_confined s) (su_task_netns_denied_packets s)
    (su_unresolved_correlations s) (su_unresolved_payload_references s).

Definition default_summary : EventSummary :=
  mkEventSummary default_counts ∅ [] [] 0 ∅ ∅ ∅ ∅ ∅ ∅ [] ∅ ∅ [] ∅ ∅ ∅ 0 0 0 0 0 false 0 0 0.

(** [event.normalized.as_ref().and_then(|value| value.get(key))] and its typed
    forms. *)
Definition field (e : EventEnvelope) (key : string) : option Value := ev_normalized e ≫= get key.
Definition field_str (e : EventEnvelope) (key : string) : option string := field e key ≫= as_str.
Definition field_bool (e : EventEnvelope) (key : string) : option bool := field e key ≫= as_bool.
Definition field_u64 (e : EventEnvelope) (key : string) : option N := field e key ≫= as_u64.
Definition field_at (e : EventEnvelope) (path : list string) : option Value :=
  ev_normalized e ≫= pointer path.

Definition is_event (e : EventEnvelope) (source event : string) : bool :=
  str_eqb (ev_source e) source && str_eqb (ev_event e) event.

(** [*map.entry(key).or_default() += 1] *)
Definition increment (key : string) (m : CountMap) : CountMap :=
  map_insert key (u64_add (default 0 (map_get key m)) 1) m.

Definition add_source (source : string) (s : EventSummary) : EventSummary :=
  s <| su_sources ::= set_insert source |>.

(** The length of a collection as a [u64]. *)
Definition len (X : gset string) : N := N.of_nat (size X).

(** The [match] over the runner's events. *)
Definition note_runner_event (e : EventEnvelope) (s : EventSummary) : EventSummary :=
  let event := ev_event e in
  if str_eqb event "collector_started" then add_source "collector:authenticated-hook" s
  else if str_eqb event "tls_key_log_started" then add_source "nss-sslkeylogfile" s
  else if str_eqb event "pcap_capture_started" then
    add_source
      (match field_str e "scope" with
       | Some scope =>
           if str_eqb scope "upstream_address_snapshot" then "pcap:upstream-address-snapshot"
           else if str_eqb scope "task_egress" then "pcap:task-egress"
           else "pcap:proxy-listener"
       | None => "pcap:proxy-listener"
       end) s
  else if str_eqb event "task_cgroup_assigned" then add_source "cgroup:v2-task" s
  else if str_eqb event "task_cgroup_stopped" then
    s <| su_task_cgroup_remaining ::= N.max (default 0 (field_u64 e "remaining_processes")) |>
  else if str_eqb event "task_cgroup_cleanup_error" then
    s <| su_task_cgroup_cleanup_errors ::= fun n => sat_add n 1 |>
  else if str_eqb event "task_network_target_confined" then
    s <| su_task_netns_target_confined := bool_decide (ev_terminal_state e = Some Complete) |>
  else if str_eqb event "task_network_isolation_finished" then
    let complete := bool_decide (ev_terminal_state e = Some Complete)
                    && su_task_netns_target_confined s
                    && bool_decide (field_bool e "firewall_verified_at_stop" = Some true) in
    let s := if complete then
               add_source (if bool_decide (field_str e "policy_mode" = Some "transparent")
                           then "network:task-netns-transparent"
                           else "network:task-netns-proxy-only") s
             else s in
    let denied section := default 0 ((field e section ≫= get "denied_packets") ≫= as_u64) in
    s <| su_task_netns_denied_packets ::= fun n =>
           sat_add (sat_add n (denied "firewall")) (denied "post_target_firewall") |>
  else if str_eqb event "egress_classification_snapshot" then
    add_source "egress:configured-launch-time-dns" s
  else if str_eqb event "transparent_interception_prepared" then
    add_source (if bool_decide (field_bool e "downstream_tls" = Some true)
                then "proxy:transparent-task-netns-tls"
                else "proxy:transparent-task-netns-cleartext") s
  else if str_eqb event "correlation_finished" then add_source "correlator:bounded-unique" s
  else if str_eqb event "adapter_configured" then
    match field_str e "adapter" with
    | Some adapter =>
        if negb (str_is_empty adapter) && (str_len adapter <=? 128) && negb (str_has_control adapter)
        then
          let s := add_source ("adapter:" +:+ adapter) s in
          if bool_decide (field_bool e "session_reader" = Some true)
          then add_source ("session:" +:+ adapter) s else s
        else s
    | None => s
    end
  else s.

(** The reference of an event to a payload: the largest size recorded. *)
Definition note_reference (d : RunDir) (e : EventEnvelope) (s : EventSummary) : EventSummary :=
  match ev_raw e with
  | Some raw =>
      let identity := reference_identity d raw in
      s <| su_referenced_blobs ::= fun m =>
             map_insert identity
               (match map_get identity m with Some size => N.max size (ref_size raw)
                                            | None => ref_size raw end) m |>
  | None => s
  end.

(** An event that starts a transport attempt of a model call. *)
Definition starts_model_call (e : EventEnvelope) : bool :=
  is_event e "proxy" "transport_request_started"
  && bool_decide (field_str e "traffic_class" = Some "model").

(** What the pass collects: the summary and the three local collections. *)
Record Summarizing := mkSummarizing {
  sz_summary : EventSummary;
  sz_logical_inferences : gset string;
  sz_inference_models : list (string * string);
  sz_inference_aliases : list (string * string);
}.

#[export] Instance Summarizing_settable : Settable Summarizing := fun z =>
  mkSummarizing (sz_summary z) (sz_logical_inferences z) (sz_inference_models z)
    (sz_inference_aliases z).

Definition start_summarizing : Summarizing := mkSummarizing default_summary ∅ [] [].

Definition note_attempt (e : EventEnvelope) (attempt_id : string) (s : EventSummary) : EventSummary :=
  let s := s <| su_model_attempts ::= union {[ attempt_id ]} |> in
  let protocol := default "unknown" (field_str e "protocol") in
  let s := if str_eqb protocol "websocket"
           then s <| su_websocket_attempts ::= union {[ attempt_id ]} |> else s in
  s <| su_protocols ::= increment protocol |>.

Definition note_model_call (e : EventEnvelope) (z : Summarizing) : Summarizing :=
  if starts_model_call e then
    match inference_id (ev_ids e) with
    | Some inference =>
        let z := z <| sz_logical_inferences ::= union {[ inference ]} |> in
        match attempt_id (ev_ids e) with
        | Some attempt => z <| sz_summary ::= note_attempt e attempt |>
        | None => z
        end
    | None => z
    end
  else z.

Definition note_hook_call (e : EventEnvelope) (z : Summarizing) : Summarizing :=
  if str_starts_with "hook:" (ev_source e) && str_eqb (ev_event e) "model_call_started" then
    match inference_id (ev_ids e) with
    | Some inference => z <| sz_logical_inferences ::= union {[ inference ]} |>
    | None => z
    end
  else z.

Definition upstream_protocols : list string :=
  ["http/0.9"; "http/1.0"; "http/1.1"; "http/2"; "http/3"; "unknown"].

Definition note_upstream_protocol (e : EventEnvelope) (s : EventSummary) : EventSummary :=
  if is_event e "proxy" "transport_response_started" then
    match field_str e "upstream_protocol" with
    | Some protocol =>
        if bool_decide (protocol ∈ upstream_protocols)
        then s <| su_protocols ::= increment ("upstream:" +:+ protocol) |> else s
    | None => s
    end
  else s.

Definition note_inference_model (e : EventEnvelope) (z : Summarizing) : Summarizing :=
  if is_event e "proxy" "logical_inference_request" then
    match inference_id (ev_ids e), field_at e ["summary"; "model"] ≫= as_str with
    | Some inference, Some model => z <| sz_inference_models ::= or_insert inference model |>
    | _, _ => z
    end
  else z.

Definition note_dependencies (e : EventEnvelope) (s : EventSummary) : EventSummary :=
  if is_event e "proxy" "logical_inference_request" then
    let dependency key := field_at e ["summary"; "payload_dependencies"; key] in
    let unresolved := default 0 (dependency "unresolved_references" ≫= as_u64) in
    let truncated := default false (dependency "scan_truncated" ≫= as_bool) in
    let inconclusive := default true (dependency "scan_inconclusive" ≫= as_bool) in
    s <| su_unresolved_payload_references ::= fun n =>
           sat_add (sat_add n unresolved) (if truncated || inconclusive then 1 else 0) |>
  else s.

(** ** Payload coverage *)

Definition complete_request (a : string) (s : EventSummary) : EventSummary :=
  s <| su_complete_request_payloads ::= union {[ a ]} |>.
Definition incomplete_request (a : string) (s : EventSummary) : EventSummary :=
  s <| su_incomplete_request_payloads ::= union {[ a ]} |>.
Definition complete_response (a : string) (s : EventSummary) : EventSummary :=
  s <| su_complete_response_payloads ::= union {[ a ]} |>.
Definition incomplete_response (a : string) (s : EventSummary) : EventSummary :=
  s <| su_incomplete_response_payloads ::= union {[ a ]} |>.

(** A chunk of which less was captured than observed. *)
Definition omitted (e : EventEnvelope) : bool :=
  match field_u64 e "observed_size", field_u64 e "captured_size" with
  | Some observed, Some captured => negb (observed =? captured)
  | _, _ => false
  end.

Definition ended_complete (e : EventEnvelope) : bool := bool_decide (ev_terminal_state e = Some Complete).

Definition update_payload_coverage (e : EventEnvelope) (s : EventSummary) : EventSummary :=
  if negb (str_eqb (ev_source e) "proxy") then s
  else match attempt_id (ev_ids e) with
  | None => s
  | Some a =>
      if negb (bool_decide (a ∈ su_model_attempts s)) then s
      else if str_eqb (ev_event e) "request_body_finished" then
        if ended_complete e then complete_request a s else incomplete_request a s
      else if str_eqb (ev_event e) "transport_attempt_finished" then
        if bool_decide (a ∈ su_websocket_attempts s) then s
        else if ended_complete e then complete_response a s else incomplete_response a s
      else if str_eqb (ev_event e) "websocket_connection_finished" then
        if match ev_terminal_state e with Some _ => true | None => false end
           && bool_decide (field_bool e "capture_failed" = Some false)
        then complete_response a (complete_request a s)
        else incomplete_response a (incomplete_request a s)
      else match ev_normalized e with
      | None => s
      | Some _ =>
          if str_eqb (ev_event e) "request_body_chunk" then
            if omitted e then incomplete_request a s else s
          else if str_eqb (ev_event e) "response_body_chunk" then
            if omitted e then incomplete_response a s else s
          else if str_eqb (ev_event e) "websocket_frame" then
            match field_str e "direction" with
            | Some direction =>
                if str_eqb direction "client_to_upstream" && omitted e then incomplete_request a s
                else if str_eqb direction "upstream_to_client" && omitted e
                then incomplete_response a s
                else s
            | None => s
            end
          else s
      end
  end.

(** ** Surfaces seen by the process tracker *)

Definition note_connection (e : EventEnvelope) (s : EventSummary) : EventSummary :=
  if str_eqb (ev_event e) "network_connection_observed" then
    let connection := default ("missing-connection-id-sequence-" +:+ pretty (ev_sequence e))
                        (connection_id (ev_ids e)) in
    let traffic_class :=
      match field_str e "traffic_class" with
      | Some class => if bool_decide (class ∈ egress_classes) then class else "unknown_external"
      | None => "unknown_external"
      end in
    let s := s <| su_egress_classes ::= fun m =>
      map_insert traffic_class ({[ connection ]} ∪ default ∅ (map_get traffic_class m)) m |> in
    let s := if str_eqb traffic_class "unknown_external"
             then s <| su_unknown_egress ::= union {[ connection ]} |>
             else if str_eqb traffic_class "model_bypass"
             then s <| su_model_bypass_connections ::= union {[ connection ]} |>
             else s in
    if bool_decide (traffic_class ∈ ["unknown_external"; "model_bypass"])
       && match field_str e "protocol" with
          | Some protocol => str_starts_with "udp" protocol | None => false end
    then s <| su_possible_quic_connections ::= union {[ connection ]} |> else s
  else s.

Definition note_tls_surfaces (e : EventEnvelope) (s : EventSummary) : EventSummary :=
  if bool_decide (ev_event e ∈ ["process_observed"; "process_tls_surfaces_changed"]) then
    match field_u64 e "pid", field_u64 e "start_ticks", field e "tls_surfaces" ≫= as_array with
    | Some pid, Some ticks, Some surfaces =>
        s <| su_tls_surfaces ::= fun X =>
               foldl (fun X surface => {[ (pid, ticks, surface) ]} ∪ X) X (omap as_str surfaces) |>
    | _, _, _ => s
    end
  else s.

Definition note_scan_gap (e : EventEnvelope) (s : EventSummary) : EventSummary :=
  if str_eqb (ev_event e) "process_network_scan_gap" then
    match field_u64 e "pid", field_u64 e "process_start_ticks", field_str e "protocol",
          field_str e "reason" with
    | Some pid, Some ticks, Some protocol, Some reason =>
        let occurrences := N.max (default 1 (field_u64 e "occurrences")) 1 in
        s <| su_network_scan_gaps ::= fun m =>
               <[(pid, ticks, protocol, reason) :=
                   match m !! (pid, ticks, protocol, reason) with
                   | Some current => N.max current occurrences | None => occurrences end]> m |>
    | _, _, _, _ => s
    end
  else s.

Definition note_tracker (e : EventEnvelope) (s : EventSummary) : EventSummary :=
  let s := if str_eqb (ev_event e) "process_scan_failed"
           then s <| su_process_scan_failures ::= N.max (default 1 (field_u64 e "failures_total")) |>
           else s in
  if str_eqb (ev_event e) "process_tracker_stopped" then
    s <| su_process_scan_failures ::= N.max (default 0 (field_u64 e "scan_failures")) |>
      <| su_processes_running_at_stop ::= N.max (default 0 (field_u64 e "still_running_count")) |>
      <| su_connections_open_at_stop ::= N.max (default 0 (field_u64 e "open_connections")) |>
  else s.

Definition update_surface_coverage (e : EventEnvelope) (s : EventSummary) : EventSummary :=
  if negb (str_eqb (ev_source e) "process") then s
  else match ev_normalized e with
  | None => s
  | Some _ => note_tracker e (note_scan_gap e (note_tls_surfaces e (note_connection e s)))
  end.

(** ** Counters *)

Definition count_error (c : CoverageCounts) : CoverageCounts :=
  c <| cc_errors ::= fun n => sat_add n 1 |>.

(** [update_counts]: the counts and [terminal_attempts]. *)
Definition update_counts (e : EventEnvelope) (c : CoverageCounts) (terminal_attempts : N)
    : CoverageCounts * N :=
  let failed := bool_decide (ev_terminal_state e = Some Error) in
  if negb (str_eqb (ev_source e) "proxy") then
    (if failed then count_error c else c, terminal_attempts)
  else
    let c := if str_eqb (ev_event e) "transport_request_started"
             then c <| cc_transport_attempts ::= fun n => sat_add n 1 |> else c in
    let c := if str_eqb (ev_event e) "transport_response_started"
                && match field_u64 e "status" with Some status => 400 <=? status | None => false end
             then count_error c else c in
    let tokens key := default 0 ((field e "semantic" ≫= get key) ≫= as_u64) in
    let c := if str_eqb (ev_event e) "sse_event"
             then c <| cc_input_tokens ::= fun n => sat_add n (tokens "input_tokens") |>
                    <| cc_output_tokens ::= fun n => sat_add n (tokens "output_tokens") |>
             else c in
    if str_eqb (ev_event e) "transport_attempt_finished" then
      (match ev_terminal_state e with
       | Some Complete => c <| cc_completed_attempts ::= fun n => sat_add n 1 |>
       | Some Error => count_error c <| cc_incomplete_attempts ::= fun n => sat_add n 1 |>
       | Some Cancelled | Some Incomplete | None =>
           c <| cc_incomplete_attempts ::= fun n => sat_add n 1 |>
       end, sat_add terminal_attempts 1)
    else (if failed then count_error c else c, terminal_attempts).

Definition note_counts (e : EventEnvelope) (s : EventSummary) : EventSummary :=
  let '(c, t) := update_counts e (su_counts s) (su_terminal_attempts s) in
  s <| su_counts := c |> <| su_terminal_attempts := t |>.

Definition note_task (e : EventEnvelope) (s : EventSummary) : EventSummary :=
  match logical_task_id (ev_ids e) with
  | Some task => s <| su_logical_tasks ::= union {[ task ]} |>
  | None => s
  end.

Definition note_unresolved_correlation (e : EventEnvelope) (s : EventSummary) : EventSummary :=
  if is_event e "correlation" "inference_correlation_unresolved"
  then s <| su_unresolved_correlations ::= fun n => sat_add n 1 |> else s.

Definition note_aliases (e : EventEnvelope) (z : Summarizing) : Summarizing :=
  if is_event e "correlation" "inference_correlation"
     && bool_decide (field_str e "method" = Some "unique_retry_chain") then
    match inference_id (ev_ids e), field e "transport_inference_ids" ≫= as_array with
    | Some canonical, Some members =>
        z <| sz_inference_aliases ::= fun m =>
               foldl (fun m member => map_insert member canonical m) m (omap as_str members) |>
    | _, _ => z
    end
  else z.

(** ** Limits *)

Definition ensure_analysis_limit (length limit : N) (operation : string) : storage_result unit :=
  if limit <? length then Err (AnalysisLimitExceeded operation limit) else Ok tt.

Definition enforce_summary_limits (z : Summarizing) : storage_result unit :=
  let s := sz_summary z in
  ensure_analysis_limit (nlen (su_referenced_blobs s)) MAX_TRACKED_BLOB_REFERENCES
    "inspection blob-reference index";;
  ensure_analysis_limit (len (su_logical_tasks s)) MAX_TRACKED_LABELS
    "inspection logical-task index";;
  ensure_analysis_limit (nlen (su_sources s)) MAX_TRACKED_LABELS
    "inspection capture-source index";;
  ensure_analysis_limit (nlen (su_protocols s)) MAX_TRACKED_PROTOCOLS
    "inspection protocol index";;
  ensure_analysis_limit (nlen (su_egress_classes s)) MAX_TRACKED_EGRESS_CLASSES
    "inspection egress-class index";;
  ensure_analysis_limit (foldr (fun entry total => len (snd entry) + total) 0 (su_egress_classes s))
    MAX_TRACKED_IDENTIFIERS "inspection classified-egress index";;
  try_fold (fun _ '(length, operation) =>
      ensure_analysis_limit length MAX_TRACKED_IDENTIFIERS operation) tt
    [(len (sz_logical_inferences z), "inspection logical-inference index");
     (nlen (sz_inference_models z), "inspection model index");
     (nlen (sz_inference_aliases z), "inspection correlation index");
     (len (su_model_attempts s), "inspection attempt index");
     (len (su_websocket_attempts s), "inspection WebSocket-attempt index");
     (len (su_complete_request_payloads s), "inspection complete-request index");
     (len (su_complete_response_payloads s), "inspection complete-response index");
     (len (su_incomplete_request_payloads s), "inspection incomplete-request index");
     (len (su_incomplete_response_payloads s), "inspection incomplete-response index");
     (len (su_unknown_egress s), "inspection egress index");
     (len (su_model_bypass_connections s), "inspection model-bypass index");
     (len (su_possible_quic_connections s), "inspection possible-QUIC index");
     (N.of_nat (size (su_tls_surfaces s)), "inspection TLS-surface index");
     (N.of_nat (size (su_network_scan_gaps s)), "inspection network-gap index")].

(** ** The pass over the events *)

Definition note_keylog (e : EventEnvelope) (s : EventSummary) : EventSummary :=
  if is_event e "proxy" "proxy_started" && bool_decide (field_bool e "upstream_tls_keylog" = Some true)
  then add_source "tls-keylog:proxy-rustls" s else s.

(** The part of the closure before the model call is noted. *)
Definition note_sources (d : RunDir) (e : EventEnvelope) (s : EventSummary) : EventSummary :=
  let s := s <| su_counts ::= fun c => c <| cc_events ::= fun n => sat_add n 1 |> |> in
  let s := add_source (ev_source e) s in
  let s := if str_eqb (ev_source e) "runner" then note_runner_event e s else s in
  note_keylog e (note_reference d e s).

(** The visitor closure without its limits, then with them. *)
Definition note_event (d : RunDir) (e : EventEnvelope) (z : Summarizing) : Summarizing :=
  let z := z <| sz_summary ::= note_sources d e |> in
  let z := note_hook_call e (note_model_call e z) in
  let z := z <| sz_summary ::= note_upstream_protocol e |> in
  let z := note_inference_model e z in
  let z := z <| sz_summary ::= note_dependencies e |> <| sz_summary ::= update_payload_coverage e |>
             <| sz_summary ::= update_surface_coverage e |> <| sz_summary ::= note_task e |>
             <| sz_summary ::= note_counts e |> <| sz_summary ::= note_unresolved_correlation e |> in
  note_aliases e z.

Definition visit_event (d : RunDir) (z : Summarizing) (e : EventEnvelope) : storage_result Summarizing :=
  let z := note_event d e z in
  enforce_summary_limits z;; Ok z.

Definition canonical (aliases : list (string * string)) (inference : string) : string :=
  default inference (map_get inference aliases).

(** What follows the pass. *)
Definition finish_summary (z : Summarizing) : EventSummary :=
  let inferences : gset string :=
    set_map (canonical (sz_inference_aliases z)) (sz_logical_inferences z) in
  let models := foldl (fun m '(inference, model) =>
      map_insert (canonical (sz_inference_aliases z) inference) model m) [] (sz_inference_models z) in
  sz_summary z <| su_counts ::= fun c =>
    c <| cc_logical_inferences := len inferences |>
      <| cc_logical_tasks := len (su_logical_tasks (sz_summary z)) |>
      <| cc_models ::= fun counts => foldl (fun counts '(_, model) => increment model counts) counts models |> |>.

(** ** The payload files *)

Record BlobInventory := mkBlobInventory {
  bi_files : N;
  bi_storage_bytes : N;
  bi_hashes : gset string;
  bi_verified_sizes : gmap string N;
  bi_corrupt : list string;
  bi_unverified_pending : gset string;
}.

#[export] Instance BlobInventory_settable : Settable BlobInventory := fun i =>
  mkBlobInventory (bi_files i) (bi_storage_bytes i) (bi_hashes i) (bi_verified_sizes i)
    (bi_corrupt i) (bi_unverified_pending i).

Definition default_inventory : BlobInventory := mkBlobInventory 0 0 ∅ ∅ [] ∅.

Definition some_class (class : option BlobClass) : bool :=
  match class with Some _ => true | None => false end.

(** [class.is_some_and(|class| classes.contains(&class))] *)
Definition class_in (classes : list BlobClass) (class : option BlobClass) : bool :=
  match class with Some c => bool_decide (c ∈ classes) | None => false end.

Section Inspect.
Context {dig : Digest} {hx : Hex} {b64 : Base64} {aead : Aead} {zstd : Zstd} {http : Http}
  {serde : Serde} {serdeb : SerdeBlock} {serdem : SerdeManifest} {serdee : SerdeErasure}.

(** [sha256] *)
Definition sha256_hex (content : bytes) : string := hex_encode (sha256 content).

Definition summarize_events (d : RunDir) (events : option bytes) (expected_run_id : string)
    (encryption : option EncryptionKey) : storage_result EventSummary :=
  '(_, z) ← for_each_run_event_with_key events expected_run_id encryption (visit_event d)
              start_summarizing;
  Ok (finish_summary z).

(** The key of a payload file. *)
Definition blob_key (d : RunDir) (encryption : option EncryptionKey) (class : option BlobClass)
    : storage_result EncryptionKey :=
  run_key ← ok_or encryption (Io (io_error PermissionDenied
                                    "encrypted blob verification requires the matching key"));
  match class with
  | Some c =>
      k ← from_io (load_class_key d run_key c);
      ok_or k (Io (io_error InvalidData "class-keyed blob has no class encryption key"))
  | None => Ok run_key
  end.

Definition mark_corrupt (reference : string) (i : BlobInventory) : BlobInventory :=
  i <| bi_corrupt ::= set_insert reference |>.

(** The content of a payload file against its name. *)
Definition verify_blob (d : RunDir) (expect_encrypted : bool) (encryption : option EncryptionKey)
    (class : option BlobClass) (hash reference : string) (content : bytes) (i : BlobInventory)
    : storage_result BlobInventory :=
  plaintext ←
    (if expect_encrypted then
       key ← blob_key d encryption class; Ok (ok (decrypt_blob key content hash))
     else Ok (Some content));
  match plaintext with
  | None => Ok (mark_corrupt reference i)
  | Some plaintext =>
      if negb (str_eqb (sha256_hex plaintext) hash) then Ok (mark_corrupt reference i)
      else Ok (i <| bi_verified_sizes ::= <[reference := nlen plaintext]> |>)
  end.

Definition blob_name_prefixes : list string :=
  ["sha256-"; "body-sha256-"; "pcap-sha256-"; "tls_secrets-sha256-"].

(** One entry of the directory, after its size was added. *)
Definition inventory_entry (d : RunDir) (expect_encrypted : bool) (encryption : option EncryptionKey)
    (verify : bool) (erased_classes pending_unavailable_classes : list BlobClass)
    (name : string) (content : bytes) (i : BlobInventory) : storage_result BlobInventory :=
  match parse_blob_file_name name with
  | Err _ =>
      if existsb (fun prefix => str_starts_with prefix name) blob_name_prefixes
      then Err (Io (io_error InvalidData "invalid content-addressed blob name"))
      else Ok i
  | Ok (class, hash) =>
      let reference := file_identity class hash in
      let i := i <| bi_files ::= fun n => sat_add n 1 |> <| bi_hashes ::= union {[ reference ]} |> in
      let maximum_storage_bytes :=
        if expect_encrypted then MAX_ENCODED_BLOB_BYTES else MAX_SINGLE_BLOB_BYTES in
      if negb (Bool.eqb (has_keyring d) (some_class class)) then Ok (mark_corrupt reference i)
      else if class_in erased_classes class then Ok (mark_corrupt reference i)
      else if maximum_storage_bytes <? nlen content then Ok (mark_corrupt reference i)
      else if negb (Bool.eqb (is_encrypted_blob (ntake 8 content)) expect_encrypted)
      then Ok (mark_corrupt reference i)
      else if negb verify then Ok i
      else if class_in pending_unavailable_classes class
      then Ok (i <| bi_unverified_pending ::= union {[ reference ]} |>)
      else verify_blob d expect_encrypted encryption class hash reference content i
  end.

Definition blob_inventory (d : RunDir) (expect_encrypted : bool) (encryption : option EncryptionKey)
    (verify : bool) (erased_classes pending_unavailable_classes : list BlobClass)
    : storage_result BlobInventory :=
  '(_, i) ← try_fold (fun '(entries, i) '(name, content) =>
      let entries := sat_add entries 1 in
      if MAX_BLOB_DIRECTORY_ENTRIES <? entries
      then Err (AnalysisLimitExceeded "inspection blob-directory inventory" MAX_BLOB_DIRECTORY_ENTRIES)
      else
        total ← ok_or (checked_add (bi_storage_bytes i) (nlen content))
                  (Io (io_error InvalidData "blob directory size overflows u64"));
        i ← inventory_entry d expect_encrypted encryption verify erased_classes
              pending_unavailable_classes name content (i <| bi_storage_bytes := total |>);
        Ok (entries, i)) (0, default_inventory) (map_to_list (rd_blobs d));
  Ok i.

(** ** Erased and half-erased classes *)

Record ErasedClasses := mkErasedClasses {
  ec_erased : list BlobClass;
  ec_pending : list BlobClass;
  ec_unavailable : list BlobClass;
}.

#[export] Instance ErasedClasses_settable : Settable ErasedClasses := fun c =>
  mkErasedClasses (ec_erased c) (ec_pending c) (ec_unavailable c).

(** One round of the loop over the classes, in their order. *)
Definition inspect_class (d : RunDir) (run_key : EncryptionKey) (c : ErasedClasses)
    (class : BlobClass) : io_result ErasedClasses :=
  state ← read_erasure_state d run_key class;
  match state with
  | Some state =>
      match es_phase state with
      | PhaseComplete =>
          match rd_keys d ≫= fun keys => keys !! envelope_file_name class with
          | Some _ => Err (io_error InvalidData "completed class erasure retains a key-envelope path")
          | None => Ok (c <| ec_erased ::= fun l => l ++ [class] |>)
          end
      | Intent =>
          let c := c <| ec_pending ::= fun l => l ++ [class] |> in
          match load_class_key d run_key class with
          | Ok (Some _) => Ok c
          | Ok None =>
              Err (io_error InvalidData "pending class erasure unexpectedly uses a legacy key")
          | Err e =>
              if bool_decide (error_kind e = NotFound)
              then Ok (c <| ec_unavailable ::= fun l => l ++ [class] |>) else Err e
          end
      end
  | None =>
      k ← load_class_key d run_key class;
      _ ← ok_or k (io_error InvalidData "active blob class has no key envelope");
      Ok c
  end.

Definition inspect_classes (d : RunDir) (encryption : option EncryptionKey) : io_result ErasedClasses :=
  if has_keyring d then
    run_key ← ok_or encryption (io_error PermissionDenied
                                  "class-keyed inspection requires the matching run key");
    try_fold (inspect_class d run_key) (mkErasedClasses [] [] []) all_classes
  else Ok (mkErasedClasses [] [] []).

(** The key management the manifest declares against the key directory. *)
Definition check_key_management (m : Manifest) (class_keyed : bool) : io_result unit :=
  match sm_encryption (m_storage m) ≫= em_blob_key_management with
  | Some management =>
      if str_eqb management BLOB_KEY_MANAGEMENT_V1 && negb class_keyed
      then Err (io_error InvalidData
                  "manifest requires class-keyed blobs but the key directory is absent")
      else Ok tt
  | None =>
      if class_keyed
      then Err (io_error InvalidData "class-keyed blob directory is not declared by the manifest")
      else Ok tt
  end.

(** ** The derived coverage *)

Definition gap (known_gap : string) (c : Coverage) : Coverage :=
  c <| cov_known_gaps ::= fun gaps => gaps ++ [known_gap] |>.
Definition gap_if (b : bool) (known_gap : string) (c : Coverage) : Coverage :=
  if b then gap known_gap c else c.

Definition sum_gaps (l : list (N * N * string * string * N)) : N :=
  foldl (fun total entry => sat_add total (snd entry)) 0 l.

Definition unparsed_reason (entry : N * N * string * string * N) : bool :=
  let '(_, _, _, reason, _) := entry in
  str_starts_with "socket_rows_unparsed" reason
  || str_starts_with "socket_rows_omitted_at_connection_limit" reason.

(** The fields derived from the summary alone, up to the state graph. *)
Definition derive_network (m : Manifest) (s : EventSummary) (c : Coverage) : Coverage :=
  let indicators := sat_add (len (su_unknown_egress s))
                      (if 0 <? su_task_netns_denied_packets s then 1 else 0) in
  let enforced := existsb (str_eqb "network:task-netns-proxy-only") (cov_capture_sources c) in
  let instances := su_tls_surfaces s ∪
    list_to_set ((fun surface => (0, 0, surface)) <$> executable_tls_surfaces (m_command m)) in
  c <| cov_unknown_egress := if enforced then 0 else indicators |>
    <| cov_task_netns_denied_packets := su_task_netns_denied_packets s |>
    <| cov_blocked_unknown_egress_indicators := if enforced then indicators else 0 |>
    <| cov_model_bypass_connections := len (su_model_bypass_connections s) |>
    <| cov_observed_egress_classes := (fun '(class, connections) => (class, len connections))
                                        <$> su_egress_classes s |>
    <| cov_possible_quic_connections := len (su_possible_quic_connections s) |>
    <| cov_observed_tls_surfaces :=
         foldl (fun counts '(_, _, surface) => increment surface counts) [] (elements instances) |>
    <| cov_unknown_tls_surfaces := N.of_nat (size instances) |>
    <| cov_process_network_scan_gaps := sum_gaps (map_to_list (su_network_scan_gaps s)) |>
    <| cov_process_scan_failures := su_process_scan_failures s |>
    <| cov_processes_running_at_stop := su_processes_running_at_stop s |>
    <| cov_connections_open_at_stop := su_connections_open_at_stop s |>
    <| cov_unparsed_connections :=
         sum_gaps (List.filter unparsed_reason (map_to_list (su_network_scan_gaps s))) |>.

Definition derive_sources (s : EventSummary) (c : Coverage) : Coverage :=
  let c := c <| cov_capture_sources ::= fun sources => set_of_list (sources ++ su_sources s) |>
             <| cov_all_attempts_have_terminal_state :=
                  cc_transport_attempts (su_counts s) =? su_terminal_attempts s |>
             <| cov_observed_protocols := su_protocols s |> in
  gap_if (map_contains_key "upstream:unknown" (su_protocols s))
    "an upstream HTTP protocol version was not recognized"
    (gap_if (map_contains_key "upstream:http/2" (su_protocols s))
       "upstream HTTP/2 was observed through the endpoint client; wire stream IDs were not independently decoded"
       c).

(** The claims about captured payloads, before the files are looked at. *)
Definition derive_payloads (g : StateGraph) (s : EventSummary) (c : Coverage) : Coverage :=
  let c := c <| cov_unresolved_state_references := unresolved_count g |> in
  let c := gap_if (sg_analysis_truncated g)
             ("state analysis reached its safety limit; " +:+ pretty (sg_omitted_observations g) +:+
              " observations were omitted") c in
  let complete (done lost : gset string) :=
    negb (bool_decide (su_model_attempts s = ∅)) && bool_decide (su_model_attempts s ⊆ done)
    && bool_decide (lost = ∅) in
  c <| cov_unresolved_payload_references := su_unresolved_payload_references s |>
    <| cov_unresolved_correlations := su_unresolved_correlations s |>
    <| cov_captured_request_payloads_complete :=
         complete (su_complete_request_payloads s) (su_incomplete_request_payloads s)
         && (su_unresolved_payload_references s =? 0) && (cov_capture_drops c =? 0) |>
    <| cov_captured_response_payloads_complete :=
         complete (su_complete_response_payloads s) (su_incomplete_response_payloads s)
         && (cov_capture_drops c =? 0) |>.

Definition derive_gaps (s : EventSummary) (c : Coverage) : Coverage :=
  let c := gap_if (0 <? cov_unresolved_payload_references c)
    (pretty (cov_unresolved_payload_references c) +:+
     " external payload references were not independently snapshotted") c in
  let c := gap_if (0 <? cov_unparsed_connections c)
    (pretty (cov_unparsed_connections c) +:+
     " process socket-table rows could not be parsed or were omitted at the connection limit") c in
  let c := gap_if (cov_unparsed_connections c <? cov_process_network_scan_gaps c)
    (pretty (sat_sub (cov_process_network_scan_gaps c) (cov_unparsed_connections c)) +:+
     " process network observations had polling or permission gaps; independently captured wire boundaries may replace these attribution-only gaps") c in
  let c := gap_if (0 <? cov_possible_quic_connections c)
    (pretty (cov_possible_quic_connections c) +:+
     " external UDP connections may carry unsupported QUIC/HTTP3 traffic") c in
  let c := gap_if (0 <? cov_model_bypass_connections c)
    (pretty (cov_model_bypass_connections c) +:+
     " target connections matched the configured model upstream while bypassing the recorder listener") c in
  let c := gap_if (0 <? su_processes_running_at_stop s)
    ("the run ended while " +:+ pretty (su_processes_running_at_stop s) +:+
     " target processes were still running; activity after the recorder boundary was not captured") c in
  let c := gap_if (0 <? su_connections_open_at_stop s)
    ("the run ended with " +:+ pretty (su_connections_open_at_stop s) +:+
     " target-process network connections still open") c in
  let c := gap_if (0 <? su_task_cgroup_remaining s)
    ("the task cgroup retained " +:+ pretty (su_task_cgroup_remaining s) +:+
     " target processes at the recording boundary and could not be removed") c in
  let c := gap_if (0 <? su_task_cgroup_cleanup_errors s)
    (pretty (su_task_cgroup_cleanup_errors s) +:+
     " task-cgroup cleanup operations could not be verified") c in
  let c := gap_if (0 <? su_task_netns_denied_packets s)
    ("the verified proxy-only task network policy blocked " +:+
     pretty (su_task_netns_denied_packets s) +:+
     " outbound packets; none crossed the enforced boundary, but their attempted application purpose is unknown") c in
  c <| cov_known_gaps ::= set_of_list |>.

(** ** References against files *)

Record ReferenceCheck := mkReferenceCheck {
  rc_missing : list string;
  rc_corrupt : list string;
  rc_erased : list string;
  rc_pending : list string;
}.

#[export] Instance ReferenceCheck_settable : Settable ReferenceCheck := fun r =>
  mkReferenceCheck (rc_missing r) (rc_corrupt r) (rc_erased r) (rc_pending r).

Definition check_reference (i : BlobInventory) (classes : ErasedClasses) (verify : bool)
    (r : ReferenceCheck) (entry : string * N) : ReferenceCheck :=
  let '(reference, expected_size) := entry in
  if negb (bool_decide (reference ∈ bi_hashes i)) then
    if class_in (ec_erased classes) (identity_class reference)
    then r <| rc_erased ::= fun l => l ++ [reference] |>
    else if class_in (ec_unavailable classes) (identity_class reference)
    then r <| rc_pending ::= fun l => l ++ [reference] |>
    else r <| rc_missing ::= fun l => l ++ [reference] |>
  else if bool_decide (reference ∈ bi_unverified_pending i)
  then r <| rc_pending ::= fun l => l ++ [reference] |>
  else if verify && negb (bool_decide (bi_verified_sizes i !! reference = Some expected_size))
  then r <| rc_corrupt ::= set_insert reference |>
  else r.

Definition check_references (i : BlobInventory) (classes : ErasedClasses) (verify : bool)
    (references : list (string * N)) : ReferenceCheck :=
  foldl (check_reference i classes verify) (mkReferenceCheck [] (bi_corrupt i) [] []) references.

Definition referenced_bytes (classes : ErasedClasses) (references : list (string * N)) : N :=
  foldl (fun total entry => sat_add total (snd entry)) 0
    (List.filter (fun entry => negb (class_in (ec_erased classes) (identity_class (fst entry)))) references).

Definition no_strings (l : list string) : bool := bool_decide (l = []).

Definition no_payload_claims (c : Coverage) : Coverage :=
  c <| cov_captured_request_payloads_complete := false |>
    <| cov_captured_response_payloads_complete := false |>.

(** The coverage after the references were checked. *)
Definition derive_files (classes : ErasedClasses) (r : ReferenceCheck) (c : Coverage) : Coverage :=
  let pending := negb (bool_decide (ec_pending classes = [])) in
  let c := if negb (no_strings (rc_missing r)) || negb (no_strings (rc_corrupt r))
              || negb (no_strings (rc_erased r)) || pending || negb (no_strings (rc_pending r))
           then no_payload_claims c else c in
  let c := gap_if (negb (no_strings (rc_erased r)))
    (pretty (nlen (rc_erased r)) +:+
     " payload references were intentionally made unavailable by authenticated class erasure") c in
  let c := gap_if pending
    (pretty (nlen (ec_pending classes)) +:+ " blob-class erasure operations require recovery") c in
  c <| cov_known_gaps ::= set_of_list |>.

(** ** The inspection *)

Definition legacy_gap : string :=
  "encrypted legacy manifest has no authenticator; event and blob AEAD remain independently verified".

(** The manifest with what the events show. *)
Definition derive_manifest (m : Manifest) (authenticated : option bool) (s : EventSummary)
    (g : StateGraph) : Manifest :=
  m <| m_authentication := None |> <| m_counts := su_counts s |>
    <| m_coverage ::= fun c =>
         derive_gaps s (derive_payloads g s (derive_network m s (derive_sources s
           (gap_if (bool_decide (authenticated = Some false)) legacy_gap c)))) |>.

(** And with what the files show. *)
Definition derive_inventory (m : Manifest) (classes : ErasedClasses) (i : BlobInventory)
    (r : ReferenceCheck) (references : list (string * N)) (log : RecoveryReport) : Manifest :=
  m <| m_counts ::= fun c =>
         c <| cc_blob_bytes := referenced_bytes classes references |>
           <| cc_blobs := bi_files i |> <| cc_blob_storage_bytes := bi_storage_bytes i |>
           <| cc_event_storage_bytes := valid_bytes log |> |>
    <| m_coverage ::= derive_files classes r |>.

Definition inspect_run_with_key (manifest events : option bytes) (d : RunDir) (verify_blobs : bool)
    (encryption : option EncryptionKey) : storage_result Inspection :=
  m ← from_io (read_manifest manifest);
  from_io (check_key_management m (has_keyring d));;
  effective ← from_io (effective_encryption_key m encryption);
  authenticated ← from_io (verify_authentication m encryption);
  classes ← from_io (inspect_classes d effective);
  s ← summarize_events d events (m_run_id m) effective;
  g ← analyze_with_key manifest events encryption;
  i ← blob_inventory d (match effective with Some _ => true | None => false end) effective
        verify_blobs (ec_erased classes) (ec_unavailable classes);
  '(log, _) ← recover_events_with_key events false effective;
  let references := su_referenced_blobs s in
  let r := check_references i classes verify_blobs references in
  Ok (mkInspection (derive_inventory (derive_manifest m authenticated s g) classes i r references log)
        authenticated log (bi_files i) (rc_missing r) (rc_corrupt r)
        (class_str <$> ec_erased classes) (rc_erased r)
        (class_str <$> ec_pending classes) (rc_pending r)).

Definition inspect_run (manifest events : option bytes) (d : RunDir) (verify_blobs : bool)
    : storage_result Inspection :=
  inspect_run_with_key manifest events d verify_blobs None.

(** [finalize_manifest]: the final manifest and the file written. *)
Definition finalize_manifest (manifest events : option bytes) (d : RunDir) (exit_code : Z)
    (capture_drops : N) (encryption : option EncryptionKey) (now : DateTime) (nonce : bytes)
    : storage_result (Manifest * bytes) :=
  inspection ← inspect_run_with_key manifest events d false encryption;
  let m := in_manifest inspection in
  let m := m <| m_status := if (exit_code =? 0)%Z then "finished" else "failed" |>
             <| m_exit_code := Some exit_code |> <| m_finished_at := Some now |>
             <| m_coverage ::= fun c => c <| cov_capture_drops ::= N.max capture_drops |> |> in
  let m := m <| m_coverage ::= fun c =>
    if 0 <? cov_capture_drops c then no_payload_claims c else c |> in
  let m := m <| m_coverage ::= gap_if (0 <? discarded_tail_bytes (in_log inspection))
    (pretty (discarded_tail_bytes (in_log inspection)) +:+ " uncommitted tail bytes require recovery") |> in
  let m := m <| m_coverage ::= fun c =>
    if no_strings (in_missing_blobs inspection) then c
    else gap (pretty (nlen (in_missing_blobs inspection)) +:+ " referenced blobs are missing")
           (no_payload_claims c) |> in
  let m := m <| m_coverage ::= fun c =>
    if no_strings (in_corrupt_blobs inspection) then c
    else gap (pretty (nlen (in_corrupt_blobs inspection)) +:+
              " blob files are corrupt or violate the encryption scope") (no_payload_claims c) |> in
  file ← from_io (write_atomic_authenticated m encryption nonce);
  Ok (m, file).

(** The manifest that notes a repaired tail. *)
Definition note_recovery (m : Manifest) (discarded : N) : Manifest :=
  m <| m_storage ::= fun st => st <| sm_recovered_tail_bytes := Some discarded |> |>
    <| m_coverage ::= gap ("recovery isolated " +:+ pretty discarded +:+
                           " bytes from an incomplete final event") |>.

(** [repair_run_with_key]: its result, and the log and the manifest it leaves. *)
Definition repair_run_with_key (manifest events : option bytes) (encryption : option EncryptionKey)
    (nonce : bytes) : storage_result RecoveryReport * (option bytes * option bytes) :=
  let checked :=
    m ← from_io (read_manifest manifest);
    effective ← from_io (effective_encryption_key m encryption);
    _ ← from_io (verify_authentication m encryption);
    _ ← for_each_run_event_with_key events (m_run_id m) effective (fun _ _ => Ok tt) tt;
    '(report, repaired) ← recover_events_with_key events true effective;
    Ok (m, report, repaired) in
  match checked with
  | Err e => (Err e, (events, manifest))
  | Ok (m, report, repaired) =>
      if 0 <? discarded_tail_bytes report then
        match from_io (write_atomic_authenticated (note_recovery m (discarded_tail_bytes report))
                         encryption nonce) with
        | Err e => (Err e, (repaired, manifest))
        | Ok file => (Ok report, (repaired, Some file))
        end
      else (Ok report, (repaired, manifest))
  end.

Definition repair_run (manifest events : option bytes) (nonce : bytes)
    : storage_result RecoveryReport * (option bytes * option bytes) :=
  repair_run_with_key manifest events None nonce.
End Inspect.
