(* ===== verification/InspectSpec.v ===== *)
(** * What an inspection shows

    The coverage claims of src/inspect.rs against the events of the log: which
    attempts the pass tracks, when it counts a payload as captured or lost,
    and what an inspection without findings says about the payload files. *)

From Stdlib Require Import Strings.Byte.
From S2P Require Import Prelude RustStd External Json Input Model ProbePlan Policy Crypto EventLog EventLogSpec Manifest Tasks StateGraph BlobStore BlobStoreSpec Inspect.
From stdpp Require Import pretty options.
Local Open Scope N_scope.
#[local] Unset Default Proof Using.

(** ** Visitors see the same events *)

Section Visits.
Context {dig : Digest} {hx : Hex} {b64 : Base64} {aead : Aead} {zstd : Zstd} {http : Http}
  {serde : Serde} {serdeb : SerdeBlock}.

(** The events a reader of the run visits. *)
Definition run_events (file : option bytes) (run_id : string) (key : option EncryptionKey)
    : storage_result (list EventEnvelope) :=
  '(_, es) ← for_each_run_event_with_key file run_id key (fun es e => Ok (es ++ [e])) [];
  Ok es.

(** When one visitor gets to the end, every visitor is folded over the same
    events. *)
Lemma visit_run_events_fold {S T} n record run_id enc (v : S -> EventEnvelope -> storage_result S)
    (v' : T -> EventEnvelope -> storage_result T) r previous s s' :
  visit_run_events n record run_id enc v r previous s = Ok s' ->
  exists es, length es = n /\ try_fold v s es = Ok s' /\
    forall t, visit_run_events n record run_id enc v' r previous t = try_fold v' t es.
Proof.
  revert record r previous s. induction n as [|n IH]; intros record r previous s H.
  { injection H as <-. by exists []. }
  cbn [visit_run_events] in H. apply bind_ok in H as ([event r'] & Hn & H).
  apply bind_ok in H as (e & He & H). apply bind_ok in H as ([] & Hc & H).
  apply bind_ok in H as ([] & Hi & H). apply bind_ok in H as (s1 & Hv & H).
  destruct (IH _ _ _ _ H) as (es & Hl & Hf & Hall). exists (envelope e :: es).
  split; [cbn; by rewrite Hl|]. split; [cbn [try_fold]; by rewrite Hv|].
  intros t. cbn [visit_run_events try_fold]. rewrite Hn. cbn [mbind result_bind]. rewrite He.
  cbn [mbind result_bind]. rewrite Hc. cbn [mbind result_bind]. rewrite Hi.
  cbn [mbind result_bind]. destruct (v' t (envelope e)); [apply Hall|done].
Qed.

Lemma collect_fold es l : try_fold (E := StorageError) (fun es e => Ok (es ++ [e])) l es
  = Ok (l ++ es : list EventEnvelope).
Proof.
  revert l. induction es as [|e es IH]; intros l; cbn [try_fold]; [by rewrite app_nil_r|].
  cbn [mbind result_bind]. by rewrite IH, <-app_assoc.
Qed.

Lemma for_each_fold {S} file run_id key (v : S -> EventEnvelope -> storage_result S) s report s' :
  for_each_run_event_with_key file run_id key v s = Ok (report, s') ->
  exists es, run_events file run_id key = Ok es /\ try_fold v s es = Ok s' /\
    nlen es = valid_events report.
Proof.
  unfold for_each_run_event_with_key. intros H. apply bind_ok in H as ([rep f] & Hr & H).
  apply bind_ok in H as (r & Ho & H). apply bind_ok in H as (s1 & Hv & H). injection H as <- <-.
  destruct (visit_run_events_fold _ _ _ _ _ (fun es e => Ok (es ++ [e])) _ _ _ _ Hv)
    as (es & Hl & Hf & Hall). exists es. split; [|split; [done|unfold nlen; lia]].
  unfold run_events, for_each_run_event_with_key. rewrite Hr. cbn [mbind result_bind].
  rewrite Ho. cbn [mbind result_bind]. rewrite Hall, collect_fold. done.
Qed.
End Visits.

(** ** Moments of a log *)

(** [P] holds at some event of the log, with the events before it. *)
Definition moment (P : list EventEnvelope -> EventEnvelope -> Prop) (es : list EventEnvelope) : Prop :=
  exists pre e post, es = pre ++ e :: post /\ P pre e.

Lemma moment_nil P : ~ moment P [].
Proof. intros (pre & e & post & H & _). by destruct pre. Qed.

Lemma moment_snoc P es e : moment P (es ++ [e]) <-> moment P es \/ P es e.
Proof.
  split.
  - intros (pre & e' & post & H & HP).
    destruct post as [|x post _] using rev_ind.
    + apply app_inj_tail in H as [-> ->]. by right.
    + rewrite app_comm_cons, app_assoc in H. apply app_inj_tail in H as [-> ->].
      left. by exists pre, e', post.
  - intros [(pre & e' & post & -> & HP)|HP].
    + exists pre, e', (post ++ [e]). by rewrite <-app_assoc.
    + by exists es, e, [].
Qed.

(** ** What the events say about payloads *)

(** The attempt of a model call an event starts. *)
Definition started (e : EventEnvelope) : option string :=
  if starts_model_call e then inference_id (ev_ids e) ≫= fun _ => attempt_id (ev_ids e) else None.

Definition started_websocket (e : EventEnvelope) : option string :=
  if bool_decide (field_str e "protocol" = Some "websocket") then started e else None.

Definition attempts (es : list EventEnvelope) : gset string := list_to_set (omap started es).
Definition websockets (es : list EventEnvelope) : gset string := list_to_set (omap started_websocket es).

(** The attempt an event of the proxy belongs to. *)
Definition attempt_of (e : EventEnvelope) : option string :=
  if str_eqb (ev_source e) "proxy" then attempt_id (ev_ids e) else None.

Definition websocket_closed_well (e : EventEnvelope) : bool :=
  match ev_terminal_state e with Some _ => true | None => false end
  && bool_decide (field_bool e "capture_failed" = Some false).

Definition frame_lost (e : EventEnvelope) (direction : string) : bool :=
  str_eqb (ev_event e) "websocket_frame" && bool_decide (field_str e "direction" = Some direction)
  && omitted e.

(** The event shows that the request of its attempt was captured in full, or
    that a part of it was not; likewise the response. *)
Definition request_done (e : EventEnvelope) : bool :=
  str_eqb (ev_event e) "request_body_finished" && ended_complete e
  || str_eqb (ev_event e) "websocket_connection_finished" && websocket_closed_well e.

Definition request_lost (e : EventEnvelope) : bool :=
  str_eqb (ev_event e) "request_body_finished" && negb (ended_complete e)
  || str_eqb (ev_event e) "websocket_connection_finished" && negb (websocket_closed_well e)
  || str_eqb (ev_event e) "request_body_chunk" && omitted e
  || frame_lost e "client_to_upstream".

Definition response_done (websocket : bool) (e : EventEnvelope) : bool :=
  str_eqb (ev_event e) "transport_attempt_finished" && negb websocket && ended_complete e
  || str_eqb (ev_event e) "websocket_connection_finished" && websocket_closed_well e.

Definition response_lost (websocket : bool) (e : EventEnvelope) : bool :=
  str_eqb (ev_event e) "transport_attempt_finished" && negb websocket && negb (ended_complete e)
  || str_eqb (ev_event e) "websocket_connection_finished" && negb (websocket_closed_well e)
  || str_eqb (ev_event e) "response_body_chunk" && omitted e
  || frame_lost e "upstream_to_client".

(** An event of an attempt that was started, with what it shows. *)
Definition shows (p : bool -> EventEnvelope -> bool) (a : string) (es : list EventEnvelope) : Prop :=
  moment (fun pre e => attempt_of e = Some a /\ a ∈ attempts (pre ++ [e]) /\
    p (bool_decide (a ∈ websockets (pre ++ [e]))) e = true) es.

(** The external payloads an event refers to without a snapshot of its own. *)
Definition unresolved_of (e : EventEnvelope) : N :=
  su_unresolved_payload_references (note_dependencies e default_summary).

(** ** The pass *)

Definition summarize (d : RunDir) (es : list EventEnvelope) : Summarizing :=
  foldl (fun z e => note_event d e z) start_summarizing es.

Lemma visit_fold d es z z' : try_fold (visit_event d) z es = Ok z' ->
  z' = foldl (fun z e => note_event d e z) z es.
Proof.
  revert z. induction es as [|e es IH]; intros z H; cbn [try_fold] in H; [by injection H as <-|].
  apply bind_ok in H as (z1 & H1 & H). unfold visit_event in H1.
  apply bind_ok in H1 as ([] & _ & H1). injection H1 as <-. by apply IH.
Qed.

(** The part of the summary the payload claims depend on. *)
Definition payloads (s : EventSummary) :=
  (su_complete_request_payloads s, su_complete_response_payloads s,
   su_incomplete_request_payloads s, su_incomplete_response_payloads s).
Definition tracked (s : EventSummary) :=
  (su_model_attempts s, su_websocket_attempts s, payloads s, su_referenced_blobs s,
   su_unresolved_payload_references s).

(** Case analysis on the name of an event, deciding every comparison. *)
Ltac compute_eqb :=
  repeat match goal with
  | |- context [str_eqb ?a ?b] =>
      let v := eval vm_compute in (str_eqb a b) in
      match v with
      | true => change (str_eqb a b) with true
      | false => change (str_eqb a b) with false
      end
  end.
Ltac event_cases e names :=
  lazymatch names with
  | ?name :: ?names' =>
      let H := fresh in
      destruct (str_eqb (ev_event e) name) eqn:H;
      [apply str_eqb_true in H; rewrite ?H; compute_eqb; cbn [andb orb negb]
      |event_cases e names']
  | [] => cbn [andb orb negb]
  end.

Ltac by_cases := intros; repeat case_match; reflexivity.

Lemma tracked_runner e s : tracked (note_runner_event e s) = tracked s.
Proof. unfold note_runner_event. by_cases. Qed.
Lemma tracked_keylog e s : tracked (note_keylog e s) = tracked s.
Proof. unfold note_keylog. by_cases. Qed.
Lemma tracked_upstream e s : tracked (note_upstream_protocol e s) = tracked s.
Proof. unfold note_upstream_protocol. by_cases. Qed.
Lemma tracked_task e s : tracked (note_task e s) = tracked s.
Proof. unfold note_task. by_cases. Qed.
Lemma tracked_counts e s : tracked (note_counts e s) = tracked s.
Proof. unfold note_counts. by destruct (update_counts _ _ _). Qed.
Lemma tracked_correlation e s : tracked (note_unresolved_correlation e s) = tracked s.
Proof. unfold note_unresolved_correlation. by_cases. Qed.

Lemma tracked_surface e s : tracked (update_surface_coverage e s) = tracked s.
Proof.
  unfold update_surface_coverage. case_match; [done|]. case_match; [|done].
  assert (forall s, tracked (note_tracker e s) = tracked s) as -> by (unfold note_tracker; by_cases).
  assert (forall s, tracked (note_scan_gap e s) = tracked s) as -> by (unfold note_scan_gap; by_cases).
  assert (forall s, tracked (note_tls_surfaces e s) = tracked s) as ->
    by (unfold note_tls_surfaces; by_cases).
  unfold note_connection. by_cases.
Qed.

Lemma tracked_sources d e s : tracked (note_sources d e s) = tracked (note_reference d e s).
Proof.
  unfold note_sources. rewrite tracked_keylog.
  assert (forall s s', tracked s = tracked s' ->
    tracked (note_reference d e s) = tracked (note_reference d e s')) as Hr.
  { clear. intros s s' H. unfold note_reference. destruct (ev_raw e); [|done].
    unfold tracked, payloads in *. simplify_eq/=.
    repeat match goal with H : _ s = _ s' |- _ => rewrite H; clear H end. done. }
  apply Hr. destruct (str_eqb (ev_source e) "runner"); [rewrite tracked_runner|]; reflexivity.
Qed.

(** What one event adds to a set of attempts. *)
Definition mark (m : gset string) (e : EventEnvelope) (p : bool) : gset string :=
  match attempt_of e with
  | Some a => if bool_decide (a ∈ m) && p then {[ a ]} else ∅
  | None => ∅
  end.

Definition is_websocket (w : gset string) (e : EventEnvelope) : bool :=
  match attempt_of e with Some a => bool_decide (a ∈ w) | None => false end.

Definition mark_payloads (m w : gset string) (e : EventEnvelope)
    (x : gset string * gset string * gset string * gset string) :=
  let '(x1, x2, x3, x4) := x in
  (mark m e (request_done e) ∪ x1, mark m e (response_done (is_websocket w e) e) ∪ x2,
   mark m e (request_lost e) ∪ x3, mark m e (response_lost (is_websocket w e) e) ∪ x4).

Lemma omitted_normalized e : ev_normalized e = None -> omitted e = false.
Proof. unfold omitted, field_u64, field. by intros ->. Qed.
Lemma direction_normalized e : ev_normalized e = None -> field_str e "direction" = None.
Proof. unfold field_str, field. by intros ->. Qed.

Lemma some_eqb o c : bool_decide (o = Some c) =
  match o with Some x => str_eqb x c | None => false end.
Proof.
  unfold str_eqb. destruct o as [x|]; [|by rewrite bool_decide_eq_false_2].
  by apply bool_decide_ext; split; [intros [= ->]|intros ->].
Qed.

Definition opt_set (o : option string) : gset string := from_option singleton ∅ o.

(** Unions with nothing. *)
Ltac no_marks := cbn [andb orb negb opt_set from_option]; rewrite ?(left_id_L ∅ (∪)); reflexivity.

Lemma update_payload_marks e s :
  tracked (update_payload_coverage e s) =
    (su_model_attempts s, su_websocket_attempts s,
     mark_payloads (su_model_attempts s) (su_websocket_attempts s) e (payloads s),
     su_referenced_blobs s, su_unresolved_payload_references s).
Proof.
  unfold update_payload_coverage, mark_payloads, payloads, mark, is_websocket, attempt_of.
  destruct (str_eqb (ev_source e) "proxy"); cbn [negb]; [|no_marks].
  destruct (attempt_id (ev_ids e)) as [a|]; [|no_marks].
  destruct (bool_decide (a ∈ su_model_attempts s)); cbn [negb andb]; [|no_marks].
  unfold request_done, request_lost, response_done, response_lost, frame_lost.
  fold (websocket_closed_well e).
  assert (ev_normalized e = None -> omitted e = false) as Hn by apply omitted_normalized.
  event_cases e ["request_body_finished"; "transport_attempt_finished";
    "websocket_connection_finished"; "request_body_chunk"; "response_body_chunk"; "websocket_frame"].
  - by destruct (ended_complete e); no_marks.
  - destruct (bool_decide _), (ended_complete e); no_marks.
  - by destruct (websocket_closed_well e); no_marks.
  - destruct (ev_normalized e); [|rewrite Hn by done];
      destruct (omitted e); no_marks.
  - destruct (ev_normalized e); [|rewrite Hn by done];
      destruct (omitted e); no_marks.
  - destruct (ev_normalized e) eqn:E; [|rewrite Hn by done; rewrite !andb_false_r; no_marks].
    rewrite !some_eqb. destruct (field_str e "direction") as [dir|]; [|no_marks].
    destruct (str_eqb dir "client_to_upstream") eqn:E1.
    { apply str_eqb_true in E1 as ->. compute_eqb. destruct (omitted e); no_marks. }
    destruct (str_eqb dir "upstream_to_client"), (omitted e); no_marks.
  - destruct (ev_normalized e); no_marks.
Qed.

Lemma model_call_tracked e z :
  tracked (sz_summary (note_hook_call e (note_model_call e z))) =
    (opt_set (started e) ∪ su_model_attempts (sz_summary z),
     opt_set (started_websocket e) ∪ su_websocket_attempts (sz_summary z),
     payloads (sz_summary z), su_referenced_blobs (sz_summary z),
     su_unresolved_payload_references (sz_summary z)).
Proof.
  assert (sz_summary (note_hook_call e (note_model_call e z)) = sz_summary (note_model_call e z)) as ->.
  { unfold note_hook_call. by_cases. }
  unfold note_model_call, started_websocket, started.
  destruct (starts_model_call e); [|by case_match; no_marks].
  destruct (inference_id (ev_ids e)); cbn [mbind option_bind];
    [|by case_match; no_marks].
  destruct (attempt_id (ev_ids e)) as [a|]; [|by case_match; no_marks].
  unfold note_attempt. destruct (field_str e "protocol") as [p|]; cbn [default from_option id].
  - rewrite some_eqb. destruct (str_eqb p "websocket"); no_marks.
  - rewrite some_eqb. compute_eqb. no_marks.
Qed.

(** What an event adds to the count of unresolved references. *)
Definition add_unresolved (e : EventEnvelope) (n : N) : N :=
  su_unresolved_payload_references
    (note_dependencies e (default_summary <| su_unresolved_payload_references := n |>)).

Lemma tracked_dependencies e s : tracked (note_dependencies e s) =
  (su_model_attempts s, su_websocket_attempts s, payloads s, su_referenced_blobs s,
   add_unresolved e (su_unresolved_payload_references s)).
Proof. unfold add_unresolved, note_dependencies. by_cases. Qed.

(** What an event adds to the references. *)
Definition add_reference (d : RunDir) (e : EventEnvelope) (m : list (string * N)) : list (string * N) :=
  su_referenced_blobs (note_reference d e (default_summary <| su_referenced_blobs := m |>)).

Lemma tracked_reference d e s : tracked (note_reference d e s) =
  (su_model_attempts s, su_websocket_attempts s, payloads s,
   add_reference d e (su_referenced_blobs s), su_unresolved_payload_references s).
Proof. unfold add_reference, note_reference. by_cases. Qed.

Lemma tracked_fields s m w x r u : tracked s = (m, w, x, r, u) <->
  su_model_attempts s = m /\ su_websocket_attempts s = w /\ payloads s = x /\
  su_referenced_blobs s = r /\ su_unresolved_payload_references s = u.
Proof. unfold tracked. split; [by intros [= <- <- <- <- <-]|by intros (<- & <- & <- & <- & <-)]. Qed.

(** The summary an event leaves, part by part. *)
Lemma note_event_summary d e z : sz_summary (note_event d e z) =
  note_unresolved_correlation e (note_counts e (note_task e (update_surface_coverage e
    (update_payload_coverage e (note_dependencies e (note_upstream_protocol e
      (sz_summary (note_hook_call e (note_model_call e (z <| sz_summary ::= note_sources d e |>)))))))))).
Proof.
  unfold note_event.
  assert (forall z, sz_summary (note_aliases e z) = sz_summary z) as -> by (unfold note_aliases; by_cases).
  assert (forall z, sz_summary (note_inference_model e z) = sz_summary z) as Hi
    by (unfold note_inference_model; by_cases).
  set (z2 := note_hook_call e _).
  change (note_upstream_protocol e (sz_summary z2)) with (sz_summary (z2 <| sz_summary ::= note_upstream_protocol e |>)).
  rewrite <-(Hi (z2 <| sz_summary ::= note_upstream_protocol e |>)). reflexivity.
Qed.

(** The effect of one event on what is tracked. *)
Lemma note_event_tracked d e z :
  let m := opt_set (started e) ∪ su_model_attempts (sz_summary z) in
  let w := opt_set (started_websocket e) ∪ su_websocket_attempts (sz_summary z) in
  tracked (sz_summary (note_event d e z)) =
    (m, w, mark_payloads m w e (payloads (sz_summary z)),
     add_reference d e (su_referenced_blobs (sz_summary z)),
     add_unresolved e (su_unresolved_payload_references (sz_summary z))).
Proof.
  intros m w. rewrite note_event_summary, tracked_correlation, tracked_counts, tracked_task, tracked_surface,
    update_payload_marks.
  set (z1 := z <| sz_summary ::= note_sources d e |>).
  set (z2 := note_hook_call e (note_model_call e z1)).
  pose proof (tracked_dependencies e (note_upstream_protocol e (sz_summary z2))) as Hd.
  apply tracked_fields in Hd as (Hd1 & Hd2 & Hd3 & Hd4 & Hd5).
  pose proof (eq_trans (tracked_upstream e (sz_summary z2)) (model_call_tracked e z1)) as Hu.
  apply tracked_fields in Hu as (Hu1 & Hu2 & Hu3 & Hu4 & Hu5).
  pose proof (tracked_sources d e (sz_summary z)) as Hs. rewrite tracked_reference in Hs.
  apply tracked_fields in Hs as (Hs1 & Hs2 & Hs3 & Hs4 & Hs5).
  rewrite Hd1, Hd2, Hd3, Hd4, Hd5, Hu1, Hu2, Hu3, Hu4, Hu5.
  change (sz_summary z1) with (note_sources d e (sz_summary z)). by rewrite Hs1, Hs2, Hs3, Hs4, Hs5.
Qed.

Lemma summarize_snoc d es e : summarize d (es ++ [e]) = note_event d e (summarize d es).
Proof. unfold summarize. by rewrite foldl_app. Qed.

Lemma attempts_snoc es e : attempts (es ++ [e]) = opt_set (started e) ∪ attempts es.
Proof.
  unfold attempts. rewrite omap_snoc, list_to_set_app_L. destruct (started e); cbn; set_solver.
Qed.
Lemma websockets_snoc es e : websockets (es ++ [e]) = opt_set (started_websocket e) ∪ websockets es.
Proof.
  unfold websockets. rewrite omap_snoc, list_to_set_app_L. destruct (started_websocket e); cbn; set_solver.
Qed.

Lemma attempts_exact d es : su_model_attempts (sz_summary (summarize d es)) = attempts es /\
  su_websocket_attempts (sz_summary (summarize d es)) = websockets es.
Proof.
  induction es as [|e es [IH1 IH2]] using rev_ind; [done|].
  rewrite summarize_snoc, attempts_snoc, websockets_snoc.
  pose proof (note_event_tracked d e (summarize d es)) as H.
  apply tracked_fields in H as (-> & -> & _). by rewrite IH1, IH2.
Qed.

(** ** The claims in terms of the events *)

Lemma mark_elem m e p a : a ∈ mark m e p <-> attempt_of e = Some a /\ a ∈ m /\ p = true.
Proof.
  unfold mark. destruct (attempt_of e) as [b|]; [|set_solver].
  destruct (decide (b ∈ m)) as [Hb|Hb].
  - rewrite bool_decide_eq_true_2 by done. destruct p; cbn [andb]; [|set_solver].
    rewrite elem_of_singleton. naive_solver.
  - rewrite bool_decide_eq_false_2 by done. cbn [andb]. set_solver.
Qed.

(** The four sets of attempts. *)
Lemma payloads_exact d es a : let s := sz_summary (summarize d es) in
  (a ∈ su_complete_request_payloads s <-> shows (fun _ => request_done) a es) /\
  (a ∈ su_complete_response_payloads s <-> shows response_done a es) /\
  (a ∈ su_incomplete_request_payloads s <-> shows (fun _ => request_lost) a es) /\
  (a ∈ su_incomplete_response_payloads s <-> shows response_lost a es).
Proof.
  cbn zeta. induction es as [|e es IH] using rev_ind.
  { unfold shows. split_and!; (split; [set_solver|by intros ?%moment_nil]). }
  destruct IH as (IH1 & IH2 & IH3 & IH4). rewrite summarize_snoc.
  pose proof (note_event_tracked d e (summarize d es)) as H.
  apply tracked_fields in H as (_ & _ & H & _). destruct (attempts_exact d es) as [Ha Hw].
  rewrite Ha, Hw, <-attempts_snoc, <-websockets_snoc in H. unfold payloads in H.
  injection H as -> -> -> ->. unfold shows in *.
  assert (forall p, a ∈ mark (attempts (es ++ [e])) e (p (is_websocket (websockets (es ++ [e])) e) e) <->
    attempt_of e = Some a /\ a ∈ attempts (es ++ [e]) /\
    p (bool_decide (a ∈ websockets (es ++ [e]))) e = true) as Hm.
  { intros p. rewrite mark_elem. unfold is_websocket. destruct (attempt_of e); naive_solver. }
  rewrite !elem_of_union, !moment_snoc.
  rewrite (Hm (fun _ => request_done)), (Hm response_done), (Hm (fun _ => request_lost)), (Hm response_lost).
  tauto.
Qed.

Lemma add_unresolved_0 e n : add_unresolved e n = 0 <-> n = 0 /\ unresolved_of e = 0.
Proof.
  unfold unresolved_of, add_unresolved, note_dependencies. destruct (is_event _ _ _); [|naive_solver].
  cbn -[default pointer]. unfold sat_add, u64_max. lia.
Qed.

Lemma unresolved_exact d es : su_unresolved_payload_references (sz_summary (summarize d es)) = 0 <->
  Forall (fun e => unresolved_of e = 0) es.
Proof.
  induction es as [|e es IH] using rev_ind; [done|]. rewrite summarize_snoc.
  pose proof (note_event_tracked d e (summarize d es)) as H.
  apply tracked_fields in H as (_ & _ & _ & _ & ->).
  rewrite add_unresolved_0, IH, Forall_app, Forall_singleton. done.
Qed.

(** ** References *)

Lemma map_get_In {V} k (v : V) m : map_get k m = Some v -> (k, v) ∈ m.
Proof.
  induction m as [|[j w] m IH]; cbn; [done|]. destruct (str_eqb k j) eqn:E.
  - apply str_eqb_true in E as ->. intros [= ->]. left.
  - intros H. right. auto.
Qed.

Definition refers (d : RunDir) (k : string) (e : EventEnvelope) (n : N) : Prop :=
  exists r, ev_raw e = Some r /\ reference_identity d r = k /\ ref_size r = n.

Lemma add_reference_get d e m k :
  map_get k (add_reference d e m) =
    match ev_raw e with
    | Some r => if decide (reference_identity d r = k)
                then Some (N.max (default 0 (map_get k m)) (ref_size r)) else map_get k m
    | None => map_get k m
    end.
Proof.
  unfold add_reference, note_reference. destruct (ev_raw e) as [r|]; [|done].
  cbn [su_referenced_blobs set_field]. case_decide as H.
  - subst k. rewrite map_get_insert. destruct (map_get _ m); [done|]. cbn. by rewrite N.max_0_l.
  - by rewrite map_get_insert_ne.
Qed.

Lemma sorted_get {V} k (v : V) m : map_sorted m -> (k, v) ∈ m -> map_get k m = Some v.
Proof.
  intros Hs%map_sorted_NoDup. induction m as [|[j w] m IH]; cbn; [by intros ?%elem_of_nil|].
  apply NoDup_cons in Hs as [Hj Hs]. intros [[= -> ->]|Hin]%elem_of_cons; [by rewrite (proj2 (str_eqb_true j j))|].
  destruct (str_eqb k j) eqn:E; [|auto]. apply str_eqb_true in E as ->. destruct Hj. apply list_elem_of_fmap.
  by exists (j, v).
Qed.

Lemma references_sorted d es : map_sorted (su_referenced_blobs (sz_summary (summarize d es))).
Proof.
  induction es as [|e es IH] using rev_ind; [constructor|]. rewrite summarize_snoc.
  pose proof (note_event_tracked d e (summarize d es)) as H. apply tracked_fields in H as (_ & _ & _ & -> & _).
  unfold add_reference, note_reference. destruct (ev_raw e); [|done]. by apply map_insert_sorted.
Qed.

(** The size on record for a payload is the largest an event gives. *)
Lemma references_exact d es k :
  match map_get k (su_referenced_blobs (sz_summary (summarize d es))) with
  | Some n => (exists e, e ∈ es /\ refers d k e n) /\ forall e n', e ∈ es -> refers d k e n' -> n' <= n
  | None => forall e n', e ∈ es -> ~ refers d k e n'
  end.
Proof.
  induction es as [|x es IH] using rev_ind; [by intros e n' ?%elem_of_nil|].
  rewrite summarize_snoc. pose proof (note_event_tracked d x (summarize d es)) as H.
  apply tracked_fields in H as (_ & _ & _ & -> & _). rewrite add_reference_get.
  set (m := su_referenced_blobs (sz_summary (summarize d es))) in *.
  assert (forall e, e ∈ es ++ [x] <-> e ∈ es \/ e = x) as Hin by (intros; set_solver).
  unfold refers in *. destruct (ev_raw x) as [rx|] eqn:Ex; [case_decide as Hk|].
  - destruct (map_get k m) as [n|]; cbn [default from_option id]; setoid_rewrite Hin.
    + destruct IH as [(e & He & r & Hr & Hrk & Hrn) Hmax]. split.
      * destruct (N.max_dec n (ref_size rx)) as [-> | ->]; [exists e|exists x]; naive_solver.
      * intros e' n' [He'| ->] (r' & Hr' & Hrk' & <-); [|naive_solver lia].
        specialize (Hmax e' _ He' (ex_intro _ r' (conj Hr' (conj Hrk' eq_refl)))). lia.
    + rewrite N.max_0_l. split; [exists x; naive_solver|]. intros e' n' [He'| ->] Hr; naive_solver.
  - destruct (map_get k m) as [n|]; setoid_rewrite Hin.
    + destruct IH as [(e & He & Hr) Hmax]. split; [exists e; naive_solver|].
      intros e' n' [He'| ->] Hr'; naive_solver.
    + intros e' n' [He'| ->] Hr'; naive_solver.
  - destruct (map_get k m) as [n|]; setoid_rewrite Hin.
    + destruct IH as [(e & He & Hr) Hmax]. split; [exists e; naive_solver|].
      intros e' n' [He'| ->] Hr'; naive_solver.
    + intros e' n' [He'| ->] Hr'; naive_solver.
Qed.

(** ** Files *)

Section Files.
Context {dig : Digest} {hx : Hex} {b64 : Base64} {aead : Aead} {zstd : Zstd} {http : Http}
  {serde : Serde} {serdeb : SerdeBlock} {serdem : SerdeManifest} {serdee : SerdeErasure}.

Lemma parse_class_name_name classes name class hash :
  parse_class_name classes name = Ok (class, hash) -> blob_file_name hash class = Ok name.
Proof.
  induction classes as [|c classes IH]; cbn [parse_class_name]; [done|].
  destruct (str_strip_prefix _ name) as [h|] eqn:E; [|auto].
  intros H. apply bind_ok in H as ([] & Hv & [= <- <-]). apply str_strip_prefix_spec in E as ->.
  unfold blob_file_name. rewrite Hv. cbn [mbind result_bind]. by destruct c.
Qed.

Lemma parse_blob_file_name_name name class hash :
  parse_blob_file_name name = Ok (class, hash) -> blob_file_name hash class = Ok name.
Proof.
  unfold parse_blob_file_name. destruct (str_strip_prefix "sha256-" name) as [h|] eqn:E.
  - intros H. apply bind_ok in H as ([] & Hv & [= <- <-]). apply str_strip_prefix_spec in E as ->.
    unfold blob_file_name. by rewrite Hv.
  - apply parse_class_name_name.
Qed.

(** The payload of a blob file that passes its verification. *)
Definition holds_payload (d : RunDir) (enc : option EncryptionKey) (class : option BlobClass)
    (hash : string) (content plaintext : bytes) : Prop :=
  match enc with
  | Some _ => exists key, blob_key d enc class = Ok key /\ decrypt_blob key content hash = Ok plaintext
  | None => plaintext = content
  end.

Lemma holds_payload_unique d enc class hash content x y :
  holds_payload d enc class hash content x -> holds_payload d enc class hash content y -> x = y.
Proof.
  unfold holds_payload. destruct enc; [|congruence]. intros (k & Hk & Hx) (k' & Hk' & Hy). congruence.
Qed.

Lemma file_identity_inj class hash class' hash' :
  file_identity class hash = file_identity class' hash' -> class = class' /\ hash = hash'.
Proof. destruct class as [[]|], class' as [[]|]; cbn; intros H; try discriminate H; by injection H. Qed.

(** What stands behind a verified size. *)
Record verified (d : RunDir) (enc : option EncryptionKey) (class : option BlobClass) (hash : string)
    (plaintext : bytes) : Prop := {
  vf_keyring : has_keyring d = some_class class;
  vf_file : exists name content, blob_file_name hash class = Ok name /\
    rd_blobs d !! name = Some content /\ nlen content <= MAX_ENCODED_BLOB_BYTES /\
    is_encrypted_blob content = key_given enc /\ holds_payload d enc class hash content plaintext;
  vf_digest : hex_encode (sha256 plaintext) = hash;
}.

Lemma starts_with_ntake magic l : starts_with magic (ntake (nlen magic) l) = starts_with magic l.
Proof.
  rewrite ntake_take. replace (N.to_nat (nlen magic)) with (length magic) by (unfold nlen; lia).
  revert l. induction magic as [|b magic IH]; intros [|c l]; cbn; [done..|]. by rewrite IH.
Qed.

Lemma inventory_entry_verified d enc verify erased pending name content i i' :
  rd_blobs d !! name = Some content ->
  inventory_entry d (key_given enc) enc verify erased pending name content i = Ok i' ->
  bi_verified_sizes i' = bi_verified_sizes i \/
  exists class hash plaintext, verified d enc class hash plaintext /\
    bi_verified_sizes i' = <[file_identity class hash := nlen plaintext]> (bi_verified_sizes i).
Proof.
  intros Hl. unfold inventory_entry. destruct (parse_blob_file_name name) as [[class hash]|e] eqn:Hp.
  2: { case_match; [done|]. intros [= <-]. by left. }
  apply parse_blob_file_name_name in Hp. cbn zeta.
  destruct (Bool.eqb (has_keyring d) (some_class class)) eqn:Hk; cbn [negb]; [|intros [= <-]; by left].
  destruct (class_in erased class); [intros [= <-]; by left|].
  destruct (_ <? nlen content) eqn:Hlen; [intros [= <-]; by left|].
  destruct (Bool.eqb (is_encrypted_blob _) _) eqn:He; cbn [negb]; [|intros [= <-]; by left].
  destruct verify; cbn [negb]; [|intros [= <-]; by left].
  destruct (class_in pending class); [intros [= <-]; by left|].
  apply eqb_prop in Hk, He. reflect_N. intros H. unfold verify_blob in H.
  apply bind_ok in H as (plaintext & Hpl & H). destruct plaintext as [plaintext|];
    [|injection H as <-; by left].
  destruct (str_eqb _ hash) eqn:Hh; cbn [negb] in H; [|injection H as <-; by left].
  injection H as <-. right. exists class, hash, plaintext. split; [|done].
  apply str_eqb_true in Hh. split; [done| |done]. exists name, content. split_and!; [done..| | |].
  - destruct (key_given enc); [done|]. unfold MAX_ENCODED_BLOB_BYTES in *. lia.
  - rewrite <-He. unfold is_encrypted_blob. symmetry. apply (starts_with_ntake BLOB_MAGIC).
  - unfold holds_payload, key_given in *. destruct enc as [k|].
    + apply bind_ok in Hpl as (key & Hkey & Hpl). exists key. split; [done|]. injection Hpl as Hpl.
      unfold ok in Hpl. by destruct (decrypt_blob key content hash); [injection Hpl as ->|].
    + by injection Hpl.
Qed.

Lemma inventory_verified d enc verify erased pending i reference n :
  blob_inventory d (key_given enc) enc verify erased pending = Ok i ->
  bi_verified_sizes i !! reference = Some n ->
  exists class hash plaintext, verified d enc class hash plaintext /\
    reference = file_identity class hash /\ nlen plaintext = n.
Proof.
  unfold blob_inventory. intros H. apply bind_ok in H as ([entries i'] & H & [= <-]).
  revert reference n.
  change ((fun x : N * BlobInventory => forall reference n, bi_verified_sizes x.2 !! reference = Some n ->
    exists class hash plaintext, verified d enc class hash plaintext /\
      reference = file_identity class hash /\ nlen plaintext = n) (entries, i')).
  eapply try_fold_inv; [| |exact H].
  2: { intros reference n Hn. cbn [snd bi_verified_sizes default_inventory] in Hn.
       by rewrite lookup_empty in Hn. }
  intros [e1 i1] [name content] [e2 i2] Hin HP Hf reference n. cbn [snd].
  apply elem_of_map_to_list in Hin. cbn zeta in Hf. case_match; [done|].
  apply bind_ok in Hf as (total & _ & Hf). apply bind_ok in Hf as (i3 & Hi & [= <- <-]).
  apply inventory_entry_verified in Hi as [->|(class & hash & plaintext & Hv & ->)]; [apply HP|..|done].
  rewrite lookup_insert_Some. intros [[<- <-]|[_ Hn]]; [by exists class, hash, plaintext|by apply HP].
Qed.

Lemma set_insert_not_nil k s : set_insert k s <> [].
Proof. intros H. assert (k ∈ set_insert k s) as Hk by (apply set_insert_elem; by left). by rewrite H in Hk; apply elem_of_nil in Hk. Qed.

(** ** What the files show

    A file of the blob directory under the name of a payload. *)
Definition stored_file (d : RunDir) (class : option BlobClass) (hash : string) (content : bytes) : Prop :=
  exists name, blob_file_name hash class = Ok name /\ rd_blobs d !! name = Some content.

(** The erasure of a class is on record in this phase. *)
Definition erasure_phase (d : RunDir) (enc : option EncryptionKey) (class : BlobClass) (phase : ClassErasurePhase)
    : Prop :=
  exists key state, has_keyring d = true /\ enc = Some key /\
    read_erasure_state d key class = Ok (Some state) /\ es_phase state = phase.

(** A file that is what its name says: of a class where the run has class keys,
    not of an erased one, no larger than payloads get, encrypted where the run is,
    and, if contents are verified, with the digest of its name. *)
Record file_sound (d : RunDir) (enc : option EncryptionKey) (verify : bool) (class : option BlobClass)
    (hash : string) (content : bytes) : Prop := {
  fi_scope : has_keyring d = some_class class;
  fi_kept : forall c, class = Some c -> ~ erasure_phase d enc c PhaseComplete;
  fi_size : nlen content <= if key_given enc then MAX_ENCODED_BLOB_BYTES else MAX_SINGLE_BLOB_BYTES;
  fi_encrypted : is_encrypted_blob content = key_given enc;
  fi_content : verify = true -> exists plaintext, holds_payload d enc class hash content plaintext /\
    hex_encode (sha256 plaintext) = hash;
}.

(** The largest size the events give for a payload. *)
Definition largest (d : RunDir) (es : list EventEnvelope) (identity : string) (n : N) : Prop :=
  (exists e, e ∈ es /\ refers d identity e n) /\ forall e n', e ∈ es -> refers d identity e n' -> n' <= n.

(** The files are all there and sound: no erasure is half done, every payload
    file is sound, and every payload an event refers to has its file, with, if
    contents are verified, as many bytes as the largest size the events give. *)
Record files_sound (d : RunDir) (enc : option EncryptionKey) (verify : bool) (es : list EventEnvelope) : Prop := {
  fs_erasures : forall class, ~ erasure_phase d enc class Intent;
  fs_files : forall class hash content, stored_file d class hash content ->
    file_sound d enc verify class hash content;
  fs_referenced : forall identity n, largest d es identity n ->
    exists class hash content, stored_file d class hash content /\ file_identity class hash = identity /\
      (verify = true -> exists plaintext, holds_payload d enc class hash content plaintext /\ nlen plaintext = n);
}.

Lemma inspect_classes_exact d enc classes : inspect_classes d enc = Ok classes ->
  (forall c, c ∈ ec_erased classes <-> erasure_phase d enc c PhaseComplete) /\
  (forall c, c ∈ ec_pending classes <-> erasure_phase d enc c Intent) /\
  (forall c, c ∈ ec_unavailable classes -> c ∈ ec_pending classes).
Proof.
  unfold inspect_classes, erasure_phase. destruct (has_keyring d).
  2: { intros [= <-]. split_and!; intros c; rewrite ?elem_of_nil; naive_solver. }
  intros H. apply bind_ok in H as (key & Hk & H). apply ok_or_ok in Hk as ->.
  assert (forall phase c, (exists key' state, true = true /\ Some key = Some key' /\
    read_erasure_state d key' c = Ok (Some state) /\ es_phase state = phase) <->
    c ∈ all_classes /\ exists state, read_erasure_state d key c = Ok (Some state) /\ es_phase state = phase) as E.
  { intros phase c. assert (c ∈ all_classes) by (destruct c; set_solver). naive_solver. }
  setoid_rewrite E. clear E.
  refine (try_fold_prefix (fun l classes =>
    (forall c, c ∈ ec_erased classes <-> c ∈ l /\ exists s, read_erasure_state d key c = Ok (Some s) /\ es_phase s = PhaseComplete) /\
    (forall c, c ∈ ec_pending classes <-> c ∈ l /\ exists s, read_erasure_state d key c = Ok (Some s) /\ es_phase s = Intent) /\
    (forall c, c ∈ ec_unavailable classes -> c ∈ ec_pending classes)) _ _ _ _ _ _ H).
  2: { split_and!; intros c; rewrite ?elem_of_nil; naive_solver. }
  clear. intros before class x y _ (H1 & H2 & H3) H. unfold inspect_class in H.
  apply bind_ok in H as (state & Hs & H).
  assert (forall c phase, c ∈ before ++ [class] /\ (exists s, read_erasure_state d key c = Ok (Some s) /\ es_phase s = phase) <->
    (c ∈ before /\ exists s, read_erasure_state d key c = Ok (Some s) /\ es_phase s = phase) \/
    (c = class /\ exists s, state = Some s /\ es_phase s = phase)) as E.
  { intros c phase. rewrite elem_of_app, list_elem_of_singleton. split.
    - intros [[Hb| ->] (s & Hr & Hph)]; [left; eauto|right]. split; [done|]. exists s. split; [congruence|done].
    - intros [[Hb Hx]|[-> (s & -> & Hph)]]; [by split; [left|]|]. split; [by right|]. by exists s. }
  setoid_rewrite E. clear E Hs. destruct state as [state|].
  - destruct (es_phase state) eqn:Ep.
    + assert (ec_erased y = ec_erased x /\ ec_pending y = ec_pending x ++ [class] /\
        forall c, c ∈ ec_unavailable y -> c ∈ ec_unavailable x \/ c = class) as (-> & -> & Hu).
      { repeat case_match; try done; injection H as <-; (split; [done|]); (split; [done|]); intros c; cbn; [by left|].
        rewrite elem_of_app, list_elem_of_singleton. done. }
      clear H. setoid_rewrite elem_of_app. setoid_rewrite list_elem_of_singleton. split_and!.
      * intros c. rewrite H1. split; [by left|]. intros [?|(_ & s & [= <-] & E)]; [done|congruence].
      * intros c. rewrite H2. split; (intros [?| ?]; [by left|right]); [|naive_solver]. split; [done|]. by exists state.
      * intros c [Hc| ->]%Hu; [left; auto|by right].
    + case_match; [done|]. injection H as <-. cbn. setoid_rewrite elem_of_app. setoid_rewrite list_elem_of_singleton.
      split_and!.
      * intros c. rewrite H1. split; (intros [?| ?]; [by left|right]); [|naive_solver]. split; [done|]. by exists state.
      * intros c. rewrite H2. split; [by left|]. intros [?|(_ & s & [= <-] & E)]; [done|congruence].
      * done.
  - apply bind_ok in H as (k & _ & H). apply bind_ok in H as (? & _ & [= <-]).
    split_and!; [intros c; rewrite H1|intros c; rewrite H2|done];
      (split; [by left|intros [?|(_ & s & [=] & _)]; done]).
Qed.

Section Inventory.
Context (d : RunDir) (enc : option EncryptionKey) (verify : bool) (erased pending : list BlobClass).

(** A file the inventory does not call corrupt. *)
Definition entry_ok (class : option BlobClass) (hash : string) (content : bytes) : Prop :=
  has_keyring d = some_class class /\ class_in erased class = false /\
  nlen content <= (if key_given enc then MAX_ENCODED_BLOB_BYTES else MAX_SINGLE_BLOB_BYTES) /\
  is_encrypted_blob content = key_given enc /\
  (verify = true -> class_in pending class = false ->
   exists plaintext, holds_payload d enc class hash content plaintext /\ hex_encode (sha256 plaintext) = hash).

Lemma inventory_entry_exact name content class hash i i' : parse_blob_file_name name = Ok (class, hash) ->
  inventory_entry d (key_given enc) enc verify erased pending name content i = Ok i' ->
  bi_hashes i' = {[ file_identity class hash ]} ∪ bi_hashes i /\
  (bi_corrupt i' = [] <-> bi_corrupt i = [] /\ entry_ok class hash content) /\
  (forall r, r ∈ bi_unverified_pending i' -> r ∈ bi_unverified_pending i \/ pending <> []) /\
  (verify = true -> bi_corrupt i' = [] -> pending = [] -> is_Some (bi_verified_sizes i' !! file_identity class hash)) /\
  (forall r, is_Some (bi_verified_sizes i !! r) -> is_Some (bi_verified_sizes i' !! r)).
Proof.
  intros Hp H. unfold inventory_entry in H. rewrite Hp in H. cbn zeta in H. unfold entry_ok.
  pose proof (set_insert_not_nil (file_identity class hash)) as Hn.
  assert (is_encrypted_blob (ntake 8 content) = is_encrypted_blob content) as He
    by apply (starts_with_ntake BLOB_MAGIC). rewrite He in H.
  destruct (Bool.eqb (has_keyring d) (some_class class)) eqn:Hk; cbn [negb] in H.
  2: { injection H as <-. apply eqb_false_iff in Hk. cbn. naive_solver. }
  apply eqb_prop in Hk. destruct (class_in erased class) eqn:Hc; [injection H as <-; cbn; naive_solver|].
  destruct (_ <? nlen content) eqn:Hl; [injection H as <-; reflect_N; cbn; naive_solver lia|]. reflect_N.
  destruct (Bool.eqb (is_encrypted_blob content) _) eqn:Hm; cbn [negb] in H.
  2: { injection H as <-. apply eqb_false_iff in Hm. cbn. naive_solver. }
  apply eqb_prop in Hm. destruct verify; cbn [negb] in H; [|injection H as <-; cbn; naive_solver].
  destruct (class_in pending class) eqn:Hpe.
  { injection H as <-. assert (pending <> []) by (unfold class_in in Hpe; destruct class; [|done]; intros ->;
      by rewrite bool_decide_eq_false_2 in Hpe by apply not_elem_of_nil). cbn. naive_solver. }
  unfold verify_blob in H. apply bind_ok in H as (plaintext & Hpl & H).
  assert (forall x, plaintext = Some x <-> holds_payload d enc class hash content x) as Hx.
  { intros x. unfold holds_payload, key_given in *. destruct enc as [k|].
    - apply bind_ok in Hpl as (key & Hkey & [= <-]). unfold ok. split.
      + intros Hx. exists key. split; [done|]. by destruct (decrypt_blob key content hash); [injection Hx as ->|].
      + intros (key' & Hkey' & Hd). rewrite Hkey in Hkey'. injection Hkey' as <-. by rewrite Hd.
    - injection Hpl as <-. split; [by intros [= ->]|by intros ->]. }
  destruct plaintext as [x|].
  - assert (holds_payload d enc class hash content x) as Hh by by apply Hx.
    assert (forall y, holds_payload d enc class hash content y -> y = x) as Hu
      by (intros y Hy%Hx; congruence).
    destruct (str_eqb (sha256_hex x) hash) eqn:Hd; cbn [negb] in H; injection H as <-; cbn.
    + apply str_eqb_true in Hd. split; [done|]. split; [naive_solver|]. split; [naive_solver|].
      split; [intros _ _ _; by rewrite lookup_insert_eq|]. intros r Hr. apply lookup_insert_is_Some'. by right.
    + assert (sha256_hex x <> hash) by (intros E; by rewrite (proj2 (str_eqb_true _ _) E) in Hd).
      split; [done|]. split; [|naive_solver].
      split; [naive_solver|]. intros (_ & _ & _ & _ & _ & Hv). destruct (Hv eq_refl eq_refl) as (y & Hy & Hy').
      by rewrite (Hu y Hy) in Hy'.
  - injection H as <-. cbn. split; [done|]. split; [|naive_solver]. split; [naive_solver|].
    intros (_ & _ & _ & _ & _ & Hv). destruct (Hv eq_refl eq_refl) as (y & Hy%Hx & _). done.
Qed.

(** The names that were read, of the entries of a list. *)
Definition listed (l : list (string * bytes)) (class : option BlobClass) (hash : string) (content : bytes) : Prop :=
  exists name, (name, content) ∈ l /\ parse_blob_file_name name = Ok (class, hash).

Lemma listed_snoc l name content class hash x : listed (l ++ [(name, content)]) class hash x <->
  listed l class hash x \/ (x = content /\ parse_blob_file_name name = Ok (class, hash)).
Proof.
  unfold listed. setoid_rewrite elem_of_app. setoid_rewrite list_elem_of_singleton. split.
  - intros (n & [H|[= -> ->]] & Hp); [left; by exists n|by right].
  - intros [(n & H & Hp)|[-> Hp]]; [exists n; by split; [left|]|exists name; by split; [right|]].
Qed.

Lemma blob_inventory_exact i : blob_inventory d (key_given enc) enc verify erased pending = Ok i ->
  (bi_corrupt i = [] <-> forall class hash content, stored_file d class hash content -> entry_ok class hash content) /\
  (forall r, r ∈ bi_hashes i <-> exists class hash content, stored_file d class hash content /\ r = file_identity class hash) /\
  (forall r, r ∈ bi_unverified_pending i -> pending <> []) /\
  (verify = true -> bi_corrupt i = [] -> pending = [] -> forall r, r ∈ bi_hashes i -> is_Some (bi_verified_sizes i !! r)).
Proof.
  unfold blob_inventory. intros H. apply bind_ok in H as ([entries i'] & H & [= <-]).
  assert (forall class hash content, stored_file d class hash content <-> listed (map_to_list (rd_blobs d)) class hash content)
    as Hl.
  { intros class hash content. unfold stored_file, listed. setoid_rewrite elem_of_map_to_list.
    split; intros (name & H1 & H2); exists name; (split; [|done]) || idtac; [split; [done|by apply parse_blob_file_name_ok]|].
    by apply parse_blob_file_name_name. }
  setoid_rewrite Hl. clear Hl.
  refine (try_fold_prefix (fun l (x : N * BlobInventory) => let i := x.2 in
    (bi_corrupt i = [] <-> forall class hash content, listed l class hash content -> entry_ok class hash content) /\
    (forall r, r ∈ bi_hashes i <-> exists class hash content, listed l class hash content /\ r = file_identity class hash) /\
    (forall r, r ∈ bi_unverified_pending i -> pending <> []) /\
    (verify = true -> bi_corrupt i = [] -> pending = [] -> forall r, r ∈ bi_hashes i -> is_Some (bi_verified_sizes i !! r)))
    _ _ _ _ _ _ H); clear H.
  2: { unfold listed. cbn. split; [split; [intros _ ? ? ? (? & ?%elem_of_nil & _)|]; done|].
       split; [|split; [by intros r ?%elem_of_empty|by intros _ _ _ r ?%elem_of_empty]].
       intros r. rewrite elem_of_empty. split; [done|]. by intros (? & ? & ? & (? & ?%elem_of_nil & _) & _). }
  intros before [name content] [e1 i1] [e2 i2] _ (H1 & H2 & H3 & H4) Hf. cbn zeta in *. cbn [snd] in *.
  case_match; [done|]. apply bind_ok in Hf as (total & _ & Hf). apply bind_ok in Hf as (i3 & Hi & [= <- <-]).
  destruct (parse_blob_file_name name) as [[class hash]|e] eqn:Hp.
  - assert (forall c h x, listed (before ++ [(name, content)]) c h x <->
      listed before c h x \/ (c = class /\ h = hash /\ x = content)) as Hl.
    { intros c h x. rewrite listed_snoc, Hp. split; (intros [?|Hx]; [by left|right]).
      - by destruct Hx as [-> [= -> ->]].
      - by destruct Hx as (-> & -> & ->). }
    setoid_rewrite Hl. destruct (inventory_entry_exact _ _ _ _ _ _ Hp Hi) as (-> & E2 & E3 & E4 & E5).
    clear Hl Hi Hp. cbn in E2, E3, E5. rewrite H1 in E2. split_and!.
    + rewrite E2. split; [|intros Hall; split; [intros c h x Hx; apply Hall; by left|apply Hall; by right]].
      intros [Ha Hb] c h x [Hx|(-> & -> & ->)]; [by apply Ha|done].
    + intros r. rewrite elem_of_union, elem_of_singleton, H2. split.
      * intros [->|(c & h & x & Hx & ->)]; [exists class, hash, content|exists c, h, x]; (split; [|done]); [by right|by left].
      * intros (c & h & x & [Hx|(-> & -> & ->)] & ->); [right; by exists c, h, x|by left].
    + intros r Hr. destruct (E3 r Hr) as [Hr'|]; [by eapply H3|done].
    + intros Hv Hc Hpe r [->%elem_of_singleton|Hr]%elem_of_union; [by apply E4|].
      apply E5, H4; try done. by apply H1, E2.
  - assert (i3 = i1 <| bi_storage_bytes := total |>) as ->
      by (unfold inventory_entry in Hi; rewrite Hp in Hi; case_match; [done|by injection Hi]).
    assert (forall c h x, listed (before ++ [(name, content)]) c h x <-> listed before c h x) as Hl.
    { intros c h x. rewrite listed_snoc, Hp. split; [by intros [?|[_ [=]]]|by left]. }
    setoid_rewrite Hl. done.
Qed.
End Inventory.

(** ** Reading what was verified *)

Context {aeadl : AeadLaws}.

Lemma decrypt_blob_length key content hash plaintext :
  decrypt_blob key content hash = Ok plaintext ->
  nlen content = nlen plaintext + ENCRYPTED_BLOB_OVERHEAD_BYTES.
Proof.
  unfold decrypt_blob, decrypt_framed_with, decrypt. intros H. case_match eqn:E; [done|].
  reflect_N. case_match; [done|]. apply ok_or_ok in H. apply aead_decrypt_length in H.
  rewrite !nlen_ndrop in H. change (nlen BLOB_MAGIC) with 8 in *.
  unfold ENCRYPTED_BLOB_OVERHEAD_BYTES. lia.
Qed.

Lemma identity_unique d r class hash : has_keyring d = some_class class ->
  reference_identity d r = file_identity class hash ->
  ref_sha256 r = "sha256:" +:+ hash /\
  class = if has_keyring d then Some (from_media_type (ref_media_type r)) else None.
Proof.
  unfold reference_identity, file_identity. intros Hk. rewrite Hk.
  destruct class as [c|]; cbn [some_class]; [|done].
  destruct (from_media_type (ref_media_type r)), c; cbn; intros H; try discriminate H;
    by injection H.
Qed.

(** A reference to a verified file, with its size, reads back. *)
Lemma verified_reads d enc r class hash plaintext max : verified d enc class hash plaintext ->
  reference_identity d r = file_identity class hash -> ref_size r = nlen plaintext ->
  ref_size r <= max -> (has_keyring d = true -> enc <> None) ->
  read_blob_reference d r enc max = Ok plaintext.
Proof.
  intros [Hk (name & content & Hname & Hl & Hlen & He & Hp) Hd] Hid Hsize Hmax Henc.
  destruct (identity_unique _ _ _ _ Hk Hid) as [Hsha Hclass].
  assert (nlen content <= nlen plaintext + ENCRYPTED_BLOB_OVERHEAD_BYTES /\
    nlen plaintext <= MAX_ENCODED_BLOB_BYTES) as [Hc Hs].
  { unfold holds_payload in Hp. destruct enc as [k|].
    - destruct Hp as (key & _ & Hp). apply decrypt_blob_length in Hp. lia.
    - subst. lia. }
  unfold read_blob_reference. rewrite Hsha, strip_sha256. cbn [ok_or mbind result_bind].
  destruct (blob_file_name_ok _ _ _ Hname) as [-> _]. cbn [mbind result_bind].
  rewrite (proj2 (N.ltb_ge _ _)) by lia. rewrite <-Hclass, Hname. cbn [mbind result_bind].
  unfold checked_add. rewrite (proj2 (N.leb_le _ _))
    by (etrans; [apply N.add_le_mono_r; rewrite Hsize; exact Hs|done]).
  cbn [ok_or mbind result_bind]. rewrite (proj2 (read_regular_ok _ _ _ content)) by (split; [done|lia]).
  cbn [mbind result_bind]. rewrite He, Hk, Hsize. unfold holds_payload, key_given in *.
  destruct enc as [run_key|].
  - destruct Hp as (key & Hkey & Hp). cbn [ok_or mbind result_bind].
    unfold blob_key in Hkey. cbn [ok_or mbind result_bind] in Hkey.
    rewrite Hk in Hclass. destruct class as [c|]; cbn [some_class] in *.
    + injection Hclass as <-. apply bind_ok in Hkey as (k & Hkey & Hk'). apply map_err_ok in Hkey.
      rewrite Hkey. apply ok_or_ok in Hk' as ->. cbn [ok_or mbind result_bind]. rewrite Hp.
      cbn [mbind result_bind]. by apply final_check.
    + injection Hkey as <-. cbn [mbind result_bind]. rewrite Hp. cbn [mbind result_bind].
      by apply final_check.
  - subst content. destruct class; [by destruct (Henc Hk)|].
    cbn [some_class orb mbind result_bind]. by apply final_check.
Qed.
End Files.

(** ** References without findings *)

Definition clean (r : ReferenceCheck) : Prop :=
  rc_missing r = [] /\ rc_corrupt r = [] /\ rc_erased r = [] /\ rc_pending r = [].

Lemma snoc_not_nil {A} (l : list A) x : l ++ [x] <> [].
Proof. by destruct l. Qed.

(** What is on record of a reference that gives no finding. *)
Definition found (i : BlobInventory) (verify : bool) (k : string) (n : N) : Prop :=
  k ∈ bi_hashes i /\ k ∉ bi_unverified_pending i /\ (verify = true -> bi_verified_sizes i !! k = Some n).

Lemma check_reference_clean i classes verify r k n :
  clean (check_reference i classes verify r (k, n)) <-> clean r /\ found i verify k n.
Proof.
  unfold check_reference, found. destruct (decide (k ∈ bi_hashes i)) as [Hk|Hk].
  2: { rewrite bool_decide_eq_false_2 by done. split; [|by intros (_ & ? & _)]. unfold clean.
       destruct (class_in (ec_erased classes) _); [|destruct (class_in (ec_unavailable classes) _)];
         intros (Hm & Hc & Hz & Hp); exfalso;
         first [by apply snoc_not_nil in Hm|by apply snoc_not_nil in Hz|by apply snoc_not_nil in Hp]. }
  rewrite bool_decide_eq_true_2 by done. cbn [negb]. case_bool_decide as Hu.
  { split; [|by intros (_ & _ & ? & _)]. intros (_ & _ & _ & Hp). cbn in Hp. by apply snoc_not_nil in Hp. }
  destruct verify; cbn [andb]; [|naive_solver]. case_bool_decide as Hv; cbn [negb]; [naive_solver|].
  split; [|naive_solver]. intros (_ & Hc & _). cbn in Hc. by apply set_insert_not_nil in Hc.
Qed.

Lemma check_references_clean i classes verify refs :
  clean (check_references i classes verify refs) <->
  bi_corrupt i = [] /\ forall k n, (k, n) ∈ refs -> found i verify k n.
Proof.
  unfold check_references. set (r := mkReferenceCheck [] (bi_corrupt i) [] []).
  assert (clean r <-> bi_corrupt i = []) as <- by (unfold clean; cbn; naive_solver).
  clearbody r. revert r. induction refs as [|[k n] refs IH]; intros r; cbn [foldl].
  { split; [|by intros []]. intros Hr. split; [done|]. by intros k n ?%elem_of_nil. }
  rewrite IH, check_reference_clean. split.
  - intros [[Hr Hk] Hall]. split; [done|]. intros k' n' [[= -> ->]|Hin]%elem_of_cons; auto.
  - intros [Hr Hall]. split; [split; [done|apply Hall; left]|]. intros k' n' Hin. apply Hall. by right.
Qed.

(** ** The derived claims *)

Definition claims (c : Coverage) :=
  (cov_captured_request_payloads_complete c, cov_captured_response_payloads_complete c).

Lemma derive_sources_drops s c : cov_capture_drops (derive_sources s c) = cov_capture_drops c.
Proof. unfold derive_sources, gap_if. by_cases. Qed.
Lemma derive_gaps_claims s c : claims (derive_gaps s c) = claims c.
Proof.
  assert (forall b g c, claims (gap_if b g c) = claims c) as Hg by (unfold gap_if; by_cases).
  unfold derive_gaps. etrans; [|etrans; [apply Hg|]]; [reflexivity|].
  rewrite !Hg. done.
Qed.

(** A claim before the files are looked at. *)
Definition complete_sets (m finished lost : gset string) : bool :=
  negb (bool_decide (m = ∅)) && bool_decide (m ⊆ finished) && bool_decide (lost = ∅).

Lemma derive_payloads_claims g s c : claims (derive_payloads g s c) =
  (complete_sets (su_model_attempts s) (su_complete_request_payloads s) (su_incomplete_request_payloads s)
   && (su_unresolved_payload_references s =? 0) && (cov_capture_drops c =? 0),
   complete_sets (su_model_attempts s) (su_complete_response_payloads s) (su_incomplete_response_payloads s)
   && (cov_capture_drops c =? 0)).
Proof. unfold derive_payloads, gap_if. by_cases. Qed.

Definition no_findings (classes : ErasedClasses) (r : ReferenceCheck) : bool :=
  no_strings (rc_missing r) && no_strings (rc_corrupt r) && no_strings (rc_erased r)
  && bool_decide (ec_pending classes = []) && no_strings (rc_pending r).

Lemma derive_files_claims classes r c : claims (derive_files classes r c) =
  ((claims c).1 && no_findings classes r, (claims c).2 && no_findings classes r).
Proof.
  assert (forall b g c, claims (gap_if b g c) = claims c) as Hg by (unfold gap_if; by_cases).
  unfold derive_files, no_findings. etrans; [|etrans; [apply Hg|]]; [reflexivity|].
  rewrite Hg. unfold claims, no_payload_claims. cbn [fst snd].
  destruct (no_strings (rc_missing r)), (no_strings (rc_corrupt r)), (no_strings (rc_erased r)),
    (bool_decide (ec_pending classes = [])), (no_strings (rc_pending r)); cbn;
    by rewrite ?andb_true_r, ?andb_false_r.
Qed.

(** Every attempt shown to be captured, none shown to have lost a part. *)
Definition captured (finished lost : bool -> EventEnvelope -> bool) (es : list EventEnvelope) : Prop :=
  attempts es <> ∅ /\ (forall a, a ∈ attempts es -> shows finished a es) /\ forall a, ~ shows lost a es.

Lemma complete_sets_captured (finished lost : bool -> EventEnvelope -> bool) (x y : gset string) es :
  (forall a, a ∈ x <-> shows finished a es) -> (forall a, a ∈ y <-> shows lost a es) ->
  complete_sets (attempts es) x y = true <-> captured finished lost es.
Proof.
  intros Hx Hy. unfold complete_sets, captured.
  rewrite !andb_true_iff, negb_true_iff, bool_decide_eq_false, !bool_decide_eq_true.
  setoid_rewrite <-Hx. setoid_rewrite <-Hy. set_solver.
Qed.

Section Claims.
Context {dig : Digest} {hx : Hex} {b64 : Base64} {aead : Aead} {zstd : Zstd} {http : Http}
  {serde : Serde} {serdeb : SerdeBlock} {serdem : SerdeManifest} {serdee : SerdeErasure}.

(** An inspection without findings about the files. *)
Definition files_clean (insp : Inspection) : Prop :=
  in_missing_blobs insp = [] /\ in_corrupt_blobs insp = [] /\ in_erased_blobs insp = [] /\
  in_pending_erasure_classes insp = [] /\ in_pending_erasure_blobs insp = [].

(** What an inspection that returns has computed. *)
Lemma inspect_parts manifest events d verify key insp :
  inspect_run_with_key manifest events d verify key = Ok insp ->
  exists m eff classes es i, read_manifest manifest = Ok m /\
    effective_encryption_key m key = Ok eff /\ inspect_classes d eff = Ok classes /\
    run_events events (m_run_id m) eff = Ok es /\ valid_events (in_log insp) = nlen es /\
    blob_inventory d (key_given eff) eff verify (ec_erased classes) (ec_unavailable classes) = Ok i /\
    let s := sz_summary (summarize d es) in
    let r := check_references i classes verify (su_referenced_blobs s) in
    (no_findings classes r = true <-> files_clean insp) /\
    (files_clean insp -> clean r) /\
    claims (m_coverage (in_manifest insp)) =
      (complete_sets (su_model_attempts s) (su_complete_request_payloads s)
         (su_incomplete_request_payloads s) && (su_unresolved_payload_references s =? 0)
       && (cov_capture_drops (m_coverage m) =? 0) && no_findings classes r,
       complete_sets (su_model_attempts s) (su_complete_response_payloads s)
         (su_incomplete_response_payloads s)
       && (cov_capture_drops (m_coverage m) =? 0) && no_findings classes r).
Proof.
  intros H. unfold inspect_run_with_key in H. apply bind_ok in H as (m & Hm & H).
  apply map_err_ok in Hm. apply bind_ok in H as ([] & _ & H). apply bind_ok in H as (eff & He & H).
  apply map_err_ok in He. apply bind_ok in H as (auth & _ & H).
  apply bind_ok in H as (classes & Hc & H). apply map_err_ok in Hc.
  apply bind_ok in H as (s & Hs & H). apply bind_ok in H as (g & _ & H).
  apply bind_ok in H as (i & Hi & H). apply bind_ok in H as ([log file] & Hlog & H).
  injection H as <-. unfold summarize_events in Hs. apply bind_ok in Hs as ([report z] & Hz & [= <-]).
  pose proof Hz as Hrep. apply for_each_fold in Hz as (es & Hes & Hfold & Hlen).
  apply visit_fold in Hfold as ->. exists m, eff, classes, es, i.
  do 4 (split; [done|]). split; [|split; [done|cbn zeta; split; [|split]]].
  - cbn [in_log]. unfold for_each_run_event_with_key in Hrep.
    apply bind_ok in Hrep as ([rep f] & Hr & Hrep). apply bind_ok in Hrep as (x & _ & Hrep).
    apply bind_ok in Hrep as (y & _ & [= -> _]). rewrite Hlog in Hr. by injection Hr as -> _.
  - unfold no_findings, files_clean, no_strings.
    cbn [in_missing_blobs in_corrupt_blobs in_erased_blobs in_pending_erasure_classes in_pending_erasure_blobs].
    rewrite !andb_true_iff, !bool_decide_eq_true.
    assert (class_str <$> ec_pending classes = [] <-> ec_pending classes = []) as ->
      by (destruct (ec_pending classes); naive_solver).
    change (su_referenced_blobs (finish_summary ?z)) with (su_referenced_blobs (sz_summary z)). tauto.
  - unfold files_clean, clean.
    cbn [in_missing_blobs in_corrupt_blobs in_erased_blobs in_pending_erasure_classes in_pending_erasure_blobs].
    change (su_referenced_blobs (finish_summary ?z)) with (su_referenced_blobs (sz_summary z)). tauto.
  - unfold derive_inventory, derive_manifest. cbn [in_manifest m_coverage set_field].
    rewrite derive_files_claims, derive_gaps_claims, derive_payloads_claims. cbn [fst snd].
    assert (forall m s c, cov_capture_drops (derive_network m s c) = cov_capture_drops c) as -> by done.
    rewrite derive_sources_drops.
    assert (forall b g c, cov_capture_drops (gap_if b g c) = cov_capture_drops c) as ->
      by (unfold gap_if; by_cases). done.
Qed.

(** The references on record are those of the events with their largest sizes. *)
Lemma references_largest d es k n :
  (k, n) ∈ su_referenced_blobs (sz_summary (summarize d es)) <-> largest d es k n.
Proof.
  pose proof (references_exact d es k) as H. split.
  - intros Hin. by rewrite (sorted_get _ _ _ (references_sorted d es) Hin) in H.
  - intros [(e & He & Hr) Hmax]. destruct (map_get k _) as [n'|] eqn:E; [|by destruct (H e n He)].
    apply map_get_In in E. destruct H as [(e' & He' & Hr') Hmax'].
    assert (n = n') as -> by (specialize (Hmax e' n' He' Hr'); specialize (Hmax' e n He Hr); lia). done.
Qed.

(** The payload that was verified under an identity is that of the file under it. *)
Lemma verified_payload d enc class hash content class' hash' plaintext :
  stored_file d class hash content -> verified d enc class' hash' plaintext ->
  file_identity class hash = file_identity class' hash' -> holds_payload d enc class hash content plaintext.
Proof.
  intros (name & Hname & Hlook) [_ (name' & content' & Hname' & Hlook' & _ & _ & Hpay) _] Hid.
  destruct (file_identity_inj _ _ _ _ Hid) as [-> ->]. congruence.
Qed.

Lemma entry_ok_sound d enc verify erased class hash content :
  (forall c, c ∈ erased <-> erasure_phase d enc c PhaseComplete) ->
  entry_ok d enc verify erased [] class hash content <-> file_sound d enc verify class hash content.
Proof.
  intros Her. unfold entry_ok, class_in. split.
  - intros (H1 & H2 & H3 & H4 & H5). split; try done.
    + intros c -> Hx%Her. by rewrite bool_decide_eq_true_2 in H2.
    + intros Hv. apply H5; [done|]. destruct class; [|done]. apply bool_decide_eq_false, not_elem_of_nil.
  - intros [H1 H2 H3 H4 H5]. split_and!; try done; [|by intros Hv _; apply H5].
    destruct class as [c|]; [|done]. apply bool_decide_eq_false. intros Hx%Her. by eapply H2.
Qed.

Lemma empty_elem {A} (l : list A) : l = [] <-> forall x, x ∉ l.
Proof. split; [intros ->; apply not_elem_of_nil|]. destruct l as [|x l]; [done|]. intros H. destruct (H x). left. Qed.

(** An inspection has no findings exactly if the files are all there and sound. *)
Lemma no_findings_exact d eff verify es classes i : inspect_classes d eff = Ok classes ->
  blob_inventory d (key_given eff) eff verify (ec_erased classes) (ec_unavailable classes) = Ok i ->
  no_findings classes (check_references i classes verify (su_referenced_blobs (sz_summary (summarize d es)))) = true <->
  files_sound d eff verify es.
Proof.
  intros Hc Hi. destruct (inspect_classes_exact _ _ _ Hc) as (Her & Hpe & Hun).
  destruct (blob_inventory_exact _ _ _ _ _ _ Hi) as (Hcor & Hhash & Hpend & Hver).
  set (r := check_references _ _ _ _).
  assert (no_findings classes r = true <-> ec_pending classes = [] /\ clean r) as ->.
  { unfold no_findings, no_strings, clean. rewrite !andb_true_iff, !bool_decide_eq_true. tauto. }
  subst r. rewrite check_references_clean. setoid_rewrite references_largest.
  assert (ec_pending classes = [] -> ec_unavailable classes = []) as Hu.
  { rewrite !empty_elem. intros Hp c Hx%Hun. by apply (Hp c). }
  assert (ec_pending classes = [] <-> forall class, ~ erasure_phase d eff class Intent) as Hp.
  { rewrite empty_elem. by setoid_rewrite Hpe. }
  pose proof (fun class hash content => entry_ok_sound d eff verify _ class hash content Her) as Hentry. split.
  - intros (Hno & Hco & Hrefs). rewrite (Hu Hno) in *. split; [by apply Hp|..].
    + intros class hash content Hs. apply Hentry. by apply Hcor.
    + intros identity n Hl. destruct (Hrefs _ _ Hl) as (Hh & _ & Hv).
      apply Hhash in Hh as (class & hash & content & Hs & ->).
      exists class, hash, content. split; [done|]. split; [done|]. intros Htrue.
      destruct (inventory_verified _ _ _ _ _ _ _ _ Hi (Hv Htrue)) as (class' & hash' & x & Hf & Hid & Hn).
      exists x. split; [|done]. by eapply verified_payload.
  - intros [Hno%Hp Hf Hr]. rewrite (Hu Hno) in *.
    assert (bi_corrupt i = []) as Hco by (apply Hcor; intros class hash content Hs; by apply Hentry, Hf).
    split; [done|]. split; [done|]. intros identity n Hl. destruct (Hr _ _ Hl) as (class & hash & content & Hs & <- & Hv).
    assert (file_identity class hash ∈ bi_hashes i) as Hh by (apply Hhash; by exists class, hash, content).
    split; [done|]. split; [by intros Hx%Hpend|]. intros Htrue. destruct (Hv Htrue) as (plaintext & Hpay & <-).
    destruct (Hver Htrue Hco eq_refl _ Hh) as [n' Hn']. rewrite Hn'. do 2 f_equal.
    destruct (inventory_verified _ _ _ _ _ _ _ _ Hi Hn') as (class' & hash' & x & Hf' & Hid & <-). f_equal.
    eapply holds_payload_unique; [|done]. by eapply verified_payload.
Qed.

Lemma payload_claims manifest events d verify key insp :
  inspect_run_with_key manifest events d verify key = Ok insp ->
  exists m eff es, read_manifest manifest = Ok m /\ effective_encryption_key m key = Ok eff /\
    run_events events (m_run_id m) eff = Ok es /\ valid_events (in_log insp) = nlen es /\
    let c := m_coverage (in_manifest insp) in
    (cov_captured_request_payloads_complete c = true <->
       captured (fun _ => request_done) (fun _ => request_lost) es /\
       Forall (fun e => unresolved_of e = 0) es /\
       cov_capture_drops (m_coverage m) = 0 /\ files_clean insp) /\
    (cov_captured_response_payloads_complete c = true <->
       captured response_done response_lost es /\
       cov_capture_drops (m_coverage m) = 0 /\ files_clean insp) /\
    (files_clean insp <-> files_sound d eff verify es).
Proof.
  intros H.
  apply inspect_parts in H as (m & eff & classes & es & i & Hm & He & Hcl & Hes & Hv & Hi & Hf & _ & Hc).
  exists m, eff, es. do 4 (split; [done|]). cbn zeta in *. injection Hc as Hc1 Hc2.
  destruct (attempts_exact d es) as [Ha _]. rewrite Ha in *. split_and!.
  - rewrite Hc1, !andb_true_iff, !N.eqb_eq, Hf, unresolved_exact.
    rewrite (complete_sets_captured (fun _ => request_done) (fun _ => request_lost));
      [tauto|apply payloads_exact..].
  - rewrite Hc2, !andb_true_iff, !N.eqb_eq, Hf.
    rewrite (complete_sets_captured response_done response_lost); [tauto|apply payloads_exact..].
  - rewrite <-Hf. by apply no_findings_exact.
Qed.


Context {aeadl : AeadLaws}.

(** The reference with another size. *)
Definition of_size (n : N) (r : PayloadRef) : PayloadRef :=
  mkPayloadRef (ref_sha256 r) n (ref_media_type r) (ref_truncated r).

(** When a verifying inspection reports nothing missing, corrupt, erased or
    pending, every payload the log refers to is there and reads back, by any
    reference with the largest size the log gives for it. *)
Lemma clean_reads manifest events d key insp :
  inspect_run_with_key manifest events d true key = Ok insp -> files_clean insp ->
  exists m eff es, read_manifest manifest = Ok m /\ effective_encryption_key m key = Ok eff /\
    run_events events (m_run_id m) eff = Ok es /\
    forall e r, e ∈ es -> ev_raw e = Some r ->
      exists payload, largest d es (reference_identity d r) (nlen payload) /\
        ref_sha256 r = "sha256:" +:+ hex_encode (sha256 payload) /\
        forall max, nlen payload <= max -> read_blob_reference d (of_size (nlen payload) r) eff max = Ok payload.
Proof.
  intros H Hclean.
  apply inspect_parts in H as (m & eff & classes & es & i & Hm & He & Hcl & Hes & _ & Hi & _ & Hc & _).
  exists m, eff, es. split_and!; [done..|]. intros e r Hin Hr.
  pose proof (references_exact d es (reference_identity d r)) as Href.
  destruct (map_get _ _) as [n|] eqn:Eg; [|by destruct (Href e (ref_size r) Hin); exists r].
  apply map_get_In in Eg. apply (proj1 (check_references_clean _ _ _ _) (Hc Hclean)) in Eg as (_ & _ & Eg).
  destruct (inventory_verified _ _ _ _ _ _ _ _ Hi (Eg eq_refl)) as (class & hash & p & Hver & Hid & <-).
  exists p. pose proof Hver as [Hk _ Hd]. destruct (identity_unique _ _ _ _ Hk Hid) as [Hsha _].
  split; [done|]. split; [by rewrite Hsha, Hd|]. intros max Hmax. eapply verified_reads; [done..|].
  intros Hring ->. unfold inspect_classes in Hcl. by rewrite Hring in Hcl.
Qed.
End Claims.

(** ** Witnesses *)

Module InspectExamples.
Import Concrete ManifestExamples.

Definition payload : bytes := as_bytes "prompt".
Definition hash : string := hex_encode (sha256 payload).
Definition dir : RunDir := mkRunDir {[ "sha256-" +:+ hash := payload ]} None ∅.

(** One model call: its start, its request body, the ends of the request and
    of the attempt. *)
Definition of_call (sequence : N) (kind : string) (raw : option PayloadRef)
    (normalized : list (string * Value)) (terminal : option TerminalState) : EventEnvelope :=
  mkEventEnvelope SCHEMA_VERSION (N.shiftl 7 76 + sequence) sequence "run"
    (mkEventIds None None None (Some "i1") (Some "a1") None None None None) "proxy" kind 0 0%Z raw
    (Some (JObject normalized)) (mkRedactionRecord "default" [] []) None [] terminal.

Definition reference : PayloadRef := mkPayloadRef ("sha256:" +:+ hash) 6 None false.

Definition call : list EventEnvelope :=
  [of_call 1 "transport_request_started" None [("traffic_class", JString "model")] None;
   of_call 2 "request_body_chunk" (Some reference)
     [("captured_size", JNumber (PosInt 6)); ("observed_size", JNumber (PosInt 6))] None;
   of_call 3 "request_body_finished" None [] (Some Complete);
   of_call 4 "transport_attempt_finished" None [] (Some Complete)].

Definition call_lines : list bytes := [as_bytes "{1}"; as_bytes "{2}"; as_bytes "{3}"; as_bytes "{4}"].

(** A reader of these four lines. *)
#[local] Instance call_serde : Serde := {|
  encrypted_event_to_vec _ := None;
  encrypted_event_from_slice _ := None;
  envelope_to_vec _ := None;
  envelope_from_slice b :=
    snd <$> List.find (fun entry => bool_decide (entry.1 ++ [LF] = b)) (zip call_lines call);
  value_from_slice _ := None;
|}.
#[local] Instance call_blocks : SerdeBlock := {| block_to_vec _ := None; block_from_slice _ := None |}.
#[local] Instance call_erasures : SerdeErasure := {| erasure_to_vec _ := None; erasure_from_slice _ := None |}.

Definition manifest_file : option bytes := Some (plain_text ++ [LF]).
Definition call_log : option bytes := Some (join_log call_lines).

Definition inspected : Inspection :=
  default (mkInspection plain None (mkRecoveryReport 0 0 0 0 None) 0 [] [] [] [] [] [])
    (ok (inspect_run_with_key manifest_file call_log dir true None)).

Lemma inspected_ok : inspect_run_with_key manifest_file call_log dir true None = Ok inspected.
Proof. vm_compute. reflexivity. Qed.

End InspectExamples.
