(* ===== verification/Correlation.v ===== *)
(** * src/correlation.rs

    The correlation of a finished run: one pass over its events collects the
    anchors (what an agent's hooks and transcripts say about model calls) and
    the transports (the requests the proxy saw), and each anchor is given the
    transport, or the chain of retries, that is the only one it can mean.
    Ordered maps are [gmap]: nothing depends on their order. *)

From Stdlib Require Import Strings.Byte Floats.SpecFloat.
From S2P Require Import Prelude RustStd External Json Input Model Policy Crypto EventLog.
From stdpp Require Import options.
Local Open Scope N_scope.
#[local] Unset Default Proof Using.

Definition PRE_WINDOW_BEFORE_MS : Z := 250.
Definition PRE_WINDOW_AFTER_MS : Z := 10000.
Definition COMPLETION_WINDOW_BEFORE_MS : Z := 10 * 60 * 1000.
Definition COMPLETION_WINDOW_AFTER_MS : Z := 1000.
Definition MAX_RECORDED_CANDIDATES : N := 1024.
Definition MAX_CORRELATION_ITEMS : N := 100000.
Definition MAX_CORRELATION_INDEX_ENTRIES : N := 2 * MAX_CORRELATION_ITEMS.

(** [chrono::TimeDelta::milliseconds] in nanoseconds. *)
Definition milliseconds (ms : Z) : Z := ms * 1000000.

Record CorrelationReport := mkCorrelationReport {
  cr_resolved : N;
  cr_unresolved : N;
  cr_unmatched_transports : N;
  cr_skipped_existing : bool;
}.

#[export] Instance CorrelationReport_settable : Settable CorrelationReport := fun r =>
  mkCorrelationReport (cr_resolved r) (cr_unresolved r) (cr_unmatched_transports r)
    (cr_skipped_existing r).

Definition default_report : CorrelationReport := mkCorrelationReport 0 0 0 false.

Inductive AnchorKind := PreRequest | Completion.

#[export] Instance AnchorKind_eq_dec : EqDecision AnchorKind.
Proof. solve_decision. Defined.

Record Anchor := mkAnchor {
  an_kind : AnchorKind;
  an_sequence : N;
  an_wall_time : DateTime;
  an_source : string;
  an_event : string;
  an_ids : EventIds;
  an_model : option string;
}.

Record Transport := mkTransport {
  tr_sequence : N;
  tr_wall_time : DateTime;
  tr_inference_id : string;
  tr_attempt_id : option string;
  tr_session_id : option string;
  tr_provider_response_ids : gset string;
  tr_model : option string;
  tr_request_fingerprint : option string;
  tr_response_status : option N;
  tr_terminal_state : option TerminalState;
}.

#[export] Instance Transport_settable : Settable Transport := fun t =>
  mkTransport (tr_sequence t) (tr_wall_time t) (tr_inference_id t) (tr_attempt_id t)
    (tr_session_id t) (tr_provider_response_ids t) (tr_model t) (tr_request_fingerprint t)
    (tr_response_status t) (tr_terminal_state t).

Record CandidateSet := mkCandidateSet {
  cs_candidates : list Transport;
  cs_total : N;
  cs_truncated : bool;
}.

(** ** What an event says *)

Definition anchor_label (event : string) : string :=
  of_bytes (map byte_to_lower (List.filter is_ascii_alphanumeric (as_bytes event))).

Definition anchor_kind (e : EventEnvelope) : option AnchorKind :=
  let label := anchor_label (ev_event e) in
  if bool_decide (label ∈ ["beforemodel"; "preapirequest"; "modelcallstarted"]) then Some PreRequest
  else if str_eqb (ev_source e) "session"
          && bool_decide (label ∈ ["sessionassistant"; "sessiongemini"])
  then Some Completion
  else None.

Definition attempt_lookup_key (e : EventEnvelope) : option string :=
  (fun attempt => "attempt:" +:+ attempt) <$> attempt_id (ev_ids e).
Definition inference_lookup_key (e : EventEnvelope) : option string :=
  (fun inference => "inference:" +:+ inference) <$> inference_id (ev_ids e).

(** [if let Some(key) = key { map.insert(key, value) }] and the removal. *)
Definition insert_key {T} (key : option string) (value : T) (m : gmap string T) : gmap string T :=
  match key with Some key => <[key := value]> m | None => m end.
Definition remove_key {T} (key : option string) (m : gmap string T) : gmap string T :=
  match key with Some key => delete key m | None => m end.

Definition remember_transport (indices : gmap string nat) (e : EventEnvelope) (index : nat)
    : gmap string nat :=
  insert_key (inference_lookup_key e) index (insert_key (attempt_lookup_key e) index indices).

Definition transport_index (indices : gmap string nat) (e : EventEnvelope) : option nat :=
  match attempt_lookup_key e ≫= fun key => indices !! key with
  | Some index => Some index
  | None => inference_lookup_key e ≫= fun key => indices !! key
  end.

Definition remember_pending {T} (pending : gmap string T) (e : EventEnvelope) (value : T)
    : gmap string T :=
  insert_key (inference_lookup_key e) value (insert_key (attempt_lookup_key e) value pending).

Definition take_pending {T} (pending : gmap string T) (e : EventEnvelope)
    : option T * gmap string T :=
  let value := match attempt_lookup_key e ≫= fun key => pending !! key with
               | Some value => Some value
               | None => inference_lookup_key e ≫= fun key => pending !! key
               end in
  (value, remove_key (inference_lookup_key e) (remove_key (attempt_lookup_key e) pending)).

(** ** The pass over the events *)

Record Collecting := mkCollecting {
  co_anchors : list Anchor;
  co_transports : list Transport;
  co_transport_indices : gmap string nat;
  co_pending_response_status : gmap string N;
  co_pending_response_ids : gmap string (gset string);
  co_pending_terminal_state : gmap string TerminalState;
  co_agent_scopes : gmap string EventIds;
  co_existing : bool;
}.

#[export] Instance Collecting_settable : Settable Collecting := fun c =>
  mkCollecting (co_anchors c) (co_transports c) (co_transport_indices c)
    (co_pending_response_status c) (co_pending_response_ids c) (co_pending_terminal_state c)
    (co_agent_scopes c) (co_existing c).

Definition start_collecting : Collecting := mkCollecting [] [] ∅ ∅ ∅ ∅ ∅ false.

Definition ensure_correlation_limit (length limit : N) (operation : string) : storage_result unit :=
  if limit <? length then Err (AnalysisLimitExceeded operation limit) else Ok tt.

Definition proxy_event (e : EventEnvelope) (event : string) : bool :=
  str_eqb (ev_source e) "proxy" && str_eqb (ev_event e) event.

Definition note_status (e : EventEnvelope) (c : Collecting) : Collecting :=
  if proxy_event e "transport_response_started" then
    let status := (ev_normalized e ≫= get "status") ≫= as_u64 in
    let response_status := status ≫= fun s => if s <=? u16_max then Some s else None in
    match transport_index (co_transport_indices c) e with
    | Some index =>
        c <| co_transports ::= alter (fun t => t <| tr_response_status := response_status |>) index |>
    | None =>
        match response_status with
        | Some s => c <| co_pending_response_status ::= fun m => remember_pending m e s |>
        | None => c
        end
    end
  else c.

Definition note_response_id (e : EventEnvelope) (c : Collecting) : Collecting :=
  if proxy_event e "sse_event" then
    match (ev_normalized e ≫= pointer ["semantic"; "response_id"]) ≫= as_str with
    | Some response_id =>
        if str_is_empty response_id then c
        else match transport_index (co_transport_indices c) e with
        | Some index =>
            c <| co_transports ::=
                   alter (fun t => t <| tr_provider_response_ids ::= union {[ response_id ]} |>) index |>
        | None => c <| co_pending_response_ids ::= fun m => remember_pending m e {[ response_id ]} |>
        end
    | None => c
    end
  else c.

Definition note_terminal (e : EventEnvelope) (c : Collecting) : Collecting :=
  if proxy_event e "transport_attempt_finished" then
    match transport_index (co_transport_indices c) e with
    | Some index =>
        c <| co_transports ::= alter (fun t => t <| tr_terminal_state := ev_terminal_state e |>) index |>
    | None =>
        match ev_terminal_state e with
        | Some state => c <| co_pending_terminal_state ::= fun m => remember_pending m e state |>
        | None => c
        end
    end
  else c.

Definition note_scope (e : EventEnvelope) (c : Collecting) : Collecting :=
  if str_eqb (ev_source e) "session" || str_starts_with "hook:" (ev_source e) then
    match session_id (ev_ids e) with
    | Some session =>
        c <| co_agent_scopes ::= fun m =>
               match m !! session with Some _ => m | None => <[session := ev_ids e]> m end |>
    | None => c
    end
  else c.

Definition enforce_limits (c : Collecting) : storage_result unit :=
  ensure_correlation_limit (nlen (co_anchors c)) MAX_CORRELATION_ITEMS "correlation anchor index";;
  ensure_correlation_limit (nlen (co_transports c)) MAX_CORRELATION_ITEMS
    "correlation transport index";;
  ensure_correlation_limit (N.of_nat (size (co_transport_indices c))) MAX_CORRELATION_INDEX_ENTRIES
    "correlation transport identifier index";;
  ensure_correlation_limit (N.of_nat (size (co_pending_response_status c)))
    MAX_CORRELATION_INDEX_ENTRIES "correlation pending-status index";;
  ensure_correlation_limit (N.of_nat (size (co_pending_terminal_state c)))
    MAX_CORRELATION_INDEX_ENTRIES "correlation pending-terminal index";;
  ensure_correlation_limit (N.of_nat (size (co_pending_response_ids c)))
    MAX_CORRELATION_INDEX_ENTRIES "correlation pending-response-identifier index";;
  ensure_correlation_limit (N.of_nat (size (co_agent_scopes c))) MAX_CORRELATION_ITEMS
    "correlation agent-scope index".

Section Collect.
Context {dig : Digest} {hx : Hex}.

Definition model_from_transport (e : EventEnvelope) : option string :=
  value_string (ev_normalized e ≫= pointer ["summary"; "model"]).

(** The parts of a fingerprint are kept apart by NUL characters. *)
Definition request_fingerprint (e : EventEnvelope) : option string :=
  normalized ← ev_normalized e;
  path ← get "path" normalized ≫= as_str;
  hash ← get "sha256" normalized ≫= as_str;
  let model := to_ascii_lowercase (default "" (model_from_transport e)) in
  let nul := of_bytes [x00] in
  Some (path +:+ nul +:+ hash +:+ nul +:+ model).

Definition model_from_anchor (e : EventEnvelope) : option string :=
  normalized ← ev_normalized e;
  head (omap (fun path => value_string (pointer path normalized))
    [["llm_request"; "model"]; ["request"; "model"]; ["kwargs"; "model"]; ["model"];
     ["message"; "model"]]).

Definition note_transport (e : EventEnvelope) (c : Collecting) : Collecting :=
  if proxy_event e "logical_inference_request" then
    match inference_id (ev_ids e) with
    | Some inference =>
        let '(response_status, status) := take_pending (co_pending_response_status c) e in
        let '(response_ids, ids) := take_pending (co_pending_response_ids c) e in
        let '(terminal_state, terminal) := take_pending (co_pending_terminal_state c) e in
        let index := length (co_transports c) in
        let t := mkTransport (ev_sequence e) (ev_wall_time e) inference (attempt_id (ev_ids e))
                   (session_id (ev_ids e)) (default ∅ response_ids) (model_from_transport e)
                   (request_fingerprint e) response_status terminal_state in
        c <| co_pending_response_status := status |> <| co_pending_response_ids := ids |>
          <| co_pending_terminal_state := terminal |> <| co_transports ::= fun l => l ++ [t] |>
          <| co_transport_indices ::= fun m => remember_transport m e index |>
    | None => c
    end
  else c.

Definition note_anchor (e : EventEnvelope) (c : Collecting) : Collecting :=
  match anchor_kind e with
  | Some kind =>
      if bool_decide (is_Some (session_id (ev_ids e))) || bool_decide (is_Some (turn_id (ev_ids e)))
         || bool_decide (is_Some (inference_id (ev_ids e)))
      then c <| co_anchors ::= fun l => l ++ [mkAnchor kind (ev_sequence e) (ev_wall_time e)
                  (ev_source e) (ev_event e) (ev_ids e) (model_from_anchor e)] |>
      else c
  | None => c
  end.

(** The visitor closure. *)
Definition collect_event (c : Collecting) (e : EventEnvelope) : storage_result Collecting :=
  if str_eqb (ev_source e) "correlation" then Ok (c <| co_existing := true |>)
  else
    let c := note_scope e (note_anchor e (note_terminal e (note_response_id e (note_status e
               (note_transport e c))))) in
    enforce_limits c;;
    Ok c.
End Collect.

(** ** Which transports an anchor can mean *)

Definition transport_matches_exact_identifier (a : Anchor) (t : Transport) : bool :=
  match inference_id (an_ids a) with
  | Some identifier =>
      str_eqb identifier (tr_inference_id t) || bool_decide (identifier ∈ tr_provider_response_ids t)
  | None => false
  end.

Definition models_compatible (anchor transport : option string) : bool :=
  match anchor, transport with
  | Some anchor, Some transport => str_eqb (to_ascii_lowercase anchor) (to_ascii_lowercase transport)
  | _, _ => true
  end.

Definition same_logical_scope (left right : EventIds) : bool :=
  match session_id left, session_id right with
  | Some l, Some r => str_eqb l r
  | _, _ =>
      match task_id left, task_id right with
      | Some l, Some r => str_eqb l r
      | _, _ =>
          match turn_id left, turn_id right with
          | Some l, Some r => str_eqb l r
          | _, _ => false
          end
      end
  end.

Notation Scopes := (gmap string (list EventIds)).

Definition completion_corroborates_pre_request (a : Anchor) (t : Transport) (scopes : Scopes) : bool :=
  match an_kind a with
  | PreRequest => false
  | Completion =>
      transport_matches_exact_identifier a t
      || existsb (same_logical_scope (an_ids a)) (default [] (scopes !! tr_inference_id t))
  end.

Definition candidate_allowed (a : Anchor) (t : Transport) (matched : gset string) (scopes : Scopes)
    (exact_identifier : bool) : bool :=
  (exact_identifier || models_compatible (an_model a) (tr_model t))
  && (negb (bool_decide (tr_inference_id t ∈ matched))
      || completion_corroborates_pre_request a t scopes).

(** The two loops over candidates: their number and the first 1,024 of them. *)
Definition count_candidate (allowed : Transport -> bool) (acc : list Transport * N) (t : Transport)
    : list Transport * N :=
  let '(candidates, total) := acc in
  if allowed t then
    (if nlen candidates <? MAX_RECORDED_CANDIDATES then candidates ++ [t] else candidates,
     sat_add total 1)
  else acc.

Definition candidate_set (acc : list Transport * N) : CandidateSet :=
  let '(candidates, total) := acc in
  mkCandidateSet (sort_by_key tr_sequence candidates) total (nlen candidates <? total).

Definition window (a : Anchor) : DateTime * DateTime :=
  let '(before_ms, after_ms) :=
    match an_kind a with
    | PreRequest => (PRE_WINDOW_BEFORE_MS, PRE_WINDOW_AFTER_MS)
    | Completion => (COMPLETION_WINDOW_BEFORE_MS, COMPLETION_WINDOW_AFTER_MS)
    end in
  (Z.max MIN_UTC (an_wall_time a - milliseconds before_ms),
   Z.min MAX_UTC (an_wall_time a + milliseconds after_ms))%Z.

(** [transports[index]] of an index made from the same list. *)
Definition transports_at (transports : list Transport) (indices : list nat) : list Transport :=
  omap (fun index => transports !! index) indices.

(** The key of the order by time. *)
Definition time_key (transports : list Transport) (index : nat) : DateTime * N :=
  match transports !! index with Some t => (tr_wall_time t, tr_sequence t) | None => (0%Z, 0) end.

Definition compare_times (k k' : DateTime * N) : comparison :=
  match (fst k ?= fst k')%Z with Eq => snd k ?= snd k' | o => o end.

Definition index_by_time (transports : list Transport) : list nat :=
  sort_by (fun i j => compare_times (time_key transports i) (time_key transports j))
    (seq 0 (length transports)).

(** [map.entry(id).or_default().push(index)] *)
Definition push_index (index : nat) (m : gmap string (list nat)) (id : string)
    : gmap string (list nat) :=
  <[id := default [] (m !! id) ++ [index]]> m.

Definition index_by_exact_id (transports : list Transport) : gmap string (list nat) :=
  foldl (fun m '(index, t) =>
    foldl (push_index index) (push_index index m (tr_inference_id t))
      (elements (tr_provider_response_ids t))) ∅ (imap pair transports).

Definition wall_time_at (transports : list Transport) (index : nat) : DateTime :=
  fst (time_key transports index).

Definition candidates_for_anchor (a : Anchor) (transports : list Transport)
    (transports_by_time : list nat) (transports_by_exact_id : gmap string (list nat))
    (matched : gset string) (scopes : Scopes) : CandidateSet :=
  let '(start, end_) := window a in
  let first := partition_point (fun i => wall_time_at transports i <? start)%Z transports_by_time in
  let after_last := partition_point (fun i => wall_time_at transports i <=? end_)%Z
                      transports_by_time in
  let exact := foldl (count_candidate (fun t => candidate_allowed a t matched scopes true)) ([], 0)
    (transports_at transports
       (default [] (inference_id (an_ids a) ≫= fun id => transports_by_exact_id !! id))) in
  if 0 <? snd exact then candidate_set exact
  else candidate_set
    (foldl (count_candidate (fun t => candidate_allowed a t matched scopes false)) ([], 0)
       (transports_at transports (drop first (take after_last transports_by_time)))).

(** ** Chains of retries *)

Definition is_retriable_failure (t : Transport) : bool :=
  match tr_response_status t with
  | Some status => bool_decide (status ∈ [408; 409; 425; 429]) || ((500 <=? status) && (status <=? 599))
  | None => false
  end
  || bool_decide (tr_terminal_state t ∈ [Some Error; Some Cancelled; Some Incomplete]).

Definition exact_or_in_window (a : Anchor) (t : Transport) : bool :=
  transport_matches_exact_identifier a t
  || let delta := Z.quot (tr_wall_time t - an_wall_time a) 1000000 in
     match an_kind a with
     | PreRequest => (- PRE_WINDOW_BEFORE_MS <=? delta)%Z && (delta <=? PRE_WINDOW_AFTER_MS)%Z
     | Completion =>
         (- COMPLETION_WINDOW_AFTER_MS <=? - delta)%Z && (- delta <=? COMPLETION_WINDOW_BEFORE_MS)%Z
     end.

Definition retry_chain_is_unique (a : Anchor) (candidates : list Transport) (anchors : list Anchor)
    : bool :=
  match candidates with
  | first :: _ :: _ =>
      match an_kind a, tr_request_fingerprint first with
      | PreRequest, Some fingerprint =>
          negb (existsb (fun t =>
                  negb (bool_decide (tr_request_fingerprint t = Some fingerprint))
                  || (str_eqb (tr_inference_id t) (tr_inference_id first)
                      && bool_decide (tr_attempt_id t = tr_attempt_id first)
                      && negb (tr_sequence t =? tr_sequence first))) candidates)
          && forallb is_retriable_failure (removelast candidates)
          && negb (existsb (fun other =>
                     negb (an_sequence other =? an_sequence a)
                     && bool_decide (an_kind other = PreRequest)
                     && existsb (fun t => models_compatible (an_model other) (tr_model t)
                                          && exact_or_in_window other t) candidates) anchors)
      | _, _ => false
      end
  | _ => false
  end.

(** ** The events *)

(** [0.9], [0.65] and [0.8] as [f32]. *)
Definition f32_0_9 : f32 := S754_finite false 15099494 (-24).
Definition f32_0_65 : f32 := S754_finite false 10905190 (-24).
Definition f32_0_8 : f32 := S754_finite false 13421773 (-24).

Section Events.
(** The run, and the readings of the store's clocks for a new event. *)
Context (run_id : string) (clock : DateTime * N).

(** [store.event(source, kind)] with what the callers set. *)
Definition correlation_event (kind : string) (ids : EventIds) (normalized : Value) (confidence : f32)
    (evidence : list string) : PendingEvent :=
  let pending := new_pending run_id "correlation" kind (fst clock) in
  mkPendingEvent (pe_run_id pending) (pe_source pending) (pe_kind pending) ids (pe_observed_at pending)
    (snd clock) (pe_raw pending) (Some normalized) (pe_redaction pending) (Some confidence) evidence
    (pe_terminal_state pending).

Definition anchor_evidence (a : Anchor) : string := an_source a +:+ ":" +:+ an_event a.

Definition resolved_event (a : Anchor) (t : Transport) (corroborates_existing : bool) : PendingEvent :=
  let exact := transport_matches_exact_identifier a t in
  correlation_event "inference_correlation"
    (mkEventIds (task_id (an_ids a)) (session_id (an_ids a)) (turn_id (an_ids a))
       (Some (tr_inference_id t)) None None
       (match inference_id (an_ids a) with
        | Some native => if str_eqb native (tr_inference_id t) then None else Some native
        | None => None
        end) None None)
    (json_object
       [("anchor_sequence", json_u64 (an_sequence a)); ("transport_sequence", json_u64 (tr_sequence t));
        ("anchor_source", JString (an_source a)); ("anchor_event", JString (an_event a));
        ("native_inference_id", json_option JString (inference_id (an_ids a)));
        ("method", JString (if exact then "exact_id"
                            else if corroborates_existing then "shared_scope_unique_temporal_candidate"
                            else "unique_temporal_candidate"))])
    (if exact then f32_one
     else if corroborates_existing then f32_0_9
     else match an_kind a with PreRequest => f32_0_9 | Completion => f32_0_65 end)
    [anchor_evidence a;
     if exact then "exact_inference_id"
     else if corroborates_existing then "shared_agent_scope_and_unique_candidate_in_bounded_window"
     else "unique_candidate_in_bounded_window"].

Definition resolved_retry_chain_event (a : Anchor) (transports : list Transport) : PendingEvent :=
  let first_id := match transports with t :: _ => Some (tr_inference_id t) | [] => None end in
  correlation_event "inference_correlation"
    (mkEventIds (task_id (an_ids a)) (session_id (an_ids a)) (turn_id (an_ids a))
       (match inference_id (an_ids a) with Some id => Some id | None => first_id end) None None
       (parent_id (an_ids a)) None None)
    (json_object
       [("anchor_sequence", json_u64 (an_sequence a)); ("anchor_source", JString (an_source a));
        ("anchor_event", JString (an_event a));
        ("native_inference_id", json_option JString (inference_id (an_ids a)));
        ("transport_sequences", JArray ((fun t => json_u64 (tr_sequence t)) <$> transports));
        ("transport_inference_ids", JArray ((fun t => JString (tr_inference_id t)) <$> transports));
        ("attempt_ids", JArray ((fun t => json_option JString (tr_attempt_id t)) <$> transports));
        ("request_fingerprint", json_option JString (head transports ≫= tr_request_fingerprint));
        ("method", JString "unique_retry_chain")])
    f32_0_9
    [anchor_evidence a; "identical_request_fingerprint"; "preceding_attempts_retriable";
     "unique_pre_request_anchor"].

Definition unresolved_anchor_event (a : Anchor) (selection : CandidateSet) : PendingEvent :=
  correlation_event "inference_correlation_unresolved" (an_ids a)
    (json_object
       [("reason", JString (if cs_total selection =? 0 then "no_transport_candidate"
                            else "ambiguous_transport_candidates"));
        ("anchor_sequence", json_u64 (an_sequence a)); ("anchor_source", JString (an_source a));
        ("anchor_event", JString (an_event a)); ("candidate_count", json_u64 (cs_total selection));
        ("candidate_inference_ids",
           JArray ((fun t => JString (tr_inference_id t)) <$> cs_candidates selection));
        ("candidate_ids_truncated", JBool (cs_truncated selection))])
    f32_zero [anchor_evidence a].

Definition unmatched_transport_event (t : Transport) : PendingEvent :=
  correlation_event "inference_correlation_unresolved"
    (mkEventIds None None None (Some (tr_inference_id t)) None None None None None)
    (json_object [("reason", JString "no_unique_agent_anchor");
                  ("transport_sequence", json_u64 (tr_sequence t))])
    f32_zero ["proxy:logical_inference_request"].

Definition transport_session_scope_event (t : Transport) (scope : EventIds) : PendingEvent :=
  correlation_event "inference_correlation"
    (mkEventIds (task_id scope) (tr_session_id t) None (Some (tr_inference_id t)) None None None None
       None)
    (json_object [("transport_sequence", json_u64 (tr_sequence t));
                  ("method", JString "exact_transport_session_id")])
    f32_0_8 ["proxy:provider_session_header"; "agent:matching_session_id"].
End Events.

(** ** The decisions *)

Inductive AnchorDecision :=
| Resolved (t : Transport) (corroborates_existing : bool)
| RetryChain (transports : list Transport)
| Unresolved (selection : CandidateSet).

(** The transports already given to an anchor, and the anchors of the requests
    among them. *)
Record Matching := mkMatching {
  ma_matched : gset string;
  ma_pre_request_scopes : Scopes;
}.

Definition remember_pre_request_scope (a : Anchor) (scopes : Scopes) (t : Transport) : Scopes :=
  match an_kind a with
  | PreRequest =>
      <[tr_inference_id t := default [] (scopes !! tr_inference_id t) ++ [an_ids a]]> scopes
  | Completion => scopes
  end.

Definition claim (a : Anchor) (m : Matching) (t : Transport) : Matching :=
  mkMatching ({[ tr_inference_id t ]} ∪ ma_matched m)
    (remember_pre_request_scope a (ma_pre_request_scopes m) t).

(** The decision for one anchor. *)
Definition decide_anchor (anchors : list Anchor) (transports : list Transport) (by_time : list nat)
    (by_exact_id : gmap string (list nat)) (m : Matching) (a : Anchor) : AnchorDecision * Matching :=
  let selection := candidates_for_anchor a transports by_time by_exact_id (ma_matched m)
                     (ma_pre_request_scopes m) in
  match cs_candidates selection with
  | t :: _ =>
      if cs_total selection =? 1 then
        (Resolved t (bool_decide (tr_inference_id t ∈ ma_matched m)), claim a m t)
      else if negb (cs_truncated selection) && retry_chain_is_unique a (cs_candidates selection) anchors
      then (RetryChain (cs_candidates selection), foldl (claim a) m (cs_candidates selection))
      else (Unresolved selection, m)
  | [] => (Unresolved selection, m)
  end.

Definition decision_event (run_id : string) (clock : DateTime * N) (a : Anchor) (d : AnchorDecision)
    : PendingEvent :=
  match d with
  | Resolved t corroborates => resolved_event run_id clock a t corroborates
  | RetryChain ts => resolved_retry_chain_event run_id clock a ts
  | Unresolved selection => unresolved_anchor_event run_id clock a selection
  end.

Definition count_decision (d : AnchorDecision) (r : CorrelationReport) : CorrelationReport :=
  match d with
  | Resolved _ _ | RetryChain _ => r <| cr_resolved ::= fun n => sat_add n 1 |>
  | Unresolved _ => r <| cr_unresolved ::= fun n => sat_add n 1 |>
  end.

(** ** The derivation *)

(** An error, with the events that were appended before it. *)
Notation derive_result := (result (StorageError * list PendingEvent)).

Section Derive.
Context {dig : Digest} {hx : Hex} {aead : Aead} {b64 : Base64} {zstd : Zstd} {http : Http}
  {serde : Serde} {serdeb : SerdeBlock}.

(** The store: its run, the readings of its clocks and its answer to an append,
    both after the events it has taken so far. *)
Context (run_id : string) (clock : list PendingEvent -> DateTime * N)
  (append : list PendingEvent -> PendingEvent -> storage_result unit).

Definition append_event (out : list PendingEvent) (e : PendingEvent) : derive_result (list PendingEvent) :=
  match append out e with
  | Ok _ => Ok (out ++ [e])
  | Err error => Err (error, out)
  end.

Definition correlate_anchor (anchors : list Anchor) (transports : list Transport) (by_time : list nat)
    (by_exact_id : gmap string (list nat)) (acc : Matching * CorrelationReport * list PendingEvent)
    (a : Anchor) : derive_result (Matching * CorrelationReport * list PendingEvent) :=
  let '(m, r, out) := acc in
  let '(d, m) := decide_anchor anchors transports by_time by_exact_id m a in
  out ← append_event out (decision_event run_id (clock out) a d);
  Ok (m, count_decision d r, out).

(** A transport no anchor was given to. *)
Definition report_transport (agent_scopes : gmap string EventIds)
    (acc : CorrelationReport * list PendingEvent) (t : Transport)
    : derive_result (CorrelationReport * list PendingEvent) :=
  let '(r, out) := acc in
  match tr_session_id t ≫= fun session => agent_scopes !! session with
  | Some scope =>
      out ← append_event out (transport_session_scope_event run_id (clock out) t scope);
      Ok (r <| cr_resolved ::= fun n => sat_add n 1 |>, out)
  | None =>
      out ← append_event out (unmatched_transport_event run_id (clock out) t);
      Ok (r <| cr_unresolved ::= fun n => sat_add n 1 |>
            <| cr_unmatched_transports ::= fun n => sat_add n 1 |>, out)
  end.

(** [derive] from what the pass collected. *)
Definition correlate (c : Collecting) : derive_result (CorrelationReport * list PendingEvent) :=
  if co_existing c then Ok (default_report <| cr_skipped_existing := true |>, [])
  else
    let anchors := sort_by_key an_sequence (co_anchors c) in
    let transports := sort_by_key tr_sequence (co_transports c) in
    '(m, r, out) ← try_fold (correlate_anchor anchors transports (index_by_time transports)
                               (index_by_exact_id transports))
                     (mkMatching ∅ ∅, default_report, []) anchors;
    try_fold (report_transport (co_agent_scopes c)) (r, out)
      (List.filter (fun t => negb (bool_decide (tr_inference_id t ∈ ma_matched m))) transports).

(** [derive] on a flushed log. *)
Definition derive (events : option bytes) (key : option EncryptionKey)
    : derive_result (CorrelationReport * list PendingEvent) :=
  '(_, c) ← map_err (fun error => (error, []))
              (for_each_run_event_with_key events run_id key collect_event start_collecting);
  correlate c.
End Derive.
