(* ===== verification/CorrelationSpec.v ===== *)
(** * What the correlation decides

    The decisions of src/correlation.rs against a reference without indexes:
    for each anchor the list of the transports it can mean, given what the
    anchors before it were given. *)

From Stdlib Require Import Strings.Byte Floats.SpecFloat.
From S2P Require Import Prelude RustStd External Json Input Model Policy Crypto EventLog EventLogSpec Correlation.
From stdpp Require Import sorting options.
Local Open Scope N_scope.
#[local] Unset Default Proof Using.

(** ** Sorting *)

Lemma filter_permutation {A} (p : A -> bool) (l l' : list A) : l ≡ₚ l' -> List.filter p l ≡ₚ List.filter p l'.
Proof.
  induction 1; cbn; repeat destruct (p _); eauto using perm_skip, perm_swap, perm_trans.
Qed.

Definition time_le (k k' : DateTime * N) : Prop := (k.1 < k'.1)%Z \/ (k.1 = k'.1 /\ k.2 <= k'.2).

Lemma not_after_time k k' : not_after compare_times k k' <-> time_le k k'.
Proof.
  unfold not_after, compare_times, time_le. destruct (Z.compare_spec k.1 k'.1) as [E|E|E].
  - rewrite N.compare_ngt_iff. split; [lia|]. intros [?|[_ ?]]; lia.
  - split; [by left|done].
  - split; [done|lia].
Qed.

(** The slice between two partition points of a sorted list. *)
Lemma slice_filter {A} (key : A -> Z) (s e : Z) (l : list A) :
  StronglySorted (fun a b => (key a <= key b)%Z) l ->
  drop (partition_point (fun a => key a <? s)%Z l) (take (partition_point (fun a => key a <=? e)%Z l) l) =
  List.filter (fun a => (s <=? key a)%Z && (key a <=? e)%Z) l.
Proof.
  induction 1 as [|a l Hs IH Hf]; [done|]. cbn [partition_point List.filter].
  rewrite Forall_forall in Hf. destruct (Z.leb_spec (key a) e) as [He|He].
  - cbn [take]. destruct (Z.ltb_spec (key a) s) as [Hlt|Hge].
    + rewrite (proj2 (Z.leb_gt _ _)) by lia. exact IH.
    + rewrite (proj2 (Z.leb_le _ _)) by lia. cbn [drop andb]. f_equal. rewrite <-IH.
      assert (partition_point (fun a => key a <? s)%Z l = 0%nat) as ->; [|done].
      destruct l as [|b l]; [done|]. cbn. specialize (Hf b ltac:(left)).
      by rewrite (proj2 (Z.ltb_ge _ _)) by lia.
  - cbn [take]. rewrite drop_nil, andb_false_r. symmetry. clear -Hf He.
    induction l as [|b l IH]; [done|]. cbn. pose proof (Hf b ltac:(left)).
    rewrite (proj2 (Z.leb_gt (key b) e)), andb_false_r by lia. apply IH. intros x Hx. apply Hf. by right.
Qed.

(** ** The candidate loops *)

Lemma count_candidates allowed l : nlen l <= u64_max ->
  foldl (count_candidate allowed) ([], 0) l =
  (ntake MAX_RECORDED_CANDIDATES (List.filter allowed l), nlen (List.filter allowed l)).
Proof.
  induction l as [|t l IH] using rev_ind; [done|]. rewrite nlen_app, nlen_cons, nlen_nil. intros Hn.
  rewrite foldl_app, IH by lia. cbn [foldl count_candidate]. rewrite List.filter_app. cbn [List.filter].
  destruct (allowed t); [|by rewrite app_nil_r].
  assert (nlen (List.filter allowed l) <= nlen l) as Hl.
  { unfold nlen. pose proof (List.filter_length_le allowed l). lia. }
  set (f := List.filter allowed l) in *. rewrite nlen_app, nlen_cons, nlen_nil, sat_add_exact by lia.
  rewrite N.add_0_l. f_equal. rewrite nlen_ntake.
  destruct (N.ltb_spec (N.min MAX_RECORDED_CANDIDATES (nlen f)) MAX_RECORDED_CANDIDATES) as [Hlt|Hge].
  - rewrite !ntake_all; [done|rewrite nlen_app, nlen_cons, nlen_nil; lia|lia].
  - rewrite !ntake_take, take_app_le; [done|]. unfold nlen in *. lia.
Qed.

(** ** The index by identifier *)

(** A transport, once for each of its identifiers that is [id]. *)
Definition copies (id : string) (t : Transport) : list Transport :=
  (if str_eqb id (tr_inference_id t) then [t] else []) ++
  (if bool_decide (id ∈ tr_provider_response_ids t) then [t] else []).

Lemma push_indices index l m id : NoDup l ->
  default [] (foldl (push_index index) m l !! id) =
  default [] (m !! id) ++ (if decide (id ∈ l) then [index] else []).
Proof.
  revert m. induction l as [|x l IH]; intros m Hd; cbn [foldl].
  { rewrite decide_False by apply not_elem_of_nil. by rewrite app_nil_r. }
  apply NoDup_cons in Hd as [Hx Hd]. rewrite IH by done. unfold push_index at 1.
  destruct (decide (x = id)) as [->|Hne].
  - rewrite lookup_insert_eq. cbn [default]. rewrite decide_False by done.
    rewrite decide_True by left. by rewrite app_nil_r.
  - rewrite lookup_insert_ne by done. f_equal. apply decide_ext. rewrite elem_of_cons. naive_solver.
Qed.

Lemma transports_at_app ts l l' : transports_at ts (l ++ l') = transports_at ts l ++ transports_at ts l'.
Proof. apply omap_app. Qed.

Lemma transports_at_prefix ts ts' l : Forall (fun i => (i < length ts)%nat) l ->
  transports_at (ts ++ ts') l = transports_at ts l.
Proof.
  induction 1 as [|i l Hi Hl IH]; [done|]. unfold transports_at in *. cbn [omap list_omap].
  rewrite lookup_app_l by done. by rewrite IH.
Qed.

Lemma index_by_exact_id_spec ts id :
  let l := default [] (index_by_exact_id ts !! id) in
  Forall (fun i => (i < length ts)%nat) l /\ transports_at ts l = ts ≫= copies id.
Proof.
  cbn zeta. unfold index_by_exact_id. induction ts as [|t ts [IH1 IH2]] using rev_ind; [done|].
  rewrite imap_app, foldl_app. cbn [imap foldl]. rewrite Nat.add_0_r.
  rewrite push_indices by apply NoDup_elements. set (m := foldl _ ∅ (imap pair ts)) in *.
  assert (default [] (push_index (length ts) m (tr_inference_id t) !! id) =
    default [] (m !! id) ++ (if str_eqb id (tr_inference_id t) then [length ts] else [])) as ->.
  { unfold push_index, str_eqb. destruct (decide (id = tr_inference_id t)) as [->|Hne].
    - by rewrite lookup_insert_eq, bool_decide_eq_true_2.
    - by rewrite lookup_insert_ne, bool_decide_eq_false_2, app_nil_r. }
  rewrite length_app. cbn [length]. split.
  - rewrite !Forall_app. split; [split|].
    + eapply Forall_impl; [exact IH1|]. cbn. lia.
    + destruct (str_eqb _ _); repeat constructor; lia.
    + case_decide; repeat constructor; lia.
  - rewrite !transports_at_app, transports_at_prefix, IH2 by done.
    rewrite bind_app. cbn [mbind list_bind]. rewrite app_nil_r, <-app_assoc. f_equal. unfold copies. f_equal.
    + destruct (str_eqb _ _); [|done]. unfold transports_at. cbn.
      by rewrite (list_lookup_middle _ [] t _ eq_refl).
    + case_decide as H; rewrite elem_of_elements in H.
      * rewrite bool_decide_eq_true_2 by done. unfold transports_at. cbn.
        by rewrite (list_lookup_middle _ [] t _ eq_refl).
      * by rewrite bool_decide_eq_false_2.
Qed.

(** ** The order by time *)

Lemma transports_at_fmap ts l : Forall (fun i => (i < length ts)%nat) l ->
  Some <$> transports_at ts l = (fun i => ts !! i) <$> l.
Proof.
  induction 1 as [|i l Hi Hl IH]; [done|]. unfold transports_at in *. cbn [omap list_omap fmap list_fmap].
  destruct (lookup_lt_is_Some_2 ts i Hi) as [t Ht]. rewrite Ht. cbn. f_equal. exact IH.
Qed.

Lemma transports_at_seq ts : transports_at ts (seq 0 (length ts)) = ts.
Proof.
  induction ts as [|t ts IH] using rev_ind; [done|]. rewrite length_app. cbn [length].
  rewrite seq_app, transports_at_app, transports_at_prefix, IH.
  - cbn. unfold transports_at. cbn. by rewrite (list_lookup_middle _ [] t _ eq_refl).
  - apply Forall_forall. intros i Hi%elem_of_seq. lia.
Qed.

Lemma transports_at_filter ts p l : Forall (fun i => (i < length ts)%nat) l ->
  transports_at ts (List.filter (fun i => p (wall_time_at ts i)) l) =
  List.filter (fun t => p (tr_wall_time t)) (transports_at ts l).
Proof.
  induction 1 as [|i l Hi Hl IH]; [done|]. unfold transports_at in *. cbn [omap list_omap List.filter].
  destruct (lookup_lt_is_Some_2 ts i Hi) as [t Ht]. unfold wall_time_at at 1, time_key. rewrite Ht. cbn [fst].
  destruct (p (tr_wall_time t)) eqn:Hp.
  - cbn [omap list_omap]. rewrite Ht. cbn [List.filter]. rewrite Hp. by f_equal.
  - cbn [List.filter]. rewrite Hp. exact IH.
Qed.

#[export] Instance time_transitive ts :
  Transitive (not_after (fun i j => compare_times (time_key ts i) (time_key ts j))).
Proof.
  intros i j k. change (not_after compare_times (time_key ts i) (time_key ts j) ->
    not_after compare_times (time_key ts j) (time_key ts k) ->
    not_after compare_times (time_key ts i) (time_key ts k)).
  rewrite !not_after_time. unfold time_le. lia.
Qed.
#[export] Instance time_total ts :
  Total (not_after (fun i j => compare_times (time_key ts i) (time_key ts j))).
Proof.
  intros i j. change (not_after compare_times (time_key ts i) (time_key ts j) \/
    not_after compare_times (time_key ts j) (time_key ts i)).
  rewrite !not_after_time. unfold time_le. lia.
Qed.

Lemma index_by_time_spec ts :
  let l := index_by_time ts in
  Forall (fun i => (i < length ts)%nat) l /\ transports_at ts l ≡ₚ ts /\
  StronglySorted (fun i j => time_le (time_key ts i) (time_key ts j)) l.
Proof.
  cbn zeta. unfold index_by_time, sort_by.
  set (R := not_after _). assert (merge_sort R (seq 0 (length ts)) ≡ₚ seq 0 (length ts)) as Hp
    by apply merge_sort_Permutation.
  split_and!.
  - rewrite Hp. apply Forall_forall. intros i Hi%elem_of_seq. lia.
  - rewrite <-(transports_at_seq ts) at 3. unfold transports_at. by rewrite Hp.
  - assert (StronglySorted R (merge_sort R (seq 0 (length ts)))) as Hs
      by (apply StronglySorted_merge_sort; apply _).
    eapply StronglySorted_weaken; [|exact Hs]. intros i j Hij. by apply not_after_time.
Qed.

(** ** The reference *)

(** What an anchor was given. *)
Definition claims (d : AnchorDecision) : list Transport :=
  match d with
  | Resolved t _ => [t]
  | RetryChain ts => ts
  | Unresolved _ => []
  end.

Definition claimed (before : list (Anchor * AnchorDecision)) (id : string) : bool :=
  existsb (fun '(_, d) => existsb (fun t => str_eqb (tr_inference_id t) id) (claims d)) before.

(** A transport that was given to an earlier anchor may be confirmed by a
    completion that names it, or that shares the scope of a request anchor it
    was given to. *)
Definition confirms (before : list (Anchor * AnchorDecision)) (a : Anchor) (t : Transport) : bool :=
  bool_decide (an_kind a = Completion)
  && (transport_matches_exact_identifier a t
      || existsb (fun '(b, d) =>
           bool_decide (an_kind b = PreRequest)
           && existsb (fun u => str_eqb (tr_inference_id u) (tr_inference_id t)) (claims d)
           && same_logical_scope (an_ids a) (an_ids b)) before).

Definition available (before : list (Anchor * AnchorDecision)) (a : Anchor) (t : Transport) : bool :=
  negb (claimed before (tr_inference_id t)) || confirms before a t.

Definition in_window (a : Anchor) (t : Transport) : bool :=
  (fst (window a) <=? tr_wall_time t)%Z && (tr_wall_time t <=? snd (window a))%Z.

(** The transports an anchor names, once for each identifier. *)
Definition named (a : Anchor) (ts : list Transport) : list Transport :=
  match inference_id (an_ids a) with Some id => ts ≫= copies id | None => [] end.

Definition named_available before a ts : list Transport := List.filter (available before a) (named a ts).
Definition timely before a ts : list Transport :=
  List.filter (fun t => models_compatible (an_model a) (tr_model t) && available before a t && in_window a t) ts.

(** The transports an anchor can mean: those it names if there are any, else
    those of its time and model. *)
Definition possible before a ts : list Transport :=
  match named_available before a ts with [] => timely before a ts | l => l end.

Definition arrival (t u : Transport) : comparison :=
  compare_times (tr_wall_time t, tr_sequence t) (tr_wall_time u, tr_sequence u).

(** What is recorded of them: their number, and at most 1,024 of them in the
    order of the log, the earliest when the anchor names none. *)
Definition selected before a ts : CandidateSet :=
  let l := possible before a ts in
  let l' := match named_available before a ts with [] => sort_by arrival l | _ => l end in
  mkCandidateSet (sort_by_key tr_sequence (ntake MAX_RECORDED_CANDIDATES l')) (nlen l)
    (MAX_RECORDED_CANDIDATES <? nlen l).

Definition decision (all : list Anchor) ts before a : AnchorDecision :=
  let l := possible before a ts in
  match l with
  | [t] => Resolved t (claimed before (tr_inference_id t))
  | _ => if (nlen l <=? MAX_RECORDED_CANDIDATES) && retry_chain_is_unique a l all then RetryChain l
         else Unresolved (selected before a ts)
  end.

(** The anchors in order, each with its decision. *)
Definition decisions (all : list Anchor) ts (anchors : list Anchor) : list (Anchor * AnchorDecision) :=
  foldl (fun before a => before ++ [(a, decision all ts before a)]) [] anchors.

(** ** The selection *)

(** The sets the loop keeps, in terms of the decisions made. *)
Record tracks (before : list (Anchor * AnchorDecision)) (m : Matching) : Prop := {
  tracks_matched id : bool_decide (id ∈ ma_matched m) = claimed before id;
  tracks_scopes ids id : existsb (same_logical_scope ids) (default [] (ma_pre_request_scopes m !! id)) =
    existsb (fun '(b, d) => bool_decide (an_kind b = PreRequest)
                            && existsb (fun u => str_eqb (tr_inference_id u) id) (claims d)
                            && same_logical_scope ids (an_ids b)) before;
}.

Lemma candidate_allowed_spec before m a t exact : tracks before m ->
  candidate_allowed a t (ma_matched m) (ma_pre_request_scopes m) exact =
  (exact || models_compatible (an_model a) (tr_model t)) && available before a t.
Proof.
  intros [H1 H2]. unfold candidate_allowed, available, confirms, completion_corroborates_pre_request.
  rewrite H1, H2. by destruct (an_kind a).
Qed.

(** Transports in the order of distinct sequence numbers. *)
Definition in_sequence (ts : list Transport) : Prop := StronglySorted (fun t u => tr_sequence t < tr_sequence u) ts.

Lemma in_sequence_inj ts t u : in_sequence ts -> t ∈ ts -> u ∈ ts -> tr_sequence t = tr_sequence u -> t = u.
Proof.
  induction 1 as [|x ts Hs IH Hf]; [by intros ?%not_elem_of_nil|]. rewrite Forall_forall in Hf.
  rewrite !elem_of_cons. intros [->|Ht] [->|Hu] E; [done| | |auto].
  - specialize (Hf _ Hu). lia.
  - specialize (Hf _ Ht). lia.
Qed.

Lemma in_sequence_sorted ts : in_sequence ts -> StronglySorted (fun t u => tr_sequence t <= tr_sequence u) ts.
Proof. apply StronglySorted_weaken. lia. Qed.

Lemma transports_at_sorted ts l : Forall (fun i => (i < length ts)%nat) l ->
  StronglySorted (fun i j => time_le (time_key ts i) (time_key ts j)) l ->
  StronglySorted (not_after arrival) (transports_at ts l).
Proof.
  intros Hb. induction 1 as [|i l Hs IH Hf]; [constructor|]. apply Forall_cons in Hb as [Hi Hb].
  destruct (lookup_lt_is_Some_2 ts i Hi) as [t Ht]. unfold transports_at in *. cbn [omap list_omap].
  rewrite Ht. constructor; [auto|]. apply Forall_forall. intros u (j & Hj & Hu)%list_elem_of_omap.
  rewrite Forall_forall in Hf. specialize (Hf j Hj). unfold time_key in Hf. rewrite Ht, Hu in Hf.
  by apply not_after_time in Hf.
Qed.

#[export] Instance arrival_transitive : Transitive (not_after arrival).
Proof.
  intros t u v. change (not_after compare_times (tr_wall_time t, tr_sequence t) (tr_wall_time u, tr_sequence u) ->
    not_after compare_times (tr_wall_time u, tr_sequence u) (tr_wall_time v, tr_sequence v) ->
    not_after compare_times (tr_wall_time t, tr_sequence t) (tr_wall_time v, tr_sequence v)).
  rewrite !not_after_time. unfold time_le. cbn. lia.
Qed.
#[export] Instance arrival_total : Total (not_after arrival).
Proof.
  intros t u. change (not_after compare_times (tr_wall_time t, tr_sequence t) (tr_wall_time u, tr_sequence u) \/
    not_after compare_times (tr_wall_time u, tr_sequence u) (tr_wall_time t, tr_sequence t)).
  rewrite !not_after_time. unfold time_le. cbn. lia.
Qed.

Lemma arrivals ts p : in_sequence ts ->
  List.filter p (transports_at ts (index_by_time ts)) = sort_by arrival (List.filter p ts).
Proof.
  intros Hs. destruct (index_by_time_spec ts) as (Hb & Hp & Ht). symmetry.
  apply sort_by_unique; [apply _..| | |].
  - intros t u Ht' Hu' H1 H2.
    apply list_elem_of_In, filter_In in Ht' as [Ht' _], Hu' as [Hu' _].
    apply list_elem_of_In in Ht', Hu'. rewrite Hp in Ht', Hu'.
    apply (in_sequence_inj ts); [done..|].
    apply (not_after_time (tr_wall_time t, tr_sequence t) (tr_wall_time u, tr_sequence u)) in H1.
    apply (not_after_time (tr_wall_time u, tr_sequence u) (tr_wall_time t, tr_sequence t)) in H2.
    unfold time_le in H1, H2. cbn in H1, H2. lia.
  - by apply StronglySorted_filter, transports_at_sorted.
  - by apply filter_permutation.
Qed.

Lemma nlen_named a ts : nlen (named a ts) <= 2 * nlen ts.
Proof.
  unfold named. destruct (inference_id _) as [id|]; [|rewrite nlen_nil; lia].
  induction ts as [|t ts IH]; [done|]. rewrite bind_cons, nlen_app, nlen_cons.
  assert (nlen (copies id t) <= 2); [|lia]. unfold copies.
  destruct (str_eqb _ _), (bool_decide _); rewrite ?nlen_cons, ?nlen_nil; unfold nlen; cbn; lia.
Qed.

Lemma named_spec a ts :
  transports_at ts (default [] (inference_id (an_ids a) ≫= fun id => index_by_exact_id ts !! id)) = named a ts.
Proof.
  unfold named. destruct (inference_id _) as [id|]; [|done]. cbn [mbind option_bind].
  exact (proj2 (index_by_exact_id_spec ts id)).
Qed.

Lemma candidate_set_spec l :
  candidate_set (ntake MAX_RECORDED_CANDIDATES l, nlen l) =
  mkCandidateSet (sort_by_key tr_sequence (ntake MAX_RECORDED_CANDIDATES l)) (nlen l)
    (MAX_RECORDED_CANDIDATES <? nlen l).
Proof.
  cbn [candidate_set]. f_equal. rewrite nlen_ntake.
  destruct (N.ltb_spec MAX_RECORDED_CANDIDATES (nlen l)); [apply N.ltb_lt|apply N.ltb_ge]; lia.
Qed.

Lemma windowed_spec a ts : in_sequence ts ->
  let '(s, e) := window a in
  transports_at ts
    (drop (partition_point (fun i => wall_time_at ts i <? s)%Z (index_by_time ts))
       (take (partition_point (fun i => wall_time_at ts i <=? e)%Z (index_by_time ts)) (index_by_time ts))) =
  List.filter (in_window a) (transports_at ts (index_by_time ts)).
Proof.
  intros Hs. destruct (window a) as [s e] eqn:Hw. destruct (index_by_time_spec ts) as (Hb & _ & Ht).
  rewrite (slice_filter (wall_time_at ts) s e).
  - rewrite (transports_at_filter ts (fun w => (s <=? w)%Z && (w <=? e)%Z)) by done.
    unfold in_window. by rewrite Hw.
  - eapply StronglySorted_weaken; [|exact Ht]. unfold time_le, wall_time_at. lia.
Qed.

Lemma filter_filter {A} (p q : A -> bool) l : List.filter p (List.filter q l) = List.filter (fun x => p x && q x) l.
Proof.
  induction l as [|x l IH]; [done|]. cbn. destruct (q x); cbn; [|by rewrite andb_false_r].
  rewrite andb_true_r, IH. done.
Qed.

Lemma nlen_filter {A} (p : A -> bool) l : nlen (List.filter p l) <= nlen l.
Proof. unfold nlen. pose proof (List.filter_length_le p l). lia. Qed.

Lemma nlen_perm {A} (l l' : list A) : l ≡ₚ l' -> nlen l = nlen l'.
Proof. intros H. unfold nlen. by rewrite H. Qed.

Lemma candidates_spec before m a ts : tracks before m -> in_sequence ts -> 2 * nlen ts <= u64_max ->
  candidates_for_anchor a ts (index_by_time ts) (index_by_exact_id ts) (ma_matched m) (ma_pre_request_scopes m) =
  selected before a ts.
Proof.
  intros Hm Hs Hn. unfold candidates_for_anchor. pose proof (windowed_spec a ts Hs) as Hw.
  destruct (window a) as [s e]. rewrite Hw, named_spec. pose proof (nlen_named a ts).
  destruct (index_by_time_spec ts) as (_ & Hp & _).
  assert (nlen (List.filter (in_window a) (transports_at ts (index_by_time ts))) <= nlen ts) as Hl.
  { rewrite (nlen_perm _ _ (filter_permutation _ _ _ Hp)). apply nlen_filter. }
  rewrite !count_candidates by lia.
  rewrite (List.filter_ext _ _ (fun t => candidate_allowed_spec before m a t true Hm)).
  rewrite (List.filter_ext _ _ (fun t => candidate_allowed_spec before m a t false Hm)).
  cbn [orb andb snd]. rewrite !candidate_set_spec, filter_filter, arrivals by done.
  unfold selected, possible. change (List.filter (fun t => available before a t) (named a ts)) with
    (named_available before a ts). destruct (named_available before a ts) as [|t l]; [|done].
  cbn [nlen length N.of_nat N.ltb N.compare]. rewrite (nlen_perm (sort_by _ _) _ (merge_sort_Permutation _ _)). done.
Qed.

(** ** The decisions *)

Lemma named_possible ts a : in_sequence ts ->
  named a ts ⊆ ts /\ StronglySorted (fun t u => tr_sequence t <= tr_sequence u) (named a ts).
Proof.
  unfold named. destruct (inference_id _) as [id|]; [|by split; [apply list_subseteq_nil|constructor]].
  assert (forall t u, u ∈ copies id t -> u = t) as Hc.
  { intros t u. unfold copies. rewrite elem_of_app.
    destruct (str_eqb _ _), (bool_decide _); rewrite ?list_elem_of_singleton, ?elem_of_nil; naive_solver. }
  intros Hs. split; [intros u (t & Hu & Ht)%list_elem_of_bind; by apply Hc in Hu as ->|].
  induction Hs as [|t ts Hs IH Hf]; [constructor|]. rewrite bind_cons, Forall_forall in *.
  assert (forall u, u ∈ ts ≫= copies id -> tr_sequence t <= tr_sequence u) as Hle.
  { intros u (v & Hu & Hv)%list_elem_of_bind. apply Hc in Hu as ->. specialize (Hf _ Hv). lia. }
  clear Hc Hs Hf. unfold copies at 1.
  destruct (str_eqb _ _), (bool_decide _); cbn [app]; repeat constructor; try done;
    repeat (apply Forall_cons; split; [lia|]); by apply Forall_forall.
Qed.

Lemma possible_sorted before ts a : in_sequence ts ->
  possible before a ts ⊆ ts /\ StronglySorted (fun t u => tr_sequence t <= tr_sequence u) (possible before a ts).
Proof.
  intros Hs. assert (forall p (l : list Transport), List.filter p l ⊆ l) as Hf.
  { intros p l t [Ht _]%list_elem_of_In%filter_In. by apply list_elem_of_In. }
  unfold possible. destruct (named_available before a ts) as [|t l] eqn:E.
  - split; [apply Hf|]. by apply StronglySorted_filter, in_sequence_sorted.
  - rewrite <-E. unfold named_available. destruct (named_possible ts a Hs) as [H1 H2].
    split; [intros t' Ht'; by apply H1, (Hf _ _ _ Ht')|]. by apply StronglySorted_filter.
Qed.

Lemma selected_all before ts a : in_sequence ts -> nlen (possible before a ts) <= MAX_RECORDED_CANDIDATES ->
  cs_candidates (selected before a ts) = possible before a ts.
Proof.
  intros Hs Hn. destruct (possible_sorted before ts a Hs) as [Hin Hsorted]. cbn [selected cs_candidates].
  apply sort_by_key_unique; [|done|].
  - intros t u Ht Hu. apply (in_sequence_inj ts); auto.
  - destruct (named_available before a ts); [|by rewrite ntake_all].
    assert (sort_by arrival (possible before a ts) ≡ₚ possible before a ts) as Hp by apply merge_sort_Permutation.
    rewrite ntake_all by (by rewrite (nlen_perm _ _ Hp)). done.
Qed.

Lemma tracks_start : tracks [] (mkMatching ∅ ∅).
Proof.
  split; cbn.
  - intros id. apply bool_decide_eq_false_2, not_elem_of_empty.
  - intros ids id. by rewrite lookup_empty.
Qed.

Lemma claims_tracked before m a d : tracks before m ->
  tracks (before ++ [(a, d)]) (foldl (claim a) m (claims d)).
Proof.
  intros [H1 H2]. split; [intros id|intros ids id]; unfold claimed in *;
    rewrite existsb_app; cbn [existsb]; rewrite orb_false_r.
  - rewrite <-H1. clear. generalize (claims d). intros l. revert m.
    induction l as [|t l IH]; intros m; cbn [foldl existsb]; [by rewrite orb_false_r|].
    rewrite IH. cbn [claim ma_matched]. rewrite orb_assoc. f_equal. unfold str_eqb.
    apply Bool.eq_iff_eq_true. rewrite orb_true_iff, !bool_decide_eq_true. set_solver.
  - rewrite <-H2. clear. generalize (claims d). intros l. revert m.
    induction l as [|t l IH]; intros m; cbn [foldl existsb]; [by rewrite andb_false_r, orb_false_r|].
    rewrite IH. cbn [claim ma_pre_request_scopes]. unfold remember_pre_request_scope.
    destruct (an_kind a); [|done].
    rewrite bool_decide_eq_true_2 by done. cbn [andb].
    destruct (decide (tr_inference_id t = id)) as [E|Hne].
    + rewrite <-E, lookup_insert_eq, (proj2 (str_eqb_true (tr_inference_id t) _) eq_refl). cbn [from_option Datatypes.id orb andb].
      rewrite existsb_app. cbn [existsb]. rewrite orb_false_r.
      clear IH. by destruct (existsb _ (default [] _)), (existsb _ l), (same_logical_scope ids (an_ids a)).
    + rewrite lookup_insert_ne by done. unfold str_eqb at 2. by rewrite bool_decide_eq_false_2.
Qed.

Lemma decide_anchor_spec all ts before m a : tracks before m -> in_sequence ts -> 2 * nlen ts <= u64_max ->
  let d := decision all ts before a in
  decide_anchor all ts (index_by_time ts) (index_by_exact_id ts) m a = (d, foldl (claim a) m (claims d)).
Proof.
  intros Hm Hs Hn. cbn zeta. unfold decide_anchor. rewrite (candidates_spec before) by done.
  pose proof (selected_all before ts a Hs) as Hall. unfold decision.
  assert (cs_total (selected before a ts) = nlen (possible before a ts)) as -> by done.
  assert (cs_truncated (selected before a ts) = (MAX_RECORDED_CANDIDATES <? nlen (possible before a ts))) as -> by done.
  destruct (N.leb_spec (nlen (possible before a ts)) MAX_RECORDED_CANDIDATES) as [Hle|Hgt].
  - rewrite Hall by done. rewrite (proj2 (N.ltb_ge _ _)) by done. cbn [andb negb].
    destruct (possible before a ts) as [|t [|u l]] eqn:E; [done| |].
    + cbn. by rewrite (tracks_matched _ _ Hm).
    + rewrite (proj2 (N.eqb_neq _ 1)) by (rewrite !nlen_cons; lia).
      by destruct (retry_chain_is_unique _ _ _).
  - rewrite (proj2 (N.ltb_lt _ _)) by done. cbn [andb negb].
    rewrite (proj2 (N.eqb_neq _ 1)) by (unfold MAX_RECORDED_CANDIDATES in *; lia).
    destruct (possible before a ts) as [|t [|u l]] eqn:E; [done|by cbn in Hgt|].
    by destruct (cs_candidates _).
Qed.

(** ** The pass *)

Section Pass.
Context {dig : Digest} {hx : Hex}.

(** The visitor without its limits. *)
Definition note_event (c : Collecting) (e : EventEnvelope) : Collecting :=
  if str_eqb (ev_source e) "correlation" then c <| co_existing := true |>
  else note_scope e (note_anchor e (note_terminal e (note_response_id e (note_status e (note_transport e c))))).
Definition collected (es : list EventEnvelope) : Collecting := foldl note_event start_collecting es.

(** The anchor of an event, the transport of a request as far as the request
    says, and the scope of a session as its first event from the agent says. *)
Definition anchor_of (e : EventEnvelope) : option Anchor :=
  if str_eqb (ev_source e) "correlation" then None else last (co_anchors (note_anchor e start_collecting)).

Definition request_of (e : EventEnvelope) : option Transport :=
  if str_eqb (ev_source e) "proxy" && str_eqb (ev_event e) "logical_inference_request" then
    inference ← inference_id (ev_ids e);
    Some (mkTransport (ev_sequence e) (ev_wall_time e) inference (attempt_id (ev_ids e))
            (session_id (ev_ids e)) ∅ (model_from_transport e) (request_fingerprint e) None None)
  else None.
Definition as_requested (t : Transport) : Transport :=
  t <| tr_provider_response_ids := ∅ |> <| tr_response_status := None |> <| tr_terminal_state := None |>.

Definition from_agent (session : string) (e : EventEnvelope) : bool :=
  (str_eqb (ev_source e) "session" || str_starts_with "hook:" (ev_source e))
  && bool_decide (session_id (ev_ids e) = Some session).
Definition agent_scope (es : list EventEnvelope) (session : string) : option EventIds :=
  ev_ids <$> List.find (from_agent session) es.

(** What one event adds. *)
Record noted (e : EventEnvelope) (c c' : Collecting) : Prop := {
  noted_anchors : co_anchors c' = co_anchors c ++ option_list (anchor_of e);
  noted_transports : as_requested <$> co_transports c' =
    (as_requested <$> co_transports c) ++ option_list (request_of e);
  noted_indices : (size (co_transport_indices c') <= size (co_transport_indices c) + 2)%nat;
  noted_status : (size (co_pending_response_status c') <= size (co_pending_response_status c) + 2)%nat;
  noted_ids : (size (co_pending_response_ids c') <= size (co_pending_response_ids c) + 2)%nat;
  noted_terminal : (size (co_pending_terminal_state c') <= size (co_pending_terminal_state c) + 2)%nat;
  noted_scopes_size : (size (co_agent_scopes c') <= size (co_agent_scopes c) + 1)%nat;
  noted_scopes session : co_agent_scopes c' !! session =
    match co_agent_scopes c !! session with
    | Some ids => Some ids
    | None => if from_agent session e then Some (ev_ids e) else None
    end;
  noted_existing : co_existing c' = co_existing c || str_eqb (ev_source e) "correlation";
}.

Lemma size_insert {T} key (v : T) (m : gmap string T) : (size (insert_key key v m) <= size m + 1)%nat.
Proof. destruct key as [k|]; cbn; [|lia]. rewrite map_size_insert. destruct (m !! k); cbn; lia. Qed.
Lemma size_remove {T} key (m : gmap string T) : (size (remove_key key m) <= size m)%nat.
Proof. destruct key as [k|]; cbn; [|lia]. rewrite map_size_delete. destruct (m !! k); cbn; lia. Qed.
Lemma size_remember {T} (m : gmap string T) e v : (size (remember_pending m e v) <= size m + 2)%nat.
Proof.
  unfold remember_pending. pose proof (size_insert (inference_lookup_key e) v (insert_key (attempt_lookup_key e) v m)).
  pose proof (size_insert (attempt_lookup_key e) v m). lia.
Qed.
Lemma size_take {T} (m : gmap string T) e : (size (take_pending m e).2 <= size m)%nat.
Proof.
  cbn. pose proof (size_remove (inference_lookup_key e) (remove_key (attempt_lookup_key e) m)).
  pose proof (size_remove (attempt_lookup_key e) m). lia.
Qed.

Lemma as_requested_alter f (i : nat) (ts : list Transport) : (forall t, as_requested (f t) = as_requested t) ->
  as_requested <$> alter f i ts = as_requested <$> ts.
Proof. intros H. revert i. induction ts as [|t ts IH]; intros [|i]; cbn; f_equal; auto. Qed.

(** Each part of the visitor changes the fields it names and no other. *)
Lemma note_transport_spec e c : let c' := note_transport e c in
  c' = mkCollecting (co_anchors c) (co_transports c') (co_transport_indices c') (co_pending_response_status c')
         (co_pending_response_ids c') (co_pending_terminal_state c') (co_agent_scopes c) (co_existing c) /\
  as_requested <$> co_transports c' = (as_requested <$> co_transports c) ++ option_list (request_of e) /\
  (size (co_transport_indices c') <= size (co_transport_indices c) + 2)%nat /\
  (size (co_pending_response_status c') <= size (co_pending_response_status c))%nat /\
  (size (co_pending_response_ids c') <= size (co_pending_response_ids c))%nat /\
  (size (co_pending_terminal_state c') <= size (co_pending_terminal_state c))%nat.
Proof.
  destruct c. unfold note_transport, proxy_event, request_of.
  destruct (_ && _); [destruct (inference_id (ev_ids e))|]; cbn -[remember_transport remove_key];
    rewrite ?fmap_app, ?app_nil_r; split_and!; try done; try lia; try apply (size_take _ e).
  apply size_remember.
Qed.

Lemma note_status_spec e c : let c' := note_status e c in
  c' = c <| co_transports := co_transports c' |> <| co_pending_response_status := co_pending_response_status c' |> /\
  as_requested <$> co_transports c' = as_requested <$> co_transports c /\
  (size (co_pending_response_status c') <= size (co_pending_response_status c) + 2)%nat.
Proof.
  destruct c. unfold note_status. destruct (proxy_event _ _); [|cbn; split_and!; [done..|lia]].
  destruct (transport_index _ _); [|destruct (_ ≫= _)]; cbn -[alter remember_pending]; split_and!; try done; try lia.
  - by apply as_requested_alter.
  - apply size_remember.
Qed.

Lemma note_response_id_spec e c : let c' := note_response_id e c in
  c' = c <| co_transports := co_transports c' |> <| co_pending_response_ids := co_pending_response_ids c' |> /\
  as_requested <$> co_transports c' = as_requested <$> co_transports c /\
  (size (co_pending_response_ids c') <= size (co_pending_response_ids c) + 2)%nat.
Proof.
  destruct c. unfold note_response_id. destruct (proxy_event _ _); [|cbn; split_and!; [done..|lia]].
  destruct (_ ≫= as_str) as [id|]; [destruct (str_is_empty id); [|destruct (transport_index _ _)]|];
    cbn -[alter remember_pending]; split_and!; try done; try lia.
  - by apply as_requested_alter.
  - apply size_remember.
Qed.

Lemma note_terminal_spec e c : let c' := note_terminal e c in
  c' = c <| co_transports := co_transports c' |> <| co_pending_terminal_state := co_pending_terminal_state c' |> /\
  as_requested <$> co_transports c' = as_requested <$> co_transports c /\
  (size (co_pending_terminal_state c') <= size (co_pending_terminal_state c) + 2)%nat.
Proof.
  destruct c. unfold note_terminal. destruct (proxy_event _ _); [|cbn; split_and!; [done..|lia]].
  destruct (transport_index _ _); [|destruct (ev_terminal_state e)]; cbn -[alter remember_pending];
    split_and!; try done; try lia.
  - by apply as_requested_alter.
  - apply size_remember.
Qed.

Lemma note_anchor_spec e c :
  note_anchor e c = c <| co_anchors := co_anchors c ++ option_list (last (co_anchors (note_anchor e start_collecting))) |>.
Proof.
  unfold note_anchor. destruct (anchor_kind e); [destruct (_ || _)|]; destruct c; cbn; rewrite ?app_nil_r; done.
Qed.

Lemma note_scope_spec e c : let c' := note_scope e c in
  c' = c <| co_agent_scopes := co_agent_scopes c' |> /\
  (size (co_agent_scopes c') <= size (co_agent_scopes c) + 1)%nat /\
  forall session, co_agent_scopes c' !! session =
    match co_agent_scopes c !! session with
    | Some ids => Some ids
    | None => if from_agent session e then Some (ev_ids e) else None
    end.
Proof.
  destruct c as [????? ? scopes ?]. unfold note_scope, from_agent.
  destruct (_ || _); cbn [andb]; [destruct (session_id (ev_ids e)) as [session|]|]; cbn.
  2, 3: split; [done|split; [lia|]]; intros s; by destruct (_ !! s).
  destruct (scopes !! session) as [ids|] eqn:E.
  - split; [done|split; [lia|]]. intros s. destruct (decide (session = s)) as [->|Hne]; [by rewrite E|].
    rewrite bool_decide_eq_false_2 by naive_solver. by destruct (_ !! s).
  - split; [done|split; [apply (size_insert (Some session))|]]. intros s. destruct (decide (session = s)) as [->|Hne].
    + by rewrite lookup_insert_eq, E, bool_decide_eq_true_2.
    + rewrite lookup_insert_ne, bool_decide_eq_false_2 by naive_solver. by destruct (_ !! s).
Qed.

Ltac unchanged E :=
  pose proof (f_equal co_anchors E); pose proof (f_equal co_transports E);
  pose proof (f_equal co_transport_indices E); pose proof (f_equal co_pending_response_status E);
  pose proof (f_equal co_pending_response_ids E); pose proof (f_equal co_pending_terminal_state E);
  pose proof (f_equal co_agent_scopes E); pose proof (f_equal co_existing E); clear E; cbn in *;
  repeat match goal with H : ?f ?x = ?f ?y |- _ => first [constr_eq x y; clear H|progress rewrite H in *; clear H] end.

Lemma note_event_spec e c : noted e c (note_event c e).
Proof.
  unfold note_event. destruct (str_eqb (ev_source e) "correlation") eqn:Hc.
  - assert (ev_source e = "correlation") as Hsrc by (by apply str_eqb_true).
    split; cbn; try lia; [..|by rewrite Hc, orb_true_r].
    + unfold anchor_of. by rewrite Hc, app_nil_r.
    + unfold request_of. by rewrite Hsrc, app_nil_r.
    + intros s. unfold from_agent. rewrite Hsrc. by destruct (_ !! s).
  - destruct (note_transport_spec e c) as [E1 S1]. generalize dependent (note_transport e c). intros c1 E1 S1.
    destruct (note_status_spec e c1) as [E2 S2]. generalize dependent (note_status e c1). intros c2 E2 S2.
    destruct (note_response_id_spec e c2) as [E3 S3]. generalize dependent (note_response_id e c2). intros c3 E3 S3.
    destruct (note_terminal_spec e c3) as [E4 S4]. generalize dependent (note_terminal e c3). intros c4 E4 S4.
    pose proof (note_anchor_spec e c4) as E5. generalize dependent (note_anchor e c4). intros c5 E5.
    destruct (note_scope_spec e c5) as [E6 S6]. generalize dependent (note_scope e c5). intros c6 E6 S6.
    unchanged E6. unchanged E5. unchanged E4. unchanged E3. unchanged E2. unchanged E1.
    destruct_and!. split; try done;
      repeat match goal with H : ?f c6 = _ |- context [?f c6] => rewrite H end; try lia; try congruence.
    + unfold anchor_of. rewrite Hc. congruence.
    + by rewrite Hc, orb_false_r.
Qed.

(** What the pass knows after a list of events. *)
Record gathered (es : list EventEnvelope) (c : Collecting) : Prop := {
  ga_anchors : co_anchors c = omap anchor_of es;
  ga_transports : as_requested <$> co_transports c = omap request_of es;
  ga_indices : (size (co_transport_indices c) <= 2 * length es)%nat;
  ga_status : (size (co_pending_response_status c) <= 2 * length es)%nat;
  ga_ids : (size (co_pending_response_ids c) <= 2 * length es)%nat;
  ga_terminal : (size (co_pending_terminal_state c) <= 2 * length es)%nat;
  ga_scopes_size : (size (co_agent_scopes c) <= length es)%nat;
  ga_scopes session : co_agent_scopes c !! session = agent_scope es session;
  ga_existing : co_existing c = existsb (fun e => str_eqb (ev_source e) "correlation") es;
}.

Lemma length_omap_le {A B} (f : A -> option B) l : (length (omap f l) <= length l)%nat.
Proof. induction l as [|x l IH]; [done|]. cbn. destruct (f x); cbn; lia. Qed.

Lemma agent_scope_snoc es e session : agent_scope (es ++ [e]) session =
  match agent_scope es session with
  | Some ids => Some ids
  | None => if from_agent session e then Some (ev_ids e) else None
  end.
Proof.
  unfold agent_scope. induction es as [|x es IH]; cbn; [by destruct (from_agent _ _)|].
  by destruct (from_agent session x).
Qed.

Lemma collected_spec es : gathered es (collected es).
Proof.
  unfold collected. induction es as [|e es IH] using rev_ind.
  { split; cbn; try done; rewrite ?map_size_empty; try lia. }
  rewrite foldl_app. cbn [foldl]. destruct IH. destruct (note_event_spec e (foldl note_event start_collecting es)).
  split; rewrite ?length_app, ?omap_snoc, ?existsb_app; cbn [length existsb]; try lia; try congruence.
  - intros s. rewrite noted_scopes0, agent_scope_snoc. by rewrite ga_scopes0.
  - rewrite noted_existing0, orb_false_r. congruence.
Qed.

Lemma collect_ok es : nlen es <= MAX_CORRELATION_ITEMS ->
  try_fold collect_event start_collecting es = Ok (collected es).
Proof.
  induction es as [|e es IH] using rev_ind; [done|]. intros Hn.
  pose proof (collected_spec (es ++ [e])) as Hg. unfold collected in *. rewrite foldl_app in Hg |- *.
  rewrite nlen_app, nlen_cons, nlen_nil in Hn. rewrite try_fold_app, IH by lia. cbn [mbind result_bind try_fold foldl] in *.
  unfold collect_event. destruct (str_eqb (ev_source e) "correlation") eqn:Hc.
  { unfold note_event. by rewrite Hc. }
  unfold note_event in Hg |- *. rewrite Hc in Hg |- *. set (c := note_scope _ _) in *.
  assert (enforce_limits c = Ok tt) as ->; [|done].
  pose proof (length_omap_le anchor_of (es ++ [e])) as Ha. pose proof (length_omap_le request_of (es ++ [e])) as Ht.
  rewrite <-(ga_transports _ _ Hg), length_fmap in Ht. rewrite <-(ga_anchors _ _ Hg) in Ha.
  destruct Hg as [_ _ ? ? ? ? ? _ _].
  assert (length (es ++ [e]) = length es + 1)%nat as Hlen by (by rewrite length_app). unfold nlen in Hn.
  unfold enforce_limits, ensure_correlation_limit, MAX_CORRELATION_INDEX_ENTRIES.
  rewrite !(proj2 (N.ltb_ge _ _)) by (unfold nlen; lia). done.
Qed.
End Pass.

(** ** The derivation *)

Definition is_resolved (d : AnchorDecision) : bool := match d with Unresolved _ => false | _ => true end.

(** The transports no anchor was given. *)
Definition unclaimed (ds : list (Anchor * AnchorDecision)) (ts : list Transport) : list Transport :=
  List.filter (fun t => negb (claimed ds (tr_inference_id t))) ts.
Definition scoped (scope : string -> option EventIds) (t : Transport) : bool :=
  bool_decide (is_Some (tr_session_id t ≫= scope)).

Definition tally (scope : string -> option EventIds) (ds : list (Anchor * AnchorDecision)) (rest : list Transport) : CorrelationReport :=
  let unmatched := nlen (List.filter (fun t => negb (scoped scope t)) rest) in
  mkCorrelationReport
    (nlen (List.filter (fun '(_, d) => is_resolved d) ds) + nlen (List.filter (scoped scope) rest))
    (nlen (List.filter (fun '(_, d) => negb (is_resolved d)) ds) + unmatched) unmatched false.

Lemma filter_snoc {A} (p : A -> bool) l x :
  nlen (List.filter p (l ++ [x])) = nlen (List.filter p l) + (if p x then 1 else 0).
Proof. rewrite List.filter_app, nlen_app. cbn. by destruct (p x). Qed.

Lemma tally_decision scope (ds : list (Anchor * AnchorDecision)) a d : nlen ds + 1 <= u64_max ->
  tally scope (ds ++ [(a, d)]) [] = count_decision d (tally scope ds []).
Proof.
  intros Hn. unfold tally. rewrite !filter_snoc. cbn [List.filter].
  assert (nlen (@nil Transport) = 0) as -> by done.
  pose proof (nlen_filter (fun '(_, d) => is_resolved d) ds). pose proof (nlen_filter (fun '(_, d) => negb (is_resolved d)) ds).
  destruct d; cbn [is_resolved negb count_decision]; rewrite !N.add_0_r; cbn [set_field cr_resolved cr_unresolved cr_unmatched_transports cr_skipped_existing];
    by rewrite sat_add_exact by lia.
Qed.

Lemma tally_transport scope ds rest t : nlen ds + nlen rest + 1 <= u64_max ->
  tally scope ds (rest ++ [t]) =
  let r := tally scope ds rest in
  if scoped scope t then r <| cr_resolved ::= fun n => sat_add n 1 |>
  else r <| cr_unresolved ::= fun n => sat_add n 1 |> <| cr_unmatched_transports ::= fun n => sat_add n 1 |>.
Proof.
  intros Hn. unfold tally. rewrite !filter_snoc.
  pose proof (nlen_filter (fun '(_, d) => is_resolved d) ds). pose proof (nlen_filter (fun '(_, d) => negb (is_resolved d)) ds).
  pose proof (nlen_filter (scoped scope) rest). pose proof (nlen_filter (fun t => negb (scoped scope t)) rest).
  destruct (scoped scope t); cbn [negb]; rewrite N.add_0_r; cbn; rewrite !sat_add_exact by (cbn in *; lia); f_equal; lia.
Qed.

Section Derivation.
Context (run_id : string) (clock : list PendingEvent -> DateTime * N)
  (append : list PendingEvent -> PendingEvent -> storage_result unit).

(** Events made from the readings of the clocks, appended one after the other;
    an append that fails ends it. *)
Definition append_all (out : list PendingEvent) (plan : list (DateTime * N -> PendingEvent)) :=
  try_fold (fun out make => append_event append out (make (clock out))) out plan.

Definition transport_note (scope : string -> option EventIds) (t : Transport) : DateTime * N -> PendingEvent :=
  match tr_session_id t ≫= scope with
  | Some ids => fun now => transport_session_scope_event run_id now t ids
  | None => fun now => unmatched_transport_event run_id now t
  end.

(** The events of a correlation: one for each anchor, then one for each transport
    that is left. *)
Definition plan (scope : string -> option EventIds) ds rest : list (DateTime * N -> PendingEvent) :=
  ((fun '(a, d) now => decision_event run_id now a d) <$> ds) ++ (transport_note scope <$> rest).

Lemma append_all_app out p p' : append_all out (p ++ p') = (out ← append_all out p; append_all out p').
Proof. apply try_fold_app. Qed.

Lemma correlate_anchors scope all ts anchors : in_sequence ts -> 2 * nlen ts <= u64_max -> nlen anchors <= u64_max ->
  let ds := decisions all ts anchors in
  exists m, tracks ds m /\ nlen ds = nlen anchors /\
  try_fold (correlate_anchor run_id clock append all ts (index_by_time ts) (index_by_exact_id ts))
    (mkMatching ∅ ∅, default_report, []) anchors =
  (out ← append_all [] (plan scope ds []); Ok (m, tally scope ds [], out)).
Proof.
  intros Hs Ht. cbn zeta. induction anchors as [|a anchors IH] using rev_ind.
  { intros _. exists (mkMatching ∅ ∅). split; [apply tracks_start|by split]. }
  rewrite nlen_app, nlen_cons, nlen_nil. intros Hn. destruct IH as (m & Hm & Hl & IH); [lia|].
  unfold decisions. rewrite foldl_app. cbn [foldl]. fold (decisions all ts anchors).
  set (ds := decisions all ts anchors) in *. exists (foldl (claim a) m (claims (decision all ts ds a))).
  split; [by apply claims_tracked|]. split; [rewrite nlen_app, nlen_cons, nlen_nil; lia|].
  rewrite try_fold_app, IH. clear IH. unfold plan. rewrite fmap_nil, !app_nil_r, fmap_app, append_all_app.
  destruct (append_all [] _) as [out|]; [|done]. cbn [mbind result_bind try_fold correlate_anchor].
  rewrite (decide_anchor_spec all ts ds m a Hm Hs Ht), tally_decision by lia. cbn. unfold append_all. cbn.
  by destruct (append_event _ _ _).
Qed.

Lemma report_transports scopes scope ds rest out :
  (forall s, scopes !! s = scope s) -> nlen ds + nlen rest <= u64_max ->
  try_fold (report_transport run_id clock append scopes) (tally scope ds [], out) rest =
  (out ← append_all out (transport_note scope <$> rest); Ok (tally scope ds rest, out)).
Proof.
  intros Hscope. induction rest as [|t rest IH] using rev_ind; [done|].
  rewrite nlen_app, nlen_cons, nlen_nil. intros Hn. rewrite try_fold_app, IH, fmap_app, append_all_app by lia.
  clear IH. destruct (append_all _ _) as [out'|]; [|done]. cbn [mbind result_bind]. rewrite tally_transport by lia.
  assert ((tr_session_id t ≫= fun s => scopes !! s) = (tr_session_id t ≫= scope)) as E.
  { destruct (tr_session_id t); [apply Hscope|done]. }
  unfold append_all, transport_note, scoped. cbn [try_fold report_transport fmap list_fmap]. rewrite E.
  destruct (tr_session_id t ≫= scope) as [ids|]; cbn -[append_event]; by destruct (append_event _ _ _).
Qed.

End Derivation.

(** ** Sequence numbers *)

Section Correlated.
Context {dig : Digest} {hx : Hex} {b64 : Base64} {aead : Aead} {zstd : Zstd} {http : Http}
  {serde : Serde} {serdeb : SerdeBlock}.

Lemma anchor_of_sequence e a : anchor_of e = Some a -> an_sequence a = ev_sequence e.
Proof.
  unfold anchor_of, note_anchor. destruct (str_eqb _ _), (anchor_kind e); cbn; try done.
  destruct (_ || _); cbn; [|done]. by intros [= <-].
Qed.
Lemma request_of_sequence e t : request_of e = Some t -> tr_sequence t = ev_sequence e.
Proof. unfold request_of. destruct (_ && _); [|done]. destruct (inference_id _); [|done]. by intros [= <-]. Qed.

Lemma anchors_in_sequence es : sequenced 0 es ->
  StronglySorted (fun a b => an_sequence a < an_sequence b) (omap anchor_of es).
Proof. intros [_ Hs]%sequenced_increasing. by eapply StronglySorted_omap, Hs; apply anchor_of_sequence. Qed.

Lemma transports_in_sequence es ts : sequenced 0 es -> as_requested <$> ts = omap request_of es -> in_sequence ts.
Proof.
  intros [_ Hs]%sequenced_increasing E. unfold in_sequence.
  change (StronglySorted (fun t u => tr_sequence (as_requested t) < tr_sequence (as_requested u)) ts).
  apply (StronglySorted_fmap_iff (fun t u => tr_sequence t < tr_sequence u)). rewrite E.
  by eapply StronglySorted_omap, Hs; apply request_of_sequence.
Qed.

Context (run_id : string) (clock : list PendingEvent -> DateTime * N)
  (append : list PendingEvent -> PendingEvent -> storage_result unit).

Lemma correlate_spec es c : gathered es c -> nlen es <= MAX_CORRELATION_ITEMS -> sequenced 0 es ->
  correlate run_id clock append c =
  if existsb (fun e => str_eqb (ev_source e) "correlation") es
  then Ok (mkCorrelationReport 0 0 0 true, [])
  else let anchors := omap anchor_of es in
       let ds := decisions anchors (co_transports c) anchors in
       let rest := unclaimed ds (co_transports c) in
       out ← append_all clock append [] (plan run_id (agent_scope es) ds rest);
       Ok (tally (agent_scope es) ds rest, out).
Proof.
  intros Hg Hn Hs. unfold correlate. rewrite (ga_existing _ _ Hg). destruct (existsb _ es); [done|]. cbn zeta.
  pose proof (transports_in_sequence es _ Hs (ga_transports _ _ Hg)) as Hts.
  rewrite (ga_anchors _ _ Hg), !sort_by_key_sorted by (done || by apply anchors_in_sequence).
  pose proof (length_omap_le anchor_of es) as Ha. pose proof (length_omap_le request_of es) as Ht.
  rewrite <-(ga_transports _ _ Hg), length_fmap in Ht. unfold MAX_CORRELATION_ITEMS in Hn.
  set (anchors := omap anchor_of es) in *. set (ts := co_transports c) in *.
  destruct (correlate_anchors run_id clock append (agent_scope es) anchors ts anchors Hts) as (m & Hm & Hl & ->);
    [unfold nlen, u64_max in *; lia..|].
  set (ds := decisions anchors ts anchors) in *.
  unfold plan at 1. rewrite fmap_nil, app_nil_r. unfold plan. rewrite append_all_app.
  destruct (append_all _ _ [] _) as [out|]; [|done]. cbn [mbind result_bind].
  assert (List.filter (fun t => negb (bool_decide (tr_inference_id t ∈ ma_matched m))) ts = unclaimed ds ts) as ->.
  { apply List.filter_ext. intros t. by rewrite (tracks_matched _ _ Hm). }
  apply report_transports; [apply (ga_scopes _ _ Hg)|].
  pose proof (nlen_filter (fun t => negb (claimed ds (tr_inference_id t))) ts). unfold unclaimed, nlen, u64_max in *. lia.
Qed.

Context {digl : DigestLaws} {hxl : HexLaws} {b64l : Base64Laws} {aeadl : AeadLaws}
  {zstdl : ZstdLaws} {serdel : SerdeLaws} {serdebl : SerdeBlockLaws}.

Lemma derive_spec fmt key groups lines : let es := concat groups in
  stored fmt key groups lines -> of_run run_id es -> ascending None es -> nlen es <= MAX_CORRELATION_ITEMS ->
  derive run_id clock append (Some (log_bytes fmt lines)) key = correlate run_id clock append (collected es).
Proof.
  cbn zeta. intros Hst Hrun Hasc Hn. unfold derive.
  destruct (read_full fmt key groups lines run_id collect_event start_collecting Hst Hrun Hasc) as [report ->].
  by rewrite collect_ok.
Qed.

(** C17: The correlation of a stored run of at most 100,000 events: when one was
    made before nothing is appended; else an event is appended for each anchor
    of the log, in its order, and then one for each transport no anchor was
    given, until an append fails.  The decision for an anchor is the one of the
    reference without indexes: the transport, or chain of retries, that is the
    only possible one given the decisions before it.  The transports are those
    of the requests of the log, and the report counts the decisions. *)
Theorem correlation_exact fmt key groups lines
    (Hstored : stored fmt key groups lines)
    (Hrun : of_run run_id (concat groups))
    (Hascending : ascending None (concat groups))
    (Hcount : nlen (concat groups) <= MAX_CORRELATION_ITEMS) :
  let es := concat groups in
  let anchors := omap anchor_of es in
  let ts := co_transports (collected es) in
  let ds := decisions anchors ts anchors in
  let rest := unclaimed ds ts in
  as_requested <$> ts = omap request_of es /\
  derive run_id clock append (Some (log_bytes fmt lines)) key =
  if existsb (fun e => str_eqb (ev_source e) "correlation") es
  then Ok (mkCorrelationReport 0 0 0 true, [])
  else out ← append_all clock append [] (plan run_id (agent_scope es) ds rest);
       Ok (tally (agent_scope es) ds rest, out).
Proof.
  cbn zeta. pose proof (collected_spec (concat groups)) as Hg. split; [apply (ga_transports _ _ Hg)|].
  rewrite (derive_spec fmt key groups) by done.
  exact (correlate_spec _ _ Hg Hcount (stored_sequenced _ _ _ _ Hstored)).
Qed.
End Correlated.

(** ** Who is given what *)

(** The decisions of the loop over the anchors. *)
Definition decided (anchors : list Anchor) (ts : list Transport) : list (Anchor * AnchorDecision) :=
  (foldl (fun acc a =>
     let '(d, m) := decide_anchor anchors ts (index_by_time ts) (index_by_exact_id ts) acc.2 a in
     (acc.1 ++ [(a, d)], m)) ([], mkMatching ∅ ∅) anchors).1.

Lemma decided_decisions anchors ts : in_sequence ts -> 2 * nlen ts <= u64_max ->
  decided anchors ts = decisions anchors ts anchors.
Proof.
  intros Hs Hn. unfold decided. set (f := fun acc a => _).
  assert (forall l, exists m, tracks (decisions anchors ts l) m /\
    foldl f ([], mkMatching ∅ ∅) l = (decisions anchors ts l, m)) as H; [|by destruct (H anchors) as (m & _ & ->)].
  induction l as [|a l (m & Hm & IH)] using rev_ind; [by exists (mkMatching ∅ ∅); split; [apply tracks_start|]|].
  unfold decisions. rewrite !foldl_app, IH. cbn [foldl]. fold (decisions anchors ts l). unfold f. cbn [fst snd].
  rewrite (decide_anchor_spec _ _ _ _ _ Hm Hs Hn). eexists. split; [|done]. by apply claims_tracked.
Qed.

Lemma decisions_lookup all ts anchors i a d : decisions all ts anchors !! i = Some (a, d) ->
  d = decision all ts (take i (decisions all ts anchors)) a.
Proof.
  unfold decisions. revert i. induction anchors as [|b l IH] using rev_ind; [done|]. intros i.
  rewrite foldl_app. cbn [foldl]. fold (decisions all ts l) in *. rewrite lookup_app. destruct (_ !! i) as [x|] eqn:E.
  - intros [= ->]. rewrite take_app_le by (apply lookup_lt_Some in E; lia). by apply IH.
  - intros [Hi [= <- <-]]%list_lookup_singleton_Some.
    rewrite take_app_ge by (apply lookup_ge_None in E; lia).
    assert (i - length (decisions all ts l) = 0)%nat as -> by (apply lookup_ge_None in E; lia). cbn.
    by rewrite app_nil_r.
Qed.

Lemma decisions_anchors all ts anchors : (decisions all ts anchors).*1 = anchors.
Proof.
  induction anchors as [|a l IH] using rev_ind; [done|]. unfold decisions in *. rewrite foldl_app. cbn [foldl].
  by rewrite fmap_app, IH.
Qed.

(** An anchor can mean a transport it names, or one of its time and model. *)
Definition fits (a : Anchor) (t : Transport) : Prop :=
  transport_matches_exact_identifier a t = true \/
  (models_compatible (an_model a) (tr_model t) = true /\ in_window a t = true).

Lemma possible_fits before a ts t : t ∈ possible before a ts ->
  t ∈ ts /\ available before a t = true /\ fits a t.
Proof.
  unfold possible. destruct (named_available before a ts) as [|u l] eqn:E.
  - unfold timely. intros [Ht Hp]%list_elem_of_In%filter_In. apply list_elem_of_In in Ht.
    unfold fits. destruct (models_compatible _ _), (available _ _ _), (in_window _ _); naive_solver.
  - rewrite <-E. unfold named_available. intros [Ht Ha]%list_elem_of_In%filter_In. apply list_elem_of_In in Ht.
    unfold named in Ht. unfold fits, transport_matches_exact_identifier.
    destruct (inference_id (an_ids a)) as [id|]; [|by apply not_elem_of_nil in Ht].
    apply list_elem_of_bind in Ht as (v & Hu & Hv). unfold copies in Hu. apply elem_of_app in Hu.
    destruct (str_eqb id (tr_inference_id v)) eqn:E1, (bool_decide (id ∈ tr_provider_response_ids v)) eqn:E2;
      rewrite ?list_elem_of_singleton, ?elem_of_nil in Hu; destruct Hu as [Hu|Hu]; try done; subst v;
      rewrite E1, E2; auto.
Qed.

Lemma claims_possible all ts before a t : t ∈ claims (decision all ts before a) -> t ∈ possible before a ts.
Proof.
  unfold decision. destruct (possible before a ts) as [|u [|v l]].
  - destruct (_ && _); intros ?%not_elem_of_nil; done.
  - done.
  - destruct (_ && _); [done|]. intros ?%not_elem_of_nil. done.
Qed.

Lemma existsb_claims (d : AnchorDecision) id :
  existsb (fun u => str_eqb (tr_inference_id u) id) (claims d) = true <->
  exists u, u ∈ claims d /\ tr_inference_id u = id.
Proof.
  rewrite existsb_exists. split; intros (u & Hu & E); exists u; [rewrite list_elem_of_In|rewrite <-list_elem_of_In];
    (split; [done|]); by apply str_eqb_true.
Qed.

Lemma take_elem {A} (l : list A) n x : x ∈ take n l <-> exists k, (k < n)%nat /\ l !! k = Some x.
Proof.
  rewrite list_elem_of_lookup. split; intros (k & Hk).
  - exists k. apply lookup_take_Some in Hk. tauto.
  - exists k. apply lookup_take_Some. tauto.
Qed.

(** C18: The decisions on the anchors of a run.  Each anchor has one, in order;
    what it is given is a transport of the run that it names or that is of its
    model and within its window of time.  A transport is never given to a
    second request: when its identifier was given before, the anchor is a
    completion that names it, or that shares the session, task or turn of a
    request it was given to. *)
Theorem claims_exclusive anchors ts (Hs : in_sequence ts) (Hn : 2 * nlen ts <= u64_max) :
  let ds := decided anchors ts in
  ds.*1 = anchors /\
  (forall j b d' u, ds !! j = Some (b, d') -> u ∈ claims d' ->
    u ∈ ts /\ fits b u /\
    forall i a d t, (i < j)%nat -> ds !! i = Some (a, d) -> t ∈ claims d ->
      tr_inference_id t = tr_inference_id u ->
      an_kind b = Completion /\
      (transport_matches_exact_identifier b u = true \/
       exists k r d0 v, (k < j)%nat /\ ds !! k = Some (r, d0) /\ an_kind r = PreRequest /\ v ∈ claims d0 /\
         tr_inference_id v = tr_inference_id u /\ same_logical_scope (an_ids b) (an_ids r) = true)).
Proof.
  cbn zeta. rewrite decided_decisions by done. set (ds := decisions anchors ts anchors).
  split; [apply decisions_anchors|]. intros j b d' u Hj Hu. pose proof (decisions_lookup _ _ _ _ _ _ Hj) as E.
  fold ds in E. subst d'. apply claims_possible, possible_fits in Hu as (Hin & Ha & Hf). split; [done|]. split; [done|].
  intros i a d t Hij Hi Ht Eid. unfold available in Ha.
  assert (claimed (take j ds) (tr_inference_id u) = true) as Hc.
  { apply existsb_exists. exists (a, d). split; [apply list_elem_of_In, take_elem; eauto|].
    apply existsb_claims. eauto. }
  rewrite Hc in Ha. cbn [negb orb] in Ha. unfold confirms in Ha. apply andb_true_iff in Ha as [Hk Ha].
  apply bool_decide_eq_true in Hk. split; [done|]. apply orb_true_iff in Ha as [Ha|Ha]; [by left|right].
  apply existsb_exists in Ha as ([r d0] & (k & Hkj & Hk')%list_elem_of_In%take_elem & Hp).
  apply andb_true_iff in Hp as [[Hr (v & Hv & Ev)%existsb_claims]%andb_true_iff Hp].
  apply bool_decide_eq_true in Hr. by exists k, r, d0, v.
Qed.

(** ** The events are records the log takes *)

(** A pending event that is well-formed under every sequence number and
    time-ordered identifier the store can give it. *)
Definition pending_wf (p : PendingEvent) : Prop :=
  forall event_id sequence, uuid_version event_id = 7 -> 0 < sequence -> envelope_wf (from_pending event_id sequence p).

Definition option_text (o : option string) : Prop := forall s, o = Some s -> text_ok 1024 s.
Record ids_wf (ids : EventIds) : Prop := {
  iw_task : option_text (task_id ids);
  iw_session : option_text (session_id ids);
  iw_turn : option_text (turn_id ids);
  iw_inference : option_text (inference_id ids);
  iw_attempt : option_text (attempt_id ids);
  iw_connection : option_text (connection_id ids);
  iw_parent : option_text (parent_id ids);
  iw_container : option_text (container_id ids);
  iw_pid : pid ids <> Some 0;
}.

Lemma option_text_none : option_text None.
Proof. done. Qed.
Lemma option_text_some s : text_ok 1024 s -> option_text (Some s).
Proof. by intros H ? [= <-]. Qed.

Lemma validate_option name o :
  match o with Some value => validate_text name value 1024 | None => Ok tt end = Ok tt <-> option_text o.
Proof.
  destruct o as [s|]; [|done]. rewrite validate_text_ok. split; [apply option_text_some|]. intros H. by apply H.
Qed.

Lemma validate_ids_wf ids : validate_ids ids = Ok tt <-> ids_wf ids.
Proof.
  unfold validate_ids. cbn [try_fold]. split.
  - intros H. inv_ok. repeat match goal with
    | u : unit |- _ => destruct u
    | H : match _ with Some _ => validate_text _ _ _ | None => _ end = Ok _ |- _ => apply validate_option in H
    end.
    case_bool_decide; [done|]. by split.
  - intros []. rewrite !(fun name o => proj2 (validate_option name o)) by done. cbn [mbind result_bind].
    by rewrite bool_decide_eq_false_2.
Qed.

Record anchor_wf (a : Anchor) : Prop := {
  aw_source : text_ok 128 (an_source a);
  aw_event : text_ok 256 (an_event a);
  aw_ids : ids_wf (an_ids a);
}.
Record transport_wf (t : Transport) : Prop := {
  tw_inference : text_ok 1024 (tr_inference_id t);
  tw_session : option_text (tr_session_id t);
}.

Lemma has_control_app l b l' : has_control l = false -> has_control (b :: l') = false -> b2n b < 128 ->
  has_control (l ++ b :: l') = false.
Proof.
  intros Hl Hb Hlt. induction l as [|c l IH]; [done|]. cbn [has_control app] in *.
  apply orb_false_iff in Hl as [Hl H1]. rewrite IH by done. apply orb_false_iff in Hl as [-> H2].
  destruct l as [|d l]; cbn [app]; [|by rewrite H2]. unfold in_range.
  rewrite (proj2 (N.leb_gt 128 _)) by done. by rewrite andb_false_r.
Qed.

Lemma anchor_evidence_ok a : anchor_wf a -> text_ok 1024 (anchor_evidence a).
Proof.
  intros [(H1 & H2 & H3) (H4 & H5 & H6) _]. unfold anchor_evidence, text_ok, str_len, str_has_control in *.
  rewrite !as_bytes_app. change (as_bytes ":") with [x3a]. cbn [app]. split; [|split].
  - by destruct (an_source a).
  - rewrite nlen_app, nlen_cons. lia.
  - apply has_control_app; [done| |done]. cbn [has_control]. rewrite H6. done.
Qed.

Ltac texts := repeat (apply Forall_cons; split); try apply List.Forall_nil.

Section Events.
Context (run_id : string).
Hypothesis Hrun_id : text_ok 256 run_id.

Lemma correlation_event_wf now kind ids normalized confidence evidence :
  text_ok 256 kind -> ids_wf ids -> SFleb f32_zero confidence && SFleb confidence f32_one = true ->
  nlen evidence <= 256 -> Forall (text_ok 1024) evidence ->
  pending_wf (correlation_event run_id now kind ids normalized confidence evidence).
Proof.
  intros Hk Hi Hc Hn He event_id sequence Hv Hs. split; cbn; try done.
  - by apply validate_ids_wf.
  - intros c [= <-]. by apply andb_true_iff.
Qed.

Lemma resolved_event_wf now a t c : anchor_wf a -> transport_wf t ->
  pending_wf (resolved_event run_id now a t c).
Proof.
  intros Ha [Ht _]. pose proof (anchor_evidence_ok a Ha). destruct Ha as [_ _ []].
  unfold resolved_event. apply correlation_event_wf; [done| | |done|].
  - split; cbn; try done; [by apply option_text_some|].
    destruct (inference_id (an_ids a)); [|done]. by destruct (str_eqb _ _).
  - by destruct (transport_matches_exact_identifier a t), c, (an_kind a).
  - texts; [done|]. by destruct (transport_matches_exact_identifier a t), c.
Qed.

Lemma resolved_retry_chain_event_wf now a ts : anchor_wf a -> Forall transport_wf ts ->
  pending_wf (resolved_retry_chain_event run_id now a ts).
Proof.
  intros Ha Hts. pose proof (anchor_evidence_ok a Ha). destruct Ha as [_ _ []].
  unfold resolved_retry_chain_event. apply correlation_event_wf; [done| |done|done|by texts].
  split; cbn; try done. destruct (inference_id (an_ids a)); [done|].
  destruct Hts as [|t ts [Ht _] _]; [done|by apply option_text_some].
Qed.

Lemma unresolved_anchor_event_wf now a selection : anchor_wf a ->
  pending_wf (unresolved_anchor_event run_id now a selection).
Proof.
  intros Ha. pose proof (anchor_evidence_ok a Ha). destruct Ha as [_ _ Hi].
  by apply correlation_event_wf; [..|texts].
Qed.

Lemma decision_event_wf now a d : anchor_wf a -> Forall transport_wf (claims d) ->
  pending_wf (decision_event run_id now a d).
Proof.
  intros Ha Hd. destruct d as [t c|ts|selection]; cbn [decision_event claims] in *.
  - apply resolved_event_wf; [done|]. by apply Forall_cons in Hd as [? _].
  - by apply resolved_retry_chain_event_wf.
  - by apply unresolved_anchor_event_wf.
Qed.

Lemma transport_note_wf scope t now : transport_wf t -> (forall s ids, scope s = Some ids -> ids_wf ids) ->
  pending_wf (transport_note run_id scope t now).
Proof.
  intros [Ht Hs] Hscope. unfold transport_note. destruct (tr_session_id t ≫= scope) as [ids|] eqn:E.
  - apply bind_Some in E as (s & _ & Hids). apply Hscope in Hids as [].
    apply correlation_event_wf; [done| |done|done|by texts].
    split; cbn; try done. by apply option_text_some.
  - apply correlation_event_wf; [done| |done|done|by texts].
    split; cbn; try done. by apply option_text_some.
Qed.

Lemma plan_wf scope ds rest :
  Forall (fun '(a, d) => anchor_wf a /\ Forall transport_wf (claims d)) ds -> Forall transport_wf rest ->
  (forall s ids, scope s = Some ids -> ids_wf ids) ->
  Forall (fun make => forall now, pending_wf (make now)) (plan run_id scope ds rest).
Proof.
  intros Hds Hrest Hscope. unfold plan. rewrite Forall_app, !Forall_fmap. split.
  - eapply Forall_impl; [exact Hds|]. intros [a d] [Ha Hd] now. by apply decision_event_wf.
  - eapply Forall_impl; [exact Hrest|]. intros t Ht now. by apply transport_note_wf.
Qed.
End Events.

(** What an outcome appended. *)
Definition appended {A} (r : result (StorageError * list PendingEvent) (A * list PendingEvent)) : list PendingEvent :=
  match r with Ok (_, out) | Err (_, out) => out end.

Lemma appended_all {A} clock append (a : A) out plan :
  let r := append_all clock append out plan in
  exists made, appended (out' ← r; Ok (a, out')) = out ++ made /\
    Forall2 (fun p make => exists now, p = make now) made (take (length made) plan) /\
    (is_ok r = true -> length made = length plan).
Proof.
  cbn zeta. unfold append_all. revert out. induction plan as [|make plan IH]; intros out; cbn [try_fold].
  { exists []. by rewrite app_nil_r. }
  destruct (append_event append out (make (clock out))) as [out'|[error out']] eqn:E; unfold append_event in E;
    destruct (append out (make (clock out))); try done; injection E as <-; cbn [mbind result_bind];
    [|exists []; by rewrite app_nil_r].
  destruct (IH (out ++ [make (clock out)])) as (made & -> & Hm & Hl). exists (make (clock out) :: made).
  rewrite <-app_assoc. split; [done|]. split; [constructor; [by eexists|done]|]. intros H. cbn. f_equal. auto.
Qed.

Definition kind_count (kind : string) (out : list PendingEvent) : N :=
  nlen (List.filter (fun p => str_eqb (pe_kind p) kind) out).

Lemma count_made kind plan (p : (DateTime * N -> PendingEvent) -> bool) made :
  Forall2 (fun p make => exists now, p = make now) made plan ->
  Forall (fun make => forall now, str_eqb (pe_kind (make now)) kind = p make) plan ->
  kind_count kind made = nlen (List.filter p plan).
Proof.
  unfold kind_count. induction 1 as [|e make made plan [now ->] Hm IH]; [done|].
  intros [H1 H2]%Forall_cons. cbn [List.filter]. rewrite H1. destruct (p make); [rewrite !nlen_cons|]; by rewrite IH.
Qed.

Lemma filter_fmap_len {A B} (f : A -> B) p l : nlen (List.filter p (f <$> l)) = nlen (List.filter (fun a => p (f a)) l).
Proof. induction l as [|a l IH]; [done|]. cbn. destruct (p (f a)); [rewrite !nlen_cons|]; by rewrite IH. Qed.

Lemma plan_kinds run_id scope ds rest made kind :
  Forall2 (fun p make => exists now, p = make now) made (plan run_id scope ds rest) ->
  kind_count kind made =
    nlen (List.filter (fun '(_, d) => str_eqb (if is_resolved d then "inference_correlation"
                                               else "inference_correlation_unresolved") kind) ds) +
    nlen (List.filter (fun t => str_eqb (if scoped scope t then "inference_correlation"
                                         else "inference_correlation_unresolved") kind) rest).
Proof.
  intros H. rewrite (count_made kind _ (fun make => str_eqb (pe_kind (make (0%Z, 0))) kind) _ H).
  - unfold plan. rewrite List.filter_app, nlen_app, !filter_fmap_len. f_equal; f_equal; apply List.filter_ext.
    + by intros [a []].
    + intros t. unfold transport_note, scoped. by destruct (tr_session_id t ≫= scope).
  - unfold plan. rewrite Forall_app, !Forall_fmap. split; apply Forall_true.
    + by intros [a []].
    + intros t now. unfold transport_note. cbn. by destruct (tr_session_id t ≫= scope).
Qed.

Lemma made_wf made plan : Forall2 (fun p make => exists now : DateTime * N, p = make now) made plan ->
  Forall (fun make => forall now, pending_wf (make now)) plan -> Forall pending_wf made.
Proof.
  induction 1 as [|p make made plan [now ->] Hm IH]; [constructor|]. intros [H1 H2]%Forall_cons. by constructor; auto.
Qed.

Section Recorded.
Context {dig : Digest} {hx : Hex} {b64 : Base64} {aead : Aead} {zstd : Zstd} {http : Http}
  {serde : Serde} {serdeb : SerdeBlock}.
Context {digl : DigestLaws} {hxl : HexLaws} {b64l : Base64Laws} {aeadl : AeadLaws}
  {zstdl : ZstdLaws} {serdel : SerdeLaws} {serdebl : SerdeBlockLaws}.

Lemma stored_wf fmt key groups lines : stored fmt key groups lines -> Forall envelope_wf (concat groups).
Proof.
  intros [Hg _ _]. apply Forall_concat. induction Hg as [|es line groups lines Hw Hg IH]; constructor; [|done].
  clear Hg IH. destruct fmt; cbn in Hw.
  - destruct Hw as (e & -> & nonce & _ & Hw). apply encode_envelope_ok in Hw as (text & Ht & _).
    apply encode_plaintext_ok in Ht as [Hv _]. apply validate_wf in Hv. by constructor; [|constructor].
  - destruct Hw as (texts & _ & _ & _ & _ & Hp & _). induction Hp as [|e text es texts Hp _ IH]; constructor; [|done].
    apply encode_plaintext_ok in Hp as [Hv _]. by apply validate_wf.
Qed.

Lemma anchor_of_wf e a : envelope_wf e -> anchor_of e = Some a -> anchor_wf a.
Proof.
  intros []. unfold anchor_of, note_anchor. destruct (str_eqb _ _); [done|]. destruct (anchor_kind e); [|done].
  destruct (_ || _); [|done]. intros [= <-]. split; try done. by apply validate_ids_wf.
Qed.

Lemma request_of_wf e t : envelope_wf e -> request_of e = Some t -> transport_wf t.
Proof.
  intros [_ _ _ _ _ _ [? ? ? Hid _ _ _ _ _]%validate_ids_wf _ _ _ _ _ _]. unfold request_of. destruct (_ && _); [|done].
  destruct (inference_id (ev_ids e)) as [id|] eqn:E; [|done]. intros [= <-].
  split; cbn; [by apply Hid|done].
Qed.

Context (run_id : string) (clock : list PendingEvent -> DateTime * N)
  (append : list PendingEvent -> PendingEvent -> storage_result unit).

(** The plan of a list of well-formed events. *)
Lemma correlation_plan_wf es ts all : Forall envelope_wf es -> of_run run_id es -> sequenced 0 es ->
  as_requested <$> ts = omap request_of es ->
  let ds := decisions all ts (omap anchor_of es) in
  Forall (fun make => forall now, pending_wf (make now)) (plan run_id (agent_scope es) ds (unclaimed ds ts)).
Proof.
  cbn zeta. intros Hwf Hrun Hs Hts. set (ds := decisions all ts (omap anchor_of es)).
  destruct es as [|e0 es0]; [by destruct ts|]. set (es := e0 :: es0) in *.
  assert (text_ok 256 run_id) as Hid.
  { apply Forall_cons in Hwf as [[] _], Hrun as [<- _]. done. }
  assert (Forall transport_wf ts) as Htw.
  { apply Forall_forall. intros t Ht. assert (as_requested t ∈ omap request_of es) as Hr
      by (rewrite <-Hts; by apply list_elem_of_fmap_2).
    apply list_elem_of_omap in Hr as (e & He & Hr). rewrite Forall_forall in Hwf.
    destruct (request_of_wf e _ (Hwf e He) Hr). by split. }
  apply plan_wf; [done| | |].
  - apply Forall_lookup. intros i [a d] Hi. split.
    + assert (a ∈ ds.*1) as Ha by (apply list_elem_of_fmap; exists (a, d); split; [done|by eapply list_elem_of_lookup_2]).
      unfold ds in Ha. rewrite decisions_anchors in Ha. apply list_elem_of_omap in Ha as (e & He & Ha).
      rewrite Forall_forall in Hwf. exact (anchor_of_wf e a (Hwf e He) Ha).
    + rewrite (decisions_lookup _ _ _ _ _ _ Hi). apply Forall_forall. intros t Ht%claims_possible.
      apply possible_fits in Ht as (Ht & _). rewrite Forall_forall in Htw. auto.
  - apply Forall_forall. intros t [Ht _]%list_elem_of_In%filter_In. rewrite Forall_forall in Htw.
    by apply Htw, list_elem_of_In.
  - intros s ids. unfold agent_scope. destruct (List.find _ _) as [e|] eqn:E; [|done]. intros [= <-].
    apply find_some in E as [He%list_elem_of_In _]. rewrite Forall_forall in Hwf.
    by apply validate_ids_wf, wf_ids, Hwf.
Qed.

Lemma derive_appended fmt key groups lines : let es := concat groups in
  stored fmt key groups lines -> of_run run_id es -> ascending None es -> nlen es <= MAX_CORRELATION_ITEMS ->
  let ts := co_transports (collected es) in
  let ds := decisions (omap anchor_of es) ts (omap anchor_of es) in
  let r := derive run_id clock append (Some (log_bytes fmt lines)) key in
  r = Ok (mkCorrelationReport 0 0 0 true, []) \/
  existsb (fun e => str_eqb (ev_source e) "correlation") es = false /\
  exists made, appended r = made /\
    let plan := plan run_id (agent_scope es) ds (unclaimed ds ts) in
    Forall2 (fun p make => exists now, p = make now) made (take (length made) plan) /\
    forall report out, r = Ok (report, out) ->
      length made = length plan /\ report = tally (agent_scope es) ds (unclaimed ds ts).
Proof.
  cbn zeta. intros Hst Hrun Hasc Hn. rewrite (derive_spec run_id clock append fmt key groups) by done.
  rewrite (correlate_spec run_id clock append _ _ (collected_spec _) Hn (stored_sequenced _ _ _ _ Hst)).
  destruct (existsb _ _); [by left|right; split; [done|]]. cbn zeta. set (ds := decisions _ _ _). set (rest := unclaimed _ _).
  destruct (appended_all clock append (tally (agent_scope (concat groups)) ds rest) []
    (plan run_id (agent_scope (concat groups)) ds rest)) as (made & Ha & Hm & Hl).
  exists made. split; [done|]. split; [done|]. intros report out E.
  destruct (append_all _ _ _ _); [|done]. injection E as <- <-. auto.
Qed.

(** C35: Every event a correlation of a stored run appends, also one that fails
    half-way, is a record the log accepts: it passes the validation of an
    envelope under any sequence number and time-ordered identifier. *)
Theorem correlation_events_valid fmt key groups lines
    (Hstored : stored fmt key groups lines)
    (Hrun : of_run run_id (concat groups))
    (Hascending : ascending None (concat groups))
    (Hcount : nlen (concat groups) <= MAX_CORRELATION_ITEMS) :
  Forall (fun p => forall event_id sequence, uuid_version event_id = 7 -> 0 < sequence ->
            validate (from_pending event_id sequence p) = Ok tt)
    (appended (derive run_id clock append (Some (log_bytes fmt lines)) key)).
Proof.
  destruct (derive_appended fmt key groups lines Hstored Hrun Hascending Hcount) as [->|(_ & made & -> & Hm & _)];
    [constructor|].
  pose proof (correlation_plan_wf (concat groups) _ (omap anchor_of (concat groups)) (stored_wf _ _ _ _ Hstored) Hrun
    (stored_sequenced _ _ _ _ Hstored) (ga_transports _ _ (collected_spec _))) as Hp.
  apply (made_wf made) in Hm; [|by apply Forall_take]. eapply Forall_impl; [exact Hm|].
  intros p H event_id sequence Hv Hs. by apply validate_wf, H.
Qed.

(** The report of a correlation that ran to its end counts what it wrote. *)
Lemma report_counts fmt key groups lines report out :
  stored fmt key groups lines -> of_run run_id (concat groups) -> ascending None (concat groups) ->
  nlen (concat groups) <= MAX_CORRELATION_ITEMS ->
  derive run_id clock append (Some (log_bytes fmt lines)) key = Ok (report, out) ->
  cr_resolved report = kind_count "inference_correlation" out /\
  cr_unresolved report = kind_count "inference_correlation_unresolved" out.
Proof.
  intros Hst Hrun Hasc Hn E.
  destruct (derive_appended fmt key groups lines Hst Hrun Hasc Hn) as [E'|(_ & made & Ha & Hm & Hr)].
  { rewrite E' in E. by injection E as <- <-. }
  destruct (Hr report out E) as [Hl ->]. rewrite E in Ha. cbn in Ha. subst made.
  rewrite Hl, firstn_all in Hm. rewrite !(plan_kinds run_id _ _ _ _ _ Hm). cbn [tally cr_resolved cr_unresolved].
  split; (f_equal; f_equal; apply List.filter_ext); [intros [a []]|intros t; destruct (scoped _ t)
    |intros [a []]|intros t; destruct (scoped _ t)]; done.
Qed.
End Recorded.

(** ** Witnesses *)

(** A serializer of some events, given with their texts. *)
Module TableSerde.
Import ConcreteSerde.

Definition table_serde (table : list (EventEnvelope * bytes)) : Serde := {|
  encrypted_event_to_vec _ := None;
  encrypted_event_from_slice _ := None;
  envelope_to_vec e := snd <$> List.find (fun entry => bool_decide (entry.1 = e)) table;
  envelope_from_slice b :=
    fst <$> List.find (fun entry => bool_decide (entry.2 = b) || bool_decide (entry.2 ++ [LF] = b)) table;
  value_from_slice b :=
    (fun entry => JObject [("run_id", JString (ev_run_id entry.1));
                           ("sequence", JNumber (PosInt (ev_sequence entry.1)))])
      <$> List.find (fun entry => bool_decide (entry.2 = b)) table;
|}.

Definition entry_ok (table : list (EventEnvelope * bytes)) (entry : EventEnvelope * bytes) : bool :=
  let '(e, b) := entry in
  bool_decide (head b = Some x7b) && bool_decide (LF ∉ b)
  && bool_decide (@envelope_from_slice (table_serde table) b = Some e)
  && bool_decide (@envelope_from_slice (table_serde table) (b ++ [LF]) = Some e)
  && bool_decide (@value_from_slice (table_serde table) b =
       Some (JObject [("run_id", JString (ev_run_id e)); ("sequence", JNumber (PosInt (ev_sequence e)))])).

Lemma table_serde_laws table : Forall (fun entry => entry_ok table entry = true) table -> @SerdeLaws (table_serde table).
Proof.
  rewrite Forall_forall. intros H.
  assert (forall e b, @envelope_to_vec (table_serde table) e = Some b -> entry_ok table (e, b) = true) as Ht.
  { intros e b. cbn [envelope_to_vec table_serde]. destruct (List.find _ table) as [[e' b']|] eqn:E; [|done].
    intros [= <-]. apply find_some in E as [Hin%list_elem_of_In <-%bool_decide_eq_true]. by apply H. }
  split; try done; intros e b Hb%Ht; unfold entry_ok in Hb; rewrite !andb_true_iff, !bool_decide_eq_true in Hb;
    destruct Hb as [[[[H1 H2] H3] H4] H5]; try done.
  eexists. split; [exact H5|]. done.
Qed.
End TableSerde.

Module CorrelationExamples.
Import Concrete ConcreteSerde ConcreteBlock CryptoExamples TableSerde.

(** A call the hook of an agent announces, the request the proxy saw, and the
    assistant's message in the transcript of the session. *)
Definition entry (sequence : N) (source name : string) (ids : EventIds) (at_ms : Z) : EventEnvelope :=
  let p := new_pending "run" source name (milliseconds at_ms) in
  from_pending (N.shiftl 7 76 + sequence) sequence
    (mkPendingEvent (pe_run_id p) (pe_source p) (pe_kind p) ids (pe_observed_at p) 0 None None (pe_redaction p) None []
       None).
Definition of_session : EventIds := mkEventIds None (Some "s") None None None None None None None.
Definition requested : EventIds := mkEventIds None None None (Some "i") (Some "a") None None None None.

Definition call : list EventEnvelope :=
  [entry 1 "hook:agent" "BeforeModel" of_session 1000;
   entry 2 "proxy" "logical_inference_request" requested 1100;
   entry 3 "session" "session_assistant" of_session 2000].
Definition call_groups : list (list EventEnvelope) := (fun e => [e]) <$> call.
Definition call_lines : list bytes := [as_bytes "{1}"; as_bytes "{2}"; as_bytes "{3}"].

#[local] Instance call_serde : Serde := table_serde (zip call call_lines).
#[local] Instance call_laws : SerdeLaws.
Proof. apply table_serde_laws. repeat (apply Forall_cons; split); try apply List.Forall_nil; by vm_compute. Qed.

Lemma call_stored : stored Jsonl None call_groups call_lines.
Proof.
  split.
  - repeat constructor; eexists; (split; [reflexivity|]); exists nonce; (split; [done|]); vm_compute; reflexivity.
  - vm_compute. done.
  - vm_compute. discriminate.
Qed.

Definition clock (out : list PendingEvent) : DateTime * N := (milliseconds 5000, nlen out).
Definition accept (out : list PendingEvent) (e : PendingEvent) : storage_result unit := Ok tt.

Definition summary_of (r : result (StorageError * list PendingEvent) (CorrelationReport * list PendingEvent)) :=
  match r with Ok (report, out) => Some (report, pe_kind <$> out) | Err _ => None end.

(** Both are given the request: the hook first, the transcript as a confirmation
    within the session. *)
Lemma correlation_exact_witness :
  let es := concat call_groups in
  let anchors := omap anchor_of es in
  let ts := co_transports (collected es) in
  let ds := decisions anchors ts anchors in
  (summary_of (derive "run" clock accept (Some (log_bytes Jsonl call_lines)) None) =
     Some (mkCorrelationReport 2 0 0 false, ["inference_correlation"; "inference_correlation"])) /\
  derive "run" clock accept (Some (log_bytes Jsonl call_lines)) None =
  if existsb (fun e => str_eqb (ev_source e) "correlation") es
  then Ok (mkCorrelationReport 0 0 0 true, [])
  else out ← append_all clock accept [] (plan "run" (agent_scope es) ds (unclaimed ds ts));
       Ok (tally (agent_scope es) ds (unclaimed ds ts), out).
Proof.
  cbn zeta. split; [vm_compute; reflexivity|].
  refine (proj2 (correlation_exact "run" clock accept Jsonl None call_groups call_lines call_stored _ _ _)).
  - by repeat constructor.
  - vm_compute. done.
  - vm_compute. discriminate.
Defined.

Definition seen : Transport := mkTransport 2 (milliseconds 1100) "i" None None ∅ None None None None.
Definition asked : Anchor := mkAnchor PreRequest 1 (milliseconds 1000) "hook:agent" "BeforeModel" of_session None.
Definition answered : Anchor := mkAnchor Completion 3 (milliseconds 2000) "session" "session_assistant" of_session None.

Lemma claims_exclusive_witness :
  decided [asked; answered] [seen] = [(asked, Resolved seen false); (answered, Resolved seen true)] /\
  seen ∈ [seen] /\ fits answered seen /\ an_kind answered = Completion.
Proof.
  assert (decided [asked; answered] [seen] = [(asked, Resolved seen false); (answered, Resolved seen true)]) as E
    by (vm_compute; reflexivity).
  split; [done|].
  assert (in_sequence [seen]) as Hs by (by repeat constructor).
  assert (2 * nlen [seen] <= u64_max) as Hn by (vm_compute; discriminate).
  pose proof (proj2 (claims_exclusive [asked; answered] [seen] Hs Hn) 1%nat answered (Resolved seen true) seen) as H.
  rewrite E in H. destruct (H eq_refl ltac:(left)) as (H1 & H2 & H3). split; [done|]. split; [done|].
  exact (proj1 (H3 0%nat asked (Resolved seen false) seen ltac:(lia) eq_refl ltac:(left) eq_refl)).
Defined.

Lemma correlation_events_valid_witness :
  length (appended (derive "run" clock accept (Some (log_bytes Jsonl call_lines)) None)) = 2%nat /\
  Forall (fun p => forall event_id sequence, uuid_version event_id = 7 -> 0 < sequence ->
            validate (from_pending event_id sequence p) = Ok tt)
    (appended (derive "run" clock accept (Some (log_bytes Jsonl call_lines)) None)).
Proof.
  split; [vm_compute; reflexivity|].
  refine (correlation_events_valid "run" clock accept Jsonl None call_groups call_lines call_stored _ _ _).
  - by repeat constructor.
  - vm_compute. done.
  - vm_compute. discriminate.
Defined.
End CorrelationExamples.

