(* ===== verification/CorrelationReport.v ===== *)
(** * What the inspection sees of a correlation

    The report of src/correlation.rs against the coverage src/inspect.rs derives
    from the log the events of the correlation were appended to. *)

From Stdlib Require Import Strings.Byte.
From S2P Require Import Prelude RustStd External Json Input Model Policy Crypto EventLog EventLogSpec.
From S2P Require Import Manifest Writer BlobStore Erasure Inspect InspectSpec Correlation CorrelationSpec.
From stdpp Require Import options.
Local Open Scope N_scope.
#[local] Unset Default Proof Using.

Definition is_unresolved (e : EventEnvelope) : bool := is_event e "correlation" "inference_correlation_unresolved".

Section Pass.
Context {dig : Digest} {hx : Hex} {b64 : Base64} {aead : Aead} {zstd : Zstd} {http : Http}
  {serde : Serde} {serdeb : SerdeBlock}.

Notation unresolved s := (su_unresolved_correlations s).

Lemma unresolved_sources d e s : unresolved (note_sources d e s) = unresolved s.
Proof.
  unfold note_sources.
  assert (forall s, unresolved (note_keylog e s) = unresolved s) as -> by (unfold note_keylog; by_cases).
  assert (forall s, unresolved (note_reference d e s) = unresolved s) as -> by (unfold note_reference; by_cases).
  destruct (str_eqb _ _); [|done]. unfold note_runner_event. by_cases.
Qed.

Lemma unresolved_calls e z : unresolved (sz_summary (note_hook_call e (note_model_call e z))) = unresolved (sz_summary z).
Proof.
  assert (forall z, sz_summary (note_hook_call e z) = sz_summary z) as -> by (unfold note_hook_call; by_cases).
  unfold note_model_call, note_attempt. by_cases.
Qed.

Lemma unresolved_surface e s : unresolved (update_surface_coverage e s) = unresolved s.
Proof.
  unfold update_surface_coverage. case_match; [done|]. case_match; [|done].
  assert (forall s, unresolved (note_tracker e s) = unresolved s) as -> by (unfold note_tracker; by_cases).
  assert (forall s, unresolved (note_scan_gap e s) = unresolved s) as -> by (unfold note_scan_gap; by_cases).
  assert (forall s, unresolved (note_tls_surfaces e s) = unresolved s) as -> by (unfold note_tls_surfaces; by_cases).
  unfold note_connection. by_cases.
Qed.

(** Only the event itself counts. *)
Lemma unresolved_event d e z : unresolved (sz_summary (Inspect.note_event d e z)) =
  (if is_unresolved e then sat_add (unresolved (sz_summary z)) 1 else unresolved (sz_summary z)).
Proof.
  rewrite note_event_summary.
  assert (forall s, unresolved (note_unresolved_correlation e s) =
    if is_unresolved e then sat_add (unresolved s) 1 else unresolved s) as ->
    by (intros s; unfold note_unresolved_correlation, is_unresolved; by destruct (is_event _ _ _)).
  assert (forall s, unresolved (note_counts e s) = unresolved s) as ->
    by (intros s; unfold note_counts; by destruct (update_counts _ _ _)).
  assert (forall s, unresolved (note_task e s) = unresolved s) as -> by (unfold note_task; by_cases).
  rewrite unresolved_surface.
  assert (forall s, unresolved (update_payload_coverage e s) = unresolved s) as ->
    by (unfold update_payload_coverage; by_cases).
  assert (forall s, unresolved (note_dependencies e s) = unresolved s) as -> by (unfold note_dependencies; by_cases).
  assert (forall s, unresolved (note_upstream_protocol e s) = unresolved s) as ->
    by (unfold note_upstream_protocol; by_cases).
  rewrite unresolved_calls. change (sz_summary (z <| sz_summary ::= note_sources d e |>))
    with (note_sources d e (sz_summary z)). by rewrite unresolved_sources.
Qed.

Lemma unresolved_tally d es : nlen es <= u64_max ->
  unresolved (sz_summary (summarize d es)) = nlen (List.filter is_unresolved es).
Proof.
  induction es as [|e es IH] using rev_ind; [done|]. rewrite nlen_app, nlen_cons, nlen_nil. intros Hn.
  rewrite summarize_snoc, unresolved_event, IH, filter_snoc by lia. pose proof (nlen_filter is_unresolved es).
  destruct (is_unresolved e); [by rewrite sat_add_exact by lia|by rewrite N.add_0_r].
Qed.
End Pass.

(** ** The coverage *)

Lemma derive_payloads_unresolved g s c :
  cov_unresolved_correlations (derive_payloads g s c) = su_unresolved_correlations s.
Proof. unfold derive_payloads, gap_if. by_cases. Qed.

Lemma derive_gaps_unresolved s c : cov_unresolved_correlations (derive_gaps s c) = cov_unresolved_correlations c.
Proof.
  assert (forall b g c, cov_unresolved_correlations (gap_if b g c) = cov_unresolved_correlations c) as Hg
    by (unfold gap_if; by_cases).
  unfold derive_gaps. etrans; [|etrans; [apply Hg|]]; [reflexivity|]. by rewrite !Hg.
Qed.

Lemma derive_files_unresolved classes r c :
  cov_unresolved_correlations (derive_files classes r c) = cov_unresolved_correlations c.
Proof.
  assert (forall b g c, cov_unresolved_correlations (gap_if b g c) = cov_unresolved_correlations c) as Hg
    by (unfold gap_if; by_cases).
  unfold derive_files. etrans; [|etrans; [apply Hg|]]; [reflexivity|]. rewrite Hg. by destruct (_ || _).
Qed.

Section Composed.
Context {dig : Digest} {hx : Hex} {b64 : Base64} {aead : Aead} {zstd : Zstd} {http : Http}
  {serde : Serde} {serdeb : SerdeBlock} {serdem : SerdeManifest} {serdee : SerdeErasure}.

Lemma inspect_unresolved manifest events d verify key insp :
  inspect_run_with_key manifest events d verify key = Ok insp ->
  exists m eff es, read_manifest manifest = Ok m /\ effective_encryption_key m key = Ok eff /\
    run_events events (m_run_id m) eff = Ok es /\
    cov_unresolved_correlations (m_coverage (in_manifest insp)) =
      su_unresolved_correlations (sz_summary (summarize d es)).
Proof.
  intros H. unfold inspect_run_with_key in H. apply bind_ok in H as (m & Hm & H).
  apply map_err_ok in Hm. apply bind_ok in H as ([] & _ & H). apply bind_ok in H as (eff & He & H).
  apply map_err_ok in He. apply bind_ok in H as (auth & _ & H).
  apply bind_ok in H as (classes & _ & H). apply bind_ok in H as (s & Hs & H). apply bind_ok in H as (g & _ & H).
  apply bind_ok in H as (i & _ & H). apply bind_ok in H as ([log file] & _ & H).
  injection H as <-. unfold summarize_events in Hs. apply bind_ok in Hs as ([report z] & Hz & [= <-]).
  apply for_each_fold in Hz as (es & Hes & Hfold & _). apply visit_fold in Hfold as ->.
  exists m, eff, es. do 3 (split; [done|]).
  unfold derive_inventory, derive_manifest. cbn [in_manifest m_coverage set_field].
  by rewrite derive_files_unresolved, derive_gaps_unresolved, derive_payloads_unresolved.
Qed.

Context {digl : DigestLaws} {hxl : HexLaws} {b64l : Base64Laws} {aeadl : AeadLaws}
  {zstdl : ZstdLaws} {serdel : SerdeLaws} {serdebl : SerdeBlockLaws}.
Context (run_id : string) (clock : list PendingEvent -> DateTime * N)
  (append : list PendingEvent -> PendingEvent -> storage_result unit).

Lemma made_sources scope ds rest made :
  Forall2 (fun p make => exists now, p = make now) made (plan run_id scope ds rest) ->
  Forall (fun p => pe_source p = "correlation") made.
Proof.
  assert (Forall (fun make => forall now, pe_source (make now) = "correlation") (plan run_id scope ds rest)) as Hp.
  { unfold plan. rewrite Forall_app, !Forall_fmap. split; apply Forall_true.
    - by intros [a []] now.
    - intros t now. unfold transport_note. cbn. by destruct (tr_session_id t ≫= scope). }
  intros Hm. induction Hm as [|p make made l [now ->] Hm IH]; [constructor|].
  apply Forall_cons in Hp as [H1 H2]. constructor; auto.
Qed.

Lemma counted_unresolved es envelopes out :
  existsb (fun e => str_eqb (ev_source e) "correlation") es = false ->
  Forall2 (fun e p => exists event_id sequence, e = from_pending event_id sequence p) envelopes out ->
  Forall (fun p => pe_source p = "correlation") out ->
  nlen (List.filter is_unresolved (es ++ envelopes)) = kind_count "inference_correlation_unresolved" out.
Proof.
  intros Hes Henv Hout. rewrite List.filter_app, nlen_app. assert (List.filter is_unresolved es = []) as ->.
  { clear -Hes. induction es as [|e es IH]; [done|]. cbn in *. apply orb_false_iff in Hes as [H1 H2].
    unfold is_unresolved, is_event at 1. rewrite H1. auto. }
  rewrite nlen_nil, N.add_0_l. unfold kind_count.
  induction Henv as [|e p envelopes out (id & n & ->) Henv IH]; [done|]. apply Forall_cons in Hout as [H1 H2].
  cbn [List.filter]. assert (is_unresolved (from_pending id n p) = str_eqb (pe_kind p) "inference_correlation_unresolved") as ->.
  { unfold is_unresolved, is_event. cbn. by rewrite H1. }
  destruct (str_eqb _ _); [rewrite !nlen_cons|]; by rewrite IH.
Qed.

(** C34: After a correlation that ran to its end, an inspection of the log with
    the events it appended gives as the number of unresolved correlations the
    number the correlation reported. *)
Theorem inspection_counts_unresolved fmt key groups lines report out envelopes manifest events d verify given insp
    (Hstored : stored fmt key groups lines)
    (Hrun : of_run run_id (concat groups))
    (Hascending : ascending None (concat groups))
    (Hcount : nlen (concat groups) <= MAX_CORRELATION_ITEMS)
    (Hderive : derive run_id clock append (Some (log_bytes fmt lines)) key = Ok (report, out))
    (Hdone : cr_skipped_existing report = false)
    (Hwritten : Forall2 (fun e p => exists event_id sequence, e = from_pending event_id sequence p) envelopes out)
    (Hsize : nlen (concat groups ++ envelopes) <= u64_max)
    (Hinspect : inspect_run_with_key manifest events d verify given = Ok insp)
    (Hread : forall m eff, read_manifest manifest = Ok m -> effective_encryption_key m given = Ok eff ->
       run_events events (m_run_id m) eff = Ok (concat groups ++ envelopes)) :
  cov_unresolved_correlations (m_coverage (in_manifest insp)) = cr_unresolved report.
Proof.
  destruct (inspect_unresolved _ _ _ _ _ _ Hinspect) as (m & eff & es & Hm & He & Hes & ->).
  rewrite (Hread m eff Hm He) in Hes. injection Hes as <-. rewrite unresolved_tally by done.
  destruct (report_counts run_id clock append fmt key groups lines report out) as [_ ->]; [done..|].
  destruct (derive_appended run_id clock append fmt key groups lines) as [E|(Hno & made & Ha & Hm' & Hr)]; [done..| |].
  { rewrite E in Hderive. by injection Hderive as <- <-. }
  apply counted_unresolved; [done..|]. rewrite Hderive in Ha. cbn in Ha. subst made.
  destruct (Hr report out Hderive) as [Hl _]. rewrite Hl, firstn_all in Hm'. by eapply made_sources.
Qed.
End Composed.

(** ** Witness *)

Module CorrelationReportExamples.
Import Concrete ConcreteSerde ConcreteBlock CryptoExamples ManifestExamples TableSerde CorrelationExamples.

(** A request no anchor asks for, and the event the correlation writes of it. *)
Definition request : EventEnvelope := entry 1 "proxy" "logical_inference_request" requested 1100.
Definition made : list PendingEvent := appended (correlate "run" clock accept (collected [request])).
Definition appendix : list EventEnvelope :=
  imap (fun i p => from_pending (N.shiftl 7 76 + 2 + N.of_nat i) (2 + N.of_nat i) p) made.

#[local] Instance serde : Serde := table_serde (zip (request :: appendix) [as_bytes "{1}"; as_bytes "{2}"]).
#[local] Instance laws : SerdeLaws.
Proof.
  apply table_serde_laws. apply Forall_forall. intros x Hx.
  assert (forallb (entry_ok (zip (request :: appendix) [as_bytes "{1}"; as_bytes "{2}"]))
    (zip (request :: appendix) [as_bytes "{1}"; as_bytes "{2}"]) = true) as H by (vm_compute; reflexivity).
  rewrite forallb_forall in H. by apply H, list_elem_of_In.
Qed.
#[local] Instance erasures : SerdeErasure := {| erasure_to_vec _ := None; erasure_from_slice _ := None |}.

Definition dir : RunDir := mkRunDir ∅ None ∅.
Definition manifest_file : option bytes := Some (plain_text ++ [LF]).
Definition log : option bytes := Some (join_log [as_bytes "{1}"; as_bytes "{2}"]).
Definition inspected : Inspection :=
  default (mkInspection plain None (mkRecoveryReport 0 0 0 0 None) 0 [] [] [] [] [] [])
    (ok (inspect_run_with_key manifest_file log dir true None)).

Lemma request_stored : stored Jsonl None [[request]] [as_bytes "{1}"].
Proof.
  split.
  - repeat constructor; eexists; (split; [reflexivity|]); exists nonce; (split; [done|]); vm_compute; reflexivity.
  - vm_compute. done.
  - vm_compute. discriminate.
Qed.

Lemma inspection_counts_unresolved_witness :
  cov_unresolved_correlations (m_coverage (in_manifest inspected)) = 1.
Proof.
  refine (inspection_counts_unresolved "run" clock accept Jsonl None [[request]] [as_bytes "{1}"]
            (mkCorrelationReport 0 1 1 false) made appendix manifest_file log dir true None inspected
            request_stored _ _ _ _ _ _ _ _ _).
  - by repeat constructor.
  - done.
  - vm_compute. discriminate.
  - vm_compute. reflexivity.
  - done.
  - apply Forall2_cons; split; [by eexists _, _|constructor].
  - vm_compute. discriminate.
  - vm_compute. reflexivity.
  - intros m eff Hm He. vm_compute in Hm. injection Hm as <-. vm_compute in He. injection He as <-.
    vm_compute. reflexivity.
Defined.
End CorrelationReportExamples.
