(* ===== verification/Verify.v ===== *)
(** * src/verify.rs

    The checks of a run by profile, made from a verifying inspection, and what a
    report that passes says of the events and files of the run. *)

From Stdlib Require Import Strings.Byte.
From S2P Require Import Prelude RustStd External Json Input Model Policy Crypto EventLog EventLogSpec Manifest.
From S2P Require Import StateGraph BlobStore BlobStoreSpec Inspect InspectSpec CorrelationReport.
From stdpp Require Import pretty options.
Local Open Scope N_scope.
#[local] Unset Default Proof Using.

Inductive VerificationProfile := Integrity | Transport | Client.
#[export] Instance VerificationProfile_eq_dec : EqDecision VerificationProfile.
Proof. solve_decision. Defined.

Record VerificationCheck := mkVerificationCheck {
  vc_name : string;
  vc_passed : bool;
  vc_detail : string;
}.

Record VerificationReport := mkVerificationReport {
  vr_run_id : string;
  vr_manifest_claim : string;
  vr_profile : VerificationProfile;
  vr_passed : bool;
  vr_checks : list VerificationCheck;
}.

Definition check (name : string) (passed : bool) (detail : string) : VerificationCheck :=
  mkVerificationCheck name passed detail.

(** [Display] of a [bool]. *)
Definition show_bool (b : bool) : string := if b then "true" else "false".

Definition integrity_checks (i : Inspection) : list VerificationCheck :=
  let m := in_manifest i in
  [check "run_finalized" (bool_decide (m_status m ∈ ["finished"; "failed"])) ("status=" +:+ m_status m);
   check "event_log_committed" (discarded_tail_bytes (in_log i) =? 0)
     ("discarded_tail_bytes=" +:+ pretty (discarded_tail_bytes (in_log i)));
   check "referenced_blobs_present" (no_strings (in_missing_blobs i))
     ("missing=" +:+ pretty (nlen (in_missing_blobs i)));
   check "blob_integrity" (no_strings (in_corrupt_blobs i)) ("corrupt=" +:+ pretty (nlen (in_corrupt_blobs i)));
   check "class_erasure_committed"
     (no_strings (in_pending_erasure_classes i) && no_strings (in_pending_erasure_blobs i))
     ("pending_classes=" +:+ pretty (nlen (in_pending_erasure_classes i)) +:+
      " pending_blobs=" +:+ pretty (nlen (in_pending_erasure_blobs i)))]
  ++ match in_manifest_authenticated i with
     | Some authenticated =>
         [check "manifest_authenticated" authenticated ("authenticated=" +:+ show_bool authenticated)]
     | None => []
     end.

Definition transport_checks (m : Manifest) : list VerificationCheck :=
  let c := m_coverage m in
  let counts := m_counts m in
  [check "transport_observed" (0 <? cc_transport_attempts counts)
     ("attempts=" +:+ pretty (cc_transport_attempts counts));
   check "known_tls_surfaces_covered" (cov_unknown_tls_surfaces c =? 0)
     ("unknown_tls_surfaces=" +:+ pretty (cov_unknown_tls_surfaces c));
   check "connections_parsed" (cov_unparsed_connections c =? 0)
     ("unparsed_connections=" +:+ pretty (cov_unparsed_connections c));
   check "process_network_observation_complete"
     ((cov_process_network_scan_gaps c =? 0) && (cov_process_scan_failures c =? 0)
      && (cov_processes_running_at_stop c =? 0) && (cov_connections_open_at_stop c =? 0))
     ("scan_gaps=" +:+ pretty (cov_process_network_scan_gaps c) +:+
      " scan_failures=" +:+ pretty (cov_process_scan_failures c) +:+
      " processes_running_at_stop=" +:+ pretty (cov_processes_running_at_stop c) +:+
      " connections_open_at_stop=" +:+ pretty (cov_connections_open_at_stop c));
   check "capture_loss_free" (cov_capture_drops c =? 0) ("capture_drops=" +:+ pretty (cov_capture_drops c));
   check "egress_accounted_for" (cov_unknown_egress c =? 0) ("unknown_egress=" +:+ pretty (cov_unknown_egress c));
   check "model_endpoint_not_bypassed" (cov_model_bypass_connections c =? 0)
     ("model_bypass_connections=" +:+ pretty (cov_model_bypass_connections c));
   check "no_unsupported_quic" (cov_possible_quic_connections c =? 0)
     ("possible_quic_connections=" +:+ pretty (cov_possible_quic_connections c));
   check "attempts_terminal" (cov_all_attempts_have_terminal_state c)
     ("attempts=" +:+ pretty (cc_transport_attempts counts) +:+
      " completed=" +:+ pretty (cc_completed_attempts counts) +:+
      " incomplete=" +:+ pretty (cc_incomplete_attempts counts))].

Definition client_checks (m : Manifest) : list VerificationCheck :=
  let c := m_coverage m in
  [check "request_payloads_complete" (cov_captured_request_payloads_complete c)
     ("captured_request_payloads_complete=" +:+ show_bool (cov_captured_request_payloads_complete c));
   check "response_payloads_complete" (cov_captured_response_payloads_complete c)
     ("captured_response_payloads_complete=" +:+ show_bool (cov_captured_response_payloads_complete c));
   check "server_state_references_resolved" (cov_unresolved_state_references c =? 0)
     ("unresolved_state_references=" +:+ pretty (cov_unresolved_state_references c));
   check "payload_references_resolved" (cov_unresolved_payload_references c =? 0)
     ("unresolved_payload_references=" +:+ pretty (cov_unresolved_payload_references c));
   check "cross_source_correlations_resolved" (cov_unresolved_correlations c =? 0)
     ("unresolved_correlations=" +:+ pretty (cov_unresolved_correlations c))].

Section Verify.
Context {dig : Digest} {hx : Hex} {b64 : Base64} {aead : Aead} {zstd : Zstd} {http : Http}
  {serde : Serde} {serdeb : SerdeBlock} {serdem : SerdeManifest} {serdee : SerdeErasure}.

Definition verify_run_with_key (manifest events : option bytes) (d : RunDir) (profile : VerificationProfile)
    (encryption : option EncryptionKey) : storage_result VerificationReport :=
  inspection ← inspect_run_with_key manifest events d true encryption;
  let m := in_manifest inspection in
  let checks :=
    integrity_checks inspection
    ++ (if bool_decide (profile ∈ [Transport; Client]) then transport_checks m else [])
    ++ (if bool_decide (profile = Client) then client_checks m else []) in
  Ok (mkVerificationReport (m_run_id m) (cov_claim (m_coverage m)) profile (forallb vc_passed checks) checks).
End Verify.

(** ** What the events show *)

(** A connection to the model that does not go through the recorder. *)
Definition bypasses (e : EventEnvelope) : bool :=
  is_event e "process" "network_connection_observed"
  && bool_decide (field_str e "traffic_class" = Some "model_bypass").
Definition starts_attempt (e : EventEnvelope) : bool := is_event e "proxy" "transport_request_started".
Definition ends_attempt (e : EventEnvelope) : bool := is_event e "proxy" "transport_attempt_finished".

(** What the checks of the transport look at. *)
Definition observed (s : EventSummary) :=
  (su_model_bypass_connections s, cc_transport_attempts (su_counts s), su_terminal_attempts s).

Definition connection_of (e : EventEnvelope) : string :=
  default ("missing-connection-id-sequence-" +:+ pretty (ev_sequence e)) (connection_id (ev_ids e)).

Lemma observed_sources d e s : observed (note_sources d e s) = observed s.
Proof.
  unfold note_sources.
  assert (forall s, observed (note_keylog e s) = observed s) as -> by (unfold note_keylog; by_cases).
  assert (forall s, observed (note_reference d e s) = observed s) as -> by (unfold note_reference; by_cases).
  destruct (str_eqb _ _); [|done]. unfold note_runner_event. by_cases.
Qed.

Lemma observed_calls e z : observed (sz_summary (note_hook_call e (note_model_call e z))) = observed (sz_summary z).
Proof.
  assert (forall z, sz_summary (note_hook_call e z) = sz_summary z) as -> by (unfold note_hook_call; by_cases).
  unfold note_model_call, note_attempt. by_cases.
Qed.

Lemma observed_surface e s : observed (update_surface_coverage e s) =
  (if bypasses e then {[ connection_of e ]} ∪ su_model_bypass_connections s else su_model_bypass_connections s,
   cc_transport_attempts (su_counts s), su_terminal_attempts s).
Proof.
  unfold update_surface_coverage, bypasses, is_event, field_str, field.
  destruct (str_eqb (ev_source e) "process"); [|done]. cbn [negb andb].
  destruct (ev_normalized e) as [v|] eqn:En.
  2: { cbn. by rewrite andb_false_r. }
  assert (forall s, observed (note_tracker e s) = observed s) as -> by (unfold note_tracker; by_cases).
  assert (forall s, observed (note_scan_gap e s) = observed s) as -> by (unfold note_scan_gap; by_cases).
  assert (forall s, observed (note_tls_surfaces e s) = observed s) as -> by (unfold note_tls_surfaces; by_cases).
  unfold note_connection, field_str, field. rewrite En. destruct (str_eqb (ev_event e) _); [|done]. cbn [andb].
  destruct ((Some v ≫= get "traffic_class") ≫= as_str) as [class|]; cbn zeta.
  2: { rewrite (bool_decide_eq_false_2 (None = Some _)) by done. compute_eqb. by_cases. }
  destruct (decide (class = "model_bypass")) as [->|Hne].
  - rewrite (bool_decide_eq_true_2 (Some _ = Some _)) by done.
    rewrite (bool_decide_eq_true_2 (_ ∈ egress_classes)) by (by apply (bool_decide_unpack _); vm_compute).
    compute_eqb. by_cases.
  - rewrite (bool_decide_eq_false_2 (Some _ = Some _)) by congruence.
    assert (str_eqb (if bool_decide (class ∈ egress_classes) then class else "unknown_external") "model_bypass" = false)
      as Hb by (case_bool_decide; [by apply bool_decide_eq_false_2|done]).
    rewrite Hb. by_cases.
Qed.

Definition count_up (b : bool) (n : N) : N := if b then sat_add n 1 else n.

Lemma observed_counts e s : observed (note_counts e s) =
  (su_model_bypass_connections s, count_up (starts_attempt e) (cc_transport_attempts (su_counts s)),
   count_up (ends_attempt e) (su_terminal_attempts s)).
Proof.
  unfold note_counts, update_counts, starts_attempt, ends_attempt, is_event, count_up.
  destruct (str_eqb (ev_source e) "proxy"); cbn [negb andb]; [|by_cases].
  event_cases e ["transport_request_started"; "transport_attempt_finished"]; by_cases.
Qed.

(** The effect of one event. *)
Lemma observed_event d e z : observed (sz_summary (note_event d e z)) =
  (if bypasses e then {[ connection_of e ]} ∪ su_model_bypass_connections (sz_summary z)
   else su_model_bypass_connections (sz_summary z),
   count_up (starts_attempt e) (cc_transport_attempts (su_counts (sz_summary z))),
   count_up (ends_attempt e) (su_terminal_attempts (sz_summary z))).
Proof.
  rewrite note_event_summary.
  assert (forall s, observed (note_unresolved_correlation e s) = observed s) as ->
    by (unfold note_unresolved_correlation; by_cases).
  rewrite observed_counts.
  set (s1 := update_payload_coverage e _).
  assert (observed s1 = observed (sz_summary z)) as H1.
  { unfold s1.
    assert (forall s, observed (update_payload_coverage e s) = observed s) as ->
      by (unfold update_payload_coverage; by_cases).
    assert (forall s, observed (note_dependencies e s) = observed s) as -> by (unfold note_dependencies; by_cases).
    assert (forall s, observed (note_upstream_protocol e s) = observed s) as ->
      by (unfold note_upstream_protocol; by_cases).
    rewrite observed_calls. apply observed_sources. }
  assert (forall s, observed (note_task e s) = observed s) as Ht by (unfold note_task; by_cases).
  pose proof (Ht (update_surface_coverage e s1)) as H2. rewrite observed_surface in H2.
  injection H2 as -> -> ->. by injection H1 as -> -> ->.
Qed.

Definition counted (p : EventEnvelope -> bool) (es : list EventEnvelope) : N := N.min u64_max (nlen (List.filter p es)).

Lemma counted_snoc p es e : counted p (es ++ [e]) = count_up (p e) (counted p es).
Proof. unfold counted, count_up, sat_add. rewrite List.filter_app, nlen_app. cbn. destruct (p e); unfold nlen; cbn; lia. Qed.

Lemma observed_exact d es : let s := sz_summary (summarize d es) in
  (su_model_bypass_connections s = ∅ <-> Forall (fun e => bypasses e = false) es) /\
  cc_transport_attempts (su_counts s) = counted starts_attempt es /\
  su_terminal_attempts s = counted ends_attempt es.
Proof.
  cbn zeta. induction es as [|e es (H1 & H2 & H3)] using rev_ind; [by repeat constructor|].
  rewrite summarize_snoc, !counted_snoc, Forall_app, Forall_singleton.
  pose proof (observed_event d e (summarize d es)) as H. injection H as -> -> ->. rewrite H2, H3.
  split; [|done]. destruct (bypasses e); [|tauto]. split; [set_solver|]. by intros [_ ?].
Qed.

Lemma correlations_exact d es : su_unresolved_correlations (sz_summary (summarize d es)) = 0 <->
  Forall (fun e => is_unresolved e = false) es.
Proof.
  induction es as [|e es IH] using rev_ind; [done|].
  rewrite summarize_snoc, unresolved_event, Forall_app, Forall_singleton, <-IH.
  destruct (is_unresolved e); [|tauto]. split; [unfold sat_add, u64_max; lia|by intros [_ ?]].
Qed.

(** ** The coverage of an inspection *)

Definition view (c : Coverage) :=
  (cov_model_bypass_connections c, cov_all_attempts_have_terminal_state c, cov_unresolved_state_references c,
   cov_unresolved_correlations c).

Lemma gap_if_view b g c : view (gap_if b g c) = view c.
Proof. unfold gap_if. by_cases. Qed.

Lemma derive_view m classes r s g c :
  view (derive_files classes r (derive_gaps s (derive_payloads g s (derive_network m s (derive_sources s c))))) =
  (len (su_model_bypass_connections s), cc_transport_attempts (su_counts s) =? su_terminal_attempts s,
   unresolved_count g, su_unresolved_correlations s).
Proof.
  unfold derive_files. etrans; [|etrans; [apply gap_if_view|]]; [reflexivity|]. rewrite gap_if_view.
  set (c1 := derive_gaps _ _). transitivity (view c1); [by destruct (_ || _)|]. unfold c1, derive_gaps.
  etrans; [|etrans; [apply gap_if_view|]]; [reflexivity|]. rewrite !gap_if_view.
  unfold derive_payloads, derive_network, derive_sources, gap_if. by_cases.
Qed.

Section Sound.
Context {dig : Digest} {hx : Hex} {b64 : Base64} {aead : Aead} {zstd : Zstd} {http : Http}
  {serde : Serde} {serdeb : SerdeBlock} {serdem : SerdeManifest} {serdee : SerdeErasure}.

Lemma analyzed manifest events key m eff es g :
  analyze_with_key manifest events key = Ok g -> read_manifest manifest = Ok m ->
  effective_encryption_key m key = Ok eff -> run_events events (m_run_id m) eff = Ok es ->
  g = build_graph (observations MAX_STATE_TRACKED_ITEMS es).
Proof.
  unfold analyze_with_key, analyze_with_key_and_limit, open_run. intros H Hm He Hes.
  rewrite Hm in H. cbn [from_io map_err mbind result_bind] in H. rewrite He in H. cbn [from_io map_err mbind result_bind] in H.
  apply bind_ok in H as ([m' eff'] & Ho & H). apply bind_ok in Ho as (a & _ & [= <- <-]).
  apply bind_ok in H as ([report s] & (es' & Hes' & Hf & _)%for_each_fold & [= <-]).
  rewrite Hes in Hes'. injection Hes' as <-. rewrite observe_fold in Hf. by injection Hf as <-.
Qed.

(** What the checks read from an inspection, in terms of the events. *)
Lemma inspect_view manifest events d verify key insp :
  inspect_run_with_key manifest events d verify key = Ok insp ->
  exists m eff es, read_manifest manifest = Ok m /\ effective_encryption_key m key = Ok eff /\
    run_events events (m_run_id m) eff = Ok es /\
    verify_authentication m key = Ok (in_manifest_authenticated insp) /\
    m_status (in_manifest insp) = m_status m /\
    cc_transport_attempts (m_counts (in_manifest insp)) = counted starts_attempt es /\
    view (m_coverage (in_manifest insp)) =
      (len (su_model_bypass_connections (sz_summary (summarize d es))),
       counted starts_attempt es =? counted ends_attempt es,
       unresolved_count (build_graph (observations MAX_STATE_TRACKED_ITEMS es)),
       su_unresolved_correlations (sz_summary (summarize d es))).
Proof.
  intros H. unfold inspect_run_with_key in H. apply bind_ok in H as (m & Hm & H).
  apply map_err_ok in Hm. apply bind_ok in H as ([] & _ & H). apply bind_ok in H as (eff & He & H).
  apply map_err_ok in He. apply bind_ok in H as (auth & Hauth & H). apply map_err_ok in Hauth.
  apply bind_ok in H as (classes & _ & H). apply bind_ok in H as (s & Hs & H). apply bind_ok in H as (g & Hg & H).
  apply bind_ok in H as (i & _ & H). apply bind_ok in H as ([log file] & _ & H).
  injection H as <-. unfold summarize_events in Hs. apply bind_ok in Hs as ([report z] & Hz & [= <-]).
  apply for_each_fold in Hz as (es & Hes & Hfold & _). apply visit_fold in Hfold as ->.
  exists m, eff, es. do 5 (split; [done|]). destruct (observed_exact d es) as (_ & H2 & H3).
  split; [exact H2|]. rewrite <-H3, <-H2, <-(analyzed _ _ _ _ _ _ _ Hg Hm He Hes).
  unfold derive_inventory, derive_manifest. cbn [in_manifest m_coverage set_field].
  etrans; [apply derive_view|]. reflexivity.
Qed.

Context {aeadl : AeadLaws}.

(** The conditions behind the checks of the client profile. *)
Lemma client_checks_passed manifest events d key report :
  verify_run_with_key manifest events d Client key = Ok report -> vr_passed report = true ->
  exists i, inspect_run_with_key manifest events d true key = Ok i /\
    let c := m_coverage (in_manifest i) in
    m_status (in_manifest i) ∈ ["finished"; "failed"] /\ in_manifest_authenticated i <> Some false /\
    0 < cc_transport_attempts (m_counts (in_manifest i)) /\ cov_model_bypass_connections c = 0 /\
    cov_all_attempts_have_terminal_state c = true /\ cov_captured_request_payloads_complete c = true /\
    cov_captured_response_payloads_complete c = true /\ cov_unresolved_state_references c = 0 /\
    cov_unresolved_correlations c = 0.
Proof.
  unfold verify_run_with_key. intros (i & Hi & [= <-])%bind_ok Hp. exists i. split; [done|].
  change (forallb vc_passed (integrity_checks i ++ transport_checks (in_manifest i) ++ client_checks (in_manifest i))
    = true) in Hp.
  rewrite !forallb_app, !andb_true_iff in Hp. destruct Hp as (Hint & Ht & Hc). cbn zeta.
  unfold integrity_checks in Hint. cbv zeta in Hint. rewrite forallb_app, andb_true_iff in Hint. destruct Hint as [Hint Hauth].
  cbn -[N.eqb N.ltb] in Hint, Ht, Hc. rewrite !andb_true_iff, !N.eqb_eq, ?N.ltb_lt, ?bool_decide_eq_true in *.
  split_and!; try tauto. intros E. by rewrite E in Hauth.
Qed.

(** C14: What a run that passes the verification of the client profile is: it has
    ended; its manifest is authentic if its storage is encrypted; there was a
    model call, every request and response of one was captured in full, every
    payload the events refer to is stored with its digest and reads back, by a
    reference with the largest size the events give for it (a reference with a
    smaller size to the same payload passes too and does not read back), no
    event shows a connection to the model around the recorder, as many attempts ended as started, no event
    depends on a payload without a snapshot, every reference to state of the
    provider names a response the run itself saw, and no correlation was left
    open. *)
Theorem client_verification_sound manifest events d key report
    (H : verify_run_with_key manifest events d Client key = Ok report) (Hpassed : vr_passed report = true) :
  exists m eff es, read_manifest manifest = Ok m /\ effective_encryption_key m key = Ok eff /\
    run_events events (m_run_id m) eff = Ok es /\
    m_status m ∈ ["finished"; "failed"] /\
    (exists authenticated, verify_authentication m key = Ok authenticated /\ authenticated <> Some false) /\
    captured (fun _ => request_done) (fun _ => request_lost) es /\ captured response_done response_lost es /\
    (forall e r, e ∈ es -> ev_raw e = Some r ->
      exists payload, largest d es (reference_identity d r) (nlen payload) /\
        ref_sha256 r = "sha256:" +:+ hex_encode (sha256 payload) /\
        forall max, nlen payload <= max -> read_blob_reference d (of_size (nlen payload) r) eff max = Ok payload) /\
    Forall (fun e => bypasses e = false /\ unresolved_of e = 0 /\ is_unresolved e = false) es /\
    (forall r, r ∈ all_mentions es -> resolved es r) /\
    0 < counted starts_attempt es /\ counted starts_attempt es = counted ends_attempt es.
Proof.
  destruct (client_checks_passed _ _ _ _ _ H Hpassed) as (i & Hi & Hst & Hauth & Hn & Hb & Ht & Hq & Hr & Hstate & Hcorr).
  destruct (inspect_view _ _ _ _ _ _ Hi) as (m & eff & es & Hm & He & Hes & Ha & Hs & Hat & Hv).
  destruct (payload_claims _ _ _ _ _ _ Hi) as (m' & eff' & es' & Hm' & He' & Hes' & _ & Hreq & Hresp & _).
  rewrite Hm in Hm'. injection Hm' as <-. rewrite He in He'. injection He' as <-. rewrite Hes in Hes'. injection Hes' as <-.
  apply Hreq in Hq as (Hq & Hu & _ & Hclean). apply Hresp in Hr as (Hr & _).
  destruct (clean_reads _ _ _ _ _ Hi Hclean) as (m' & eff' & es' & Hm' & He' & Hes' & Hread).
  rewrite Hm in Hm'. injection Hm' as <-. rewrite He in He'. injection He' as <-. rewrite Hes in Hes'. injection Hes' as <-.
  injection Hv as Hv1 Hv2 Hv3 Hv4. exists m, eff, es. rewrite <-Hs, <-Hat, Hat.
  split_and!; try done; [by eexists| | |by rewrite <-Hat|].
  - destruct (observed_exact d es) as (Hby & _). pose proof (correlations_exact d es) as Hco.
    rewrite <-Hv4 in Hco. rewrite !Forall_and. split; [|split; [done|by apply Hco]].
    apply Hby. rewrite Hv1 in Hb. unfold len in Hb. apply leibniz_equiv, size_empty_inv. lia.
  - intros r. apply (zero_unresolved MAX_STATE_TRACKED_ITEMS). congruence.
  - apply N.eqb_eq. congruence.
Qed.
End Sound.

(** ** Witnesses *)

Module VerifyExamples.
Import Concrete ManifestExamples.
#[local] Existing Instance serde_over.
#[local] Existing Instance InspectExamples.call_serde.
#[local] Existing Instance InspectExamples.call_blocks.
#[local] Existing Instance InspectExamples.call_erasures.

Definition passed : VerificationReport :=
  default (mkVerificationReport "" "" Integrity false [])
    (ok (verify_run_with_key InspectExamples.manifest_file InspectExamples.call_log InspectExamples.dir Client None)).
Lemma verified : verify_run_with_key InspectExamples.manifest_file InspectExamples.call_log InspectExamples.dir
  Client None = Ok passed.
Proof. vm_compute. reflexivity. Qed.
Lemma all_passed : vr_passed passed = true.
Proof. vm_compute. reflexivity. Qed.

(** The run of one call passes all its checks. *)
Lemma client_verification_sound_witness :
  length (vr_checks passed) = 19%nat /\
  exists m eff es, read_manifest InspectExamples.manifest_file = Ok m /\
    effective_encryption_key m None = Ok eff /\
    run_events InspectExamples.call_log (m_run_id m) eff = Ok es /\
    captured (fun _ => request_done) (fun _ => request_lost) es /\ captured response_done response_lost es.
Proof.
  split; [vm_compute; reflexivity|].
  destruct (client_verification_sound InspectExamples.manifest_file InspectExamples.call_log InspectExamples.dir None
              passed verified all_passed) as (m & eff & es & H1 & H2 & H3 & _ & _ & H4 & H5 & _).
  exists m, eff, es. split; [exact H1|]. split; [exact H2|]. split; [exact H3|]. split; [exact H4|exact H5].
Defined.
End VerifyExamples.
