(* ===== verification/UploadState.v ===== *)
(** * The upload state of src/upload.rs

    The spool of a run: one state file per recording segment and platform, the
    batch plans it fixes, the chain the segments form, what the platform's
    answers do to it, and the retention gate that reads it.  A spool is the
    content of the files of its directory; paths are file names in it. *)

From Stdlib Require Import Strings.Byte Sorting.
From S2P Require Import Prelude RustStd Proc External Json Input Model ProbePlan Policy Crypto EventLog Manifest BlobStore.
From stdpp Require Import pretty sorting options.
Local Open Scope N_scope.
#[local] Unset Default Proof Using.

Definition STATE_SCHEMA_VERSION : N := 1.
Definition MAX_RECORDING_SEGMENTS : N := 10000.
Definition MAX_PLATFORM_SEQUENCE : N := 9223372036854775807.
Definition MAX_UPLOAD_TARGETS : N := 128.
Definition MAX_TOTAL_UPLOAD_STATES : N := 100000.
Definition DEFAULT_BATCH_EVENTS : N := 2000.
Definition DEFAULT_BATCH_BYTES : N := 4 * 1024 * 1024.
Definition MAX_WIRE_BATCH_BYTES : N := 16 * 1024 * 1024.
Definition MAX_STATE_BYTES : N := 64 * 1024 * 1024.
Definition MAX_BATCH_PLANS : N := 100000.
Definition MAX_BLOB_PLANS : N := 250000.
Definition MAX_TOKEN_BYTES : N := 2048.
Definition PCAP_MEDIA_TYPE : string := "application/vnd.tcpdump.pcap".
Definition TLS_SECRETS_MEDIA_TYPE : string := "application/x-nss-key-log".

Record BlobPlan := mkBlobPlan {
  bp_sha256 : string;
  bp_size : N;
  bp_media_type : option string;
}.

Record BatchPlan := mkBatchPlan {
  ba_first_seq : N;
  ba_last_seq : N;
  ba_event_count : N;
  ba_byte_length : N;
  ba_sha256 : string;
  ba_prev_sha256 : option string;
  ba_blobs : list BlobPlan;
  ba_created_at : DateTime;
}.

Record UploadState := mkUploadState {
  us_schema_version : N;
  us_api_origin : string;
  us_run_id : string;
  us_recording_id : string;
  us_segment_no : N;
  us_first_seq : N;
  us_batch_max_events : N;
  us_batch_max_bytes : N;
  us_acked_seq : N;
  us_sealed : bool;
  us_collector_id : option Uuid;
  us_config_version : Z;
  us_batches : list BatchPlan;
  us_created_at : DateTime;
  us_updated_at : DateTime;
}.

#[export] Instance BatchPlan_settable : Settable BatchPlan := fun b =>
  mkBatchPlan (ba_first_seq b) (ba_last_seq b) (ba_event_count b) (ba_byte_length b) (ba_sha256 b)
    (ba_prev_sha256 b) (ba_blobs b) (ba_created_at b).
#[export] Instance UploadState_settable : Settable UploadState := fun s =>
  mkUploadState (us_schema_version s) (us_api_origin s) (us_run_id s) (us_recording_id s)
    (us_segment_no s) (us_first_seq s) (us_batch_max_events s) (us_batch_max_bytes s)
    (us_acked_seq s) (us_sealed s) (us_collector_id s) (us_config_version s) (us_batches s)
    (us_created_at s) (us_updated_at s).

Record BatchHeader := mkBatchHeader {
  bh_batch_id : string;
  bh_recording_id : string;
  bh_schema_version : N;
  bh_first_seq : N;
  bh_last_seq : N;
  bh_event_count : N;
  bh_byte_length : N;
  bh_sha256 : string;
  bh_prev_sha256 : option string;
  bh_encoding : string;
  bh_blobs : list (string * N);
  bh_created_at : DateTime;
}.

Record RemoteRecording := mkRemoteRecording {
  rr_state : string;
  rr_segment_no : N;
  rr_sequence_base : N;
  rr_durable_seq : N;
  rr_final_seq : option N;
}.

Record BatchAck := mkBatchAck {
  ack_recording_id : string;
  ack_durable_seq : N;
  ack_state : string;
  ack_missing_blobs : list string;
}.

#[export] Instance BlobPlan_eq_dec : EqDecision BlobPlan.
Proof. solve_decision. Defined.
#[export] Instance BatchPlan_eq_dec : EqDecision BatchPlan.
Proof. solve_decision. Defined.
#[export] Instance UploadState_eq_dec : EqDecision UploadState.
Proof. solve_decision. Defined.
#[export] Instance BatchHeader_eq_dec : EqDecision BatchHeader.
Proof. solve_decision. Defined.

(** serde_json on the state file and on the header of a batch. *)
Class SerdeUpload := {
  upload_to_vec : UploadState -> option bytes;
  upload_from_slice : bytes -> option UploadState;
  header_to_vec : BatchHeader -> option bytes;
}.

(** The [url] crate. *)
Class UrlCrate := {
  Url : Type;
  url_parse : string -> option Url;
  url_host_str : Url -> option string;
  url_username : Url -> string;
  url_password : Url -> option string;
  url_query : Url -> option string;
  url_fragment : Url -> option string;
  url_path : Url -> string;
  url_scheme : Url -> string;
  url_set_path : Url -> string -> Url;
  url_to_string : Url -> string;
}.

(** ** Platform origins *)

Section Origins.
Context {url : UrlCrate}.

Definition validate_api (api : Url) (allow_http : bool) : result string unit :=
  ensure (match url_host_str api with Some _ => true | None => false end)
    "platform API URL must have a host";;
  ensure (str_is_empty (url_username api)
          && match url_password api with Some _ => false | None => true end)
    "platform API URL must not contain user information";;
  ensure (match url_query api with Some _ => false | None => true end
          && match url_fragment api with Some _ => false | None => true end)
    "platform API URL must not contain a query or fragment";;
  ensure (str_is_empty (url_path api) || str_eqb (url_path api) "/")
    "platform API URL must not contain a path";;
  if str_eqb (url_scheme api) "https" then Ok tt
  else if str_eqb (url_scheme api) "http" then
    ensure allow_http "plain HTTP requires the explicit --allow-http option"
  else Err "platform API URL must use https".

Definition canonical_origin (api : Url) : string := url_to_string (url_set_path api "/").
End Origins.

(** ** Reading and checking a state *)

Notation Spool := (gmap string bytes).

Definition is_sensitive_upload_media_type (media_type : option string) : bool :=
  match media_type with
  | Some t => str_eqb t PCAP_MEDIA_TYPE || str_eqb t TLS_SECRETS_MEDIA_TYPE
  | None => false
  end.

Definition omit_blobs (b : BatchPlan) : BatchPlan :=
  b <| ba_blobs ::= List.filter (fun blob => negb (is_sensitive_upload_media_type (bp_media_type blob))) |>.

Definition omit_sensitive_blob_plans (s : UploadState) : UploadState :=
  s <| us_batches ::= fmap omit_blobs |>.

Definition planned_sequence (s : UploadState) : N :=
  match last (us_batches s) with
  | Some batch => ba_last_seq batch
  | None => sat_sub (us_first_seq s) 1
  end.

Definition validate_sha (value : string) : result string unit :=
  ensure (canonical_hash value) "upload state contains an invalid SHA-256 digest".

Definition is_batch_boundary (s : UploadState) (sequence : N) : bool :=
  (sequence =? sat_sub (us_first_seq s) 1)
  || existsb (fun batch => ba_last_seq batch =? sequence) (us_batches s).

(** The loop of [validate_state_prefix]: the next sequence, the previous
    digest and the number of payload plans. *)
Definition validate_batch (acc : N * option string * N) (batch : BatchPlan)
    : result string (N * option string * N) :=
  let '(next, previous, blob_count) := acc in
  ensure (ba_first_seq batch =? next) "upload state has a sequence gap";;
  ensure ((ba_first_seq batch <=? ba_last_seq batch) && (ba_last_seq batch <=? MAX_PLATFORM_SEQUENCE)
          && (ba_event_count batch =? ba_last_seq batch - ba_first_seq batch + 1))
    "upload state has an invalid batch range";;
  ensure ((0 <? ba_byte_length batch) && (ba_byte_length batch <=? DEFAULT_BATCH_BYTES))
    "upload state has an invalid batch size";;
  validate_sha (ba_sha256 batch);;
  ensure (bool_decide (ba_prev_sha256 batch = previous)) "upload hash chain mismatch";;
  try_fold (fun _ blob =>
      validate_sha (bp_sha256 blob);;
      ensure (negb (is_sensitive_upload_media_type (bp_media_type blob)))
        "ordinary upload state contains a sensitive-tier blob") tt (ba_blobs batch);;
  next ← ok_or (checked_add (ba_last_seq batch) 1) "upload sequence overflow";
  Ok (next, Some (ba_sha256 batch), sat_add blob_count (nlen (ba_blobs batch))).

(** [chrono::TimeDelta::minutes(5)] *)
Definition FIVE_MINUTES : Z := 300 * 1000000000.

Definition validate_state_prefix (s : UploadState) (run_id recording_id api_origin : string)
    (available_seq : N) : result string N :=
  ensure (us_schema_version s =? STATE_SCHEMA_VERSION) "unsupported upload state";;
  ensure (str_eqb (us_api_origin s) api_origin) "upload state API origin mismatch";;
  ensure (str_eqb (us_run_id s) run_id) "upload state run ID mismatch";;
  ensure ((us_segment_no s <? MAX_RECORDING_SEGMENTS) && (0 <? us_first_seq s)
          && (us_first_seq s <=? MAX_PLATFORM_SEQUENCE))
    "upload state has an invalid segment identity";;
  ensure (us_created_at s <=? us_updated_at s + FIVE_MINUTES)%Z
    "upload state creation time is invalid";;
  ensure (str_eqb (us_recording_id s) recording_id) "upload state recording ID mismatch";;
  ensure ((us_batch_max_events s =? DEFAULT_BATCH_EVENTS)
          && (us_batch_max_bytes s =? DEFAULT_BATCH_BYTES))
    "upload state batch policy mismatch";;
  ensure (nlen (us_batches s) <=? MAX_BATCH_PLANS) "upload state has too many batches";;
  '(next, _, blob_count) ← try_fold validate_batch (us_first_seq s, None, 0) (us_batches s);
  let planned_seq := next - 1 in
  ensure (planned_seq <=? available_seq) "upload state exceeds available local evidence";;
  ensure (blob_count <=? MAX_BLOB_PLANS) "upload state has too many blob references";;
  ensure ((us_acked_seq s <=? planned_seq) && is_batch_boundary s (us_acked_seq s))
    "upload state acknowledged sequence is not a batch boundary";;
  ensure (negb (us_sealed s) || (us_acked_seq s =? planned_seq))
    "sealed upload state is not fully acknowledged";;
  Ok planned_seq.

Definition validate_state (s : UploadState) (run_id recording_id api_origin : string)
    (final_seq : N) : result string unit :=
  planned_seq ← validate_state_prefix s run_id recording_id api_origin final_seq;
  ensure (planned_seq =? final_seq) "upload state does not cover the event log".

Definition from_io_message {A} : io_result A -> result string A := map_err error_message.

Section State.
Context {dig : Digest} {hx : Hex} {zstd : Zstd} {serde : Serde} {serdeu : SerdeUpload} {url : UrlCrate}.

(** The names of recordings and of state files. *)
Definition recording_id_for_segment (run_id : string) (segment_no : N) : string :=
  let direct := run_id +:+ "#" +:+ format_padded 4 segment_no in
  if str_len direct <=? 240 then direct
  else "run-" +:+ hex_encode (sha256 (as_bytes run_id)) +:+ "#" +:+ format_padded 4 segment_no.

Definition recording_id (run_id : string) : string := recording_id_for_segment run_id 0.

Definition origin_digest (api_origin : string) : string := hex_encode (sha256 (as_bytes api_origin)).

Definition segment_state_path (api_origin : string) (segment_no : N) : string :=
  let digest := origin_digest api_origin in
  if segment_no =? 0 then "state-" +:+ digest +:+ ".json"
  else "state-" +:+ digest +:+ "-segment-" +:+ format_padded 4 segment_no +:+ ".json".

(** What every reader of a state file does first. *)
Definition parse_state (spool : Spool) (path : string) : result string UploadState :=
  content ← from_io_message (read_regular_limited spool path MAX_STATE_BYTES);
  from_io_message (validate_json_complexity content);;
  ok_or (upload_from_slice content) "parse upload state".

Record SegmentState := mkSegmentState {
  sg_path : string;
  sg_state : UploadState;
  sg_planned_seq : N;
}.

Record SegmentCursor := mkSegmentCursor {
  cu_path : string;
  cu_recording_id : string;
  cu_segment_no : N;
  cu_first_seq : N;
}.

(** The segment a file name of the spool stands for, if it is one of the
    platform's state files. *)
Definition segment_of_name (api_origin name : string) : result string (option N) :=
  let digest := origin_digest api_origin in
  if str_eqb name ("state-" +:+ digest +:+ ".json") then Ok (Some 0)
  else match str_strip_prefix ("state-" +:+ digest +:+ "-segment-") name ≫= str_strip_suffix ".json" with
  | Some value =>
      parsed ← ok_or (parse_uint u32_max value) "upload state filename has an invalid segment number";
      ensure ((0 <? parsed) && (parsed <? MAX_RECORDING_SEGMENTS)
              && str_eqb value (format_padded 4 parsed))
        "upload state filename has a non-canonical segment number";;
      Ok (Some parsed)
  | None => Ok None
  end.

(** One entry of the directory. *)
Definition load_segment (spool : Spool) (api_origin run_id : string) (available_seq : N)
    (states : list SegmentState) (name : string) : result string (list SegmentState) :=
  segment ← segment_of_name api_origin name;
  match segment with
  | None => Ok states
  | Some segment_no =>
      ensure (nlen states <? MAX_RECORDING_SEGMENTS) "upload segment state limit exceeded";;
      state ← parse_state spool name;
      let state := omit_sensitive_blob_plans state in
      ensure (us_segment_no state =? segment_no) "upload state filename and segment identity disagree";;
      planned_seq ← validate_state_prefix state run_id (recording_id_for_segment run_id segment_no)
                      api_origin available_seq;
      ensure (str_eqb name (segment_state_path api_origin segment_no))
        "upload state path is not canonical";;
      Ok (states ++ [mkSegmentState name state planned_seq])
  end.

(** The loop over the sorted states: [index] and [expected_first] of the next. *)
Fixpoint check_chain (index expected_first : N) (states : list SegmentState) : result string unit :=
  match states with
  | [] => Ok tt
  | item :: rest =>
      ensure (us_segment_no (sg_state item) =? index) "upload segment chain has a gap or duplicate";;
      ensure (us_first_seq (sg_state item) =? expected_first)
        "upload segment chain has an event sequence gap or overlap";;
      (if bool_decide (rest = []) then Ok tt
       else ensure (us_sealed (sg_state item) && (us_acked_seq (sg_state item) =? sg_planned_seq item))
              "only the final upload segment may remain open");;
      expected_first ← ok_or (checked_add (sg_planned_seq item) 1) "upload sequence overflow";
      check_chain (index + 1) expected_first rest
  end.

(** [sort_by_key(|item| item.state.segment_no)] *)
Definition by_segment (a b : SegmentState) : Prop :=
  us_segment_no (sg_state a) <= us_segment_no (sg_state b).
#[export] Instance by_segment_dec : RelDecision by_segment.
Proof. unfold by_segment. intros a b. apply _. Defined.

Definition load_segment_chain (spool : Spool) (api_origin run_id : string) (available_seq : N)
    : result string (list SegmentState) :=
  states ← try_fold (load_segment spool api_origin run_id available_seq) []
             ((map_to_list spool).*1);
  let states := merge_sort by_segment states in
  check_chain 0 1 states;;
  Ok states.

(** ** The retention gate *)

Definition list_origin (spool : Spool) (run_id : string) (acc : list string * N) (name : string)
    : result string (list string * N) :=
  let '(origins, states) := acc in
  if negb (str_starts_with "state-" name) || negb (str_ends_with ".json" name) then Ok (origins, states)
  else
    let states := sat_add states 1 in
    ensure (states <=? MAX_TOTAL_UPLOAD_STATES) "total upload state limit exceeded";;
    state ← parse_state spool name;
    ensure (str_eqb (us_run_id state) run_id) "upload state run ID mismatch";;
    ensure (us_segment_no state <? MAX_RECORDING_SEGMENTS) "upload state has an invalid segment number";;
    parsed_origin ← ok_or (url_parse (us_api_origin state)) "upload state API origin";
    validate_api parsed_origin true;;
    ensure (str_eqb (canonical_origin parsed_origin) (us_api_origin state))
      "upload state API origin is not canonical";;
    ensure (str_eqb name (segment_state_path (us_api_origin state) (us_segment_no state)))
      "upload state path is not canonical";;
    let origins := set_insert (us_api_origin state) origins in
    ensure (nlen origins <=? MAX_UPLOAD_TARGETS) "upload target state limit exceeded";;
    Ok (origins, states).

Definition list_upload_origins (spool : Spool) (run_id : string) : result string (list string) :=
  '(origins, _) ← try_fold (list_origin spool run_id) ([], 0) ((map_to_list spool).*1);
  Ok origins.

Definition segment_complete (item : SegmentState) : bool :=
  (us_first_seq (sg_state item) <=? planned_sequence (sg_state item))
  && us_sealed (sg_state item) && (us_acked_seq (sg_state item) =? sg_planned_seq item).

Definition segment_chain_complete (states : list SegmentState) (final_seq : N) : bool :=
  match last states with
  | None => false
  | Some item => (sg_planned_seq item =? final_seq) && forallb segment_complete states
  end.

Definition verify_retention_gate (spool : option Spool) (run_id : string) (final_seq : N)
    : result string unit :=
  match spool with
  | None => Ok tt
  | Some spool =>
      origins ← list_upload_origins spool run_id;
      ensure (negb (bool_decide (origins = []))) "upload spool exists without a durable target state";;
      try_fold (fun _ origin =>
        states ← load_segment_chain spool origin run_id final_seq;
        ensure (segment_chain_complete states final_seq)
          "upload target has not acknowledged and sealed the full run") tt origins
  end.

Definition verify_uploaded_retention_gate (spool : option Spool) (run_id : string) (final_seq : N)
    : result string unit :=
  match spool with
  | None => Err "remote deletion requires a fully acknowledged upload target"
  | Some _ => verify_retention_gate spool run_id final_seq
  end.

(** ** The segment to work on *)

Definition next_segment (segment_no planned_seq : N) : result string (N * N) :=
  segment_no ← ok_or (if segment_no + 1 <=? u32_max then Some (segment_no + 1) else None)
                 "upload segment number overflow";
  ensure (segment_no <? MAX_RECORDING_SEGMENTS) "upload recording segment limit exceeded";;
  first_seq ← ok_or (checked_add planned_seq 1) "upload sequence overflow";
  Ok (segment_no, first_seq).

Definition segment_cursor (api_origin run_id : string) (segment_no first_seq : N) : SegmentCursor :=
  mkSegmentCursor (segment_state_path api_origin segment_no)
    (recording_id_for_segment run_id segment_no) segment_no first_seq.

Definition select_segment_cursor (spool : Spool) (api_origin run_id : string) (available_seq : N)
    : result string (list SegmentState * SegmentCursor) :=
  states ← load_segment_chain spool api_origin run_id available_seq;
  '(segment_no, first_seq) ←
    match last states with
    | None => Ok (0, 1)
    | Some item =>
        if negb (us_sealed (sg_state item)) || (sg_planned_seq item =? available_seq)
        then Ok (us_segment_no (sg_state item), us_first_seq (sg_state item))
        else
          ensure (sg_planned_seq item <? available_seq)
            "upload segment chain exceeds the requested durable boundary";;
          next_segment (us_segment_no (sg_state item)) (sg_planned_seq item)
    end;
  Ok (states, segment_cursor api_origin run_id segment_no first_seq).

(** The segment number in a recording ID. *)
Definition segment_of_recording (run_id expected_recording_id : string) : result string N :=
  '(_, suffix) ← ok_or (str_rsplit_once x23 expected_recording_id)
                   "collector request recording ID has no segment suffix";
  ensure ((str_len suffix =? 4) && str_all is_ascii_digit suffix)
    "collector request recording ID has an invalid segment suffix";;
  segment_no ← ok_or (parse_uint u32_max suffix) "collector request recording segment is invalid";
  ensure ((segment_no <? MAX_RECORDING_SEGMENTS)
          && str_eqb (recording_id_for_segment run_id segment_no) expected_recording_id)
    "collector request recording ID does not belong to the local run";;
  Ok segment_no.

Definition select_expected_segment_cursor (spool : Spool)
    (api_origin run_id expected_recording_id : string) (durable_boundary available_seq : N)
    : result string (list SegmentState * SegmentCursor) :=
  ensure (durable_boundary <=? available_seq)
    "persisted collector request boundary exceeds durable local evidence";;
  segment_no ← segment_of_recording run_id expected_recording_id;
  states ← load_segment_chain spool api_origin run_id available_seq;
  cursor ←
    match states !! N.to_nat segment_no with
    | Some item =>
        ensure (us_segment_no (sg_state item) =? segment_no)
          "collector request recording segment is not contiguous";;
        ensure (sg_planned_seq item <=? durable_boundary)
          "collector request boundary was superseded inside an unsealed segment";;
        (if us_sealed (sg_state item) || (segment_no + 1 <? nlen states)
         then ensure (sg_planned_seq item =? durable_boundary)
                "collector request boundary does not match the immutable segment seal"
         else Ok tt);;
        Ok (mkSegmentCursor (sg_path item) (us_recording_id (sg_state item)) segment_no
              (us_first_seq (sg_state item)))
    | None =>
        ensure (segment_no =? nlen states) "collector request recording segment has a gap";;
        first_seq ←
          match last states with
          | Some item =>
              ensure (us_sealed (sg_state item))
                "collector request cannot skip an open recording segment";;
              ok_or (checked_add (sg_planned_seq item) 1) "upload sequence overflow"
          | None => Ok 1
          end;
        ensure (first_seq <=? durable_boundary)
          "collector request recording segment starts after its durable boundary";;
        Ok (mkSegmentCursor (segment_state_path api_origin segment_no) expected_recording_id
              segment_no first_seq)
    end;
  Ok (states, cursor).

(** ** Batch plans *)

(** The items a [RunEventReader] has still to give. *)
Definition Stream := list (storage_result EventEnvelope).

Definition storage_message {A} (r : storage_result A) : result string A :=
  map_err (fun e => match e with Io e => error_message e | Writer m => m | _ => "storage error" end) r.

Definition event_line (e : EventEnvelope) : result string bytes :=
  text ← ok_or (envelope_to_vec e) "serialization";
  Ok (text ++ [LF]).

Definition add_blob_plan (blobs : list (string * BlobPlan)) (reference : option PayloadRef)
    : result string (list (string * BlobPlan)) :=
  match reference with
  | None => Ok blobs
  | Some reference =>
      if is_sensitive_upload_media_type (ref_media_type reference) then Ok blobs
      else
        sha ← ok_or (str_strip_prefix "sha256:" (ref_sha256 reference))
                "raw payload reference has no sha256 prefix";
        match map_get sha blobs with
        | Some existing =>
            ensure (bp_size existing =? ref_size reference)
              "the same blob digest has conflicting sizes";;
            Ok blobs
        | None =>
            Ok (map_insert sha (mkBlobPlan sha (ref_size reference) (ref_media_type reference)) blobs)
        end
  end.

(** [finish_plan], at time [now]. *)
Definition finish_plan (first_seq last_seq event_count : N) (raw : bytes)
    (blobs : list (string * BlobPlan)) (previous : option string) (now : DateTime)
    : result string BatchPlan :=
  ensure ((0 <? first_seq) && (first_seq <=? last_seq)) "invalid batch sequence range";;
  ensure (0 <? event_count) "empty batch plan";;
  Ok (mkBatchPlan first_seq last_seq event_count (nlen raw) (hex_encode (sha256 raw)) previous
        (snd <$> blobs) now).

(** The variables of [build_batch_plans_range]. *)
Record Planning := mkPlanning {
  pl_batches : list BatchPlan;
  pl_raw : bytes;
  pl_first_seq : N;
  pl_last_seq : N;
  pl_count : N;
  pl_blobs : list (string * BlobPlan);
  pl_previous : option string;
  pl_expected : N;
}.

#[export] Instance Planning_settable : Settable Planning := fun p =>
  mkPlanning (pl_batches p) (pl_raw p) (pl_first_seq p) (pl_last_seq p) (pl_count p) (pl_blobs p)
    (pl_previous p) (pl_expected p).

(** A batch is closed. *)
Definition close_batch (now : DateTime) (p : Planning) : result string Planning :=
  plan ← finish_plan (pl_first_seq p) (pl_last_seq p) (pl_count p) (pl_raw p) (pl_blobs p)
           (pl_previous p) now;
  ensure (nlen (pl_batches p ++ [plan]) <=? MAX_BATCH_PLANS) "upload batch plan limit exceeded";;
  Ok (mkPlanning (pl_batches p ++ [plan]) [] (pl_first_seq p) (pl_last_seq p) 0 []
        (Some (ba_sha256 plan)) (pl_expected p)).

(** An event within the range. *)
Definition plan_event (now : DateTime) (p : Planning) (e : EventEnvelope) : result string Planning :=
  ensure (ev_sequence e =? pl_expected p) "event log does not cover the requested upload range";;
  expected ← ok_or (checked_add (pl_expected p) 1) "upload sequence overflow";
  line ← event_line e;
  ensure (nlen line <=? DEFAULT_BATCH_BYTES)
    "event exceeds the upload inline limit; payloads must use raw blob references";;
  p ← (if (0 <? pl_count p)
          && ((pl_count p =? DEFAULT_BATCH_EVENTS) || (DEFAULT_BATCH_BYTES <? nlen (pl_raw p) + nlen line))
       then close_batch now p else Ok p);
  blobs ← add_blob_plan (pl_blobs p) (ev_raw e);
  Ok (mkPlanning (pl_batches p) (pl_raw p ++ line)
        (if pl_count p =? 0 then ev_sequence e else pl_first_seq p) (ev_sequence e)
        (pl_count p + 1) blobs (pl_previous p) expected).

(** The loop over the reader. *)
Fixpoint plan_events (first_seq last_seq : N) (now : DateTime) (p : Planning) (reader : Stream)
    : result string Planning :=
  match reader with
  | [] => Ok p
  | event :: reader' =>
      e ← storage_message event;
      if ev_sequence e <? first_seq then plan_events first_seq last_seq now p reader'
      else if last_seq <? ev_sequence e then Ok p
      else p ← plan_event now p e; plan_events first_seq last_seq now p reader'
  end.

Definition blob_plan_count (batches : list BatchPlan) : N :=
  foldr (fun batch total => nlen (ba_blobs batch) + total) 0 batches.

(** What the loop leaves makes the last batch. *)
Definition finish_planning (now : DateTime) (p : Planning) : result string (list BatchPlan) :=
  if 0 <? pl_count p then
    plan ← finish_plan (pl_first_seq p) (pl_last_seq p) (pl_count p) (pl_raw p) (pl_blobs p)
             (pl_previous p) now;
    Ok (pl_batches p ++ [plan])
  else Ok (pl_batches p).

Definition build_batch_plans_range (reader : Stream) (requested_first_seq requested_last_seq : N)
    (previous_sha256 : option string) (now : DateTime) : result string (list BatchPlan) :=
  ensure ((0 <? requested_first_seq) && (requested_first_seq <=? requested_last_seq))
    "invalid upload planning range";;
  p ← plan_events requested_first_seq requested_last_seq now
        (mkPlanning [] [] 0 0 0 [] previous_sha256 requested_first_seq) reader;
  batches ← finish_planning now p;
  ensure (negb (bool_decide (batches = []))) "cannot upload an empty event range";;
  (if requested_last_seq =? u64_max then Ok tt
   else ensure (pl_expected p =? sat_add requested_last_seq 1)
          "event log ends before the requested upload boundary");;
  ensure (blob_plan_count batches <=? MAX_BLOB_PLANS) "upload blob plan limit exceeded";;
  Ok batches.

Definition extend_state_to (s : UploadState) (reader : Stream) (target_seq : N) (now : DateTime)
    : result string UploadState :=
  let planned_seq := planned_sequence s in
  if planned_seq =? target_seq then Ok s
  else
    ensure (planned_seq <? target_seq) "upload state exceeds requested boundary";;
    ensure (negb (us_sealed s)) "sealed upload state cannot be extended";;
    first_seq ← ok_or (checked_add planned_seq 1) "upload sequence overflow";
    additional ← build_batch_plans_range reader first_seq target_seq (ba_sha256 <$> last (us_batches s)) now;
    let s := s <| us_batches ::= fun batches => batches ++ additional |> in
    ensure (nlen (us_batches s) <=? MAX_BATCH_PLANS) "upload batch plan limit exceeded";;
    Ok (s <| us_updated_at := now |>).

(** ** Sending a batch *)

(** The inner loop of [read_batch]: the first event from [expected] on. *)
Fixpoint next_from (expected : N) (reader : Stream) : result string (EventEnvelope * Stream) :=
  match reader with
  | [] => Err "event log ended before the upload plan"
  | event :: reader' =>
      e ← storage_message event;
      if expected <=? ev_sequence e then Ok (e, reader') else next_from expected reader'
  end.

Fixpoint read_events (count : nat) (expected : N) (raw : bytes) (reader : Stream)
    : result string (bytes * Stream) :=
  match count with
  | O => Ok (raw, reader)
  | S count' =>
      '(e, reader) ← next_from expected reader;
      ensure (ev_sequence e =? expected) "event sequence changed after spooling";;
      line ← event_line e;
      read_events count' (expected + 1) (raw ++ line) reader
  end.

Definition read_batch (reader : Stream) (plan : BatchPlan) : result string (bytes * Stream) :=
  '(raw, reader) ← read_events (N.to_nat (ba_last_seq plan + 1 - ba_first_seq plan))
                     (ba_first_seq plan) [] reader;
  ensure (nlen raw =? ba_byte_length plan) "batch byte length changed after spooling";;
  ensure (str_eqb (hex_encode (sha256 raw)) (ba_sha256 plan)) "batch content changed after spooling";;
  Ok (raw, reader).

Definition batch_id (recording_id : string) (plan : BatchPlan) : string :=
  recording_id +:+ ":" +:+ format_padded 12 (ba_first_seq plan) +:+ "-"
  +:+ format_padded 12 (ba_last_seq plan).

Definition encode_batch_body (recording_id : string) (plan : BatchPlan) (raw : bytes)
    : result string bytes :=
  compressed ← ok_or (zstd_compress raw) "compress upload batch";
  header ← ok_or (header_to_vec
    (mkBatchHeader (batch_id recording_id plan) recording_id 1 (ba_first_seq plan) (ba_last_seq plan)
       (ba_event_count plan) (ba_byte_length plan) (ba_sha256 plan) (ba_prev_sha256 plan)
       "ndjson+zstd" ((fun blob => (bp_sha256 blob, bp_size blob)) <$> ba_blobs plan)
       (ba_created_at plan))) "serialization";
  ensure (nlen header + 1 + nlen compressed <=? MAX_WIRE_BATCH_BYTES)
    "compressed upload batch exceeds wire limit";;
  Ok (header ++ [LF] ++ compressed).

(** ** The platform's answers *)

Definition reconcile_remote (s : UploadState) (remote : RemoteRecording) (now : DateTime)
    : result string UploadState :=
  let sequence_base := sat_sub (us_first_seq s) 1 in
  let final_seq := planned_sequence s in
  ensure ((rr_segment_no remote =? us_segment_no s) && (rr_sequence_base remote =? sequence_base))
    "platform recording segment identity conflicts with local evidence";;
  ensure ((sequence_base <=? rr_durable_seq remote) && (rr_durable_seq remote <=? final_seq))
    "platform durable sequence exceeds local evidence";;
  ensure (is_batch_boundary s (rr_durable_seq remote))
    "platform durable sequence does not match the fixed local batch plan";;
  (if str_eqb (rr_state remote) "sealed" then
     match rr_final_seq remote with
     | Some remote_final =>
         ensure (remote_final =? final_seq) "platform final sequence conflicts with local evidence"
     | None => Ok tt
     end
   else ensure (str_eqb (rr_state remote) "open") "platform recording is not uploadable");;
  Ok (s <| us_acked_seq := rr_durable_seq remote |>
        <| us_sealed := str_eqb (rr_state remote) "sealed" && (rr_durable_seq remote =? final_seq) |>
        <| us_updated_at := now |>).

Definition validate_ack (s : UploadState) (batch : BatchPlan) (ack : BatchAck) : result string unit :=
  ensure (str_eqb (ack_recording_id ack) (us_recording_id s))
    "platform acknowledged a different recording";;
  ensure (str_eqb (ack_state ack) "open" || str_eqb (ack_state ack) "sealed")
    "platform returned an invalid recording state";;
  ensure ((ba_last_seq batch <=? ack_durable_seq ack) && (ack_durable_seq ack <=? planned_sequence s)
          && is_batch_boundary s (ack_durable_seq ack))
    "platform returned an invalid durable sequence";;
  ensure (bool_decide (ack_missing_blobs ack = [])) "platform reports missing uploaded blobs".

(** ** New states, sizes, tokens *)

Definition new_state (run_id recording_id api_origin : string) (segment_no first_seq : N)
    (created_at updated_at : DateTime) : UploadState :=
  mkUploadState STATE_SCHEMA_VERSION api_origin run_id recording_id segment_no first_seq
    DEFAULT_BATCH_EVENTS DEFAULT_BATCH_BYTES (sat_sub first_seq 1) false None 0%Z [] created_at updated_at.

(** [load_or_create_state] up to the write of its result. *)
Definition load_or_new (spool : Spool) (path run_id recording_id api_origin : string)
    (segment_no first_seq target_seq : N) (created_at updated_at : DateTime)
    : result string UploadState :=
  state ← match spool !! path with
          | Some _ => parse_state spool path
          | None => Ok (new_state run_id recording_id api_origin segment_no first_seq created_at updated_at)
          end;
  let state := omit_sensitive_blob_plans state in
  ensure ((us_segment_no state =? segment_no) && (us_first_seq state =? first_seq))
    "upload state segment identity mismatch";;
  _ ← validate_state_prefix state run_id recording_id api_origin target_seq;
  Ok state.

(** [write_state]: a new file renamed over the old one. *)
Definition write_state (spool : Spool) (path : string) (s : UploadState) : result string Spool :=
  text ← ok_or (upload_to_vec s) "serialization";
  Ok (<[path := text ++ [LF]]> spool).

Definition segment_logical_bytes (plans : list BatchPlan) : result string N :=
  '(total, _) ← try_fold (fun '(total, blobs) batch =>
    total ← ok_or (checked_add total (ba_byte_length batch)) "recording segment size overflow";
    try_fold (fun '(total, blobs) blob =>
      if bool_decide (bp_sha256 blob ∈ (blobs : gset string)) then Ok (total, blobs)
      else
        total ← ok_or (checked_add total (bp_size blob)) "recording segment size overflow";
        Ok (total, {[ bp_sha256 blob ]} ∪ blobs)) (total, blobs) (ba_blobs batch))
    (0, ∅) plans;
  Ok total.

(** [byte.is_ascii_graphic()] *)
Definition is_ascii_graphic (b : byte) : bool := in_range 33 126 b.

(** The characters popped from the end of the token. *)
Fixpoint trim_end (l : bytes) : bytes :=
  match l with
  | [] => []
  | b :: l' => match trim_end l' with [] => if beqb b CR || beqb b LF then [] else [b] | r => b :: r end
  end.

(** [read_token] of a file with its permission bits. *)
Definition read_token (mode : N) (content : bytes) : result string string :=
  ensure (N.land mode 63 =? 0) "platform token file must not be accessible by group or other users";;
  ensure (nlen content <=? MAX_TOKEN_BYTES) "platform token exceeds the safety limit";;
  ensure (utf8_valid content) "platform token is not UTF-8";;
  let token := trim_end content in
  ensure (negb (bool_decide (token = []))) "platform token file is empty";;
  ensure (forallb is_ascii_graphic token) "platform token contains whitespace or control bytes";;
  Ok (of_bytes token).
End State.
