(* ===== verification/Migration.v ===== *)
(** * src/migration.rs

    The migration of a run whose manifest was written before manifests were
    authenticated: when it writes, what it writes, and that it is done once. *)

From Stdlib Require Import Strings.Byte.
From S2P Require Import Prelude RustStd External Json Input Model Policy Crypto EventLog Manifest BlobStore Erasure.
From S2P Require Import Inspect UploadState.
From stdpp Require Import pretty options.
Local Open Scope N_scope.
#[local] Unset Default Proof Using.

Record MigrationReport := mkMigrationReport {
  mr_run_id : string;
  mr_changed : bool;
  mr_manifest_authenticated : option bool;
  mr_event_schema : N;
  mr_manifest_schema : N;
}.

Section Migration.
Context {dig : Digest} {hx : Hex} {b64 : Base64} {aead : Aead} {zstd : Zstd} {http : Http}
  {serde : Serde} {serdeb : SerdeBlock} {serdem : SerdeManifest} {serdee : SerdeErasure}.

Definition migration_report (m : Manifest) (changed : bool) (authenticated : option bool) : MigrationReport :=
  mkMigrationReport (m_run_id m) changed authenticated SCHEMA_VERSION (m_schema_version m).

(** What is required of a run before its manifest is written again. *)
Definition check_migratable (m : Manifest) (manifest events : option bytes) (d : RunDir) (key : option EncryptionKey)
    : result string unit :=
  ensure (negb (str_eqb (m_status m) "running")) "refusing to migrate a run that is still being recorded";;
  inspection ← storage_message (inspect_run_with_key manifest events d true key);
  ensure (discarded_tail_bytes (in_log inspection) =? 0)
    "run has an incomplete event tail; recover it before migration";;
  ensure (no_strings (in_missing_blobs inspection) && no_strings (in_corrupt_blobs inspection))
    "run must pass blob integrity checks before migration".

(** The manifest that was written, read back. *)
Definition check_migrated (file : bytes) (key : option EncryptionKey) : result string MigrationReport :=
  migrated ← message (read_manifest (Some file));
  authenticated ← message (verify_authentication migrated key);
  ensure (bool_decide (authenticated = Some true)) "post-migration manifest authentication failed";;
  Ok (migration_report migrated true (Some true)).

(** The result and the manifest file it leaves. *)
Definition migrate_run (manifest events : option bytes) (d : RunDir) (key : option EncryptionKey) (nonce : bytes)
    : result string MigrationReport * option bytes :=
  let checked :=
    m ← message (read_manifest manifest);
    authentication ← message (verify_authentication m key);
    if negb (bool_decide (authentication = Some false)) then Ok (inl (migration_report m false authentication))
    else
      check_migratable m manifest events d key;;
      file ← message (write_atomic_authenticated m key nonce);
      Ok (inr file) in
  match checked with
  | Err e => (Err e, manifest)
  | Ok (inl report) => (Ok report, manifest)
  | Ok (inr file) => (check_migrated file key, Some file)
  end.
End Migration.

(** ** What a migration does *)

Section Migrated.
Context {dig : Digest} {hx : Hex} {b64 : Base64} {aead : Aead} {zstd : Zstd} {http : Http}
  {serde : Serde} {serdeb : SerdeBlock} {serdem : SerdeManifest} {serdee : SerdeErasure}.
Context {b64l : Base64Laws} {aeadl : AeadLaws} {seml : SerdeManifestLaws}.

(** The manifest of an ended run without findings, with the authentication it
    lacked and nothing else changed. *)
Definition upgraded (manifest events : option bytes) (d : RunDir) (key : option EncryptionKey) (file : option bytes)
    : Prop :=
  exists m m' i, read_manifest manifest = Ok m /\ verify_authentication m key = Ok (Some false) /\
    m_status m <> "running" /\ inspect_run_with_key manifest events d true key = Ok i /\
    discarded_tail_bytes (in_log i) = 0 /\ in_missing_blobs i = [] /\ in_corrupt_blobs i = [] /\
    read_manifest file = Ok m' /\ verify_authentication m' key = Ok (Some true) /\
    with_authentication m' None = with_authentication m None.

Lemma migratable m manifest events d key : check_migratable m manifest events d key = Ok tt ->
  m_status m <> "running" /\ exists i, inspect_run_with_key manifest events d true key = Ok i /\
    discarded_tail_bytes (in_log i) = 0 /\ in_missing_blobs i = [] /\ in_corrupt_blobs i = [].
Proof.
  unfold check_migratable. intros ([] & Hs%ensure_ok & (i & Hi%map_err_ok & ([] & Ht%ensure_ok & Hb%ensure_ok)%bind_ok)%bind_ok)%bind_ok.
  apply negb_true_iff in Hs. rewrite andb_true_iff in Hb. unfold no_strings in Hb. rewrite !bool_decide_eq_true in Hb.
  split; [intros E%str_eqb_true; congruence|]. exists i. rewrite N.eqb_eq in Ht. tauto.
Qed.

(** A run with an authenticated manifest, or a plaintext one, is left alone. *)
Lemma migrate_again file events d key nonce m a : read_manifest file = Ok m -> verify_authentication m key = Ok a ->
  a <> Some false -> migrate_run file events d key nonce = (Ok (migration_report m false a), file).
Proof.
  intros Hm Ha Hne. unfold migrate_run, message. rewrite Hm. cbn [map_err mbind result_bind]. rewrite Ha.
  cbn [map_err mbind result_bind]. by rewrite bool_decide_eq_false_2.
Qed.

Lemma authenticated_storage m key : verify_authentication m key = Ok (Some false) -> sm_encryption (m_storage m) <> None.
Proof. unfold verify_authentication. by destruct (sm_encryption _). Qed.

(** What was written is found authenticated when it is read back. *)
Lemma migrated_checked m key nonce b : nlen nonce = 24 -> verify_authentication m key = Ok (Some false) ->
  write_atomic_authenticated m key nonce = Ok b ->
  exists m', read_manifest (Some b) = Ok m' /\ verify_authentication m' key = Ok (Some true) /\
    with_authentication m' None = with_authentication m None /\
    check_migrated b key = Ok (migration_report m' true (Some true)).
Proof.
  intros Hn Ha Hw. destruct (written_opens _ _ _ _ Hn Hw) as (m' & eff & Hsame & _ & Ho & Hv).
  apply authenticated_storage in Ha. destruct (sm_encryption (m_storage m)); [|done].
  unfold open_run in Ho. apply bind_ok in Ho as (x & Hx%map_err_ok & Ho).
  apply bind_ok in Ho as (y & _ & Ho). apply bind_ok in Ho as (z & _ & [= -> _]).
  exists m'. split_and!; try done. unfold check_migrated, message. rewrite Hx. cbn [map_err mbind result_bind].
  rewrite Hv. cbn [map_err mbind result_bind]. by rewrite bool_decide_eq_true_2.
Qed.

(** C33: A migration writes the manifest only of an ended encrypted run without
    findings whose manifest has no authentication, and then it returns: the file
    reads as the same manifest, authenticated under the key.  Otherwise the
    manifest is as it was.  After a migration that returns, the manifest is not
    one that lacks authentication, and a second one changes nothing. *)
Theorem migration_exact manifest events d key nonce r file (Hnonce : nlen nonce = 24)
    (H : migrate_run manifest events d key nonce = (r, file)) :
  (file = manifest \/
   upgraded manifest events d key file /\ exists report, r = Ok report /\ mr_changed report = true) /\
  forall report, r = Ok report ->
    (mr_changed report = false -> file = manifest) /\ mr_manifest_authenticated report <> Some false /\
    exists m, read_manifest file = Ok m /\ verify_authentication m key = Ok (mr_manifest_authenticated report) /\
      forall nonce', migrate_run file events d key nonce' =
        (Ok (migration_report m false (mr_manifest_authenticated report)), file).
Proof.
  unfold migrate_run in H. destruct (message (read_manifest manifest)) as [m|e] eqn:Hm.
  2: { injection H as <- <-. by split; [left|]. }
  cbn [mbind result_bind] in H. destruct (message (verify_authentication m key)) as [a|e] eqn:Ha.
  2: { injection H as <- <-. by split; [left|]. }
  cbn [mbind result_bind] in H. apply map_err_ok in Hm, Ha. case_bool_decide as Hc; cbn [negb] in H.
  2: { injection H as <- <-. split; [by left|]. intros report [= <-]. cbn. split; [done|]. split; [done|].
       exists m. split; [done|]. split; [done|]. intros nonce'. by apply migrate_again. }
  subst a. destruct (check_migratable m manifest events d key) as [[]|e] eqn:Hk.
  2: { injection H as <- <-. by split; [left|]. }
  cbn [mbind result_bind] in H. destruct (message (write_atomic_authenticated m key nonce)) as [b|e] eqn:Hw.
  2: { injection H as <- <-. by split; [left|]. }
  injection H as <- <-. apply map_err_ok in Hw. apply migratable in Hk as (Hs & i & Hi & Ht & Hmiss & Hcorr).
  destruct (migrated_checked _ _ _ _ Hnonce Ha Hw) as (m' & Hm' & Ha' & Hsame & Hr). rewrite Hr. split.
  - right. split; [|by eexists]. by exists m, m', i.
  - intros report [= <-]. cbn. split; [done|]. split; [done|]. exists m'. split; [done|]. split; [done|].
    intros nonce'. by apply migrate_again.
Qed.
End Migrated.

(** ** Witnesses *)

Module MigrationExamples.
Import Concrete CryptoExamples ManifestExamples.

(** The manifest of an encrypted run as it was written before, and a serializer
    of it with and without its authentication. *)
Definition legacy : bytes := as_bytes "{ }" ++ [LF].
#[local] Instance legacy_serde : SerdeManifest := {|
  manifest_to_vec m := if bool_decide (m = sample) then Some canonical else None;
  manifest_to_vec_pretty m := if bool_decide (m = signed) then Some canonical else None;
  manifest_from_slice b :=
    if bool_decide (b = canonical ++ [LF]) then Some signed
    else if bool_decide (b = legacy) then Some sample else None;
|}.
#[local] Instance legacy_laws : SerdeManifestLaws.
Proof.
  split. intros m b. cbn [manifest_to_vec_pretty manifest_from_slice legacy_serde].
  case_bool_decide as Hm; [intros [= <-]; by rewrite bool_decide_eq_true_2, Hm|done].
Qed.
#[local] Instance no_events : Serde := {|
  encrypted_event_to_vec _ := None;
  encrypted_event_from_slice _ := None;
  envelope_to_vec _ := None;
  envelope_from_slice _ := None;
  value_from_slice _ := None;
|}.
#[local] Instance no_blocks : SerdeBlock := {| block_to_vec _ := None; block_from_slice _ := None |}.
#[local] Instance no_erasures : SerdeErasure := {| erasure_to_vec _ := None; erasure_from_slice _ := None |}.

Definition dir : RunDir :=
  default (mkRunDir ∅ None ∅) (ok (initialize_keyring (mkRunDir ∅ None ∅) run_key (fun _ => (raw_key, nonce)))).
Definition migrated := migrate_run (Some legacy) (Some []) dir (Some key) nonce.

Lemma migration_exact_witness :
  migrated = (Ok (migration_report signed true (Some true)), Some (canonical ++ [LF])) /\
  upgraded (Some legacy) (Some []) dir (Some key) (Some (canonical ++ [LF])).
Proof.
  assert (migrated = (Ok (migration_report signed true (Some true)), Some (canonical ++ [LF]))) as H
    by (vm_compute; reflexivity).
  split; [exact H|].
  destruct (proj1 (migration_exact (Some legacy) (Some []) dir (Some key) nonce _ _ eq_refl H)) as [E|[Hu _]];
    [discriminate E|exact Hu].
Defined.
End MigrationExamples.
