(* ===== verification/Retention.v ===== *)
(** * The rest of src/retention.rs: pruning, remote deletion and expiry

    Whole-run deletion by age or by request, and the expiry of payload classes,
    as procedures on the directory of the runs and its audit log.  A run moves
    out of the way under a quarantine name before its files are removed.  The
    entries of the directory are listed in the order of their names; sorting
    decides what the reports and the loops see. *)

From Stdlib Require Import Strings.Byte Sorting.
From S2P Require Import Prelude RustStd Proc External Json Input Model ProbePlan Policy Crypto EventLog Manifest BlobStore AuditLog Erasure UploadState.
From stdpp Require Import pretty sorting options.
Local Open Scope N_scope.
#[local] Unset Default Proof Using.

Definition MAX_RUN_ENTRIES : N := 100000.
Definition MAX_DIRECTORY_ENTRIES : N := 1000000.

(** [TimeDelta::MAX]. *)
Definition MAX_TIME_DELTA : N := 9223372036854775807000000.

(** The text serde gives a time. *)
Class ChronoText := { to_rfc3339 : DateTime -> string }.

(** ** The directory of the runs *)

(** What a directory holds, for the measure of its size. *)
Inductive Node :=
| FileNode (len : N)
| DirNode (entries : list Node)
| LinkNode
| OtherNode.

Record Run := mkRun {
  r_manifest : option bytes;
  r_dir : RunDir;
  r_spool : option Spool;
  r_files : list Node;
}.

(** A directory with its device and inode, or a file or a link. *)
Inductive Entry :=
| Directory (identity : N * N) (run : Run)
| NotDirectory.

Record Runs := mkRuns {
  d_entries : gmap string Entry;
  d_audit : option bytes;
}.
#[export] Instance Runs_settable : Settable Runs := fun w => mkRuns (d_entries w) (d_audit w).

Notation proc := (Proc.proc Runs).

Definition set_audit (w : Runs) (file : bytes) : Runs := w <| d_audit := Some file |>.

(** ** The size of a run *)

(** One entry: the directories to visit, the entries and the bytes so far. *)
Definition size_entry (acc : list (list Node) * N * N) (entry : Node)
    : io_result (list (list Node) * N * N) :=
  let '(pending, entries, bytes) := acc in
  let entries := sat_add entries 1 in
  if MAX_DIRECTORY_ENTRIES <? entries
  then Err (io_error InvalidData "run exceeds the retention scan entry limit")
  else Ok (match entry with
           | LinkNode | OtherNode => (pending, entries, bytes)
           | DirNode inner => (inner :: pending, entries, bytes)
           | FileNode len => (pending, entries, sat_add bytes len)
           end).

Fixpoint size_loop (fuel : nat) (pending : list (list Node)) (entries bytes : N) : io_result N :=
  match fuel, pending with
  | _, [] => Ok bytes
  | O, _ => Ok bytes
  | S fuel', directory :: pending =>
      '(pending, entries, bytes) ← try_fold size_entry (pending, entries, bytes) directory;
      size_loop fuel' pending entries bytes
  end.

(** The number of directories bounds the rounds. *)
Fixpoint directories (n : Node) : nat :=
  match n with DirNode inner => S (sum_list (map directories inner)) | _ => 0 end.

Definition directory_size (root : list Node) : io_result N :=
  size_loop (S (sum_list (map directories root))) [root] 0 0.

(** ** Candidates *)

Record PruneCandidate := mkPruneCandidate {
  pc_run_id : string;
  pc_status : string;
  pc_finished_at : DateTime;
  pc_storage_bytes : N;
  pc_final_seq : N;
  pc_identity : N * N;
}.

Record PruneReport := mkPruneReport {
  pr_eligible : list PruneCandidate;
  pr_skipped : list (string * string);
  pr_deleted : N;
  pr_reclaimed_bytes : N;
}.

Record RemoteDeleteReport := mkRemoteDeleteReport {
  rd_run_id : string;
  rd_request_id : Uuid;
  rd_deleted : bool;
  rd_recovered : bool;
  rd_reclaimed_bytes : N;
}.

(** What a deletion takes from its environment: an identifier, what its audit
    records note, how much of a record is on disk when the process is killed
    while it writes it, what is left of a run when its removal stops half way,
    because the process is killed or with an error, and that error if there is
    one. *)
Record DeleteEnv := mkDeleteEnv {
  de_uuid : Uuid;
  de_intent_ctx : AuditContext;
  de_complete_ctx : AuditContext;
  de_torn : N;
  de_tear : Run -> Run;
  de_remove_error : option string;
}.

Section Retention.
Context {dig : Digest} {hx : Hex} {b64 : Base64} {aead : Aead} {http : Http}
  {serde : Serde} {serdem : SerdeManifest} {serdee : SerdeErasure} {serdea : SerdeAudit}
  {serdeu : SerdeUpload} {url : UrlCrate} {uuid : UuidDisplay} {chrono : ChronoText}.

Definition verify_manifest_for_prune (m : Manifest) (key : option EncryptionKey) : result string unit :=
  verified ← message (verify_authentication m key);
  match verified with
  | Some false => Err "encrypted legacy manifest is unauthenticated; inspect and migrate it before pruning"
  | _ => Ok tt
  end.

(** The directory [name] as a candidate: [None] if it is not due. *)
Definition inspect_run (name : string) (identity : N * N) (run : Run) (cutoff : DateTime)
    (key : option EncryptionKey) (require_upload_completion : bool)
    : result string (option PruneCandidate) :=
  m ← message (read_manifest (r_manifest run));
  ensure (str_eqb (m_run_id m) name) "manifest run ID does not match its directory";;
  if str_eqb (m_status m) "running" then Ok None
  else match m_finished_at m with
  | None => Ok None
  | Some finished_at =>
      if (cutoff <? finished_at)%Z then Ok None
      else
        verify_manifest_for_prune m key;;
        (if require_upload_completion
         then verify_retention_gate (r_spool run) (m_run_id m) (cc_events (m_counts m))
         else Ok tt);;
        storage_bytes ← message (directory_size (r_files run));
        Ok (Some (mkPruneCandidate (m_run_id m) (m_status m) finished_at storage_bytes
                    (cc_events (m_counts m)) identity))
  end.

Definition inspect_candidate (w : Runs) (name : string) (cutoff : DateTime)
    (key : option EncryptionKey) (require_upload_completion : bool)
    : result string (option PruneCandidate) :=
  match d_entries w !! name with
  | None => Err "No such file or directory"
  | Some NotDirectory => Err "candidate is not a real directory"
  | Some (Directory identity run) => inspect_run name identity run cutoff key require_upload_completion
  end.

Definition verify_uploaded (w : Runs) (c : PruneCandidate) : result string unit :=
  match d_entries w !! pc_run_id c with
  | Some (Directory _ run) => verify_uploaded_retention_gate (r_spool run) (pc_run_id c) (pc_final_seq c)
  | _ => Err "remote deletion requires a fully acknowledged upload target"
  end.

(** ** Changes of the directory *)

(** [renameat2] with [RENAME_NOREPLACE]. *)
Definition rename_no_replace (source target : string) : proc unit :=
  update (fun w =>
    entry ← ok_or (d_entries w !! source) "No such file or directory";
    match d_entries w !! target with
    | Some _ => Err "File exists"
    | None => Ok (w <| d_entries ::= fun entries => <[target := entry]> (delete source entries) |>)
    end).

(** [remove_dir_all]: killed, it leaves a part; with the error of an entry it
    could not remove, it leaves a part too. *)
Definition torn_run (name : string) (tear : Run -> Run) (w : Runs) : Runs :=
  match d_entries w !! name with
  | Some (Directory identity run) => w <| d_entries ::= <[name := Directory identity (tear run)]> |>
  | _ => w
  end.

Definition remove_dir_all (name : string) (env : DeleteEnv) : proc unit :=
  let torn := torn_run name (de_tear env) in
  update_or
    (fun w => match d_entries w !! name with
              | Some (Directory _ _) =>
                  Ok (match de_remove_error env with
                      | None => w <| d_entries ::= delete name |>
                      | Some _ => torn w
                      end)
              | _ => Err "Not a directory"
              end) torn;;
  lift (match de_remove_error env with None => Ok tt | Some e => Err e end).

Definition prune_details (c : PruneCandidate) : Value :=
  JObject [("finished_at", JString (to_rfc3339 (pc_finished_at c)));
           ("status", JString (pc_status c));
           ("storage_bytes", JNumber (PosInt (pc_storage_bytes c)))].

Definition append_prune_audit (outcome : string) (c : PruneCandidate) (ctx : AuditContext) (torn : N)
    : proc unit :=
  append_record d_audit set_audit "retention_delete" outcome (pc_run_id c) (prune_details c) ctx torn.

Definition remote_details (request_id : Uuid) (storage_bytes : N) (recovered : bool) : Value :=
  JObject [("recovered", JBool recovered);
           ("request_id", JString (uuid_to_string request_id));
           ("storage_bytes", JNumber (PosInt storage_bytes))].

Definition append_remote_delete_audit (outcome run_id : string) (request_id : Uuid) (storage_bytes : N)
    (recovered : bool) (ctx : AuditContext) (torn : N) : proc unit :=
  append_record d_audit set_audit "remote_delete" outcome run_id
    (remote_details request_id storage_bytes recovered) ctx torn.

(** ** Pruning *)

(** One entry of the directory: the entries seen, the candidates and the ones
    passed over with the reason. *)
Definition scan_entry (w : Runs) (cutoff : DateTime) (key : option EncryptionKey)
    (require_uploaded : bool) (acc : N * list PruneCandidate * list (string * string))
    (entry : string * Entry) : result string (N * list PruneCandidate * list (string * string)) :=
  let '(seen, eligible, skipped) := acc in
  let '(name, content) := entry in
  let seen := sat_add seen 1 in
  ensure (seen <=? MAX_RUN_ENTRIES) "runs directory exceeds the 100000-entry safety limit";;
  match content with
  | NotDirectory => Ok (seen, eligible, skipped)
  | Directory _ _ =>
      if negb (str_starts_with "run-" name) then Ok (seen, eligible, skipped)
      else match inspect_candidate w name cutoff key true with
      | Ok (Some c) =>
          if require_uploaded then
            match verify_uploaded w c with
            | Ok _ => Ok (seen, eligible ++ [c], skipped)
            | Err reason => Ok (seen, eligible, skipped ++ [(name, reason)])
            end
          else Ok (seen, eligible ++ [c], skipped)
      | Ok None => Ok (seen, eligible, skipped)
      | Err reason => Ok (seen, eligible, skipped ++ [(name, reason)])
      end
  end.

Definition scan_runs (w : Runs) (cutoff : DateTime) (key : option EncryptionKey) (require_uploaded : bool)
    : result string (list PruneCandidate * list (string * string)) :=
  '(_, eligible, skipped) ←
    try_fold (scan_entry w cutoff key require_uploaded) (0, [], []) (map_to_list (d_entries w));
  Ok (sort_by (fun c c' => pc_finished_at c ?= pc_finished_at c')%Z eligible,
      sort_by (fun s s' => String.compare s.1 s'.1) skipped).

Definition same_run (c c' : PruneCandidate) : bool :=
  str_eqb (pc_run_id c) (pc_run_id c') && (pc_finished_at c =? pc_finished_at c')%Z
  && bool_decide (pc_identity c = pc_identity c').

Definition quarantine_name (c : PruneCandidate) (id : Uuid) : string :=
  ".iorec-prune-" +:+ pc_run_id c +:+ "-" +:+ uuid_to_string id.

(** A directory that is not the one that was checked is put back. *)
Definition restore (c : PruneCandidate) (quarantine : string) : proc unit :=
  restored ← try_proc (rename_no_replace quarantine (pc_run_id c));
  lift (match restored with
        | Ok _ => Err ("run identity changed during prune and was restored: " +:+ pc_run_id c)
        | Err _ => Err "run identity changed during prune; quarantined path was retained"
        end).

Definition identity_of (w : Runs) (name : string) : result string (N * N) :=
  match d_entries w !! name with
  | Some (Directory identity _) => Ok identity
  | _ => Err "No such file or directory"
  end.

(** The candidate as it is now. *)
Definition revalidate (cutoff : DateTime) (key : option EncryptionKey) (require_uploaded : bool)
    (c : PruneCandidate) : proc PruneCandidate :=
  found ← look (fun w => inspect_candidate w (pc_run_id c) cutoff key true);
  revalidated ← lift (ok_or found ("run changed during prune: " +:+ pc_run_id c));
  look (fun w => if require_uploaded then verify_uploaded w revalidated else Ok tt);;
  lift (ensure (same_run revalidated c) ("run changed during prune: " +:+ pc_run_id c));;
  mret revalidated.

(** Out of the way, then out of existence. *)
Definition discard (c revalidated : PruneCandidate) (e : DeleteEnv) : proc unit :=
  let quarantine := quarantine_name c (de_uuid e) in
  rename_no_replace (pc_run_id c) quarantine;;
  identity ← look (fun w => identity_of w quarantine);
  (if bool_decide (identity = pc_identity revalidated) then mret tt else restore c quarantine);;
  remove_dir_all quarantine e.

Definition prune_one (cutoff : DateTime) (key : option EncryptionKey) (require_uploaded : bool)
    (env : string -> DeleteEnv) (totals : N * N) (c : PruneCandidate) : proc (N * N) :=
  let e := env (pc_run_id c) in
  revalidated ← revalidate cutoff key require_uploaded c;
  append_prune_audit "intent" revalidated (de_intent_ctx e) (de_torn e);;
  discard c revalidated e;;
  append_prune_audit "complete" revalidated (de_complete_ctx e) (de_torn e);;
  let '(deleted, reclaimed) := totals in
  mret (sat_add deleted 1, sat_add reclaimed (pc_storage_bytes revalidated)).

Definition prune_runs_inner (cutoff : DateTime) (execute : bool) (key : option EncryptionKey)
    (require_uploaded : bool) (env : string -> DeleteEnv) : proc PruneReport :=
  '(eligible, skipped) ← look (fun w => scan_runs w cutoff key require_uploaded);
  if negb execute then mret (mkPruneReport eligible skipped 0 0)
  else
    '(deleted, reclaimed) ← fold_proc (prune_one cutoff key require_uploaded env) (0, 0) eligible;
    mret (mkPruneReport eligible skipped deleted reclaimed).

Definition prune_runs (cutoff : DateTime) (execute : bool) (key : option EncryptionKey)
    (env : string -> DeleteEnv) : proc PruneReport :=
  prune_runs_inner cutoff execute key false env.
Definition prune_uploaded_runs (cutoff : DateTime) (execute : bool) (key : option EncryptionKey)
    (env : string -> DeleteEnv) : proc PruneReport :=
  prune_runs_inner cutoff execute key true env.

(** ** Deletion by request *)

(** One component of a path, which is its own file name. *)
Definition safe_run_name (run_id : string) : bool :=
  str_starts_with "run-" run_id && negb (str_any (fun b => beqb b x2f) run_id).

Definition delete_quarantine (request_id : Uuid) : string :=
  ".iorec-remote-delete-" +:+ uuid_to_string request_id.

(** The quarantine of an earlier attempt is there: its removal is finished. *)
Definition resume_delete (run_id : string) (request_id : Uuid) (env : DeleteEnv)
    : proc RemoteDeleteReport :=
  let quarantine := delete_quarantine request_id in
  reclaimed ← look (fun w =>
    match d_entries w !! quarantine with
    | Some (Directory _ run) =>
        ensure (bool_decide (d_entries w !! run_id = None)) "remote delete source and quarantine both exist";;
        message (directory_size (r_files run))
    | _ => Err "remote delete quarantine is not a real directory"
    end);
  remove_dir_all quarantine env;;
  append_remote_delete_audit "complete" run_id request_id reclaimed true (de_complete_ctx env) (de_torn env);;
  mret (mkRemoteDeleteReport run_id request_id true true reclaimed).

(** The run is gone: it must be on record why. *)
Definition confirm_delete (run_id : string) (request_id : Uuid) (env : DeleteEnv)
    : proc RemoteDeleteReport :=
  let request := uuid_to_string request_id in
  let confirmed := mkRemoteDeleteReport run_id request_id false true 0 in
  let record := append_remote_delete_audit "complete" run_id request_id 0 true (de_complete_ctx env)
                  (de_torn env) in
  completed ← look (fun w => has_request_record (d_audit w) "remote_delete" "complete" request);
  if (completed : bool) then mret confirmed
  else
    pruned ← look (fun w => has_run_record (d_audit w) "retention_delete" "complete" run_id);
    if (pruned : bool) then record;; mret confirmed
    else
      intended ← look (fun w => has_request_record (d_audit w) "remote_delete" "intent" request);
      lift (ensure intended "remote delete recording is not present locally");;
      record;;
      mret confirmed.

Definition begin_delete (run_id : string) (request_id : Uuid) (key : option EncryptionKey)
    (env : DeleteEnv) : proc RemoteDeleteReport :=
  let quarantine := delete_quarantine request_id in
  found ← look (fun w => inspect_candidate w run_id MAX_UTC key false);
  c ← lift (ok_or found "remote delete refuses a running recording");
  append_remote_delete_audit "intent" run_id request_id (pc_storage_bytes c) false (de_intent_ctx env)
    (de_torn env);;
  rename_no_replace run_id quarantine;;
  identity ← look (fun w => identity_of w quarantine);
  lift (ensure (bool_decide (identity = pc_identity c)) "remote delete quarantine identity mismatch");;
  remove_dir_all quarantine env;;
  append_remote_delete_audit "complete" run_id request_id (pc_storage_bytes c) false
    (de_complete_ctx env) (de_torn env);;
  mret (mkRemoteDeleteReport run_id request_id true false (pc_storage_bytes c)).

Definition delete_uploaded_run (run_id : string) (request_id : Uuid) (key : option EncryptionKey)
    (env : DeleteEnv) : proc RemoteDeleteReport :=
  lift (ensure (safe_run_name run_id) "remote delete run ID is not a safe directory name");;
  quarantined ← look (fun w => Ok (bool_decide (is_Some (d_entries w !! delete_quarantine request_id))));
  if (quarantined : bool) then resume_delete run_id request_id env
  else
    present ← look (fun w => Ok (bool_decide (is_Some (d_entries w !! run_id))));
    if (present : bool) then begin_delete run_id request_id key env
    else confirm_delete run_id request_id env.

(** ** Expiry of payload classes *)

Record BlobClassTtlPolicy := mkTtlPolicy {
  ttl_body : option N;
  ttl_pcap : option N;
  ttl_tls_secrets : option N;
}.

Definition ttl (p : BlobClassTtlPolicy) (class : BlobClass) : option N :=
  match class with
  | Body => ttl_body p
  | Pcap => ttl_pcap p
  | TlsSecrets => ttl_tls_secrets p
  end.

Definition validate_ttl (p : BlobClassTtlPolicy) : result string unit :=
  ensure (existsb (fun class => match ttl p class with Some _ => true | None => false end) all_classes)
    "at least one blob-class TTL is required";;
  ensure (forallb (fun t => negb (t =? 0)) (omap (ttl p) all_classes))
    "blob-class TTLs must be greater than zero".

Record BlobClassExpiryCandidate := mkExpiryCandidate {
  xc_run_id : string;
  xc_class : BlobClass;
  xc_finished_at : DateTime;
  xc_cutoff : DateTime;
}.

Record BlobClassExpiryReport := mkExpiryReport {
  xr_eligible : list BlobClassExpiryCandidate;
  xr_skipped : list (string * option BlobClass * string);
  xr_erased : list BlobClassErasureReport;
}.

(** The classes of a finished run that are due. *)
Definition expiry_candidates (name : string) (run : Run) (evaluated_at : DateTime)
    (policy : BlobClassTtlPolicy) (key : EncryptionKey) : result string (list BlobClassExpiryCandidate) :=
  m ← message (read_manifest (r_manifest run));
  ensure (str_eqb (m_run_id m) name) "manifest run ID does not match its directory";;
  match m_finished_at m with
  | None => Ok []
  | Some finished_at =>
      if str_eqb (m_status m) "running" then Ok []
      else
        ensure (bool_decide ((sm_encryption (m_storage m) ≫= em_blob_key_management)
                             = Some BLOB_KEY_MANAGEMENT_V1))
          "run does not support independent class erasure";;
        verified ← message (verify_authentication m (Some key));
        ensure (bool_decide (verified = Some true)) "class TTL requires an authenticated manifest";;
        effective ← message (effective_encryption_key m (Some key));
        run_key ← ok_or effective "class TTL requires encrypted storage";
        verify_retention_gate (r_spool run) (m_run_id m) (cc_events (m_counts m));;
        try_fold (fun candidates class =>
          match ttl policy class with
          | None => Ok candidates
          | Some ttl =>
              state ← message (read_erasure_state (r_dir run) run_key class);
              if match state with Some state => is_complete state | None => false end
              then Ok candidates
              else
                ensure (ttl <=? MAX_TIME_DELTA) "blob-class TTL exceeds chrono range";;
                let cutoff := (evaluated_at - Z.of_N ttl)%Z in
                ensure (MIN_UTC <=? cutoff)%Z "blob-class TTL cutoff underflows";;
                Ok (if (finished_at <=? cutoff)%Z
                    then candidates ++ [mkExpiryCandidate (m_run_id m) class finished_at cutoff]
                    else candidates)
          end) [] all_classes
  end.

Definition expiry_entry (evaluated_at : DateTime) (policy : BlobClassTtlPolicy) (key : EncryptionKey)
    (acc : N * list BlobClassExpiryCandidate * list (string * option BlobClass * string))
    (entry : string * Entry)
    : result string (N * list BlobClassExpiryCandidate * list (string * option BlobClass * string)) :=
  let '(seen, eligible, skipped) := acc in
  let '(name, content) := entry in
  let seen := sat_add seen 1 in
  ensure (seen <=? MAX_RUN_ENTRIES) "runs directory exceeds the 100000-entry safety limit";;
  match content with
  | NotDirectory => Ok (seen, eligible, skipped)
  | Directory _ run =>
      if negb (str_starts_with "run-" name) then Ok (seen, eligible, skipped)
      else match expiry_candidates name run evaluated_at policy key with
      | Ok candidates => Ok (seen, eligible ++ candidates, skipped)
      | Err reason => Ok (seen, eligible, skipped ++ [(name, None, reason)])
      end
  end.

Definition class_index (class : BlobClass) : N :=
  match class with Body => 0 | Pcap => 1 | TlsSecrets => 2 end.

Definition expiry_order (c c' : BlobClassExpiryCandidate) : comparison :=
  match (xc_finished_at c ?= xc_finished_at c')%Z with
  | Eq => match String.compare (xc_run_id c) (xc_run_id c') with
          | Eq => class_index (xc_class c) ?= class_index (xc_class c')
          | o => o
          end
  | o => o
  end.

(** The run as the world of an erasure. *)
Definition run_world (name : string) (w : Runs) : Erasure.World :=
  match d_entries w !! name with
  | Some (Directory _ run) => Erasure.mkWorld (r_manifest run) (r_dir run) (d_audit w)
  | _ => Erasure.mkWorld None (mkRunDir ∅ None ∅) (d_audit w)
  end.
Definition put_run_world (name : string) (v : Erasure.World) (w : Runs) : Runs :=
  match d_entries w !! name with
  | Some (Directory identity run) =>
      mkRuns (<[name := Directory identity
                  (mkRun (Erasure.w_manifest v) (Erasure.w_dir v) (r_spool run) (r_files run))]> (d_entries w))
        (Erasure.w_audit v)
  | _ => mkRuns (d_entries w) (Erasure.w_audit v)
  end.

(** The gate of the erasure, on the spool of the run. *)
Definition erasure_gate (run : Run) : result string unit :=
  m ← message (read_manifest (r_manifest run));
  verify_retention_gate (r_spool run) (m_run_id m) (cc_events (m_counts m)).

Definition with_gate (gate : result string unit) (env : ErasureEnv) : ErasureEnv :=
  mkErasureEnv gate (en_lock_free env) (en_operation_id env) (en_requested_at env)
    (en_completed_at env) (en_intent_nonce env) (en_complete_nonce env) (en_intent_ctx env)
    (en_complete_ctx env) (en_request_ctx env) (en_torn env).

Definition erase_run_class (name : string) (class : BlobClass) (key : EncryptionKey) (env : ErasureEnv)
    : proc BlobClassErasureReport :=
  gate ← look (fun w => match d_entries w !! name with
                        | Some (Directory _ run) => Ok (erasure_gate run)
                        | _ => Err "class erasure run path must be a real directory"
                        end);
  zoom (run_world name) (put_run_world name) (erase_blob_class name class key (with_gate gate env)).

Definition expire_one (key : EncryptionKey) (env : string -> BlobClass -> ErasureEnv)
    (acc : list (string * option BlobClass * string) * list BlobClassErasureReport)
    (c : BlobClassExpiryCandidate)
    : proc (list (string * option BlobClass * string) * list BlobClassErasureReport) :=
  let '(skipped, erased) := acc in
  r ← try_proc (erase_run_class (xc_run_id c) (xc_class c) key (env (xc_run_id c) (xc_class c)));
  mret (match r with
        | Ok report => (skipped, erased ++ [report])
        | Err reason => (skipped ++ [(xc_run_id c, Some (xc_class c), reason)], erased)
        end).

Definition expire_blob_classes (evaluated_at : DateTime) (policy : BlobClassTtlPolicy) (execute : bool)
    (key : EncryptionKey) (env : string -> BlobClass -> ErasureEnv) : proc BlobClassExpiryReport :=
  lift (validate_ttl policy);;
  '(_, eligible, skipped) ← look (fun w =>
    try_fold (expiry_entry evaluated_at policy key) (0, [], []) (map_to_list (d_entries w)));
  let eligible := sort_by expiry_order eligible in
  let skipped := sort_by (fun s s' => String.compare s.1.1 s'.1.1) skipped in
  if execute then
    '(skipped, erased) ← fold_proc (expire_one key env) (skipped, []) eligible;
    mret (mkExpiryReport eligible skipped erased)
  else mret (mkExpiryReport eligible skipped []).
End Retention.
