(* ===== verification/UploadStateSpec.v ===== *)
(** * Theorems about upload states

    The chain of segments and the retention gate, the batch plans and reading
    them back, validity of the states an upload writes, and the limits of the
    file that holds them. *)

From Stdlib Require Import Strings.Byte Sorting.
From S2P Require Import Prelude RustStd Proc External Json Input Model ProbePlan Policy Crypto EventLog EventLogSpec Manifest BlobStore BlobStoreSpec UploadState.
From stdpp Require Import pretty sorting options.
Local Open Scope N_scope.
#[local] Unset Default Proof Using.

(** Peeling the guards of a computation that succeeded. *)
Ltac peel H :=
  let u := fresh in apply bind_ok in H as (u & ? & H); destruct u;
  match goal with E : ensure _ _ = Ok _ |- _ => apply ensure_ok in E end.

(** ** Chains *)

(** Consecutive segments, each sealed up to the last one's beginning. *)
Fixpoint chained (index first : N) (states : list SegmentState) : Prop :=
  match states with
  | [] => True
  | item :: rest =>
      us_segment_no (sg_state item) = index /\ us_first_seq (sg_state item) = first /\
      (rest <> [] -> us_sealed (sg_state item) = true /\
        us_acked_seq (sg_state item) = sg_planned_seq item) /\
      chained (index + 1) (sg_planned_seq item + 1) rest
  end.

Lemma check_chain_ok index first states : check_chain index first states = Ok tt ->
  chained index first states.
Proof.
  revert index first. induction states as [|item rest IH]; intros index first H; [done|].
  cbn [check_chain] in H. peel H. peel H. apply bind_ok in H as ([] & Hr & H).
  apply bind_ok in H as (next & Hn & H). apply ok_or_ok, checked_add_Some in Hn as [-> _].
  reflect_N. cbn [chained]. split_and!; [done..| |by apply IH].
  intros Hrest. rewrite bool_decide_eq_false_2 in Hr by done. apply ensure_ok in Hr.
  by reflect_N.
Qed.

(** A complete chain covers everything up to the last planned event. *)
Lemma chained_covers index first states final item n : chained index first states ->
  last states = Some item -> sg_planned_seq item = final -> first <= n <= final ->
  exists item, item ∈ states /\ us_first_seq (sg_state item) <= n <= sg_planned_seq item.
Proof.
  revert index first. induction states as [|x rest IH]; intros index first; [done|].
  cbn [chained]. intros (Hs & Hf & _ & Hc) Hl Hp Hn.
  destruct (decide (n <= sg_planned_seq x)).
  { exists x. split; [by left|lia]. }
  destruct rest as [|y rest]; [injection Hl as ->; lia|].
  destruct (IH _ _ Hc Hl Hp ltac:(lia)) as (z & Hz & Hz'). exists z. split; [by right|done].
Qed.

Section Spec.
Context {dig : Digest} {hx : Hex} {zstd : Zstd} {serde : Serde} {serdeu : SerdeUpload} {url : UrlCrate}.

(** What stands behind a loaded segment. *)
Record loaded (spool : Spool) (origin run_id : string) (available : N) (item : SegmentState) : Prop := {
  ld_file : exists state, parse_state spool (sg_path item) = Ok state /\
    sg_state item = omit_sensitive_blob_plans state;
  ld_path : sg_path item = segment_state_path origin (us_segment_no (sg_state item));
  ld_valid : validate_state_prefix (sg_state item) run_id
    (recording_id_for_segment run_id (us_segment_no (sg_state item))) origin available
    = Ok (sg_planned_seq item);
}.

Lemma load_segment_loaded spool origin run_id available states name states' :
  Forall (loaded spool origin run_id available) states ->
  load_segment spool origin run_id available states name = Ok states' ->
  Forall (loaded spool origin run_id available) states'.
Proof.
  intros Hf H. unfold load_segment in H. apply bind_ok in H as (segment & _ & H).
  destruct segment as [k|]; [|by injection H as <-]. peel H.
  apply bind_ok in H as (st & Hst & H). peel H. reflect_N.
  apply bind_ok in H as (planned & Hp & H). peel H. injection H as <-.
  apply Forall_app. split; [done|]. constructor; [|done].
  match goal with E : str_eqb _ _ = true |- _ => apply str_eqb_true in E end.
  split; cbn [sg_path sg_state sg_planned_seq]; [by exists st| |]; by subst k.
Qed.

Lemma load_segments_loaded spool origin run_id available names states states' :
  Forall (loaded spool origin run_id available) states ->
  try_fold (load_segment spool origin run_id available) states names = Ok states' ->
  Forall (loaded spool origin run_id available) states'.
Proof. intros H. apply try_fold_inv; [|done]. intros. by eapply load_segment_loaded. Qed.

Lemma load_segment_chain_ok spool origin run_id available states :
  load_segment_chain spool origin run_id available = Ok states ->
  Forall (loaded spool origin run_id available) states /\ chained 0 1 states.
Proof.
  intros H. unfold load_segment_chain in H. apply bind_ok in H as (l & Hl & H). cbn zeta in H.
  apply bind_ok in H as ([] & Hc & H). injection H as <-. split; [|by apply check_chain_ok].
  rewrite merge_sort_Permutation. eapply load_segments_loaded; [|done]. constructor.
Qed.

(** ** The retention gate *)

Lemma try_fold_unit {A} (f : unit -> A -> result string unit) l :
  try_fold f tt l = Ok tt -> forall x, x ∈ l -> f tt x = Ok tt.
Proof.
  induction l as [|y l IH]; intros H x; [by intros ?%elem_of_nil|]. cbn [try_fold] in H.
  apply bind_ok in H as ([] & Hy & H). intros [->|Hx]%elem_of_cons; [done|]. by apply IH.
Qed.

(** The origins of all state files. *)
Lemma list_origins_complete spool run_id origins name :
  list_upload_origins spool run_id = Ok origins -> is_Some (spool !! name) ->
  str_starts_with "state-" name = true -> str_ends_with ".json" name = true ->
  exists state, parse_state spool name = Ok state /\ us_api_origin state ∈ origins.
Proof.
  unfold list_upload_origins. intros H [content Hc] Hs He.
  apply bind_ok in H as ([o n] & H & [= <-]).
  assert (name ∈ (map_to_list spool).*1) as Hin.
  { apply list_elem_of_fmap. exists (name, content). split; [done|]. by apply elem_of_map_to_list. }
  revert Hin H. generalize ((map_to_list spool).*1) as l. intros l Hin H.
  change (exists state, parse_state spool name = Ok state /\ us_api_origin state ∈ (o, n).1).
  revert H. generalize ([] : list string, 0) as acc. induction l as [|x l IH]; intros acc H;
    [by apply elem_of_nil in Hin|]. cbn [try_fold] in H. apply bind_ok in H as (acc' & Hx & H).
  apply elem_of_cons in Hin as [<-|Hin]; [|by eapply IH].
  clear IH. destruct acc as [o0 n0]. unfold list_origin in Hx. rewrite Hs, He in Hx. cbn [negb orb] in Hx.
  peel Hx. apply bind_ok in Hx as (st & Hst & Hx). exists st. split; [done|].
  peel Hx. peel Hx. apply bind_ok in Hx as (u & _ & Hx). apply bind_ok in Hx as ([] & _ & Hx).
  peel Hx. peel Hx. peel Hx. injection Hx as <-.
  change ((fun a : list string * N => us_api_origin st ∈ a.1) (o, n)).
  eapply try_fold_inv; [| |exact H]; [|cbn; apply set_insert_elem; by left].
  intros [o1 n1] y [o2 n2] _ HP Hy. unfold list_origin in Hy. case_match; [by injection Hy as <- <-|].
  peel Hy. apply bind_ok in Hy as (st' & _ & Hy). peel Hy. peel Hy.
  apply bind_ok in Hy as (u' & _ & Hy). apply bind_ok in Hy as ([] & _ & Hy). peel Hy. peel Hy. peel Hy.
  injection Hy as <- <-. cbn. apply set_insert_elem. by right.
Qed.

(** Every target of a spool that passes the gate has acknowledged and sealed
    the whole run. *)
Lemma gate_covers spool run_id final : verify_retention_gate (Some spool) run_id final = Ok tt ->
  exists origins, list_upload_origins spool run_id = Ok origins /\ origins <> [] /\
    forall origin, origin ∈ origins -> exists states,
      load_segment_chain spool origin run_id final = Ok states /\
      forall n, 1 <= n <= final -> exists item, item ∈ states /\
        us_sealed (sg_state item) = true /\
        us_first_seq (sg_state item) <= n <= us_acked_seq (sg_state item).
Proof.
  cbn [verify_retention_gate]. intros H. apply bind_ok in H as (origins & Ho & H). peel H.
  exists origins. split; [done|]. reflect_N. split; [by intros ->|].
  intros origin Hin. pose proof (try_fold_unit _ _ H _ Hin) as Hx. cbn beta in Hx.
  apply bind_ok in Hx as (states & Hl & Hx). apply ensure_ok in Hx. exists states. split; [done|].
  intros n Hn. unfold segment_chain_complete in Hx. destruct (last states) as [item|] eqn:El; [|done].
  apply andb_true_iff in Hx as [Hf Hall]. reflect_N.
  destruct (load_segment_chain_ok _ _ _ _ _ Hl) as [_ Hc].
  destruct (chained_covers _ _ _ _ _ n Hc El Hf ltac:(lia)) as (x & Hx & Hr).
  exists x. split; [done|]. rewrite forallb_Forall, Forall_forall in Hall.
  specialize (Hall x Hx). unfold segment_complete in Hall. reflect_N. split; [done|]. lia.
Qed.

(** States on record that say that the target at [origin] has acknowledged and
    sealed segments of the run which together hold its events up to [final]. *)
Definition acknowledged_at (spool : Spool) (run_id : string) (final : N) (origin : string) : Prop :=
  forall n, 1 <= n <= final -> exists path segment, parse_state spool path = Ok segment /\
    us_api_origin segment = origin /\ us_run_id segment = run_id /\ us_sealed segment = true /\
    us_first_seq segment <= n <= us_acked_seq segment.

(** The run was sent to a target, and every target it was sent to has it. *)
Definition acknowledged (spool : Spool) (run_id : string) (final : N) : Prop :=
  (exists origin, acknowledged_at spool run_id final origin) /\
  forall name, is_Some (spool !! name) -> str_starts_with "state-" name = true -> str_ends_with ".json" name = true ->
    exists state, parse_state spool name = Ok state /\ acknowledged_at spool run_id final (us_api_origin state).

Lemma gate_acknowledged spool run_id final : verify_retention_gate (Some spool) run_id final = Ok tt ->
  acknowledged spool run_id final.
Proof.
  intros (origins & Ho & Hne & H)%gate_covers.
  assert (forall origin, origin ∈ origins -> acknowledged_at spool run_id final origin) as Hall.
  { intros origin Hin n Hn. destruct (H origin Hin) as (states & Hl & Hc). destruct (Hc n Hn) as (item & Hi & Hs & Hr).
    destruct (load_segment_chain_ok _ _ _ _ _ Hl) as [Hload _]. rewrite Forall_forall in Hload.
    destruct (Hload _ Hi) as [(st & Hp & Est) _ Hv]. exists (sg_path item), st. rewrite Est in Hs, Hr, Hv.
    unfold validate_state_prefix in Hv. do 3 (peel Hv).
    repeat match goal with E : str_eqb _ _ = true |- _ => apply str_eqb_true in E end. done. }
  split; [destruct origins as [|origin l]; [done|]; exists origin; apply Hall; left|].
  intros name Hn Hs He. destruct (list_origins_complete _ _ _ _ Ho Hn Hs He) as (state & Hp & Hin).
  exists state. split; [done|]. by apply Hall.
Qed.

(** ** Planning *)

Definition ndjson (es : list EventEnvelope) : result string bytes :=
  lines ← try_map event_line es; Ok (concat lines).

(** The payloads an event list refers to, in the order of their digests. *)
Definition blob_plans (es : list EventEnvelope) : result string (list (string * BlobPlan)) :=
  try_fold add_blob_plan [] (ev_raw <$> es).

(** The plan of a batch of events, after the batch with digest [previous]. *)
Record plan_for (previous : option string) (es : list EventEnvelope) (b : BatchPlan) : Prop := {
  pf_head : exists e, head es = Some e /\ ba_first_seq b = ev_sequence e;
  pf_last : exists e, last es = Some e /\ ba_last_seq b = ev_sequence e;
  pf_count : ba_event_count b = nlen es;
  pf_raw : exists raw, ndjson es = Ok raw /\ ba_byte_length b = nlen raw /\
    ba_sha256 b = hex_encode (sha256 raw) /\ nlen raw <= DEFAULT_BATCH_BYTES;
  pf_previous : ba_prev_sha256 b = previous;
  pf_blobs : exists blobs, blob_plans es = Ok blobs /\ ba_blobs b = snd <$> blobs;
  pf_events : nlen es <= DEFAULT_BATCH_EVENTS;
}.

Fixpoint plans_for (previous : option string) (groups : list (list EventEnvelope))
    (batches : list BatchPlan) : Prop :=
  match groups, batches with
  | [], [] => True
  | g :: groups', b :: batches' => plan_for previous g b /\ plans_for (Some (ba_sha256 b)) groups' batches'
  | _, _ => False
  end.

Definition last_digest (previous : option string) (batches : list BatchPlan) : option string :=
  match last batches with Some b => Some (ba_sha256 b) | None => previous end.

Lemma plans_for_snoc previous groups batches g b :
  plans_for previous groups batches -> plan_for (last_digest previous batches) g b ->
  plans_for previous (groups ++ [g]) (batches ++ [b]).
Proof.
  revert previous batches. induction groups as [|h groups IH]; intros previous [|c batches] H Hg;
    try done.
  destruct H as [Hh H]. cbn [app plans_for]. split; [done|]. apply IH; [done|].
  unfold last_digest in *. rewrite last_cons in Hg. by destruct (last batches).
Qed.

Lemma try_map_app {E A B} (f : A -> result E B) l k :
  try_map f (l ++ k) = (x ← try_map f l; y ← try_map f k; Ok (x ++ y)).
Proof.
  induction l as [|a l IH]; cbn [app try_map mbind result_bind].
  { by destruct (try_map f k). }
  destruct (f a); cbn [mbind result_bind]; [|done]. rewrite IH.
  destruct (try_map f l); cbn [mbind result_bind]; [|done].
  by destruct (try_map f k).
Qed.

Lemma ndjson_app es es' raw raw' : ndjson es = Ok raw -> ndjson es' = Ok raw' ->
  ndjson (es ++ es') = Ok (raw ++ raw').
Proof.
  unfold ndjson. intros H H'. apply bind_ok in H as (l & Hl & [= <-]).
  apply bind_ok in H' as (l' & Hl' & [= <-]). rewrite try_map_app, Hl, Hl'.
  cbn [mbind result_bind]. by rewrite concat_app.
Qed.

Lemma ndjson_one e line : event_line e = Ok line -> ndjson [e] = Ok line.
Proof.
  unfold ndjson. cbn [try_map]. intros ->. cbn [mbind result_bind concat]. by rewrite app_nil_r.
Qed.

Lemma blob_plans_snoc es e blobs blobs' : blob_plans es = Ok blobs ->
  add_blob_plan blobs (ev_raw e) = Ok blobs' -> blob_plans (es ++ [e]) = Ok blobs'.
Proof.
  unfold blob_plans. intros H H'. rewrite fmap_app, try_fold_app, H. cbn. by rewrite H'.
Qed.

(** The state of the planning after some groups were closed and [pending]
    events gathered. *)
Record planning (previous : option string) (groups : list (list EventEnvelope))
    (pending : list EventEnvelope) (p : Planning) : Prop := {
  pn_batches : plans_for previous groups (pl_batches p);
  pn_raw : ndjson pending = Ok (pl_raw p);
  pn_small : nlen (pl_raw p) <= DEFAULT_BATCH_BYTES;
  pn_count : pl_count p = nlen pending;
  pn_few : nlen pending <= DEFAULT_BATCH_EVENTS;
  pn_blobs : blob_plans pending = Ok (pl_blobs p);
  pn_first : pending <> [] -> exists e, head pending = Some e /\ pl_first_seq p = ev_sequence e;
  pn_last : pending <> [] -> exists e, last pending = Some e /\ pl_last_seq p = ev_sequence e;
  pn_previous : pl_previous p = last_digest previous (pl_batches p);
}.

Lemma finish_plan_for previous groups pending p now b : planning previous groups pending p ->
  finish_plan (pl_first_seq p) (pl_last_seq p) (pl_count p) (pl_raw p) (pl_blobs p) (pl_previous p) now
    = Ok b ->
  plan_for (last_digest previous (pl_batches p)) pending b.
Proof.
  intros [] H. unfold finish_plan in H. peel H. peel H. injection H as <-. reflect_N.
  assert (pending <> []) as Hne by (intros ->; rewrite nlen_nil in *; lia).
  destruct (pn_first0 Hne) as (e1 & He1 & Hf), (pn_last0 Hne) as (e2 & He2 & Hl).
  split; cbn; try done; [by exists e1|by exists e2| |by exists (pl_blobs p)].
  by exists (pl_raw p).
Qed.

(** ** Planning succeeds on events that can be uploaded *)

(** An event with a text within the limit and a well-formed reference. *)
Definition uploadable (e : EventEnvelope) : Prop :=
  (exists line, event_line e = Ok line /\ nlen line <= DEFAULT_BATCH_BYTES) /\
  forall r, ev_raw e = Some r -> is_sensitive_upload_media_type (ref_media_type r) = false ->
    is_Some (str_strip_prefix "sha256:" (ref_sha256 r)).

(** References to one payload agree on its size. *)
Definition consistent_sizes (es : list EventEnvelope) : Prop :=
  forall e e' r r', e ∈ es -> e' ∈ es -> ev_raw e = Some r -> ev_raw e' = Some r' ->
    ref_sha256 r = ref_sha256 r' -> ref_size r = ref_size r'.

(** The payload plan of a reference. *)
Definition plan_of (r : PayloadRef) (b : BlobPlan) : Prop :=
  is_sensitive_upload_media_type (ref_media_type r) = false /\
  str_strip_prefix "sha256:" (ref_sha256 r) = Some (bp_sha256 b) /\
  bp_size b = ref_size r /\ bp_media_type b = ref_media_type r.

(** The payload plans of [es] come from its events. *)
Definition blobs_from (es : list EventEnvelope) (blobs : list (string * BlobPlan)) : Prop :=
  Forall (fun '(sha, b) => bp_sha256 b = sha /\ exists e r, e ∈ es /\ ev_raw e = Some r /\ plan_of r b)
    blobs.

Lemma map_get_elem {V} sha (m : list (string * V)) v : map_get sha m = Some v -> (sha, v) ∈ m.
Proof.
  induction m as [|[k w] m IH]; [done|]. cbn. unfold str_eqb. case_bool_decide.
  - intros [= ->]. subst. by left.
  - intros H'. right. by apply IH.
Qed.

Lemma blobs_from_app es e blobs : blobs_from es blobs -> blobs_from (es ++ [e]) blobs.
Proof.
  intros Hf. eapply Forall_impl; [exact Hf|]. intros [sha b] (Hs & x & r & Hx & H). split; [done|]. exists x, r.
  split; [by apply elem_of_app; left|done].
Qed.

(** Adding the plan of one more event, where that succeeds. *)
Lemma add_blob_plan_exact es e blobs blobs' : blobs_from es blobs ->
  add_blob_plan blobs (ev_raw e) = Ok blobs' ->
  blobs_from (es ++ [e]) blobs' /\
  (forall sha b, map_get sha blobs = Some b -> map_get sha blobs' = Some b) /\
  (forall r sha, ev_raw e = Some r -> is_sensitive_upload_media_type (ref_media_type r) = false ->
    str_strip_prefix "sha256:" (ref_sha256 r) = Some sha ->
    exists b, map_get sha blobs' = Some b /\ bp_size b = ref_size r).
Proof.
  intros Hb H. unfold add_blob_plan in H.
  destruct (ev_raw e) as [r|] eqn:Er; [|injection H as <-; split; [by apply blobs_from_app|done]].
  destruct (is_sensitive_upload_media_type _) eqn:Es.
  { injection H as <-. split; [by apply blobs_from_app|]. split; [done|]. intros r' sha [= <-]. congruence. }
  apply bind_ok in H as (sha & Hs & H). apply ok_or_ok in Hs.
  destruct (map_get sha blobs) as [b|] eqn:Eb.
  - peel H. injection H as <-. reflect_N. split; [by apply blobs_from_app|]. split; [done|].
    intros r' sha' [= <-] _ Hs'. exists b. replace sha' with sha by congruence. done.
  - injection H as <-. split; [|split].
    + apply map_insert_Forall; [|by apply blobs_from_app]. split; [done|]. exists e, r.
      split; [apply elem_of_app; right; left|]. done.
    + intros sha' b' Hg. rewrite map_get_insert_ne; [done|]. intros ->. congruence.
    + intros r' sha' [= <-] _ Hs'. replace sha' with sha by congruence.
      rewrite map_get_insert. by eexists.
Qed.

(** The plans of a list of events are those of its ordinary references. *)
Lemma blob_plans_exact es blobs : blob_plans es = Ok blobs -> blobs_from es blobs /\
  forall e r sha, e ∈ es -> ev_raw e = Some r ->
    is_sensitive_upload_media_type (ref_media_type r) = false ->
    str_strip_prefix "sha256:" (ref_sha256 r) = Some sha ->
    exists b, map_get sha blobs = Some b /\ bp_size b = ref_size r.
Proof.
  unfold blob_plans. revert blobs. induction es as [|e es IH] using rev_ind; intros blobs H.
  { injection H as <-. split; [constructor|]. by intros e r sha ?%elem_of_nil. }
  rewrite fmap_app, try_fold_app in H. apply bind_ok in H as (blobs0 & H0 & H).
  cbn in H. apply bind_ok in H as (blobs1 & H & [= <-]). destruct (IH _ H0) as [IH1 IH2].
  destruct (add_blob_plan_exact es e _ _ IH1 H) as (H1 & H2 & H3). split; [done|].
  intros x r sha [Hx|Hx]%elem_of_app Hr Hn Hs.
  - destruct (IH2 x r sha Hx Hr Hn Hs) as (b & Hb & Hsize). exists b. split; [by apply H2|done].
  - assert (x = e) as -> by set_solver. by eapply H3.
Qed.

Lemma add_blob_plan_total es e blobs : consistent_sizes (es ++ [e]) -> uploadable e ->
  blobs_from es blobs -> exists blobs', add_blob_plan blobs (ev_raw e) = Ok blobs'.
Proof.
  intros Hc [_ Hu] Hb. unfold add_blob_plan. destruct (ev_raw e) as [r|] eqn:Er; [|by eexists].
  destruct (is_sensitive_upload_media_type _) eqn:Es; [by eexists|].
  destruct (Hu r eq_refl Es) as [sha Hsha]. rewrite Hsha. cbn [ok_or mbind result_bind].
  destruct (map_get sha blobs) as [b|] eqn:Eb; [|by eexists].
  unfold blobs_from in Hb. rewrite Forall_forall in Hb.
  destruct (Hb _ (map_get_elem _ _ _ Eb)) as (Hsb & x & r' & Hx & Hr' & _ & Hs & Hsize & _).
  rewrite Hsize. rewrite (Hc x e r' r), N.eqb_refl; [by eexists| | |done|done|].
  - by apply elem_of_app; left.
  - apply elem_of_app; right; left.
  - apply str_strip_prefix_spec in Hsha, Hs. congruence.
Qed.

Lemma sequenced_ends k es e e' : sequenced k es -> head es = Some e -> last es = Some e' ->
  ev_sequence e = k + 1 /\ ev_sequence e' = k + nlen es.
Proof.
  revert k e. induction es as [|x es IH]; intros k e H Hh Hl; [done|].
  injection Hh as ->. destruct H as (H1 & _ & H2). split; [done|].
  destruct es as [|y es]; [injection Hl as ->; rewrite nlen_cons, nlen_nil; lia|].
  destruct (IH (k + 1) y H2 eq_refl Hl) as [_ ->]. rewrite !nlen_cons. lia.
Qed.

Lemma plans_for_length previous groups batches : plans_for previous groups batches ->
  nlen batches = nlen groups /\ nlen groups <= nlen (concat groups).
Proof.
  revert previous batches. induction groups as [|g groups IH]; intros previous [|b batches] H; try done.
  destruct H as [[(e & He & _) _ _ _ _ _ _] H]. destruct (IH _ _ H) as [H1 H2].
  cbn [concat]. rewrite !nlen_cons, nlen_app. destruct g as [|x g]; [done|]. rewrite nlen_cons. lia.
Qed.

(** Closing a batch. *)
Lemma close_batch_sound previous groups pending p now p' : planning previous groups pending p ->
  close_batch now p = Ok p' ->
  planning previous (groups ++ [pending]) [] p' /\ pl_expected p' = pl_expected p.
Proof.
  intros Hp H. unfold close_batch in H. apply bind_ok in H as (b & Hb & H). peel H.
  injection H as <-. pose proof (finish_plan_for _ _ _ _ _ _ Hp Hb) as Hpf. destruct Hp.
  split; [|done].
  split; cbn [pl_batches pl_raw pl_count pl_blobs pl_first_seq pl_last_seq pl_previous]; try done.
  - by apply plans_for_snoc.
  - unfold last_digest. by rewrite last_snoc.
Qed.

(** What is due to be closed before a line is added. *)
Definition make_room (now : DateTime) (line : bytes) (p : Planning) : result string Planning :=
  if (0 <? pl_count p)
     && ((pl_count p =? DEFAULT_BATCH_EVENTS) || (DEFAULT_BATCH_BYTES <? nlen (pl_raw p) + nlen line))
  then close_batch now p else Ok p.

Lemma make_room_sound previous groups pending p now line k p1 :
  planning previous groups pending p -> sequenced k pending ->
  k + nlen pending + 1 = pl_expected p -> nlen line <= DEFAULT_BATCH_BYTES ->
  make_room now line p = Ok p1 ->
  exists groups1 pending1 k1, planning previous groups1 pending1 p1 /\
    nlen (pl_raw p1) + nlen line <= DEFAULT_BATCH_BYTES /\ nlen pending1 < DEFAULT_BATCH_EVENTS /\
    concat groups1 ++ pending1 = concat groups ++ pending /\ sequenced k1 pending1 /\
    k1 + nlen pending1 + 1 = pl_expected p /\ pl_expected p1 = pl_expected p.
Proof.
  intros Hp Hk Hx Hline. unfold make_room. destruct (_ && _) eqn:E; intros H.
  - destruct (close_batch_sound _ _ _ _ _ _ Hp H) as [Hp1 Hx1].
    exists (groups ++ [pending]), [], (k + nlen pending). split; [done|].
    destruct Hp1 as [_ Hraw _ _ _ _ _ _ _]. injection Hraw as <-. cbn [concat]. rewrite !nlen_nil.
    split; [lia|]. split; [done|]. rewrite concat_app. cbn [concat]. rewrite !app_nil_r.
    rewrite nlen_nil. split_and!; try done; lia.
  - injection H as <-. exists groups, pending, k. split; [done|]. destruct Hp. rewrite pn_count0 in E.
    apply andb_false_iff in E as [E|E].
    + reflect_N. assert (pending = []) as Hnil by (apply nlen_0; lia).
      rewrite Hnil in *. injection pn_raw0 as <-. cbn [concat] in *. rewrite nlen_nil in *.
      by split_and!.
    + apply orb_false_iff in E as [E1 E2]. reflect_N. split_and!; try done. lia.
Qed.

(** One event of the range. *)
Lemma plan_event_sound previous groups pending p now k e p' :
  planning previous groups pending p -> sequenced k pending ->
  k + nlen pending + 1 = pl_expected p -> plan_event now p e = Ok p' ->
  ev_sequence e < u64_max ->
  exists groups' pending' k', planning previous groups' pending' p' /\ pending' <> [] /\
    concat groups' ++ pending' = (concat groups ++ pending) ++ [e] /\
    sequenced k' pending' /\ k' + nlen pending' + 1 = pl_expected p' /\
    ev_sequence e = pl_expected p /\ pl_expected p' = pl_expected p + 1.
Proof.
  intros Hp Hk Hx H Hm. unfold plan_event in H. peel H.
  apply bind_ok in H as (x & Hex & H). apply ok_or_ok, checked_add_Some in Hex as [-> _].
  apply bind_ok in H as (line & Hline & H). peel H. apply bind_ok in H as (p1 & Hroom & H).
  apply bind_ok in H as (blobs & Hb & H). injection H as <-. reflect_N.
  destruct (make_room_sound _ _ _ _ now line _ p1 Hp Hk Hx ltac:(done) Hroom)
    as (groups1 & pending1 & k1 & [] & Hr1 & Hn1 & Hcat & Hk1 & Hx1 & _).
  exists groups1, (pending1 ++ [e]), k1. split; [|split; [by destruct pending1|]].
  - split; cbn [pl_batches pl_raw pl_count pl_blobs pl_first_seq pl_last_seq pl_previous];
      rewrite ?nlen_app, ?nlen_cons, ?nlen_nil; try done; try lia.
    + apply ndjson_app; [done|by apply ndjson_one].
    + by eapply blob_plans_snoc.
    + intros _. rewrite pn_count0. destruct pending1 as [|x pending1]; [by exists e|].
      rewrite (proj2 (N.eqb_neq _ _)) by (rewrite nlen_cons; lia).
      destruct pn_first0 as (y & Hy & Hfy); [done|]. exists y. split; [done|done].
    + intros _. exists e. by rewrite last_snoc.
  - rewrite app_assoc, Hcat, nlen_app, sequenced_app, nlen_cons, nlen_nil.
    cbn [pl_expected sequenced]. split_and!; try done; lia.
Qed.

(** A batch that has events can be closed. *)
Lemma finish_plan_total previous groups pending p now k : planning previous groups pending p ->
  pending <> [] -> sequenced k pending ->
  exists b, finish_plan (pl_first_seq p) (pl_last_seq p) (pl_count p) (pl_raw p) (pl_blobs p)
    (pl_previous p) now = Ok b.
Proof.
  intros [] Hne Hk.
  destruct (pn_first0 Hne) as (e1 & He1 & Hf), (pn_last0 Hne) as (e2 & He2 & Hl).
  destruct (sequenced_ends _ _ _ _ Hk He1 He2) as [H1 H2].
  assert (0 < nlen pending) as Hpos by (destruct pending; [done|rewrite nlen_cons; lia]).
  unfold finish_plan. rewrite Hf, Hl, H1, H2, pn_count0.
  rewrite !(proj2 (N.ltb_lt _ _)), (proj2 (N.leb_le _ _)) by lia. by eexists.
Qed.

Lemma close_batch_total previous groups pending p now k : planning previous groups pending p ->
  pending <> [] -> sequenced k pending -> nlen (concat groups) < MAX_BATCH_PLANS ->
  exists p', close_batch now p = Ok p' /\ pl_blobs p' = [].
Proof.
  intros Hp Hne Hk Hb. destruct (finish_plan_total _ _ _ _ now _ Hp Hne Hk) as [b Hf]. destruct Hp.
  destruct (plans_for_length _ _ _ pn_batches0) as [Hbl Hbl'].
  unfold close_batch. rewrite Hf. cbn [mbind result_bind].
  rewrite (proj2 (ensure_ok _ _ tt)) by (apply N.leb_le; rewrite nlen_app, nlen_cons, nlen_nil; lia).
  by eexists.
Qed.

Lemma plan_event_total previous groups pending p now k e :
  planning previous groups pending p -> sequenced k pending -> uploadable e ->
  consistent_sizes (pending ++ [e]) -> ev_sequence e = pl_expected p ->
  pl_expected p < u64_max -> nlen (concat groups) < MAX_BATCH_PLANS ->
  exists p', plan_event now p e = Ok p'.
Proof.
  intros Hp Hk Hu Hc He Hm Hlen. pose proof Hu as [(line & Hline & Hsmall) _].
  unfold plan_event. rewrite He, N.eqb_refl. cbn [ensure mbind result_bind].
  unfold checked_add at 1. rewrite (proj2 (N.leb_le _ _)) by lia. cbn [ok_or mbind result_bind].
  rewrite Hline. cbn [mbind result_bind]. rewrite (proj2 (ensure_ok _ _ tt)) by (by apply N.leb_le).
  cbn [mbind result_bind].
  assert (exists p1, make_room now line p = Ok p1 /\
    (blobs_from pending (pl_blobs p1))) as (p1 & E1 & Hb1).
  { unfold make_room. destruct (_ && _) eqn:E; reflect_N.
    - destruct (close_batch_total _ _ _ _ now k Hp) as (p1 & E1 & Hb1); try done.
      { intros ->. destruct Hp. rewrite nlen_nil in *. lia. }
      exists p1. split; [done|]. rewrite Hb1. constructor.
    - exists p. split; [done|]. destruct Hp. by apply blob_plans_exact. }
  fold (make_room now line p). rewrite E1. cbn [mbind result_bind].
  destruct (add_blob_plan_total pending e (pl_blobs p1)) as (blobs & Hb); [done..|].
  rewrite Hb. by eexists.
Qed.

(** ** Planning a range of the log *)

(** The events of the log from number [first] to number [last]. *)
Definition event_range (first last : N) (es : list EventEnvelope) : list EventEnvelope :=
  take (N.to_nat (last + 1 - first)) (drop (N.to_nat (first - 1)) es).

(** The reader of an intact log. *)
Definition stream (es : list EventEnvelope) : Stream := map Ok es.

Lemma plan_events_skip first last now p k es : sequenced k es -> k < first ->
  plan_events first last now p (stream es)
  = plan_events first last now p (stream (drop (N.to_nat (first - 1 - k)) es)).
Proof.
  revert k. induction es as [|e es IH]; intros k Hs Hk; [by destruct (N.to_nat _)|].
  destruct Hs as (He & _ & Hs). destruct (decide (k + 1 < first)).
  - cbn [stream map plan_events storage_message map_err mbind result_bind]. rewrite He.
    rewrite (proj2 (N.ltb_lt _ _)) by done. fold (stream es). rewrite (IH (k + 1) Hs) by lia.
    by replace (N.to_nat (first - 1 - k)) with (S (N.to_nat (first - 1 - (k + 1)))) by lia.
  - by replace (N.to_nat (first - 1 - k)) with 0%nat by lia.
Qed.

Lemma plan_events_sound previous first last now es : forall groups pending p k0 p',
  planning previous groups pending p -> sequenced k0 pending ->
  k0 + nlen pending + 1 = pl_expected p -> first <= pl_expected p ->
  sequenced (pl_expected p - 1) es -> plan_events first last now p (stream es) = Ok p' ->
  exists groups' pending', planning previous groups' pending' p' /\
    concat groups' ++ pending'
      = (concat groups ++ pending) ++ take (N.to_nat (last + 1 - pl_expected p)) es /\
    pl_expected p' = pl_expected p + nlen (take (N.to_nat (last + 1 - pl_expected p)) es).
Proof.
  induction es as [|e es IH]; intros groups pending p k0 p' Hp Hk Hx Hf Hs H.
  { injection H as <-. rewrite take_nil, app_nil_r, nlen_nil, N.add_0_r. by exists groups, pending. }
  destruct Hs as (He & Hlt & Hs). rewrite N.sub_add in He, Hlt, Hs by lia.
  cbn [stream map plan_events storage_message map_err mbind result_bind] in H. rewrite He in H.
  rewrite (proj2 (N.ltb_ge _ _)) in H by done.
  destruct (last <? pl_expected p) eqn:El; reflect_N.
  { injection H as <-. replace (N.to_nat (last + 1 - pl_expected p)) with 0%nat by lia.
    rewrite take_0, app_nil_r, nlen_nil, N.add_0_r. by exists groups, pending. }
  apply bind_ok in H as (p1 & H1 & H). fold (stream es) in H.
  destruct (plan_event_sound _ _ _ _ _ _ _ _ Hp Hk Hx H1 ltac:(lia))
    as (groups1 & pending1 & k1 & Hp1 & _ & Hc1 & Hk1 & Hx1 & _ & He1).
  destruct (IH groups1 pending1 p1 k1 p' Hp1 Hk1 Hx1 ltac:(lia)) as (groups' & pending' & Hp' & Hc & Hx');
    [by rewrite He1, N.add_sub|done|].
  exists groups', pending'. split; [done|].
  replace (N.to_nat (last + 1 - pl_expected p)) with (S (N.to_nat (last + 1 - pl_expected p1))) by lia.
  cbn [take]. rewrite Hc, Hx', Hc1, nlen_cons, He1. split; [by rewrite <-app_assoc|lia].
Qed.

Lemma planning_start previous first : planning previous [] [] (mkPlanning [] [] 0 0 0 [] previous first).
Proof. by split. Qed.

Lemma finish_planning_sound previous groups pending p now batches :
  planning previous groups pending p -> finish_planning now p = Ok batches ->
  exists groups', plans_for previous groups' batches /\ concat groups' = concat groups ++ pending.
Proof.
  intros Hp H. unfold finish_planning in H. destruct (0 <? pl_count p) eqn:E.
  - apply bind_ok in H as (b & Hb & [= <-]). exists (groups ++ [pending]).
    rewrite concat_app. cbn [concat]. rewrite app_nil_r. split; [|done].
    apply plans_for_snoc; [by destruct Hp|by eapply finish_plan_for].
  - injection H as <-. reflect_N. destruct Hp. exists groups. split; [done|].
    assert (pending = []) as -> by (apply nlen_0; lia). by rewrite app_nil_r.
Qed.

Lemma finish_planning_total previous groups pending p now k : planning previous groups pending p ->
  sequenced k pending -> exists batches, finish_planning now p = Ok batches.
Proof.
  intros Hp Hk. unfold finish_planning. destruct (0 <? pl_count p) eqn:E; [|by eexists]. reflect_N.
  assert (pending <> []) as Hne by (intros ->; destruct Hp; rewrite nlen_nil in *; lia).
  destruct (finish_plan_total _ _ _ _ now _ Hp Hne Hk) as [b ->]. by eexists.
Qed.

Lemma sequenced_drop first es : sequenced 0 es -> 0 < first ->
  sequenced (first - 1) (drop (N.to_nat (first - 1)) es).
Proof.
  intros Hs Hf. destruct (decide (N.to_nat (first - 1) < length es)%nat); [|by rewrite drop_ge by lia].
  rewrite <-(take_drop (N.to_nat (first - 1)) es) in Hs. apply sequenced_app in Hs as [_ Hs].
  unfold nlen in Hs. rewrite length_take_le in Hs by lia. by rewrite N2Nat.id, N.add_0_l in Hs.
Qed.

(** Plans made from a range of the log divide exactly that range. *)
Lemma build_plans_sound es first last previous now batches : sequenced 0 es -> last < u64_max ->
  build_batch_plans_range (stream es) first last previous now = Ok batches ->
  0 < first <= last /\ exists groups, plans_for previous groups batches /\
    concat groups = event_range first last es /\ nlen (concat groups) = last + 1 - first /\
    blob_plan_count batches <= MAX_BLOB_PLANS.
Proof.
  intros Hs Hl H. unfold build_batch_plans_range in H. peel H. reflect_N. split; [lia|].
  apply bind_ok in H as (p & Hp & H). rewrite (plan_events_skip _ _ _ _ 0) in Hp by (done || lia).
  pose proof (sequenced_drop first es Hs ltac:(lia)) as Hd.
  rewrite N.sub_0_r in Hp.
  destruct (plan_events_sound previous first last now (drop (N.to_nat (first - 1)) es) [] [] _ (first - 1) p
    (planning_start previous first) I) as (groups & pending & Hpl & Hc & Hx);
    [cbn [pl_expected]; rewrite nlen_nil; lia|done|exact Hd|exact Hp|]. cbn [pl_expected] in Hc, Hx. cbn [concat app] in Hc.
  apply bind_ok in H as (bs & Hb & H). peel H. rewrite (proj2 (N.eqb_neq _ _)) in H by lia.
  peel H. peel H. injection H as <-. reflect_N.
  assert (sat_add last 1 = last + 1) as Hsat by (unfold sat_add; lia). rewrite Hsat in *.
  assert (nlen (event_range first last es) = last + 1 - first) as Hlen
    by (unfold event_range; lia).
  destruct (finish_planning_sound _ _ _ _ _ _ Hpl Hb) as (groups' & Hpf & Hcat).
  exists groups'. rewrite Hcat, Hc. split_and!; done.
Qed.

(** ** Reading a planned batch back *)

Lemma next_from_stream k skip e rest : sequenced k (skip ++ e :: rest) ->
  next_from (k + nlen skip + 1) (stream (skip ++ e :: rest)) = Ok (e, stream rest).
Proof.
  revert k. induction skip as [|x skip IH]; intros k Hs;
    cbn [app stream map next_from storage_message map_err mbind result_bind].
  - destruct Hs as (He & _ & _). rewrite He, nlen_nil, N.add_0_r. by rewrite N.leb_refl.
  - destruct Hs as (Hx & _ & Hs). rewrite Hx, nlen_cons.
    rewrite (proj2 (N.leb_gt _ _)) by lia.
    replace (k + (nlen skip + 1) + 1) with (k + 1 + nlen skip + 1) by lia. by apply IH.
Qed.

Lemma read_events_stream g lines : try_map event_line g = Ok lines -> forall k skip post raw,
  sequenced k (skip ++ g ++ post) ->
  read_events (length g) (k + nlen skip + 1) raw (stream (skip ++ g ++ post))
  = Ok (raw ++ concat lines, stream (if decide (g = []) then skip ++ post else post)).
Proof.
  revert lines. induction g as [|e g IH]; intros lines Hl k skip post raw Hs.
  { injection Hl as <-. cbn. by rewrite app_nil_r. }
  cbn [try_map] in Hl. apply bind_ok in Hl as (line & Hline & Hl).
  apply bind_ok in Hl as (ls & Hls & [= <-]). cbn [length read_events]. cbn [app] in *.
  rewrite next_from_stream by done. cbn [mbind result_bind].
  apply sequenced_app in Hs as [_ Hs]. destruct Hs as (He & _ & Hs).
  rewrite He, N.eqb_refl. cbn [ensure mbind result_bind]. rewrite Hline. cbn [mbind result_bind].
  specialize (IH ls Hls (k + nlen skip + 1) [] post (raw ++ line) Hs).
  rewrite nlen_nil, N.add_0_r in IH. cbn [app] in IH. rewrite IH. cbn [concat].
  rewrite <-app_assoc. f_equal. f_equal. f_equal. by repeat case_decide.
Qed.

(** Reading a batch of the log gives the lines the plan was made from, and
    leaves the reader behind them. *)
Lemma read_batch_stream previous k skip g post b : plan_for previous g b ->
  sequenced k (skip ++ g ++ post) ->
  exists raw, ndjson g = Ok raw /\ read_batch (stream (skip ++ g ++ post)) b = Ok (raw, stream post).
Proof.
  intros [(e1 & He1 & Hf) (e2 & He2 & Hl) Hn (raw & Hraw & Hlen & Hsha & _) _ _ _] Hs.
  exists raw. split; [done|]. apply bind_ok in Hraw as (lines & Hlines & [= <-]).
  pose proof Hs as Hs'. apply sequenced_app in Hs' as [_ Hs']. apply sequenced_app in Hs' as [Hs' _].
  destruct (sequenced_ends _ _ _ _ Hs' He1 He2) as [H1 H2].
  unfold read_batch. rewrite Hf, Hl, H1, H2.
  replace (N.to_nat (k + nlen skip + nlen g + 1 - (k + nlen skip + 1))) with (length g)
    by (unfold nlen; lia).
  rewrite (read_events_stream g lines Hlines) by done. cbn [mbind result_bind app].
  rewrite Hlen, N.eqb_refl, Hsha, (proj2 (str_eqb_true _ _)) by done. cbn [ensure mbind result_bind].
  rewrite decide_False; [done|]. by destruct g.
Qed.

(** ** Validity of planned states *)

Section Valid.
Context {diglaws : DigestLaws} {hexlaws : HexLaws}.

Lemma validate_sha_digest l : validate_sha (hex_encode (sha256 l)) = Ok tt.
Proof. apply ensure_ok. apply canonical_digest. Qed.

Lemma event_line_nonempty e line : event_line e = Ok line -> 0 < nlen line.
Proof.
  intros H. apply bind_ok in H as (text & _ & [= <-]). rewrite nlen_app, nlen_cons. lia.
Qed.

Lemma ndjson_nonempty es raw : ndjson es = Ok raw -> es <> [] -> 0 < nlen raw.
Proof.
  destruct es as [|e es]; [done|]. intros H _. apply bind_ok in H as (lines & H & [= <-]).
  cbn [try_map] in H. apply bind_ok in H as (line & Hl & H). apply bind_ok in H as (ls & _ & [= <-]).
  apply event_line_nonempty in Hl. cbn [concat]. rewrite nlen_app. lia.
Qed.

(** The payload plans of validated events are valid. *)
Lemma blob_plans_valid es blobs : Forall (fun e => validate e = Ok tt) es -> blobs_from es blobs ->
  try_fold (fun _ blob =>
      validate_sha (bp_sha256 blob);;
      ensure (negb (is_sensitive_upload_media_type (bp_media_type blob)))
        "ordinary upload state contains a sensitive-tier blob") tt (snd <$> blobs) = Ok tt.
Proof.
  intros Hv Hb. induction blobs as [|[sha b] blobs IH]; [done|].
  apply Forall_cons in Hb as [(Hs & e & r & He & Hr & Hn & Hp & _ & Hm) Hb].
  cbn [fmap list_fmap try_fold snd]. rewrite Hm, Hn.
  rewrite Forall_forall in Hv. apply Hv, validate_wf in He. apply wf_raw in Hr; [|done].
  unfold validate_payload_ref in Hr. cbn [snd] in *. rewrite Hp in Hr.
  destruct (canonical_hash (bp_sha256 b)) eqn:E; [|done].
  assert (validate_sha (bp_sha256 b) = Ok tt) as -> by (unfold validate_sha; by rewrite E).
  cbn. by apply IH.
Qed.

Lemma plan_for_valid previous g b k count : plan_for previous g b -> sequenced k g ->
  k + nlen g <= MAX_PLATFORM_SEQUENCE -> Forall (fun e => validate e = Ok tt) g ->
  validate_batch (k + 1, previous, count) b
  = Ok (k + nlen g + 1, Some (ba_sha256 b), sat_add count (nlen (ba_blobs b))).
Proof.
  intros [(e1 & He1 & Hf) (e2 & He2 & Hl) Hn (raw & Hraw & Hlen & Hsha & Hmax) Hprev
    (blobs & Hblobs & Hb) _] Hs Hk Hv.
  destruct (sequenced_ends _ _ _ _ Hs He1 He2) as [H1 H2].
  assert (0 < nlen g) as Hg by (destruct g; [done|rewrite nlen_cons; lia]).
  assert (0 < nlen raw) as Hr by (eapply ndjson_nonempty; [done|by destruct g]).
  unfold validate_batch. rewrite Hf, Hl, H1, H2, N.eqb_refl, Hn, Hlen, Hsha, Hprev.
  rewrite !(proj2 (N.leb_le _ _)), (proj2 (N.ltb_lt _ _)), (proj2 (N.eqb_eq _ _)) by lia.
  cbn [andb ensure mbind result_bind]. rewrite validate_sha_digest, bool_decide_eq_true_2 by done.
  cbn [ensure mbind result_bind]. rewrite Hb, blob_plans_valid with (es := g);
    [|done|by apply blob_plans_exact].
  cbn [mbind result_bind]. unfold checked_add.
  rewrite (proj2 (N.leb_le _ _)) by (unfold MAX_PLATFORM_SEQUENCE, u64_max in *; lia). done.
Qed.

Lemma plans_for_valid previous groups batches k count : plans_for previous groups batches ->
  sequenced k (concat groups) -> k + nlen (concat groups) <= MAX_PLATFORM_SEQUENCE ->
  Forall (fun e => validate e = Ok tt) (concat groups) ->
  count + blob_plan_count batches <= u64_max ->
  try_fold validate_batch (k + 1, previous, count) batches
  = Ok (k + nlen (concat groups) + 1, last_digest previous batches, count + blob_plan_count batches).
Proof.
  revert previous batches k count.
  induction groups as [|g groups IH]; intros previous [|b batches] k count Hp Hs Hk Hv Hc; try done.
  { cbn. by rewrite !N.add_0_r. }
  destruct Hp as [Hg Hp]. cbn [concat] in *. apply sequenced_app in Hs as [Hs1 Hs2].
  apply Forall_app in Hv as [Hv1 Hv2]. rewrite nlen_app in *.
  cbn [try_fold]. rewrite (plan_for_valid _ _ _ _ _ Hg Hs1 ltac:(lia) Hv1). cbn [mbind result_bind].
  cbn [blob_plan_count foldr] in *. fold (blob_plan_count batches) in *.
  assert (sat_add count (nlen (ba_blobs b)) = count + nlen (ba_blobs b)) as ->
    by (unfold sat_add; lia).
  rewrite (IH _ _ _ _ Hp Hs2) by (done || lia). f_equal. f_equal; [f_equal|]; [lia| |lia].
  unfold last_digest. rewrite last_cons. by destruct (last batches).
Qed.
End Valid.

(** ** Extending a state *)

Lemma plans_for_app previous groups groups' batches batches' : plans_for previous groups batches ->
  plans_for (last_digest previous batches) groups' batches' ->
  plans_for previous (groups ++ groups') (batches ++ batches').
Proof.
  revert previous batches. induction groups as [|g groups IH]; intros previous [|b batches] H H'; try done.
  destruct H as [Hg H]. cbn [app plans_for]. split; [done|]. apply IH; [done|].
  unfold last_digest in *. rewrite last_cons in H'. by destruct (last batches).
Qed.

Lemma plans_for_last previous groups batches k b : plans_for previous groups batches ->
  sequenced k (concat groups) -> last batches = Some b -> ba_last_seq b = k + nlen (concat groups).
Proof.
  revert previous batches k. induction groups as [|g groups IH]; intros previous [|c batches] k H Hs Hl;
    try done.
  destruct H as [[(e1 & He1 & _) (e2 & He2 & Hb) _ _ _ _ _] H]. cbn [concat] in *. rewrite nlen_app.
  apply sequenced_app in Hs as [Hs1 Hs2]. destruct (sequenced_ends _ _ _ _ Hs1 He1 He2) as [_ H2].
  destruct batches as [|d batches].
  - injection Hl as <-. destruct groups; [|done]. cbn. rewrite nlen_nil. lia.
  - rewrite (IH _ _ (k + nlen g) H Hs2 Hl). lia.
Qed.

Lemma event_range_app first middle last es : 0 < first -> first <= middle + 1 -> middle <= last ->
  event_range first middle es ++ event_range (middle + 1) last es = event_range first last es.
Proof.
  intros H0 H1 H2. unfold event_range.
  replace (N.to_nat (last + 1 - first)) with
    (N.to_nat (middle + 1 - first) + N.to_nat (last + 1 - (middle + 1)))%nat by lia.
  rewrite <-take_take_drop, drop_drop. do 3 f_equal. lia.
Qed.

Lemma sequenced_range first last es : sequenced 0 es -> 0 < first ->
  sequenced (first - 1) (event_range first last es).
Proof. intros Hs Hf. unfold event_range. apply sequenced_take. by apply sequenced_drop. Qed.

Lemma blob_plans_length es blobs : blob_plans es = Ok blobs -> nlen blobs <= nlen es.
Proof.
  unfold blob_plans. revert blobs. induction es as [|e es IH] using rev_ind; intros blobs H.
  { by injection H as <-. }
  rewrite fmap_app, try_fold_app in H. apply bind_ok in H as (blobs0 & H0 & H).
  cbn in H. apply bind_ok in H as (blobs1 & H & [= <-]). specialize (IH _ H0).
  rewrite nlen_app, nlen_cons. unfold add_blob_plan in H.
  destruct (ev_raw e) as [r|]; [|injection H as <-; lia].
  destruct (is_sensitive_upload_media_type _); [injection H as <-; lia|].
  apply bind_ok in H as (sha & _ & H). destruct (map_get sha blobs0); [peel H; injection H as <-; lia|].
  injection H as <-. pose proof (nlen_map_insert sha (mkBlobPlan sha (ref_size r) (ref_media_type r)) blobs0).
  lia.
Qed.

Lemma plans_for_blobs previous groups batches : plans_for previous groups batches ->
  blob_plan_count batches <= nlen (concat groups).
Proof.
  revert previous batches. induction groups as [|g groups IH]; intros previous [|b batches] H; try done.
  destruct H as [[_ _ _ _ _ (blobs & Hb & Hbb) _] H]. apply IH in H.
  cbn [blob_plan_count foldr concat]. fold (blob_plan_count batches). rewrite Hbb, nlen_app.
  apply blob_plans_length in Hb. unfold nlen in *. rewrite length_fmap. lia.
Qed.

(** The batches of a state divide the events it plans. *)
Record plans_log (es : list EventEnvelope) (s : UploadState) : Prop := {
  pg_first : 0 < us_first_seq s;
  pg_groups : exists groups, plans_for None groups (us_batches s) /\
    concat groups = event_range (us_first_seq s) (planned_sequence s) es /\
    nlen (concat groups) = planned_sequence s + 1 - us_first_seq s;
}.

Lemma plans_log_bound es s : plans_log es s -> us_first_seq s <= planned_sequence s + 1.
Proof.
  intros [Hf (groups & Hp & Hc & Hn)]. unfold planned_sequence in *. unfold sat_sub in *.
  destruct (last (us_batches s)) as [b|] eqn:E; [|lia].
  destruct (us_batches s) as [|c batches]; [done|]. destruct groups as [|g groups]; [done|].
  destruct Hp as [[(e & He & _) _ _ _ _ _ _] _]. cbn [concat] in Hn. rewrite nlen_app in Hn.
  destruct g; [done|]. rewrite nlen_cons in Hn. lia.
Qed.

Lemma extend_state_sound es s target now s' : sequenced 0 es -> target < u64_max ->
  plans_log es s -> extend_state_to s (stream es) target now = Ok s' ->
  plans_log es s' /\ planned_sequence s' = target /\
  exists additional time,
    s' = s <| us_batches := us_batches s ++ additional |> <| us_updated_at := time |> /\
    (time = us_updated_at s \/ time = now) /\ nlen (us_batches s') <= N.max MAX_BATCH_PLANS (nlen (us_batches s)) /\
    blob_plan_count additional <= target - planned_sequence s.
Proof.
  intros Hs Ht Hp H. pose proof (plans_log_bound _ _ Hp) as Hbound. unfold extend_state_to in H.
  destruct (planned_sequence s =? target) eqn:E; reflect_N.
  { injection H as <-. split; [done|]. split; [done|]. exists [], (us_updated_at s). rewrite app_nil_r.
    split_and!; [by destruct s|by left|lia|cbn; lia]. }
  peel H. peel H. apply bind_ok in H as (first & Hf & H). apply ok_or_ok, checked_add_Some in Hf as [-> _].
  apply bind_ok in H as (additional & Ha & H). cbn zeta in H. peel H. injection H as <-. reflect_N.
  destruct (build_plans_sound _ _ _ _ _ _ Hs Ht Ha) as (_ & groups' & Hp' & Hc' & Hn' & _).
  destruct Hp as [Hfirst (groups & Hp & Hc & Hn)].
  assert (plans_for None (groups ++ groups') (us_batches s ++ additional)) as Hall.
  { apply plans_for_app; [done|]. unfold last_digest. by destruct (last (us_batches s)). }
  pose (s' := s <| us_batches := us_batches s ++ additional |> <| us_updated_at := now |>).
  change (plans_log es s' /\ planned_sequence s' = target /\ exists additional time,
    s' = s <| us_batches := us_batches s ++ additional |> <| us_updated_at := time |> /\
    (time = us_updated_at s \/ time = now) /\ nlen (us_batches s') <= N.max MAX_BATCH_PLANS (nlen (us_batches s)) /\
    blob_plan_count additional <= target - planned_sequence s).
  assert (nlen (us_batches s ++ additional) <= MAX_BATCH_PLANS) as Hlimit by done.
  assert (planned_sequence s' = target) as Hpl.
  { unfold planned_sequence. cbn. destruct (last (us_batches s ++ additional)) as [b|] eqn:El.
    - erewrite (plans_for_last None _ _ (us_first_seq s - 1) b Hall); [|rewrite concat_app, Hc, Hc'|done].
      + rewrite concat_app, nlen_app. lia.
      + rewrite event_range_app by lia. by apply sequenced_range.
    - apply last_None, app_nil in El as [_ ->]. destruct groups'; [|done]. cbn in Hn'.
      rewrite nlen_nil in Hn'. lia. }
  split.
  2: { split; [done|]. exists additional, now. split; [done|]. split; [by right|].
       pose proof (plans_for_blobs _ _ _ Hp'). cbn. lia. }
  split; [done|]. exists (groups ++ groups'). split; [done|]. rewrite Hpl, concat_app, nlen_app, Hc, Hc'.
  change (us_first_seq s') with (us_first_seq s). split; [apply event_range_app; lia|].
  rewrite <-Hc, <-Hc'. lia.
Qed.

(** ** Planning succeeds *)

Lemma consistent_sizes_sub es es' : (forall e, e ∈ es' -> e ∈ es) -> consistent_sizes es ->
  consistent_sizes es'.
Proof. intros Hsub H e e' r r' He He'. apply H; by apply Hsub. Qed.

Lemma plan_events_total previous first last now es : forall groups pending p k0,
  planning previous groups pending p -> sequenced k0 pending ->
  k0 + nlen pending + 1 = pl_expected p -> first <= pl_expected p ->
  sequenced (pl_expected p - 1) es -> Forall uploadable es ->
  consistent_sizes (concat groups ++ pending ++ es) ->
  nlen (concat groups ++ pending) + (last + 1 - pl_expected p) <= MAX_BATCH_PLANS ->
  exists p', plan_events first last now p (stream es) = Ok p'.
Proof.
  induction es as [|e es IH]; intros groups pending p k0 Hp Hk Hx Hf Hs Hu Hc Hn; [by eexists|].
  destruct Hs as (He & Hlt & Hs). rewrite N.sub_add in He, Hlt, Hs by lia.
  apply Forall_cons in Hu as [Hu Hus].
  cbn [stream map plan_events storage_message map_err mbind result_bind]. rewrite He.
  rewrite (proj2 (N.ltb_ge _ _)) by done.
  destruct (last <? pl_expected p) eqn:El; [by eexists|]. reflect_N. rewrite nlen_app in Hn.
  destruct (plan_event_total _ _ _ _ now _ e Hp Hk Hu) as [p1 H1]; [|done|lia|lia|].
  { eapply consistent_sizes_sub; [|exact Hc]. set_solver. }
  rewrite H1. cbn [mbind result_bind]. fold (stream es).
  destruct (plan_event_sound _ _ _ _ _ _ _ _ Hp Hk Hx H1 ltac:(lia))
    as (groups1 & pending1 & k1 & Hp1 & _ & Hc1 & Hk1 & Hx1 & _ & He1).
  assert (concat groups1 ++ pending1 ++ es = concat groups ++ pending ++ e :: es) as Heq
    by (rewrite app_assoc, Hc1, <-!app_assoc; done).
  apply (IH groups1 pending1 p1 k1 Hp1 Hk1 Hx1); try done; [lia|by rewrite He1, N.add_sub|..];
    [by rewrite Heq|]. rewrite Hc1, !nlen_app, nlen_cons, nlen_nil. lia.
Qed.

(** A range of at most 100,000 events of an intact log can always be planned. *)
Lemma build_plans_total es first last previous now : sequenced 0 es -> Forall uploadable es ->
  consistent_sizes es -> 0 < first <= last -> last <= nlen es ->
  last + 1 - first <= MAX_BATCH_PLANS ->
  exists batches, build_batch_plans_range (stream es) first last previous now = Ok batches.
Proof.
  intros Hs Hu Hc Hf Hl Hm. unfold build_batch_plans_range.
  rewrite (proj2 (N.ltb_lt _ _)), (proj2 (N.leb_le _ _)) by lia. cbn [andb ensure mbind result_bind].
  rewrite (plan_events_skip _ _ _ _ 0) by (done || lia). rewrite N.sub_0_r.
  set (rest := drop (N.to_nat (first - 1)) es). pose (p0 := mkPlanning [] [] 0 0 0 [] previous first).
  assert (sequenced (first - 1) rest) as Hd by (apply sequenced_drop; [done|lia]).
  assert (last < u64_max) as Hlast.
  { destruct es as [|e es]; [rewrite nlen_nil in *; lia|].
    pose proof (sequenced_bound _ _ Hs ltac:(done)). lia. }
  destruct (plan_events_total previous first last now rest [] [] p0 (first - 1)) as [p Hp];
    [apply planning_start|done|cbn; rewrite nlen_nil; lia|done|done|by apply Forall_drop| |cbn; rewrite nlen_nil; lia|].
  { eapply consistent_sizes_sub; [|exact Hc]. intros e He. cbn in He.
    rewrite <-(take_drop (N.to_nat (first - 1)) es). apply elem_of_app. by right. }
  destruct (plan_events_sound previous first last now rest [] [] p0 (first - 1) p)
    as (groups & pending & Hpl & Hc' & Hx);
    [apply planning_start|done|cbn; rewrite nlen_nil; lia|done|done|done|].
  cbn [pl_expected p0 concat app] in Hc', Hx. fold p0. rewrite Hp. cbn [mbind result_bind].
  assert (nlen (take (N.to_nat (last + 1 - first)) rest) = last + 1 - first) as Hlen.
  { unfold rest, nlen in *. rewrite length_take, length_drop. lia. }
  assert (sequenced (first - 1) (concat groups ++ pending)) as Hs'
    by (rewrite Hc'; by apply sequenced_take).
  apply sequenced_app in Hs' as [_ Hs'].
  destruct (finish_planning_total _ _ _ _ now _ Hpl Hs') as [batches Hb].
  destruct (finish_planning_sound _ _ _ _ _ _ Hpl Hb) as (groups' & Hpf & Hcat).
  rewrite Hb. cbn [mbind result_bind]. exists batches. rewrite Hc' in Hcat.
  pose proof (plans_for_blobs _ _ _ Hpf) as Hcount. rewrite Hcat, Hlen in Hcount.
  rewrite bool_decide_eq_false_2.
  2: { intros ->. destruct groups'; [|done]. rewrite <-Hcat in Hlen. cbn in Hlen. rewrite nlen_nil in Hlen. lia. }
  rewrite (proj2 (N.eqb_neq last u64_max)) by lia.
  rewrite (proj2 (N.eqb_eq _ _)) by (unfold sat_add; lia).
  rewrite (proj2 (N.leb_le _ _)) by (unfold MAX_BATCH_PLANS, MAX_BLOB_PLANS in *; lia). done.
Qed.

(** ** A planned state is valid and can be read back *)

(** The loop over the batches of a state. *)
Fixpoint read_batches (reader : Stream) (batches : list BatchPlan) : result string (list bytes) :=
  match batches with
  | [] => Ok []
  | b :: batches' =>
      '(raw, reader) ← read_batch reader b;
      raws ← read_batches reader batches';
      Ok (raw :: raws)
  end.

Lemma read_batches_stream previous groups batches k skip post : plans_for previous groups batches ->
  sequenced k (skip ++ concat groups ++ post) ->
  exists raws, read_batches (stream (skip ++ concat groups ++ post)) batches = Ok raws /\
    Forall2 (fun g raw => ndjson g = Ok raw) groups raws.
Proof.
  revert previous batches k skip.
  induction groups as [|g groups IH]; intros previous [|b batches] k skip Hp Hs; try done.
  { by exists []. }
  destruct Hp as [Hg Hp]. cbn [concat] in *. rewrite <-app_assoc in *.
  destruct (read_batch_stream _ _ _ _ _ _ Hg Hs) as (raw & Hraw & Hr). cbn [read_batches].
  rewrite Hr. cbn [mbind result_bind].
  apply sequenced_app in Hs as [_ Hs]. apply sequenced_app in Hs as [_ Hs].
  destruct (IH _ _ _ [] Hp Hs) as (raws & Hrs & Hf). cbn [app] in Hrs. rewrite Hrs. cbn [mbind result_bind].
  exists (raw :: raws). split; [done|by constructor].
Qed.

Lemma groups_ndjson groups raws : Forall2 (fun g raw => ndjson g = Ok raw) groups raws ->
  ndjson (concat groups) = Ok (concat raws).
Proof.
  induction 1 as [|g raw groups raws Hg _ IH]; [done|]. cbn [concat]. by apply ndjson_app.
Qed.

(** The guards that do not concern the batches. *)
Record valid_identity (s : UploadState) (run_id recording_id api_origin : string) : Prop := {
  vi_version : us_schema_version s = STATE_SCHEMA_VERSION;
  vi_origin : us_api_origin s = api_origin;
  vi_run : us_run_id s = run_id;
  vi_segment : us_segment_no s < MAX_RECORDING_SEGMENTS;
  vi_first : 0 < us_first_seq s <= MAX_PLATFORM_SEQUENCE;
  vi_created : (us_created_at s <= us_updated_at s + FIVE_MINUTES)%Z;
  vi_recording : us_recording_id s = recording_id;
  vi_policy : us_batch_max_events s = DEFAULT_BATCH_EVENTS /\ us_batch_max_bytes s = DEFAULT_BATCH_BYTES;
}.

Section Valid2.
Context {diglaws : DigestLaws} {hexlaws : HexLaws}.

Lemma is_batch_boundary_last s : is_batch_boundary s (planned_sequence s) = true.
Proof.
  unfold is_batch_boundary, planned_sequence. destruct (last (us_batches s)) as [b|] eqn:E.
  - apply orb_true_iff. right. apply existsb_exists. exists b. split; [|apply N.eqb_refl].
    apply list_elem_of_In. by apply last_Some_elem_of.
  - by rewrite N.eqb_refl.
Qed.

(** A state whose batches divide a range of the log is valid when its identity
    is and it is acknowledged up to one of its batches. *)
Lemma plans_log_valid es s run_id recording_id api_origin available : sequenced 0 es ->
  Forall (fun e => validate e = Ok tt) es -> plans_log es s ->
  valid_identity s run_id recording_id api_origin ->
  nlen (us_batches s) <= MAX_BATCH_PLANS -> blob_plan_count (us_batches s) <= MAX_BLOB_PLANS ->
  planned_sequence s <= MAX_PLATFORM_SEQUENCE -> planned_sequence s <= available ->
  us_acked_seq s <= planned_sequence s -> is_batch_boundary s (us_acked_seq s) = true ->
  (us_sealed s = true -> us_acked_seq s = planned_sequence s) ->
  validate_state_prefix s run_id recording_id api_origin available = Ok (planned_sequence s).
Proof.
  intros Hs Hv Hp [] Hnb Hbb Hmax Hav Hack Hbound Hseal.
  pose proof (plans_log_bound _ _ Hp) as Hb. destruct Hp as [Hf (groups & Hg & Hc & Hn)].
  unfold validate_state_prefix. rewrite vi_version0, vi_origin0, vi_run0, vi_recording0.
  destruct vi_policy0 as [-> ->].
  rewrite !(proj2 (str_eqb_true _ _)) by done.
  rewrite !(proj2 (N.ltb_lt _ _)), !(proj2 (N.leb_le _ _)), (proj2 (Z.leb_le _ _)) by (done || lia).
  cbn [andb ensure mbind result_bind N.eqb Pos.eqb STATE_SCHEMA_VERSION DEFAULT_BATCH_EVENTS].
  replace (DEFAULT_BATCH_BYTES =? DEFAULT_BATCH_BYTES) with true by done. cbn [ensure mbind result_bind].
  replace (us_first_seq s) with (us_first_seq s - 1 + 1) at 1 by lia.
  assert (us_first_seq s - 1 + nlen (concat groups) = planned_sequence s) as Hsum by lia.
  erewrite plans_for_valid; [|exact Hg| | | |].
  - cbn [mbind result_bind]. rewrite Hsum, N.add_sub, N.add_0_l, Hbound.
    rewrite !(proj2 (N.leb_le _ _)) by lia. cbn [andb ensure mbind result_bind].
    destruct (us_sealed s); [|done]. rewrite Hseal, N.eqb_refl by done. done.
  - rewrite Hc. by apply sequenced_range.
  - lia.
  - rewrite Hc. unfold event_range. by apply Forall_take, Forall_drop.
  - unfold MAX_BLOB_PLANS, u64_max in *. lia.
Qed.
End Valid2.

Lemma validate_batches_next acc batches next previous count :
  try_fold validate_batch acc batches = Ok (next, previous, count) ->
  next = match last batches with Some b => ba_last_seq b + 1 | None => acc.1.1 end.
Proof.
  revert acc. induction batches as [|b batches IH]; intros [[n q] c] H; cbn [try_fold] in H.
  { by injection H as -> _ _. }
  apply bind_ok in H as ([[n1 q1] c1] & Hb & H). apply IH in H. rewrite last_cons. rewrite H.
  destruct (last batches); [done|]. unfold validate_batch in Hb.
  peel Hb. peel Hb. peel Hb. apply bind_ok in Hb as ([] & _ & Hb). peel Hb.
  apply bind_ok in Hb as ([] & _ & Hb). apply bind_ok in Hb as (m & Hm & Hb).
  apply ok_or_ok, checked_add_Some in Hm as [-> _]. by injection Hb as -> _ _.
Qed.

(** What a valid state satisfies. *)
Lemma validate_state_prefix_ok s run_id recording_id api_origin available planned :
  validate_state_prefix s run_id recording_id api_origin available = Ok planned ->
  planned = planned_sequence s /\ valid_identity s run_id recording_id api_origin /\
  planned <= available /\ us_acked_seq s <= planned /\ is_batch_boundary s (us_acked_seq s) = true /\
  (us_sealed s = true -> us_acked_seq s = planned) /\ nlen (us_batches s) <= MAX_BATCH_PLANS.
Proof.
  unfold validate_state_prefix. intros H. do 8 (peel H).
  apply bind_ok in H as ([[next q] count] & Hf & H). apply validate_batches_next in Hf.
  cbn zeta in H. do 4 (peel H). injection H as <-. cbn [fst] in Hf. reflect_N.
  assert (next - 1 = planned_sequence s) as Hp.
  { unfold planned_sequence, sat_sub. destruct (last (us_batches s)); subst; lia. }
  rewrite Hp in *. split; [done|]. split.
  { split; try done; try lia; try (by apply str_eqb_true). }
  split_and!; try done. intros Hs.
  match goal with E : negb _ || _ = true |- _ => rewrite Hs in E; by apply N.eqb_eq in E end.
Qed.

Lemma plans_for_sizes previous groups batches : plans_for previous groups batches ->
  Forall (fun b => ba_event_count b <= DEFAULT_BATCH_EVENTS /\ ba_byte_length b <= DEFAULT_BATCH_BYTES)
    batches.
Proof.
  revert previous batches. induction groups as [|g groups IH]; intros previous [|b batches] H; try done.
  destruct H as [[_ _ Hn (raw & _ & Hl & _ & Hm) _ _ He] H]. constructor; [split; lia|by eapply IH].
Qed.

Lemma existsb_app_l {A} (f : A -> bool) l k : existsb f l = true -> existsb f (l ++ k) = true.
Proof. intros H. rewrite existsb_app, H. done. Qed.

Lemma plans_log_read es s : sequenced 0 es -> plans_log es s ->
  exists raws, read_batches (stream es) (us_batches s) = Ok raws /\
    ndjson (event_range (us_first_seq s) (planned_sequence s) es) = Ok (concat raws).
Proof.
  intros Hs Hp. destruct Hp as [Hf (groups & Hg & Hc & Hn)].
  pose (skip := take (N.to_nat (us_first_seq s - 1)) es).
  assert (exists post, es = skip ++ concat groups ++ post) as [post Hes].
  { unfold skip. eexists. rewrite Hc. unfold event_range. by rewrite take_drop, take_drop. }
  rewrite Hes in Hs. destruct (read_batches_stream _ _ _ _ _ _ Hg Hs) as (raws & Hr & Hn').
  rewrite <-Hes in Hr. exists raws. split; [done|]. rewrite <-Hc. by apply groups_ndjson.
Qed.

Lemma extend_state_total es s target now : sequenced 0 es -> Forall uploadable es ->
  consistent_sizes es -> plans_log es s -> us_sealed s = false ->
  planned_sequence s <= target <= nlen es ->
  nlen (us_batches s) + (target - planned_sequence s) <= MAX_BATCH_PLANS ->
  exists s', extend_state_to s (stream es) target now = Ok s'.
Proof.
  intros Hs Hu Hc Hp Hseal Ht Hnb. unfold extend_state_to.
  destruct (planned_sequence s =? target) eqn:E; [by eexists|]. reflect_N.
  rewrite (proj2 (N.ltb_lt _ _)), Hseal by lia. cbn [ensure negb mbind result_bind].
  assert (target < u64_max) as Hlt.
  { destruct es as [|e es]; [rewrite nlen_nil in *; lia|].
    pose proof (sequenced_bound _ _ Hs ltac:(done)). lia. }
  unfold checked_add. rewrite (proj2 (N.leb_le _ _)) by lia. cbn [ok_or mbind result_bind].
  destruct (build_plans_total es (planned_sequence s + 1) target (ba_sha256 <$> last (us_batches s)) now)
    as [additional Ha]; try done; [lia..|].
  rewrite Ha. cbn [mbind result_bind].
  destruct (build_plans_sound _ _ _ _ _ _ Hs Hlt Ha) as (_ & groups & Hg & _ & Hn & _).
  destruct (plans_for_length _ _ _ Hg) as [H1 H2].
  rewrite (proj2 (ensure_ok _ _ tt)) by (apply N.leb_le; cbn; rewrite nlen_app; lia). by eexists.
Qed.

Lemma blob_plan_count_app batches batches' :
  blob_plan_count (batches ++ batches') = blob_plan_count batches + blob_plan_count batches'.
Proof.
  unfold blob_plan_count. induction batches as [|b batches IH]; cbn [app foldr]; [lia|].
  rewrite IH. lia.
Qed.

Section Plan.
Context {diglaws : DigestLaws} {hexlaws : HexLaws}.

Lemma extend_state_valid es s target now s' run_id recording_id api_origin available :
  sequenced 0 es -> Forall (fun e => validate e = Ok tt) es -> plans_log es s -> us_sealed s = false ->
  validate_state_prefix s run_id recording_id api_origin available = Ok (planned_sequence s) ->
  (us_created_at s <= now + FIVE_MINUTES)%Z -> target <= MAX_PLATFORM_SEQUENCE ->
  planned_sequence s <= target ->
  blob_plan_count (us_batches s) + (target - planned_sequence s) <= MAX_BLOB_PLANS ->
  extend_state_to s (stream es) target now = Ok s' ->
  validate_state s' run_id recording_id api_origin target = Ok tt.
Proof.
  intros Hs Hv Hp Hseal Hval Hnow Hmax Ht Hbb Hx.
  destruct (validate_state_prefix_ok _ _ _ _ _ _ Hval) as (_ & [] & _ & Hack & Hbd & _ & Hnb).
  assert (target < u64_max) as Hlt by (unfold MAX_PLATFORM_SEQUENCE, u64_max in *; lia).
  destruct (extend_state_sound _ _ _ _ _ Hs Hlt Hp Hx)
    as (Hp' & Hpl & additional & time & Heq & Htime & Hn' & Hb').
  unfold validate_state. erewrite plans_log_valid; [|exact Hs|done|exact Hp'|..]; rewrite ?Hpl; try done.
  - cbn [mbind result_bind]. by rewrite N.eqb_refl.
  - subst s'. split; try done. cbn. destruct Htime as [-> | ->]; done.
  - lia.
  - subst s'. cbn. rewrite blob_plan_count_app. lia.
  - subst s'. cbn. lia.
  - subst s'. unfold is_batch_boundary in *. cbn. apply orb_true_iff in Hbd as [Hbd|Hbd];
      apply orb_true_iff; [by left|right]. by apply existsb_app_l.
  - subst s'. cbn. by rewrite Hseal.
Qed.

(** C11: extending an open upload state to an event number of an intact log
    succeeds within the plan limits, keeps the batches already fixed, and gives
    a state that the next start accepts for exactly that boundary; reading its
    batches from the log in order gives the lines of the planned events, all of
    them and nothing else, in batches of at most 2,000 events and 4 MiB. *)
Theorem upload_plan_exact es s target now run_id recording_id api_origin :
  sequenced 0 es -> Forall (fun e => validate e = Ok tt) es -> Forall uploadable es ->
  consistent_sizes es -> plans_log es s -> us_sealed s = false ->
  validate_state_prefix s run_id recording_id api_origin (nlen es) = Ok (planned_sequence s) ->
  (us_created_at s <= now + FIVE_MINUTES)%Z ->
  planned_sequence s <= target <= nlen es -> target <= MAX_PLATFORM_SEQUENCE ->
  nlen (us_batches s) + (target - planned_sequence s) <= MAX_BATCH_PLANS ->
  blob_plan_count (us_batches s) + (target - planned_sequence s) <= MAX_BLOB_PLANS ->
  exists s' raws, extend_state_to s (stream es) target now = Ok s' /\
    us_batches s `prefix_of` us_batches s' /\
    validate_state s' run_id recording_id api_origin target = Ok tt /\
    read_batches (stream es) (us_batches s') = Ok raws /\
    ndjson (event_range (us_first_seq s) target es) = Ok (concat raws) /\
    Forall (fun b => ba_event_count b <= DEFAULT_BATCH_EVENTS /\ ba_byte_length b <= DEFAULT_BATCH_BYTES)
      (us_batches s').
Proof.
  intros Hs Hv Hu Hc Hp Hseal Hval Hnow Ht Hmax Hnb Hbb.
  destruct (extend_state_total es s target now) as [s' Hx]; [done..|].
  assert (target < u64_max) as Hlt by (unfold MAX_PLATFORM_SEQUENCE, u64_max in *; lia).
  destruct (extend_state_sound _ _ _ _ _ Hs Hlt Hp Hx) as (Hp' & Hpl & additional & time & Heq & _).
  destruct (plans_log_read _ _ Hs Hp') as (raws & Hr & Hn). rewrite Hpl in Hn.
  exists s', raws. split; [done|]. split; [rewrite Heq; by exists additional|].
  split; [eapply (extend_state_valid es s target now); try done; lia|]. split; [done|]. split; [by rewrite Heq in Hn|].
  destruct Hp' as [_ (groups & Hg & _)]. by eapply plans_for_sizes.
Qed.
End Plan.

(** ** The size of a state file *)

(** The structural tokens of the JSON text of a structure with [n] fields. *)
Definition object_tokens (n : N) : N := 2 * n.
Definition blob_tokens (b : BlobPlan) : N :=
  object_tokens (match bp_media_type b with Some _ => 3 | None => 2 end).
(** An array: its bracket, its elements and the commas between them. *)
Definition array_tokens {A} (tokens : A -> N) (l : list A) : N :=
  1 + foldr (fun x total => tokens x + total) 0 l + (nlen l - 1).
Definition batch_tokens (b : BatchPlan) : N :=
  object_tokens (match ba_prev_sha256 b with Some _ => 8 | None => 7 end)
  + array_tokens blob_tokens (ba_blobs b).
Definition state_tokens (s : UploadState) : N :=
  object_tokens (match us_collector_id s with Some _ => 15 | None => 14 end)
  + array_tokens batch_tokens (us_batches s).

(** What serde_json writes is read back, and its structural tokens are those of
    its structures and arrays; an empty text is no value. *)
Class SerdeUploadLaws := {
  upload_roundtrip : forall s text, upload_to_vec s = Some text ->
    upload_from_slice (text ++ [LF]) = Some s;
  upload_tokens : forall s text, upload_to_vec s = Some text ->
    tokens (scan_free (text ++ [LF])) = state_tokens s;
  upload_empty : upload_from_slice [] = None;
}.

Lemma batches_tokens n d c batches r : try_fold validate_batch (n, Some d, c) batches = Ok r ->
  17 * nlen batches <= foldr (fun x total => batch_tokens x + total) 0 batches.
Proof.
  revert n d c. induction batches as [|b batches IH]; intros n d c H; [done|].
  cbn [try_fold] in H. apply bind_ok in H as ([[n1 q1] c1] & Hb & H). unfold validate_batch in Hb.
  peel Hb. peel Hb. peel Hb. apply bind_ok in Hb as ([] & _ & Hb). peel Hb.
  apply bind_ok in Hb as ([] & _ & Hb). apply bind_ok in Hb as (m & _ & Hb).
  injection Hb as <- <- <-. apply IH in H. rewrite nlen_cons. cbn [foldr].
  match goal with E : bool_decide _ = true |- _ => apply bool_decide_eq_true in E end.
  assert (17 <= batch_tokens b) as Ht; [|lia]. unfold batch_tokens, object_tokens, array_tokens.
  match goal with E : ba_prev_sha256 b = _ |- _ => rewrite E end. lia.
Qed.

(** A valid state with at least 5,555 batches exceeds the scanner's limit. *)
Lemma valid_state_tokens s run_id recording_id api_origin available planned :
  validate_state_prefix s run_id recording_id api_origin available = Ok planned ->
  5555 <= nlen (us_batches s) -> MAX_JSON_STRUCTURAL_TOKENS < state_tokens s.
Proof.
  unfold validate_state_prefix. intros H Hn. do 8 (peel H).
  apply bind_ok in H as ([[next q] count] & Hf & _).
  destruct (us_batches s) as [|b batches] eqn:E; [done|]. cbn [try_fold] in Hf.
  apply bind_ok in Hf as ([[n1 q1] c1] & Hb & Hf). rewrite nlen_cons in Hn.
  unfold validate_batch in Hb. peel Hb. peel Hb. peel Hb. apply bind_ok in Hb as ([] & _ & Hb). peel Hb.
  apply bind_ok in Hb as ([] & _ & Hb). apply bind_ok in Hb as (m & _ & Hb). injection Hb as <- <- <-.
  apply batches_tokens in Hf. unfold state_tokens, object_tokens, array_tokens at 1.
  rewrite E, nlen_cons. cbn [foldr].
  assert (15 <= batch_tokens b) by (unfold batch_tokens, object_tokens, array_tokens; destruct (ba_prev_sha256 b); lia).
  unfold MAX_JSON_STRUCTURAL_TOKENS. destruct (us_collector_id s); lia.
Qed.

Lemma segment_state_path_shape api_origin k :
  str_starts_with "state-" (segment_state_path api_origin k) = true /\
  str_ends_with ".json" (segment_state_path api_origin k) = true.
Proof.
  assert (exists t, segment_state_path api_origin k = "state-" +:+ (t +:+ ".json")) as [t ->].
  { unfold segment_state_path. case_match; [by eexists|].
    exists (origin_digest api_origin +:+ "-segment-" +:+ format_padded 4 k).
    apply (inj as_bytes). by rewrite !as_bytes_app, <-!app_assoc. }
  unfold str_starts_with, str_ends_with, ends_with. rewrite !as_bytes_app, !reverse_app.
  split; apply starts_with_spec; eexists; [done|]. by rewrite <-!app_assoc.
Qed.

Lemma try_fold_fails {A B} (f : A -> B -> result string A) a l x :
  x ∈ l -> (forall a a', f a x <> Ok a') -> exists e, try_fold f a l = Err e.
Proof.
  intros Hx Hf. destruct (try_fold f a l) as [a'|e] eqn:E; [|by exists e].
  exfalso. revert a E. induction l as [|y l IH]; intros a E; [by apply elem_of_nil in Hx|].
  cbn [try_fold] in E. apply bind_ok in E as (a1 & Hy & E).
  apply elem_of_cons in Hx as [<-|Hx]; [by apply Hf in Hy|]. by eapply IH.
Qed.

Lemma list_origins_fails spool run_id path e : is_Some (spool !! path) ->
  str_starts_with "state-" path = true -> str_ends_with ".json" path = true ->
  parse_state spool path = Err e -> exists e', list_upload_origins spool run_id = Err e'.
Proof.
  intros [content Hc] Hs He Hp. unfold list_upload_origins.
  destruct (try_fold_fails (list_origin spool run_id) ([], 0) ((map_to_list spool).*1) path)
    as [e' He'].
  - apply list_elem_of_fmap. exists (path, content). split; [done|]. by apply elem_of_map_to_list.
  - intros [o n] [o' n'] H. unfold list_origin in H. rewrite Hs, He in H. cbn [negb orb] in H.
    peel H. by rewrite Hp in H.
  - rewrite He'. by exists e'.
Qed.

Section Limits.
Context {laws : SerdeUploadLaws}.

Lemma oversized_parse spool path s spool' : MAX_JSON_STRUCTURAL_TOKENS < state_tokens s ->
  write_state spool path s = Ok spool' -> exists e, parse_state spool' path = Err e.
Proof.
  intros Ht H. unfold write_state in H. apply bind_ok in H as (text & Htext & [= <-]).
  apply ok_or_ok in Htext. unfold parse_state, read_regular_limited, from_io_message.
  rewrite lookup_insert_eq. cbn [ok_or mbind result_bind].
  destruct (MAX_STATE_BYTES <? nlen (text ++ [LF])); [by eexists|]. cbn [map_err mbind result_bind].
  destruct (validate_json_complexity (text ++ [LF])) as [[]|e] eqn:E; [|by eexists].
  exfalso. unfold validate_json_complexity in E. rewrite validate_prefixes in E by done.
  destruct (E (text ++ [LF]) []) as [_ E']; [by rewrite app_nil_r|]. rewrite (upload_tokens _ _ Htext) in E'. lia.
Qed.

(** C38: [write_state] accepts states that nothing reads again: once a segment
    has 5,555 batches, far below the 100,000 the planner allows, its text holds
    more structural tokens than [validate_json_complexity] admits, so the next
    upload of the segment and the retention gate both fail on the file. *)
Theorem large_state_unreadable s run_id recording_id api_origin available planned spool spool'
    segment_no first_seq target created updated final :
  validate_state_prefix s run_id recording_id api_origin available = Ok planned ->
  5555 <= nlen (us_batches s) ->
  write_state spool (segment_state_path api_origin segment_no) s = Ok spool' ->
  (exists e, load_or_new spool' (segment_state_path api_origin segment_no) run_id recording_id
    api_origin segment_no first_seq target created updated = Err e) /\
  exists e, verify_retention_gate (Some spool') run_id final = Err e.
Proof.
  intros Hv Hn Hw. pose proof (valid_state_tokens _ _ _ _ _ _ Hv Hn) as Ht.
  destruct (oversized_parse _ _ _ _ Ht Hw) as [e He].
  assert (is_Some (spool' !! segment_state_path api_origin segment_no)) as Hin.
  { unfold write_state in Hw. apply bind_ok in Hw as (text & _ & [= <-]).
    rewrite lookup_insert_eq. by eexists. }
  destruct (segment_state_path_shape api_origin segment_no) as [Hs Hj]. split.
  - exists e. unfold load_or_new. destruct Hin as [content ->]. by rewrite He.
  - destruct (list_origins_fails _ run_id _ _ Hin Hs Hj He) as [e' He']. exists e'. cbn. by rewrite He'.
Qed.
End Limits.
End Spec.

Module UploadStateExamples.
Import Concrete.

(** ** A small log *)

Definition payload_hash : string := hex_encode (sha256 (as_bytes "prompt")).

Definition event (sequence : N) (raw : option PayloadRef) : EventEnvelope :=
  mkEventEnvelope SCHEMA_VERSION (N.shiftl 7 76 + sequence) sequence "run"
    (mkEventIds None None None None None None None None None) "proxy" "note" 0 0%Z raw
    None (mkRedactionRecord "default" [] []) None [] None.

Definition reference (media_type : option string) : PayloadRef :=
  mkPayloadRef ("sha256:" +:+ payload_hash) 6 media_type false.

Definition log : list EventEnvelope :=
  [event 1 None; event 2 (Some (reference None)); event 3 (Some (reference (Some PCAP_MEDIA_TYPE)))].

(** The texts of these events. *)
#[local] Instance log_serde : Serde := {|
  encrypted_event_to_vec _ := None;
  encrypted_event_from_slice _ := None;
  envelope_to_vec e := Some (as_bytes ("{" +:+ pretty (ev_sequence e) +:+ "}"));
  envelope_from_slice _ := None;
  value_from_slice _ := None;
|}.

Definition start : UploadState := new_state "run" "run#0000" "https://api/" 0 1 0%Z 0%Z.

(** The first two events are already planned. *)
Definition planned_two : UploadState := default start (ok (extend_state_to start (stream log) 2 0%Z)).

Lemma log_sequenced : sequenced 0 log.
Proof. by vm_compute. Qed.
Lemma log_valid : Forall (fun e => validate e = Ok tt) log.
Proof. by repeat constructor. Qed.
Lemma log_uploadable : Forall uploadable log.
Proof.
  repeat constructor; try (by eexists; split; [reflexivity|vm_compute]);
    intros r [= <-] H; vm_compute in H; try done; by eexists.
Qed.
Lemma log_consistent : consistent_sizes log.
Proof.
  intros e e' r r' He He' Hr Hr' _.
  assert (forall x y, x ∈ log -> ev_raw x = Some y -> ref_size y = 6) as H.
  { unfold log. intros x y Hx Hy. repeat (apply elem_of_cons in Hx as [->|Hx]; [by simplify_eq/=|]).
    by apply elem_of_nil in Hx. }
  by rewrite (H e r), (H e' r').
Qed.

Lemma planned_two_ok : extend_state_to start (stream log) 2 0%Z = Ok planned_two.
Proof. vm_compute. reflexivity. Qed.
Lemma planned_two_plans : plans_log log planned_two.
Proof.
  refine (proj1 (extend_state_sound log start 2 0%Z planned_two log_sequenced _ _ planned_two_ok));
    [done|]. split; [done|]. by exists [].
Qed.

Lemma upload_plan_exact_witness :
  exists s' raws, extend_state_to planned_two (stream log) 3 5%Z = Ok s' /\
    us_batches planned_two `prefix_of` us_batches s' /\
    validate_state s' "run" "run#0000" "https://api/" 3 = Ok tt /\
    read_batches (stream log) (us_batches s') = Ok raws /\
    ndjson (event_range (us_first_seq planned_two) 3 log) = Ok (concat raws) /\
    Forall (fun b => ba_event_count b <= DEFAULT_BATCH_EVENTS /\ ba_byte_length b <= DEFAULT_BATCH_BYTES)
      (us_batches s').
Proof.
  apply (upload_plan_exact log planned_two 3 5%Z "run" "run#0000" "https://api/");
    [apply log_sequenced|apply log_valid|apply log_uploadable|apply log_consistent
    |apply planned_two_plans|vm_compute; reflexivity|vm_compute; reflexivity
    |vm_compute; discriminate|vm_compute; split; discriminate|vm_compute; discriminate
    |vm_compute; discriminate|vm_compute; discriminate].
Defined.

(** ** A state of 5,555 batches *)

(** A serializer of one state. *)
Section OneState.
Context (s0 : UploadState) (text : bytes) (Htokens : tokens (scan_free (text ++ [LF])) = state_tokens s0).

Definition one_state : SerdeUpload := {|
  upload_to_vec s := if decide (s = s0) then Some text else None;
  upload_from_slice b := if decide (b = text ++ [LF]) then Some s0 else None;
  header_to_vec _ := None;
|}.

Lemma one_state_laws : @SerdeUploadLaws one_state.
Proof.
  split; cbn [upload_to_vec upload_from_slice one_state].
  - intros s t. destruct (decide (s = s0)) as [->|]; [|done]. intros [= <-]. by rewrite decide_True.
  - intros s t. destruct (decide (s = s0)) as [->|]; [|done]. by intros [= <-].
  - rewrite decide_False; [done|]. by destruct text.
Qed.

Lemma one_state_written path : @write_state one_state ∅ path s0 = Ok {[ path := text ++ [LF] ]}.
Proof. unfold write_state. cbn [upload_to_vec one_state]. by rewrite decide_True. Qed.
End OneState.

Definition digest_text : string := hex_encode (sha256 []).
Fixpoint chain (n : nat) (first : N) (previous : option string) : list BatchPlan :=
  match n with
  | O => []
  | S n' => mkBatchPlan first first 1 1 digest_text previous [] 0%Z :: chain n' (first + 1) (Some digest_text)
  end.
Definition large : UploadState := start <| us_batches := chain (N.to_nat 5555) 1 None |>.
Definition large_text : bytes := replicate (N.to_nat (state_tokens large)) x2c.
Definition large_path : string := segment_state_path "https://api/" 0.

Lemma large_text_tokens : tokens (scan_free (large_text ++ [LF])) = state_tokens large.
Proof. vm_compute. reflexivity. Qed.

#[local] Instance large_serde : SerdeUpload := one_state large large_text.
#[local] Instance large_laws : SerdeUploadLaws := one_state_laws large large_text large_text_tokens.

#[local] Instance no_url : UrlCrate := {|
  Url := unit; url_parse _ := None; url_host_str _ := None; url_username _ := ""; url_password _ := None;
  url_query _ := None; url_fragment _ := None; url_path _ := ""; url_scheme _ := "";
  url_set_path u _ := u; url_to_string _ := "";
|}.

Lemma large_valid : validate_state_prefix large "run" "run#0000" "https://api/" 5555 = Ok 5555.
Proof. vm_compute. reflexivity. Qed.
Lemma large_count : 5555 <= nlen (us_batches large).
Proof. vm_compute. discriminate. Qed.

Lemma large_state_unreadable_witness :
  (exists e, load_or_new {[ large_path := large_text ++ [LF] ]} large_path "run" "run#0000"
    "https://api/" 0 1 5555 0%Z 0%Z = Err e) /\
  exists e, verify_retention_gate (Some {[ large_path := large_text ++ [LF] ]}) "run" 5555 = Err e.
Proof.
  exact (large_state_unreadable large "run" "run#0000" "https://api/" 5555 5555 ∅
    {[ large_path := large_text ++ [LF] ]} 0 1 5555 0%Z 0%Z 5555
    large_valid large_count (one_state_written large large_text large_path)).
Defined.
End UploadStateExamples.
