(* ===== verification/RetentionSpec.v ===== *)
(** * Theorems about pruning, remote deletion and expiry

    What may be removed and what must be on record before it is; that a remote
    deletion that was interrupted anywhere is finished by repeating it; that an
    interrupted prune is not; and that expiry touches no class that is not due. *)

From Stdlib Require Import Strings.Byte Sorting.
From S2P Require Import Prelude RustStd Proc External Json Input Model ProbePlan Policy Crypto EventLog EventLogSpec Manifest BlobStore BlobStoreSpec AuditLog Erasure UploadState UploadStateSpec Retention.
From stdpp Require Import pretty sorting options.
Local Open Scope N_scope.
#[local] Unset Default Proof Using.

(** ** The size of a run *)

Fixpoint nodes (n : Node) : N :=
  match n with DirNode inner => 1 + foldr (fun x total => nodes x + total) 0 inner | _ => 1 end.
Definition count (l : list Node) : N := foldr (fun x total => nodes x + total) 0 l.
Fixpoint file_bytes (n : Node) : N :=
  match n with
  | FileNode len => len
  | DirNode inner => foldr (fun x total => file_bytes x + total) 0 inner
  | _ => 0
  end.
Definition bytes_of (l : list Node) : N := foldr (fun x total => file_bytes x + total) 0 l.
Definition count_all (pending : list (list Node)) : N := foldr (fun d total => count d + total) 0 pending.
Definition bytes_all (pending : list (list Node)) : N := foldr (fun d total => bytes_of d + total) 0 pending.

Definition capped (n : N) : N := N.min u64_max n.

Lemma sat_add_capped a b : sat_add (capped a) b = capped (a + b).
Proof. unfold sat_add, capped. lia. Qed.

Definition rounds (pending : list (list Node)) : nat :=
  sum_list (map (fun d => S (sum_list (map directories d))) pending).

Lemma count_cons x l : count (x :: l) = nodes x + count l.
Proof. done. Qed.
Lemma nodes_dir inner : nodes (DirNode inner) = 1 + count inner.
Proof. done. Qed.
Lemma bytes_cons x l : bytes_of (x :: l) = file_bytes x + bytes_of l.
Proof. done. Qed.
Lemma all_cons d l : count_all (d :: l) = count d + count_all l /\ bytes_all (d :: l) = bytes_of d + bytes_all l /\
  rounds (d :: l) = (S (sum_list (map directories d)) + rounds l)%nat.
Proof. done. Qed.

(** The entries of one directory: its directories go on the stack. *)
Lemma size_directory directory : forall pending entries b,
  entries + nlen directory <= MAX_DIRECTORY_ENTRIES ->
  exists pending' b', try_fold size_entry (pending, entries, capped b) directory
      = Ok (pending', entries + nlen directory, capped b') /\
    b' + bytes_all pending' = b + bytes_of directory + bytes_all pending /\
    nlen directory + count_all pending' = count directory + count_all pending /\
    rounds pending' = (sum_list (map directories directory) + rounds pending)%nat.
Proof.
  induction directory as [|x directory IH]; intros pending entries b Hn.
  { exists pending, b. cbn. rewrite N.add_0_r. split_and!; try done; lia. }
  rewrite nlen_cons in *. cbn [try_fold size_entry].
  rewrite sat_add_exact by (unfold MAX_DIRECTORY_ENTRIES, u64_max in *; lia).
  rewrite (proj2 (N.ltb_ge _ _)) by lia. cbn [mbind result_bind].
  destruct x as [len|inner| |]; rewrite ?sat_add_capped;
    [destruct (IH pending (entries + 1) (b + len) ltac:(lia)) as (p' & b' & Hf & H1 & H2 & H3)
    |destruct (IH (inner :: pending) (entries + 1) b ltac:(lia)) as (p' & b' & Hf & H1 & H2 & H3)
    |destruct (IH pending (entries + 1) b ltac:(lia)) as (p' & b' & Hf & H1 & H2 & H3)..];
    exists p', b'; rewrite Hf; replace (entries + 1 + nlen directory) with (entries + (nlen directory + 1)) by lia;
    (split; [done|]); rewrite ?count_cons, ?bytes_cons, ?nodes_dir in *;
    try destruct (all_cons inner pending) as (Ha & Hb & Hc);
    cbn [map sum_list directories sum_list_with nodes file_bytes] in *; try fold (bytes_of inner) in *;
    unfold id in *; split_and!; lia.
Qed.

Lemma size_directory_over directory : forall pending entries b,
  entries <= MAX_DIRECTORY_ENTRIES < entries + nlen directory ->
  try_fold size_entry (pending, entries, b) directory
    = Err (io_error InvalidData "run exceeds the retention scan entry limit").
Proof.
  induction directory as [|x directory IH]; intros pending entries b Hn; [rewrite nlen_nil in Hn; lia|].
  rewrite nlen_cons in *. cbn [try_fold size_entry].
  rewrite sat_add_exact by (unfold MAX_DIRECTORY_ENTRIES, u64_max in *; lia).
  destruct (MAX_DIRECTORY_ENTRIES <? entries + 1) eqn:E; reflect_N; [done|]. cbn [mbind result_bind].
  destruct x; apply IH; lia.
Qed.

Lemma count_length l : nlen l <= count l.
Proof.
  induction l as [|x l IH]; [done|]. rewrite nlen_cons. unfold count in *. cbn.
  assert (1 <= nodes x) by (destruct x; cbn; lia). lia.
Qed.

Lemma size_loop_exact fuel : forall pending entries b, (rounds pending <= fuel)%nat ->
  entries <= MAX_DIRECTORY_ENTRIES ->
  size_loop fuel pending entries (capped b) =
    if entries + count_all pending <=? MAX_DIRECTORY_ENTRIES then Ok (capped (b + bytes_all pending))
    else Err (io_error InvalidData "run exceeds the retention scan entry limit").
Proof.
  induction fuel as [|fuel IH]; intros [|d pending] entries b Hf He; cbn [size_loop].
  - rewrite (proj2 (N.leb_le _ _)) by (cbn; lia). cbn. by rewrite N.add_0_r.
  - unfold rounds in Hf. cbn in Hf. lia.
  - rewrite (proj2 (N.leb_le _ _)) by (cbn; lia). cbn. by rewrite N.add_0_r.
  - change (count_all (d :: pending)) with (count d + count_all pending).
    change (bytes_all (d :: pending)) with (bytes_of d + bytes_all pending).
    pose proof (count_length d) as Hc. destruct (decide (entries + nlen d <= MAX_DIRECTORY_ENTRIES)) as [Hn|Hn].
    + destruct (size_directory d pending entries b Hn) as (p' & b' & -> & H1 & H2 & H3).
      cbn [mbind result_bind]. rewrite IH; [|unfold rounds in *; cbn in *; lia|done].
      rewrite H1, <-N.add_assoc, H2. by rewrite !N.add_assoc.
    + rewrite size_directory_over by lia. cbn [mbind result_bind].
      by rewrite (proj2 (N.leb_gt _ _)) by lia.
Qed.

(** The size of a run is the sum of its files, wherever they are, unless it has
    too many entries. *)
Lemma directory_size_exact root : directory_size root =
  if count root <=? MAX_DIRECTORY_ENTRIES then Ok (capped (bytes_of root))
  else Err (io_error InvalidData "run exceeds the retention scan entry limit").
Proof.
  unfold directory_size. change 0 with (capped 0) at 2. rewrite size_loop_exact; [|cbn; lia|done].
  cbn [count_all bytes_all foldr]. by rewrite !N.add_0_r, !N.add_0_l.
Qed.

Section Deletion.
Context {dig : Digest} {hx : Hex} {b64 : Base64} {aead : Aead} {http : Http}
  {serde : Serde} {serdem : SerdeManifest} {serdee : SerdeErasure} {serdea : SerdeAudit}
  {serdeu : SerdeUpload} {url : UrlCrate} {uuid : UuidDisplay} {chrono : ChronoText}
  {hxl : HexLaws} {serdeal : SerdeAuditLaws}.

(** ** What may be pruned *)

(** The run is finished and old enough, its manifest is authentic if its storage
    is encrypted (the manifest of a plaintext run carries no authentication),
    and if it was sent anywhere, the upload states say that every target has
    acknowledged and sealed all its events. *)
Definition prunable (cutoff : DateTime) (key : option EncryptionKey) (require_uploaded : bool)
    (name : string) (run : Run) : Prop :=
  exists m finished_at, message (read_manifest (r_manifest run)) = Ok m /\ m_run_id m = name /\
    m_status m <> "running" /\ m_finished_at m = Some finished_at /\ (finished_at <= cutoff)%Z /\
    (sm_encryption (m_storage m) = None \/ verify_authentication m key = Ok (Some true)) /\
    (forall spool, r_spool run = Some spool -> acknowledged spool name (cc_events (m_counts m))) /\
    (require_uploaded = true -> is_Some (r_spool run)).

Lemma inspect_run_some name identity run cutoff key require c :
  inspect_run name identity run cutoff key require = Ok (Some c) ->
  pc_run_id c = name /\ pc_identity c = identity /\ message (directory_size (r_files run)) = Ok (pc_storage_bytes c) /\
  (require = true -> prunable cutoff key false name run).
Proof.
  unfold inspect_run. intros H. apply bind_ok in H as (m & Hm & H).
  apply bind_ok in H as ([] & Hid & H). apply ensure_ok, str_eqb_true in Hid.
  destruct (str_eqb (m_status m) "running") eqn:Hs; [done|].
  destruct (m_finished_at m) as [f|] eqn:Hf; [|done].
  destruct (cutoff <? f)%Z eqn:Hc; [done|]. apply Z.ltb_ge in Hc.
  apply bind_ok in H as ([] & Hv & H). apply bind_ok in H as ([] & Hg & H).
  apply bind_ok in H as (b & Hb & [= <-]). split; [done|]. split; [done|]. split; [done|]. intros ->.
  exists m, f. split_and!; try done.
  - intros E. rewrite E in Hs. by vm_compute in Hs.
  - clear Hg. unfold verify_manifest_for_prune in Hv. apply bind_ok in Hv as (o & Hv & Hr). apply map_err_ok in Hv.
    destruct o as [[]|]; [by right|done|left]. unfold verify_authentication in Hv.
    destruct (sm_encryption (m_storage m)); [|done]. do 2 apply bind_ok in Hv as (? & _ & Hv).
    destruct (m_authentication m); [|done]. by do 2 apply bind_ok in Hv as (? & _ & Hv).
  - intros spool Hsp. rewrite Hsp, Hid in Hg. by apply gate_acknowledged.
Qed.

Lemma prunable_uploaded w cutoff key name identity run c : inspect_candidate w name cutoff key true = Ok (Some c) ->
  d_entries w !! name = Some (Directory identity run) -> forall require_uploaded : bool,
  (if require_uploaded then verify_uploaded w c else Ok tt) = Ok tt ->
  prunable cutoff key require_uploaded name run.
Proof.
  unfold inspect_candidate. intros H He require. rewrite He in H.
  apply inspect_run_some in H as (Hid & _ & _ & Hp).
  destruct (Hp eq_refl) as (m & f & Hm & Hn & Hs & Hf & Hc & Hv & Hg & _). intros Hu.
  exists m, f. split_and!; try done. intros ->. unfold verify_uploaded in Hu. rewrite Hid, He in Hu.
  unfold verify_uploaded_retention_gate in Hu. by destruct (r_spool run).
Qed.

(** ** Pruning *)

Section Prune.
Context (cutoff : DateTime) (key : option EncryptionKey) (require_uploaded : bool) (w0 : Runs).

(** A record was logged, whatever was written after it. *)
Definition on_record (target : AuditMatch) (w : Runs) : Prop :=
  exists file, file `prefix_of` default [] (d_audit w) /\ logged file target.

(** Why an entry may be gone. *)
Definition cause (name : string) (e : Entry) (w : Runs) : Prop :=
  exists identity run, e = Directory identity run /\ str_starts_with "run-" name = true /\
    prunable cutoff key require_uploaded name run /\
    on_record (AuditLog.Run "retention_delete" "intent" name) w.

Definition accounted (name : string) (w : Runs) : Prop :=
  forall e, d_entries w0 !! name = Some e -> cause name e w.

Record kept (w : Runs) : Prop := {
  kp_entries : forall name e, d_entries w0 !! name = Some e ->
    d_entries w !! name = Some e \/ cause name e w;
  kp_audit : default [] (d_audit w0) `prefix_of` default [] (d_audit w);
}.

Lemma kept_start : kept w0.
Proof. split; [by left|done]. Qed.

Lemma on_record_longer target w w' : default [] (d_audit w) `prefix_of` default [] (d_audit w') ->
  on_record target w -> on_record target w'.
Proof. intros Hp (file & Hf & Hl). exists file. split; [by etrans|done]. Qed.

Lemma cause_longer name e w w' : default [] (d_audit w) `prefix_of` default [] (d_audit w') ->
  cause name e w -> cause name e w'.
Proof.
  intros Hp (identity & run & H1 & H2 & H3 & H4). exists identity, run. split_and!; try done.
  by eapply on_record_longer.
Qed.

Lemma kept_audit w file : default [] (d_audit w) `prefix_of` file -> kept w -> kept (set_audit w file).
Proof.
  intros Hp [H1 H2]. split; [|cbn; by etrans]. intros name e He.
  destruct (H1 _ _ He) as [H|H]; [by left|right]. by eapply cause_longer.
Qed.

(** Entries may change where the reason is known. *)
Definition moving (name quarantine : string) (w : Runs) : Prop :=
  kept w /\ accounted name w /\ accounted quarantine w.

Lemma moving_change name quarantine w w' : moving name quarantine w -> d_audit w' = d_audit w ->
  (forall k, k <> name -> k <> quarantine -> d_entries w' !! k = d_entries w !! k) ->
  moving name quarantine w'.
Proof.
  intros ([H1 H2] & Ha & Hq) Haudit Hsame.
  assert (forall k e, cause k e w -> cause k e w') as Hc by (intros k e; apply cause_longer; by rewrite Haudit).
  split; [|by split; intros e He; apply Hc; auto]. split; [|by rewrite Haudit].
  intros k e He. destruct (decide (k = name)) as [->|Hn]; [right; by apply Hc, Ha|].
  destruct (decide (k = quarantine)) as [->|Hm]; [right; by apply Hc, Hq|].
  rewrite Hsame by done. destruct (H1 _ _ He) as [H|H]; [by left|right; by apply Hc].
Qed.

Lemma moving_audit name quarantine w file : default [] (d_audit w) `prefix_of` file ->
  moving name quarantine w -> moving name quarantine (set_audit w file).
Proof.
  intros Hp (H1 & H2 & H3). split; [by apply kept_audit|].
  split; intros e He; (eapply cause_longer; [exact Hp|auto]).
Qed.

(** The directory without the runs that are gone. *)
Definition without (gone : list string) : gmap string Entry := foldr delete (d_entries w0) gone.

Lemma append_prune_holds P outcome c ctx torn :
  (forall w file, default [] (d_audit w) `prefix_of` file -> P w -> P (set_audit w file)) ->
  (forall w, P w -> kept w) ->
  holds P (append_prune_audit outcome c ctx torn) kept
    (fun _ w => P w /\ on_record (AuditLog.Run "retention_delete" outcome (pc_run_id c)) w).
Proof.
  intros Hst HP. apply holds_update_or; [done|]. intros w w' Hw H.
  destruct (append _ _ _ _ _ _ None) as [[record|e] file] eqn:E; [|done]. injection H as <-.
  destruct (append_logged_as _ _ _ _ _ _ _ _ E) as (Hp & Hl & _).
  split; [by apply HP, Hst|]. split; [split; [by apply Hst|]|].
  - exists file. split; [done|]. apply Hl. intros r <- <- <- _. cbn [matches].
    by rewrite !(proj2 (str_eqb_true _ _)).
  - apply HP, Hst; [|done]. apply torn_append_prefix.
Qed.

Lemma moving_swap name quarantine w : moving name quarantine w -> moving quarantine name w.
Proof. intros (H1 & H2 & H3). by split. Qed.

Lemma rename_holds source target entries :
  holds (fun w => kept w /\ accounted source w /\ d_entries w = entries)
    (rename_no_replace source target) kept
    (fun _ w => moving source target w /\ entries !! target = None /\
       exists entry, d_entries w = <[target := entry]> (delete source entries)).
Proof.
  apply holds_update; [by intros w [H _]|]. intros w w' (Hk & Hs & <-) H.
  apply bind_ok in H as (entry & He & H). apply ok_or_ok in He.
  destruct (d_entries w !! target) eqn:Et; [done|]. injection H as <-.
  assert (moving source target w) as Hm.
  { split; [done|]. split; [done|]. intros e H. destruct (kp_entries _ Hk _ _ H); [congruence|done]. }
  match goal with |- _ ?w1 /\ _ => assert (moving source target w1) as Hm' end.
  { eapply moving_change; [done..|]. intros k H1 H2. cbn [d_entries].
    by rewrite lookup_insert_ne, lookup_delete_ne by done. }
  split; [apply Hm'|]. split; [done|]. split; [done|]. by exists entry.
Qed.

(** The run [name] of [entries] waits under its quarantine name. *)
Definition displaced (name quarantine : string) (entries : gmap string Entry) (w : Runs) : Prop :=
  moving name quarantine w /\ entries !! quarantine = None /\
  exists entry, d_entries w = <[quarantine := entry]> (delete name entries).

Lemma remove_holds name quarantine env entries : name <> quarantine ->
  holds (displaced name quarantine entries) (remove_dir_all quarantine env) kept
    (fun _ w => kept w /\ d_entries w = delete name entries).
Proof.
  intros Hne. unfold remove_dir_all.
  apply (holds_bind _ _ (fun _ w => kept w /\ (de_remove_error env = None -> d_entries w = delete name entries))).
  2: { intros []. apply holds_lift. intros w [Hk Hr]. split; [done|]. intros [] He.
       split; [done|]. apply Hr. by destruct (de_remove_error env). }
  apply holds_update_or; [by intros w [[H _] _]|]. intros w w' (Hm & Hq & entry & Hw) H.
  assert (forall entries, (forall k, k <> quarantine -> entries !! k = d_entries w !! k) ->
    kept (mkRuns entries (d_audit w))) as Hchange.
  { intros entries' He. eapply (moving_change name quarantine); [done..|]. intros k _ Hk. by apply He. }
  assert (kept (torn_run quarantine (de_tear env) w)) as Ht.
  { unfold torn_run. destruct (d_entries w !! quarantine) as [[identity run|]|]; [|apply Hm..].
    apply Hchange. intros k Hk. by rewrite lookup_insert_ne. }
  destruct (d_entries w !! quarantine) as [[identity run|]|] eqn:E; try done. injection H as <-.
  destruct (de_remove_error env); [by split_and!|].
  assert (kept (mkRuns (delete quarantine (d_entries w)) (d_audit w))) as Hd
    by (apply Hchange; intros k Hk; by rewrite lookup_delete_ne).
  split; [exact Hd|]. split; [|done]. split; [exact Hd|]. intros _. cbn [d_entries]. rewrite Hw.
  change (delete quarantine (<[quarantine:=entry]> (delete name entries)) = delete name entries).
  apply delete_insert_id. by rewrite lookup_delete_ne.
Qed.

(** The directory that was checked, and the checks it passed. *)
Definition checked (c : PruneCandidate) (w : Runs) : Prop :=
  exists identity run, d_entries w !! pc_run_id c = Some (Directory identity run) /\
    prunable cutoff key require_uploaded (pc_run_id c) run.

Lemma revalidate_holds c gone :
  holds (fun w => kept w /\ d_entries w = without gone) (revalidate cutoff key require_uploaded c) kept
    (fun r w => ((kept w /\ d_entries w = without gone) /\ checked c w) /\ pc_run_id r = pc_run_id c).
Proof.
  unfold revalidate. eapply holds_bind; [apply holds_look; by intros w [H _]|]. intros found.
  eapply holds_bind; [apply holds_keep; by intros w [[H _] _]|]. intros r.
  eapply holds_bind; [apply holds_look; by intros w [[[H _] _] _]|]. intros [].
  eapply holds_bind; [apply holds_keep; by intros w [[[[H _] _] _] _]|]. intros [].
  apply holds_ret. intros w [[[[Hw Hf] Hr] Hu] Hs]. split; [apply Hw|]. split; [split; [done|]|].
  - destruct found as [r'|]; [|done]. injection Hr as ->. unfold inspect_candidate in Hf.
    destruct (d_entries w !! pc_run_id c) as [[identity run|]|] eqn:Ee; try done.
    exists identity, run. split; [done|]. eapply (prunable_uploaded w); [|done|done].
    unfold inspect_candidate. by rewrite Ee.
  - apply ensure_ok in Hs. unfold same_run in Hs. apply andb_prop in Hs as [Hs _].
    apply andb_prop in Hs as [Hs _]. by apply str_eqb_true.
Qed.

Lemma discard_holds c r e gone : str_starts_with "run-" (pc_run_id c) = true ->
  holds (fun w => kept w /\ accounted (pc_run_id c) w /\ d_entries w = without gone) (discard c r e) kept
    (fun _ w => kept w /\ d_entries w = without (pc_run_id c :: gone)).
Proof.
  intros Hc. unfold discard. set (quarantine := quarantine_name c (de_uuid e)).
  assert (pc_run_id c <> quarantine) as Hne by (by intros E; rewrite E in Hc).
  apply (holds_bind _ _ (fun _ => displaced (pc_run_id c) quarantine (without gone))); [apply rename_holds|].
  intros []. eapply holds_bind; [apply holds_look; by intros w [[H _] _]|]. intros identity.
  apply (holds_bind _ _ (fun _ => displaced (pc_run_id c) quarantine (without gone))).
  { case_bool_decide as Hid; [apply holds_ret; intros w [H _]; split; [apply H|done]|]. unfold restore.
    apply (holds_bind _ _ (fun _ => kept)); [|intros o; apply holds_lift; intros w Hw; split; [done|by destruct o]].
    apply (holds_before _ (fun w => exists entries, kept w /\ accounted quarantine w /\ d_entries w = entries));
      [intros w [[(Hk & H1 & H2) _] _]; by eexists|].
    apply holds_exists. intros entries.
    refine (holds_conseq _ _ _ _ _ _ _ _ (holds_try _ _ _ _ (rename_holds quarantine (pc_run_id c) entries)));
      [done|by intros o w [Ho _]]. }
  intros []. by apply remove_holds.
Qed.

(** One candidate: its name comes from a listing of the directory. *)
Lemma prune_one_holds env totals c gone : str_starts_with "run-" (pc_run_id c) = true ->
  holds (fun w => kept w /\ d_entries w = without gone) (prune_one cutoff key require_uploaded env totals c) kept
    (fun _ w => kept w /\ d_entries w = without (pc_run_id c :: gone)).
Proof.
  intros Hc. unfold prune_one. eapply holds_bind; [apply revalidate_holds|]. intros r.
  apply (holds_pure (pc_run_id r = pc_run_id c)); [by intros w [_ H]|]. intros Hr.
  eapply holds_bind; [apply append_prune_holds|].
  { intros w file Hp [[[H1 H2] H3] _]. split; [|done]. split; [|done]. split; [by apply kept_audit|done]. }
  { by intros w [[[H _] _] _]. }
  intros []. rewrite Hr. apply (holds_bind _ _ (fun _ w => kept w /\ d_entries w = without (pc_run_id c :: gone))).
  { refine (holds_conseq _ _ _ _ _ _ _ _ (discard_holds c r _ gone Hc)); [|done].
    intros w [[[[Hk Ha] (identity & run & He & Hp)] _] Hrec]. split; [done|]. split; [|done]. intros x Hx.
    destruct (kp_entries _ Hk _ _ Hx) as [H|H]; [|done]. exists identity, run. split; [congruence|done]. }
  intros []. eapply holds_bind; [apply append_prune_holds|].
  { intros w file Hp [H1 H2]. split; [by apply kept_audit|done]. }
  { by intros w [H _]. }
  intros []. destruct totals as [deleted reclaimed]. apply holds_ret. by intros w [[Hk Ha] _].
Qed.

Lemma prune_all_holds env eligible : forall totals gone,
  Forall (fun c => str_starts_with "run-" (pc_run_id c) = true) eligible ->
  holds (fun w => kept w /\ d_entries w = without gone)
    (fold_proc (prune_one cutoff key require_uploaded env) totals eligible) kept
    (fun _ w => kept w /\ d_entries w = without (rev (map pc_run_id eligible) ++ gone)).
Proof.
  induction eligible as [|c eligible IH]; intros totals gone Hf; cbn [fold_proc].
  - apply holds_ret. by intros w [Hk Ha].
  - apply Forall_cons in Hf as [Hc Hf]. eapply holds_bind; [by apply prune_one_holds|]. intros totals'.
    cbn [map rev]. rewrite <-app_assoc. by apply IH.
Qed.

Lemma without_lookup gone name :
  without gone !! name = if bool_decide (name ∈ gone) then None else d_entries w0 !! name.
Proof.
  unfold without. case_bool_decide; [by apply lookup_foldr_delete|by apply lookup_foldr_delete_not_elem_of].
Qed.
End Prune.

(** ** The listing *)

(** What an entry adds to the candidates. *)
Definition selection (w : Runs) (cutoff : DateTime) (key : option EncryptionKey) (require_uploaded : bool)
    (entry : string * Entry) : option PruneCandidate :=
  match entry with
  | (name, Directory _ _) =>
      if str_starts_with "run-" name then
        match inspect_candidate w name cutoff key true with
        | Ok (Some c) => if is_ok (if require_uploaded then verify_uploaded w c else Ok tt) then Some c else None
        | _ => None
        end
      else None
  | _ => None
  end.

Lemma scan_fold w cutoff key require_uploaded l : forall n eligible skipped n' eligible' skipped',
  try_fold (scan_entry w cutoff key require_uploaded) (n, eligible, skipped) l = Ok (n', eligible', skipped') ->
  eligible' = eligible ++ omap (selection w cutoff key require_uploaded) l.
Proof.
  induction l as [|[name content] l IH]; intros n eligible skipped n' eligible' skipped' H.
  { injection H as _ <- _. by rewrite app_nil_r. }
  cbn [try_fold] in H. apply bind_ok in H as ([[n1 e1] s1] & H1 & H). apply IH in H as ->.
  unfold scan_entry in H1. apply bind_ok in H1 as ([] & _ & H1).
  cbn [omap list_omap selection]. destruct content as [identity run|]; [|by injection H1 as _ <- _].
  destruct (str_starts_with "run-" name); cbn [negb] in H1; [|by injection H1 as _ <- _].
  destruct (inspect_candidate w name cutoff key true) as [[c|]|]; try by injection H1 as _ <- _.
  destruct require_uploaded; [destruct (verify_uploaded w c)|]; injection H1 as _ <- _;
    cbn [is_ok]; by rewrite <-?app_assoc.
Qed.

(** The candidates are exactly the runs of the directory that are due. *)
Lemma scan_eligible w cutoff key require_uploaded eligible skipped :
  scan_runs w cutoff key require_uploaded = Ok (eligible, skipped) ->
  forall c, c ∈ eligible <-> exists identity run,
    d_entries w !! pc_run_id c = Some (Directory identity run) /\
    str_starts_with "run-" (pc_run_id c) = true /\
    inspect_candidate w (pc_run_id c) cutoff key true = Ok (Some c) /\
    (if require_uploaded then verify_uploaded w c else Ok tt) = Ok tt.
Proof.
  unfold scan_runs. intros H. apply bind_ok in H as ([[seen found] passed] & H & [= <- <-]). intros c.
  unfold sort_by. rewrite merge_sort_Permutation. apply scan_fold in H. cbn [app] in H. subst found.
  rewrite list_elem_of_omap. split.
  - intros ([name [identity run|]] & Hin & Hs); [|done]. apply elem_of_map_to_list in Hin. cbn [selection] in Hs.
    destruct (str_starts_with "run-" name) eqn:Hn; [|done].
    destruct (inspect_candidate w name cutoff key true) as [[c'|]|] eqn:Hi; try done.
    destruct (is_ok _) eqn:Hu; [|done]. injection Hs as ->.
    pose proof Hi as Hi'. unfold inspect_candidate in Hi'. rewrite Hin in Hi'.
    apply inspect_run_some in Hi' as (Hid & _). rewrite Hid. exists identity, run. split_and!; try done.
    destruct require_uploaded; [|done]. by destruct (verify_uploaded w c) as [[]|].
  - intros (identity & run & He & Hn & Hi & Hu). exists (pc_run_id c, Directory identity run).
    split; [by apply elem_of_map_to_list|]. cbn [selection]. by rewrite Hn, Hi, Hu.
Qed.

Lemma prune_kept cutoff execute key require_uploaded env w n out w' n' :
  prune_runs_inner cutoff execute key require_uploaded env (w, n) = (out, (w', n')) ->
  kept cutoff key require_uploaded w w' /\ (execute = false -> w' = w) /\
  forall report, out = Returned (Ok report) -> exists skipped,
    scan_runs w cutoff key require_uploaded = Ok (pr_eligible report, skipped) /\
    (execute = true -> forall name, d_entries w' !! name =
      if bool_decide (name ∈ map pc_run_id (pr_eligible report)) then None else d_entries w !! name).
Proof.
  unfold prune_runs_inner, mbind at 1, proc_bind, look. cbn [fst].
  destruct (scan_runs w cutoff key require_uploaded) as [[eligible skipped]|e] eqn:Hs.
  2: { intros [= <- <- _]. split; [apply kept_start|done]. }
  destruct execute; cbn [negb].
  2: { intros [= <- <- _]. split; [apply kept_start|]. split; [done|]. intros report [= <-]. by exists skipped. }
  assert (Forall (fun c => str_starts_with "run-" (pc_run_id c) = true) eligible) as Hf.
  { apply Forall_forall. intros c Hc. apply (scan_eligible _ _ _ _ _ _ Hs) in Hc. naive_solver. }
  unfold mbind, proc_bind. intros H. destruct (fold_proc _ _ eligible (w, n)) as [o [w1 n1]] eqn:E.
  destruct (prune_all_holds cutoff key require_uploaded w env eligible (0, 0) [] Hf w n o w1 n1) as [Hk Hdone];
    [by split; [apply kept_start|]|done|].
  destruct o as [[[deleted reclaimed]|]|]; injection H as <- <- _; (split; [done|]); (split; [done|]); [|done..].
  intros report [= <-]. exists skipped. split; [done|]. intros _ name.
  destruct (Hdone (deleted, reclaimed) eq_refl) as [_ ->]. rewrite app_nil_r, without_lookup. cbn [pr_eligible].
  by rewrite (bool_decide_ext _ (name ∈ map pc_run_id eligible)) by (by rewrite !list_elem_of_In, <-in_rev).
Qed.

(** C5: pruning removes nothing it should not.  Whatever the directory holds,
    wherever the process is killed and whatever the removal of files fails at,
    an entry is either untouched, or it is a finished run past the cutoff, with
    an authentic manifest if its storage is encrypted, which, if it was sent
    anywhere, every target has acknowledged and sealed according to its upload
    states, and the intent to remove it is in the audit log; a preview changes
    nothing; and a prune that returns lists exactly the runs that were due and
    leaves the directory without them, under their own or any other name, and
    otherwise as it was. *)
Theorem prune_only_due cutoff execute key require_uploaded env w n out w' n' :
  prune_runs_inner cutoff execute key require_uploaded env (w, n) = (out, (w', n')) ->
  (execute = false -> w' = w) /\
  (forall name e, d_entries w !! name = Some e ->
     d_entries w' !! name = Some e \/
     exists identity run, e = Directory identity run /\ str_starts_with "run-" name = true /\
       prunable cutoff key require_uploaded name run /\
       on_record (AuditLog.Run "retention_delete" "intent" name) w') /\
  forall report, out = Returned (Ok report) ->
    (forall c, c ∈ pr_eligible report <->
       exists identity run, d_entries w !! pc_run_id c = Some (Directory identity run) /\
         str_starts_with "run-" (pc_run_id c) = true /\
         inspect_candidate w (pc_run_id c) cutoff key true = Ok (Some c) /\
         (if require_uploaded then verify_uploaded w c else Ok tt) = Ok tt) /\
    (execute = true -> forall name, d_entries w' !! name =
       if bool_decide (name ∈ map pc_run_id (pr_eligible report)) then None else d_entries w !! name).
Proof.
  intros H. destruct (prune_kept _ _ _ _ _ _ _ _ _ _ H) as ([Hk _] & Hp & Hr). split; [done|]. split; [done|].
  intros report Ho. destruct (Hr report Ho) as (skipped & Hs & Hgone). split; [|done].
  exact (scan_eligible _ _ _ _ _ _ Hs).
Qed.

(** ** Deletion by request *)

(** A log that ends a longer log's beginning keeps its records in it. *)
Lemma split_lines_prefix lines : forall lines' tail, Forall (fun line => LF ∉ line) lines ->
  Forall (fun line => LF ∉ line) lines' -> join_log lines' = join_log lines ++ tail ->
  exists more, lines' = lines ++ more.
Proof.
  induction lines as [|x lines IH]; intros lines' tail Hl Hl' H; [by exists lines'|].
  apply Forall_cons in Hl as [Hx Hl]. rewrite join_log_cons in H.
  destruct lines' as [|y lines']; [by destruct x|]. apply Forall_cons in Hl' as [Hy Hl'].
  rewrite join_log_cons, <-app_assoc in H. cbn [app] in H.
  pose proof (read_until_lf_line (nlen x + nlen y + 1) x (join_log lines ++ tail) Hx ltac:(lia)) as E1.
  rewrite <-H, read_until_lf_line in E1 by (done || lia). injection E1 as E1 E2.
  apply app_inj_tail in E1 as [-> _]. destruct (IH _ _ Hl Hl' E2) as [more ->]. by exists more.
Qed.

Lemma logged_within file target file' rs : logged file target -> file `prefix_of` file' -> log_of file' rs ->
  existsb (matches target) rs = true.
Proof.
  intros (rs0 & (lines & -> & Hl & Hrs) & Hm) [tail ->] (lines' & Hj & Hl' & Hrs').
  destruct (split_lines_prefix _ _ _ Hl Hl' (eq_sym Hj)) as [more ->].
  apply Forall2_app_inv_l in Hrs' as (rs1 & rs2 & H1 & H2 & ->).
  assert (rs1 = rs0) as -> by (eapply (log_of_functional (join_log lines)); by exists lines).
  by rewrite existsb_app, Hm.
Qed.

Lemma has_request_found w action outcome id found : on_record (Request action outcome id) w ->
  has_request_record (d_audit w) action outcome id = Ok found -> found = true.
Proof.
  intros (file & Hp & Hl) H. unfold has_request_record in H. do 3 apply bind_ok in H as (? & _ & H).
  unfold has_record in H. destruct (d_audit w) as [log|]; cbn in Hp.
  - apply bind_ok in H as ([scan m] & Hs & [= <-]).
    destruct (verify_matching_ok _ _ _ _ _ Hs) as (lines & rs & st & -> & Hlf & _ & _ & Hrs & _ & _ & _ & ->).
    eapply logged_within; [done..|]. by exists lines.
  - apply prefix_nil_inv in Hp as ->. destruct Hl as (rs & Hl & Hm).
    assert (rs = []) as -> by (eapply (log_of_functional []); [done|]; by exists []; split_and!; constructor).
    done.
Qed.

Section Delete.
Context (run_id : string) (request_id : Uuid) (key : option EncryptionKey) (w0 : Runs)
  (identity : N * N) (run : Run) (c : PruneCandidate).
Context (Hsafe : safe_run_name run_id = true)
  (Hstart : d_entries w0 !! run_id = Some (Directory identity run))
  (Hfree : d_entries w0 !! delete_quarantine request_id = None)
  (Hdue : inspect_candidate w0 run_id MAX_UTC key false = Ok (Some c)).

Notation quarantine := (delete_quarantine request_id).
Notation request := (uuid_to_string request_id).
Notation intended w := (on_record (Request "remote_delete" "intent" request) w).
Notation completed w := (on_record (Request "remote_delete" "complete" request) w).

(** Where the run is: in its place, or on its way out with the intent on record. *)
Definition located (w : Runs) : Prop :=
  (d_entries w !! run_id = Some (Directory identity run) /\ d_entries w !! quarantine = None) \/
  (d_entries w !! run_id = None /\ intended w /\
   (d_entries w !! quarantine = None \/
    exists rest, d_entries w !! quarantine = Some (Directory identity rest) /\
      count (r_files rest) <= count (r_files run))).

Record deleting (w : Runs) : Prop := {
  dl_others : forall name, name <> run_id -> name <> quarantine -> d_entries w !! name = d_entries w0 !! name;
  dl_audit : default [] (d_audit w0) `prefix_of` default [] (d_audit w);
  dl_located : located w;
}.

Lemma deleting_start : deleting w0.
Proof. split; [done|done|]. by left. Qed.

Lemma located_longer w w' : d_entries w' = d_entries w ->
  default [] (d_audit w) `prefix_of` default [] (d_audit w') -> located w -> located w'.
Proof.
  intros He Hp [H|(H1 & H2 & H3)]; [left|right]; rewrite He; [done|].
  split; [done|]. split; [|done]. by eapply on_record_longer.
Qed.

Lemma deleting_audit w file : default [] (d_audit w) `prefix_of` file -> deleting w -> deleting (set_audit w file).
Proof. intros Hp [H1 H2 H3]. split; [done|cbn; by etrans|]. by apply (located_longer w). Qed.

(** The only errors: what is left of the run cannot be removed, or the audit log
    cannot be read or extended. *)
Definition refused (env : DeleteEnv) (e : string) : Prop :=
  de_remove_error env = Some e \/
  exists log : option bytes, default [] (d_audit w0) `prefix_of` default [] log /\
    ((exists outcome bytes recovered ctx file,
       append (default [] log) ctx "remote_delete" outcome run_id
         (Some (remote_details request_id bytes recovered)) None = (Err e, file)) \/
     (exists outcome, has_request_record log "remote_delete" outcome request = Err e) \/
     has_run_record log "retention_delete" "complete" run_id = Err e).

Lemma append_delete_yields env P outcome bytes recovered ctx torn :
  (forall w file, default [] (d_audit w) `prefix_of` file -> P w -> P (set_audit w file)) ->
  (forall w, P w -> deleting w) ->
  yields P (append_remote_delete_audit outcome run_id request_id bytes recovered ctx torn) deleting
    (fun _ w => P w /\ on_record (Request "remote_delete" outcome request) w) (refused env).
Proof.
  intros Hst HP. apply yields_update_or; [done|..]; intros w x Hw H;
    destruct (append _ _ _ _ _ _ None) as [[record|e] file] eqn:E; try done; injection H as <-.
  - destruct (append_logged _ _ _ _ _ _ _ _ request E eq_refl) as (Hp & Hl & _).
    split; [by apply HP, Hst|]. split; [split; [by apply Hst|by exists file]|].
    apply HP, Hst; [|done]. apply torn_append_prefix.
  - right. exists (d_audit w). split; [by apply dl_audit, HP|]. left. by eexists _, _, _, _, _.
Qed.

Definition removed (w : Runs) : Prop := d_entries w !! run_id = None /\ d_entries w !! quarantine = None.

(** The run waits under its quarantine name. *)
Definition quarantined (w : Runs) : Prop :=
  deleting w /\ d_entries w !! run_id = None /\ intended w /\
  exists rest, d_entries w !! quarantine = Some (Directory identity rest) /\
    count (r_files rest) <= count (r_files run).

Definition tears (env : DeleteEnv) : Prop :=
  forall r, count (r_files (de_tear env r)) <= count (r_files r).

Lemma quarantine_not_target : quarantine <> run_id.
Proof.
  intros E. pose proof Hsafe as H. rewrite <-E in H. unfold safe_run_name in H.
  apply andb_prop in H as [H _]. by vm_compute in H.
Qed.

Lemma quarantined_change w entries : quarantined w ->
  (forall name, name <> quarantine -> entries !! name = d_entries w !! name) ->
  (entries !! quarantine = None \/ exists rest, entries !! quarantine = Some (Directory identity rest) /\
    count (r_files rest) <= count (r_files run)) ->
  deleting (mkRuns entries (d_audit w)).
Proof.
  intros ([H1 H2 _] & Hr & Hi & _) Hs Hq. pose proof quarantine_not_target as Hne. split; [|done|].
  - intros name Hn Hm. cbn [d_entries]. by rewrite Hs, H1.
  - right. cbn [d_entries]. rewrite Hs by done. done.
Qed.

Lemma remove_yields env : tears env ->
  yields quarantined (remove_dir_all quarantine env) deleting
    (fun _ w => deleting w /\ removed w) (refused env).
Proof.
  intros Ht. pose proof quarantine_not_target as Hne. unfold remove_dir_all.
  apply (yields_bind _ _ (fun _ w => deleting w /\ (de_remove_error env = None -> removed w))).
  2: { intros []. eapply (yields_conseq _ _ _ _ _ _ _ (fun w H => H));
         [|apply yields_keep; [by intros w [H _]|intros w e _ H; left; by destruct (de_remove_error env); simplify_eq]].
       cbn. intros [] w [[Hd Hr] He]. split; [done|]. apply Hr. by destruct (de_remove_error env). }
  apply yields_update_or; [by intros w [H _]|..].
  - intros w w' Hw H. pose proof Hw as (_ & Hr & _ & rest & Hq & Hc). rewrite Hq in H. injection H as <-.
    assert (deleting (torn_run quarantine (de_tear env) w)) as Htorn.
    { unfold torn_run. rewrite Hq. apply quarantined_change; [done|..]; [intros name Hn; by rewrite lookup_insert_ne|].
      right. eexists. split; [apply lookup_insert_eq|]. etrans; [apply Ht|done]. }
    destruct (de_remove_error env); [by split_and!|].
    assert (deleting (mkRuns (delete quarantine (d_entries w)) (d_audit w))) as Hd.
    { apply quarantined_change; [done|..]; [intros name Hn; by rewrite lookup_delete_ne|].
      left. apply lookup_delete_eq. }
    split; [exact Hd|]. split; [|done]. split; [exact Hd|]. intros _.
    split; cbn [d_entries]; [by rewrite lookup_delete_ne|apply lookup_delete_eq].
  - intros w e (_ & _ & _ & rest & Hq & _) H. by rewrite Hq in H.
Qed.

Lemma size_measured rest : count (r_files rest) <= count (r_files run) ->
  exists bytes, directory_size (r_files rest) = Ok bytes.
Proof.
  intros Hc. pose proof Hdue as H. unfold inspect_candidate in H. rewrite Hstart in H.
  apply inspect_run_some in H as (_ & _ & H & _). apply map_err_ok in H. rewrite directory_size_exact in *.
  destruct (count (r_files run) <=? MAX_DIRECTORY_ENTRIES) eqn:E; [|done]. reflect_N.
  rewrite (proj2 (N.leb_le _ _)) by lia. by eexists.
Qed.

Lemma complete_yields env P bytes recovered ctx torn (r : RemoteDeleteReport) :
  (forall w, P w -> deleting w /\ removed w) ->
  yields P (append_remote_delete_audit "complete" run_id request_id bytes recovered ctx torn;; mret r)
    deleting (fun _ w => removed w /\ completed w) (refused env).
Proof.
  intros HP. apply (yields_bind _ _ (fun _ w => (deleting w /\ removed w) /\ completed w)).
  - eapply (yields_conseq _ (fun w => deleting w /\ removed w)); [done|intros ? ? H; exact H|].
    apply append_delete_yields; [|by intros w [H _]]. intros w file Hp [H1 H2]. split; [by apply deleting_audit|done].
  - intros []. apply yields_ret. intros w [[H1 H2] H3]. done.
Qed.

Lemma resume_yields env : tears env ->
  yields quarantined (resume_delete run_id request_id env) deleting
    (fun _ w => removed w /\ completed w) (refused env).
Proof.
  intros Ht. unfold resume_delete. eapply yields_bind.
  { apply (yields_look quarantined); [by intros w [H _]|].
    intros w e (_ & Hr & _ & rest & Hq & Hc) H. destruct (size_measured rest Hc) as [bytes Hb].
    rewrite Hq, Hr, Hb in H. by rewrite bool_decide_eq_true_2 in H. }
  intros bytes. apply (yields_bind _ _ (fun _ w => deleting w /\ removed w)).
  { eapply (yields_conseq _ quarantined); [by intros w [H _]|intros ? ? H; exact H|].
    by apply remove_yields. }
  intros []. by apply complete_yields.
Qed.

Lemma confirm_yields env :
  yields (fun w => (deleting w /\ removed w) /\ intended w) (confirm_delete run_id request_id env) deleting
    (fun _ w => removed w /\ completed w) (refused env).
Proof.
  unfold confirm_delete. eapply yields_bind.
  { apply (yields_look (fun w => (deleting w /\ removed w) /\ intended w)); [by intros w [[H _] _]|].
    intros w e [[H _] _] He. right. exists (d_audit w). split; [apply H|]. right. left. by exists "complete". }
  intros []. { apply yields_ret. intros w [[[H1 H2] H3] Hf]. split; [done|]. split; [done|].
    exists (default [] (d_audit w)). split; [done|]. by apply has_request_logged. }
  eapply yields_bind.
  { apply yields_look; [by intros w [[[H _] _] _]|]. intros w e [[[H _] _] _] He. right. exists (d_audit w).
    split; [apply H|]. by right; right. }
  intros []. { apply complete_yields. by intros w [[[H _] _] _]. }
  eapply yields_bind.
  { apply yields_look; [by intros w [[[[H _] _] _] _]|]. intros w e [[[[H _] _] _] _] He.
    right. exists (d_audit w). split; [apply H|]. right. left. by exists "intent". }
  intros intent. apply (yields_pure (intent = true)).
  { intros w [[[[_ Hi] _] _] Hf]. by eapply has_request_found. }
  intros ->. eapply yields_bind; [apply yields_keep; [by intros w [[[[[H _] _] _] _] _]|done]|].
  intros []. apply complete_yields. by intros w [[[[[H _] _] _] _] _].
Qed.

Lemma inspect_same w : d_entries w !! run_id = Some (Directory identity run) ->
  inspect_candidate w run_id MAX_UTC key false = Ok (Some c).
Proof. intros H. rewrite <-Hdue. unfold inspect_candidate. by rewrite H, Hstart. Qed.

(** The run is in its place. *)
Definition in_place (w : Runs) : Prop :=
  deleting w /\ d_entries w !! run_id = Some (Directory identity run) /\ d_entries w !! quarantine = None.

Lemma rename_yields env : yields (fun w => in_place w /\ intended w) (rename_no_replace run_id quarantine)
  deleting (fun _ => quarantined) (refused env).
Proof.
  pose proof quarantine_not_target as Hne. apply yields_update_or; [by intros w [[H _] _]|..].
  - intros w w' [([H1 H2 H3] & Hr & Hq) Hi] H. rewrite Hr, Hq in H. cbn [ok_or mbind result_bind] in H.
    injection H as <-. match goal with |- _ ?x /\ _ => set (w1 := x) end.
    assert (d_entries w1 !! run_id = None) as Hr1.
    { cbn. rewrite lookup_insert_ne by done. apply lookup_delete_eq. }
    assert (d_entries w1 !! quarantine = Some (Directory identity run)) as Hq1 by apply lookup_insert_eq.
    assert (quarantined w1) as Hw; [|by split_and!; [apply Hw|done|split; [done..|by left]]].
    assert (exists rest, d_entries w1 !! quarantine = Some (Directory identity rest) /\
      count (r_files rest) <= count (r_files run)) as Hrest by (by exists run).
    split; [|done]. split; [|done|right; split; [done|]; split; [done|by right]].
    intros name Hn Hm. cbn. by rewrite lookup_insert_ne, lookup_delete_ne, H1.
  - intros w e [(_ & Hr & Hq) _] H. by rewrite Hr, Hq in H.
Qed.

Lemma begin_yields env : tears env ->
  yields in_place (begin_delete run_id request_id key env) deleting
    (fun _ w => removed w /\ completed w) (refused env).
Proof.
  intros Ht. unfold begin_delete. eapply yields_bind.
  { apply (yields_look in_place); [by intros w [H _]|]. intros w e (_ & Hr & _) H.
    by rewrite inspect_same in H. }
  intros found. apply (yields_pure (found = Some c)).
  { intros w [(_ & Hr & _) H]. rewrite inspect_same in H by done. by injection H as <-. }
  intros ->. eapply yields_bind; [apply yields_keep; [by intros w [[H _] _]|done]|].
  intros c'. apply (yields_pure (c' = c)); [by intros w [_ [= <-]]|]. intros ->.
  apply (yields_bind _ _ (fun _ w => in_place w /\ intended w)).
  { eapply (yields_conseq _ in_place); [by intros w [[H _] _]|intros ? ? H; exact H|].
    apply append_delete_yields; [|by intros w [H _]].
    intros w file Hp [H1 H2]. split; [by apply deleting_audit|done]. }
  intros []. eapply yields_bind; [apply rename_yields|]. intros [].
  eapply yields_bind.
  { apply (yields_look quarantined); [by intros w [H _]|]. intros w e (_ & _ & _ & rest & Hq & _) H.
    unfold identity_of in H. by rewrite Hq in H. }
  intros found. apply (yields_pure (found = identity)).
  { intros w [(_ & _ & _ & rest & Hq & _) H]. unfold identity_of in H. rewrite Hq in H. by injection H as <-. }
  intros ->. eapply yields_bind.
  { apply yields_keep; [by intros w [[H _] _]|]. intros w e _ H. pose proof Hdue as Hi.
    unfold inspect_candidate in Hi. rewrite Hstart in Hi. apply inspect_run_some in Hi as (_ & Hi & _).
    by rewrite bool_decide_eq_true_2 in H. }
  intros []. apply (yields_bind _ _ (fun _ w => deleting w /\ removed w)).
  { eapply (yields_conseq _ quarantined); [by intros w [[H _] _]|intros ? ? H; exact H|by apply remove_yields]. }
  intros []. by apply complete_yields.
Qed.

Lemma delete_yields env : tears env ->
  yields deleting (delete_uploaded_run run_id request_id key env) deleting
    (fun _ w => removed w /\ completed w) (refused env).
Proof.
  intros Ht. unfold delete_uploaded_run. rewrite Hsafe.
  eapply yields_bind; [by apply (yields_keep deleting)|]. intros [].
  eapply yields_bind; [apply yields_look; [by intros w [H _]|done]|]. intros [].
  - eapply (yields_conseq _ quarantined); [|intros ? ? H; exact H|by apply resume_yields].
    intros w [[Hd _] H]. injection H as H. apply bool_decide_eq_true in H as [x Hx].
    destruct (dl_located _ Hd) as [[_ Hq]|(Hr & Hi & [Hq|Hrest])]; [congruence..|done].
  - eapply yields_bind; [apply yields_look; [by intros w [[H _] _]|done]|]. intros [].
    + eapply (yields_conseq _ in_place); [|intros ? ? H; exact H|by apply begin_yields].
      intros w [[[Hd _] _] H]. injection H as H. apply bool_decide_eq_true in H as [x Hx].
      destruct (dl_located _ Hd) as [Hl|(Hr & _)]; [done|congruence].
    + eapply (yields_conseq _ (fun w => (deleting w /\ removed w) /\ intended w));
        [|intros ? ? H; exact H|apply confirm_yields].
      intros w [[[Hd _] Hq] H]. injection H as H. injection Hq as Hq.
      apply bool_decide_eq_false, eq_None_not_Some in H, Hq.
      destruct (dl_located _ Hd) as [[Hr _]|(Hr & Hi & _)]; [congruence|]. done.
Qed.
End Delete.

(** At most four writes. *)
Lemma delete_at_most run_id request_id key env : at_most 4 (delete_uploaded_run run_id request_id key env).
Proof.
  assert (forall outcome n b ctx torn,
    at_most 1 (append_remote_delete_audit outcome run_id request_id n b ctx torn)) as Ha by (intros; apply at_most_update_or).
  assert (forall name env, at_most 1 (remove_dir_all name env)) as Hr
    by (intros; apply (at_most_bind 1 0); [apply at_most_update_or|intros; apply at_most_lift]).
  assert (forall a b, at_most 1 (rename_no_replace a b)) as Hm by (intros; apply at_most_update_or).
  unfold delete_uploaded_run.
  apply (at_most_bind 0 4); [apply at_most_lift|]. intros [].
  apply (at_most_bind 0 4); [apply at_most_look|]. intros [].
  - apply (at_most_le 2); [|lia]. apply (at_most_bind 0 2); [apply at_most_look|]. intros b.
    apply (at_most_bind 1 1); [done|]. intros []. apply (at_most_bind 1 0); [done|]. intros []. apply at_most_ret.
  - apply (at_most_bind 0 4); [apply at_most_look|]. intros [].
    + unfold begin_delete. apply (at_most_bind 0 4); [apply at_most_look|]. intros found.
      apply (at_most_bind 0 4); [apply at_most_lift|]. intros c. apply (at_most_bind 1 3); [done|]. intros [].
      apply (at_most_bind 1 2); [done|]. intros []. apply (at_most_bind 0 2); [apply at_most_look|]. intros i.
      apply (at_most_bind 0 2); [apply at_most_lift|]. intros []. apply (at_most_bind 1 1); [done|]. intros [].
      apply (at_most_bind 1 0); [done|]. intros []. apply at_most_ret.
    + apply (at_most_le 1); [|lia]. unfold confirm_delete.
      assert (forall r : RemoteDeleteReport, at_most 1 (append_remote_delete_audit "complete" run_id request_id 0 true
        (de_complete_ctx env) (de_torn env);; mret r)) as Hc
        by (intros r; apply (at_most_bind 1 0); [done|intros []; apply at_most_ret]).
      apply (at_most_bind 0 1); [apply at_most_look|]. intros []; [eapply at_most_le; [apply at_most_ret|lia]|].
      apply (at_most_bind 0 1); [apply at_most_look|]. intros []; [done|].
      apply (at_most_bind 0 1); [apply at_most_look|]. intros i.
      apply (at_most_bind 0 1); [apply at_most_lift|]. by intros [].
Qed.

(** One call, which may fail or be killed at any of its writes. *)
Definition delete_attempt (run_id : string) (request_id : Uuid) (key : option EncryptionKey) (w w' : Runs)
    : Prop :=
  exists env n out n', tears env /\ delete_uploaded_run run_id request_id key env (w, n) = (out, (w', n')).

(** C4: a remote deletion survives crashes.  After any number of calls for one
    request, each killed at any of its writes (in the middle of an audit record
    or of the removal of the files included) or failing: no other entry has changed, and
    the run is in its place and whole, or its deletion is on record; and the
    next call, if it is not killed, which it is not when it can make four
    writes, either leaves nothing of the run and the completion on record, or
    fails because the operating system does not let it remove what is left of
    the run or the audit log can not be read or extended. *)
Theorem delete_crash_safe run_id request_id key w0 w identity run c :
  safe_run_name run_id = true -> d_entries w0 !! run_id = Some (Directory identity run) ->
  d_entries w0 !! delete_quarantine request_id = None ->
  inspect_candidate w0 run_id MAX_UTC key false = Ok (Some c) ->
  rtc (delete_attempt run_id request_id key) w0 w ->
  deleting run_id request_id w0 identity run w /\
  forall env n out w' n', tears env ->
    delete_uploaded_run run_id request_id key env (w, n) = (out, (w', n')) ->
    ((4 <= n)%nat -> out <> Killed) /\
    match out with
    | Returned (Ok _) => removed run_id request_id w' /\
        on_record (Request "remote_delete" "complete" (uuid_to_string request_id)) w'
    | Returned (Err e) => refused run_id request_id w0 env e
    | Killed => True
    end.
Proof.
  intros Hsafe Hstart Hfree Hdue Hreach.
  assert (deleting run_id request_id w0 identity run w) as Hd.
  { revert w Hreach. apply (rtc_ind_r (deleting run_id request_id w0 identity run) w0); [by apply deleting_start|].
    intros x y _ (env & n & out & n' & Ht & H) IH.
    by apply (delete_yields run_id request_id key w0 identity run c Hsafe Hstart Hdue env Ht _ _ _ _ _ IH H). }
  split; [done|]. intros env n out w' n' Ht H. split; [intros Hn; by apply (delete_at_most _ _ _ _ _ _ _ _ _ H)|].
  by apply (delete_yields run_id request_id key w0 identity run c Hsafe Hstart Hdue env Ht _ _ _ _ _ Hd H).
Qed.
End Deletion.

(** ** Expiry *)

Section Expiry.
Context {dig : Digest} {hx : Hex} {b64 : Base64} {aead : Aead} {http : Http}
  {serde : Serde} {serdem : SerdeManifest} {serdee : SerdeErasure} {serdea : SerdeAudit}
  {serdeu : SerdeUpload} {url : UrlCrate} {uuid : UuidDisplay}
  {hxl : HexLaws} {serdeal : SerdeAuditLaws} {b64l : Base64Laws} {aeadl : AeadLaws}
  {serdeel : SerdeErasureLaws}.

Section Classes.
Context (key : EncryptionKey) (eligible : list BlobClassExpiryCandidate) (w0 : Runs).

Definition listed (name : string) (class : BlobClass) : Prop :=
  exists c, c ∈ eligible /\ xc_run_id c = name /\ xc_class c = class.

(** A run with nothing changed but the classes on the list. *)
Definition same_but (erased : BlobClass -> Prop) (run run' : Run) : Prop :=
  r_manifest run' = r_manifest run /\ r_spool run' = r_spool run /\ r_files run' = r_files run /\
  spares erased (r_dir run) (r_dir run').

Definition spared (w : Runs) : Prop :=
  forall name, match d_entries w0 !! name with
    | Some (Directory identity run) => exists run',
        d_entries w !! name = Some (Directory identity run') /\ same_but (listed name) run run'
    | other => d_entries w !! name = other
    end.

Lemma spared_start : spared w0.
Proof.
  intros name. destruct (d_entries w0 !! name) as [[identity run|]|] eqn:E; try done.
  exists run. split; [done|]. split_and!; try done.
Qed.

Lemma spared_put name class w v : spared w -> listed name class ->
  (exists identity run, d_entries w !! name = Some (Directory identity run)) ->
  Erasure.w_manifest v = Erasure.w_manifest (run_world name w) ->
  spares (fun c => c = class) (Erasure.w_dir (run_world name w)) (Erasure.w_dir v) ->
  spared (put_run_world name v w).
Proof.
  intros Hw Hl (identity & run & He) Hm Hd. unfold put_run_world, run_world in *. rewrite He in *.
  intros k. specialize (Hw k). cbn [d_entries]. destruct (decide (k = name)) as [->|Hne].
  - rewrite lookup_insert_eq. destruct (d_entries w0 !! name) as [[identity0 run0|]|]; [|congruence..].
    destruct Hw as (run' & Hr & H1 & H2 & H3 & H4). rewrite He in Hr. injection Hr as <- <-.
    eexists. split; [done|]. split; [cbn in *; congruence|]. split; [done|]. split; [done|].
    eapply spares_trans; [exact H4|]. eapply spares_weaken; [|done]. by intros c ->.
  - rewrite lookup_insert_ne by done. exact Hw.
Qed.

Lemma erase_run_holds name class env : proper_env env -> listed name class ->
  holds spared (erase_run_class name class key env) spared (fun _ _ => True).
Proof.
  intros Henv Hl. unfold erase_run_class. eapply holds_bind; [by apply holds_look|]. intros gate.
  apply holds_zoom. intros w [Hw Hg].
  assert (exists identity run, d_entries w !! name = Some (Directory identity run)) as He.
  { destruct (d_entries w !! name) as [[identity run|]|]; try done. by eexists _, _. }
  set (v0 := run_world name w). destruct (run_key_of v0 key) as [run_key|e] eqn:Hk.
  - exists (protocol class run_key v0), (protocol class run_key v0), (receipt class run_key v0).
    split; [apply protocol_start|]. split; [apply erase_holds; [exact Henv|by apply run_key_unique]|].
    split; [|done]. intros v Hp. apply (spared_put name class); try done.
    + apply (pr_manifest _ _ _ _ Hp).
    + by eapply protocol_spares.
  - exists (eq v0), (eq v0), (fun _ _ => True). split; [done|]. split.
    + intros v n out v' n' <- H. unfold erase_blob_class, erase_blob_class_inner, mbind, proc_bind, look in H.
      cbn [fst] in H. destruct (check_run v0 name key _) as [[m k]|e'] eqn:Hc.
      * apply check_run_keyring in Hc as [_ Hc]. congruence.
      * by injection H as <- <- _.
    + split; [|done]. intros v <-. apply (spared_put name class); try done.
Qed.

Lemma expire_all_holds (env : string -> BlobClass -> ErasureEnv) l : (forall name class, proper_env (env name class)) ->
  (forall c, c ∈ l -> c ∈ eligible) -> forall acc,
  holds spared (fold_proc (expire_one key env) acc l) spared (fun _ _ => True).
Proof.
  intros Henv Hl acc. refine (holds_conseq _ _ _ _ _ _ _ _ (holds_fold (fun _ => spared) spared _ l acc _ _));
    [done|done|done|].
  intros [skipped erased] c Hc. unfold expire_one.
  apply (holds_bind _ _ (fun _ => spared)); [|intros r; by apply holds_ret].
  refine (holds_conseq _ _ _ _ _ _ _ _ (holds_try _ _ _ _ (erase_run_holds _ _ _ (Henv _ _) _)));
    [done|by intros r w [H _]|]. exists c. split; [by apply Hl|done].
Qed.
End Classes.

(** When a class of a run is due: the run is finished with an authentic manifest
    and class keys of its own, the time the class is kept has passed since, and
    if the run was sent anywhere, the upload states say that every target has
    acknowledged and sealed all its events. *)
Definition class_due (evaluated_at : DateTime) (policy : BlobClassTtlPolicy) (run : Run) (class : BlobClass)
    : Prop :=
  exists m finished_at t, message (read_manifest (r_manifest run)) = Ok m /\ m_status m <> "running" /\
    m_finished_at m = Some finished_at /\ ttl policy class = Some t /\ 0 < t /\
    (finished_at + Z.of_N t <= evaluated_at)%Z /\
    (sm_encryption (m_storage m) ≫= em_blob_key_management) = Some BLOB_KEY_MANAGEMENT_V1 /\
    (exists key, verify_authentication m (Some key) = Ok (Some true)) /\
    (forall spool, r_spool run = Some spool -> acknowledged spool (m_run_id m) (cc_events (m_counts m))).

Lemma candidates_due name run evaluated_at policy key l : validate_ttl policy = Ok tt ->
  expiry_candidates name run evaluated_at policy key = Ok l ->
  Forall (fun c => xc_run_id c = name /\ class_due evaluated_at policy run (xc_class c)) l.
Proof.
  intros Hv H. unfold expiry_candidates in H. apply bind_ok in H as (m & Hm & H).
  apply bind_ok in H as ([] & Hid & H). apply ensure_ok, str_eqb_true in Hid.
  destruct (m_finished_at m) as [f|] eqn:Hf; [|injection H as <-; constructor].
  destruct (str_eqb (m_status m) "running") eqn:Hs; [injection H as <-; constructor|].
  apply bind_ok in H as (? & Hkm & H). apply ensure_ok, bool_decide_eq_true in Hkm.
  apply bind_ok in H as (o & Hau & H). apply map_err_ok in Hau. apply bind_ok in H as (? & Hso & H).
  apply ensure_ok, bool_decide_eq_true in Hso as ->.
  do 2 apply bind_ok in H as (? & _ & H). apply bind_ok in H as ([] & Hg & H).
  refine (try_fold_inv (Forall (fun c => xc_run_id c = name /\ class_due evaluated_at policy run (xc_class c)))
    _ _ _ _ _ (Forall_nil_2 _) H).
  intros found class found' Hin IH Hstep. destruct (ttl policy class) as [t|] eqn:Ht; [|by injection Hstep as <-].
  apply bind_ok in Hstep as (state & _ & Hstep).
  destruct (match state with Some _ => _ | None => _ end); [by injection Hstep as <-|].
  do 2 apply bind_ok in Hstep as (? & _ & Hstep). injection Hstep as <-.
  destruct (_ <=? _)%Z eqn:Hc; [|done]. apply Z.leb_le in Hc. apply Forall_app. split; [done|].
  constructor; [|constructor]. split; [done|]. cbn [xc_class]. exists m, f, t. split_and!; try done; [..|lia|by eexists|].
  - intros E. rewrite E in Hs. by vm_compute in Hs.
  - unfold validate_ttl in Hv. apply bind_ok in Hv as (_ & _ & Hv). apply ensure_ok in Hv.
    rewrite forallb_forall in Hv. assert (negb (t =? 0) = true) as Hz; [|apply negb_true_iff in Hz; reflect_N; lia].
    apply Hv, list_elem_of_In, list_elem_of_omap. by exists class.
  - intros spool Hsp. rewrite Hsp in Hg. by apply gate_acknowledged.
Qed.

Lemma expiry_fold evaluated_at policy key l : validate_ttl policy = Ok tt ->
  forall n eligible skipped n' eligible' skipped',
  try_fold (expiry_entry evaluated_at policy key) (n, eligible, skipped) l = Ok (n', eligible', skipped') ->
  forall c, c ∈ eligible' -> c ∈ eligible \/ exists identity run,
    (xc_run_id c, Directory identity run) ∈ l /\ str_starts_with "run-" (xc_run_id c) = true /\
    class_due evaluated_at policy run (xc_class c).
Proof.
  intros Hv. induction l as [|[name content] l IH]; intros n eligible skipped n' eligible' skipped' H c Hc.
  { injection H as _ <- _. by left. }
  cbn [try_fold] in H. apply bind_ok in H as ([[n1 e1] s1] & H1 & H).
  destruct (IH _ _ _ _ _ _ H c Hc) as [Hin|(identity & run & Hin & Hd)].
  2: { right. exists identity, run. split; [by right|done]. }
  unfold expiry_entry in H1. apply bind_ok in H1 as ([] & _ & H1).
  destruct content as [identity run|]; [|injection H1 as _ <- _; by left].
  destruct (str_starts_with "run-" name) eqn:Hn; [|injection H1 as _ <- _; by left]. cbn [negb] in H1.
  destruct (expiry_candidates _ _ _ _ _) as [found|] eqn:Hf; injection H1 as _ <- _; [|by left].
  apply elem_of_app in Hin as [Hin|Hin]; [by left|right].
  apply (candidates_due _ _ _ _ _ _ Hv) in Hf. rewrite Forall_forall in Hf. destruct (Hf c Hin) as [-> Hd].
  exists identity, run. split; [by left|done].
Qed.

(** C19: expiry touches only what is due.  Wherever the process is killed, every
    run is still there with its manifest and spool, and every payload reads as
    before, with any key or none, except those of a run with class keys whose
    class is due: the run is finished, the time its class is kept has passed
    since, and if it was sent anywhere, its upload states say that every target
    has acknowledged and sealed all its events.  (Packet captures and TLS
    secrets are never sent; their payloads expire with nothing but the events
    that refer to them acknowledged.)  A preview changes nothing. *)
Theorem expire_only_due evaluated_at policy execute key env w n out w' n' :
  (forall name class, proper_env (env name class)) ->
  expire_blob_classes evaluated_at policy execute key env (w, n) = (out, (w', n')) ->
  (execute = false -> w' = w) /\
  forall name identity run, d_entries w !! name = Some (Directory identity run) ->
    exists run', d_entries w' !! name = Some (Directory identity run') /\
      r_manifest run' = r_manifest run /\ r_spool run' = r_spool run /\
      forall r run_key max, (has_keyring (r_dir run) = true ->
          ~ class_due evaluated_at policy run (from_media_type (ref_media_type r))) ->
        read_blob_reference (r_dir run') r run_key max = read_blob_reference (r_dir run) r run_key max.
Proof.
  intros Henv H.
  assert (w' = w \/ execute = true /\ exists eligible,
    (forall c, c ∈ eligible -> exists identity run, d_entries w !! xc_run_id c = Some (Directory identity run) /\
       class_due evaluated_at policy run (xc_class c)) /\ spared eligible w w') as Hcases.
  { unfold expire_blob_classes, mbind at 1, proc_bind at 1, lift in H.
    destruct (validate_ttl policy) as [[]|e] eqn:Hv; [|injection H as _ <- _; by left].
    unfold mbind at 1, proc_bind at 1, look in H. cbn [fst] in H.
    destruct (try_fold _ _ (map_to_list _)) as [[[seen eligible] skipped]|e] eqn:Hf; [|injection H as _ <- _; by left].
    destruct execute; [|injection H as _ <- _; by left]. right. split; [done|].
    exists (sort_by expiry_order eligible). split.
    - intros c. unfold sort_by. rewrite merge_sort_Permutation. intros Hc.
      destruct (expiry_fold _ _ _ _ Hv _ _ _ _ _ _ Hf c Hc) as [Hn|(identity & run & Hin & _ & Hd)];
        [by apply elem_of_nil in Hn|]. exists identity, run. split; [by apply elem_of_map_to_list|done].
    - unfold mbind, proc_bind in H. destruct (fold_proc _ _ _ (w, n)) as [o [w1 n1]] eqn:E.
      destruct (expire_all_holds key (sort_by expiry_order eligible) w env (sort_by expiry_order eligible)
        Henv ltac:(done) _ _ _ _ _ _ (spared_start _ w) E) as [Hs _].
      by destruct o as [[[]|]|]; injection H as _ <- _. }
  split. { intros ->. by destruct Hcases as [|[]]. }
  intros name identity run He. destruct Hcases as [->|(_ & eligible & Hdue & Hs)]; [by exists run|].
  specialize (Hs name). rewrite He in Hs. destruct Hs as (run' & Hr & H1 & H2 & _ & H4).
  exists run'. split; [done|]. split; [done|]. split; [done|]. intros r run_key max Hn.
  apply (spares_reads (listed eligible name)); [done|]. intros Hk (c & Hc & Hid & Hcl).
  destruct (Hdue c Hc) as (identity' & run0 & He' & Hd). rewrite Hid, He in He'. injection He' as _ <-.
  rewrite Hcl in Hd. by apply (Hn Hk).
Qed.

(** ** An interrupted prune *)

Context {chrono : ChronoText}.

(** One call of any of the three, killed or not. *)
Inductive upkeep (w w' : Runs) : Prop :=
| upkeep_prune cutoff execute key require_uploaded env n out n' :
    prune_runs_inner cutoff execute key require_uploaded env (w, n) = (out, (w', n')) -> upkeep w w'
| upkeep_delete run_id request_id key env n out n' :
    delete_uploaded_run run_id request_id key env (w, n) = (out, (w', n')) -> upkeep w w'
| upkeep_expire evaluated_at policy execute key env n out n' :
    expire_blob_classes evaluated_at policy execute key env (w, n) = (out, (w', n')) -> upkeep w w'.

Section Keeps.
Context (name : string) (e : Entry).
Notation there w := (d_entries w !! name = Some e).

Definition keeps {A} (c : Proc.proc Runs A) : Prop :=
  holds (fun w => there w) c (fun w => there w) (fun _ w => there w).

Lemma keeps_bind {A B} (c : Proc.proc Runs A) (k : A -> Proc.proc Runs B) :
  keeps c -> (forall a, keeps (k a)) -> keeps (c ≫= k).
Proof. intros Hc Hk. eapply holds_bind; [exact Hc|exact Hk]. Qed.

Lemma keeps_ret {A} (a : A) : keeps (mret a).
Proof. by apply holds_ret. Qed.

Lemma keeps_look {A} (f : Runs -> result string A) : keeps (look f).
Proof. refine (holds_conseq _ _ _ _ _ _ _ _ (holds_look (fun w => there w) _ f _)); [done|by intros a w [H _]|done]. Qed.

Lemma keeps_lift {A} (r : result string A) : keeps (lift r).
Proof. by apply holds_lift. Qed.

Lemma keeps_append action outcome run_id details ctx torn :
  keeps (append_record d_audit set_audit action outcome run_id details ctx torn).
Proof.
  apply holds_update_or; [done|]. intros w w' Hw H.
  destruct (append _ _ _ _ _ _ None) as [[record|err] file]; [|done]. by injection H as <-.
Qed.

Lemma keeps_rename source target : source <> name -> keeps (rename_no_replace source target).
Proof.
  intros Hs. apply holds_update; [done|]. intros w w' Hw H. apply bind_ok in H as (entry & _ & H).
  destruct (d_entries w !! target) eqn:Et; [done|]. injection H as <-. cbn [d_entries].
  assert (target <> name) by congruence. by rewrite lookup_insert_ne, lookup_delete_ne.
Qed.

Lemma keeps_remove other env : other <> name -> keeps (remove_dir_all other env).
Proof.
  intros Ho. apply keeps_bind; [|intros []; apply keeps_lift]. apply holds_update_or; [done|]. intros w w' Hw H.
  assert (there (torn_run other (de_tear env) w)) as Ht.
  { unfold torn_run. destruct (d_entries w !! other) as [[identity run|]|]; try done. cbn.
    by rewrite lookup_insert_ne. }
  destruct (d_entries w !! other) as [[identity run|]|] eqn:E; try done. injection H as <-.
  destruct (de_remove_error env); [done|]. cbn [d_entries set_field]. split_and!; try done; by rewrite lookup_delete_ne.
Qed.

Lemma keeps_delete run_id request_id key env : str_starts_with "run-" name = false ->
  delete_quarantine request_id <> name -> keeps (delete_uploaded_run run_id request_id key env).
Proof.
  intros Hn Hq. unfold delete_uploaded_run.
  eapply holds_bind; [by apply holds_keep|]. intros []. apply (holds_pure (run_id <> name)).
  { intros w [_ Hs]. apply ensure_ok in Hs. unfold safe_run_name in Hs. apply andb_prop in Hs as [Hs _]. congruence. }
  intros Hr. refine (holds_conseq _ _ _ _ _ _ _ _ (_ : keeps _)); [by intros w [H _]|done|].
  pose proof @keeps_bind as Hb. pose proof @keeps_ret as Hret. pose proof @keeps_look as Hl.
  pose proof @keeps_lift as Hli. pose proof keeps_append as Ha.
  apply Hb; [apply Hl|]. intros [].
  - apply Hb; [apply Hl|]. intros b. apply Hb; [by apply keeps_remove|]. intros [].
    apply Hb; [apply Ha|]. intros []. apply Hret.
  - apply Hb; [apply Hl|]. intros [].
    + unfold begin_delete. apply Hb; [apply Hl|]. intros found. apply Hb; [apply Hli|]. intros c.
      apply Hb; [apply Ha|]. intros []. apply Hb; [by apply keeps_rename|]. intros [].
      apply Hb; [apply Hl|]. intros i. apply Hb; [apply Hli|]. intros [].
      apply Hb; [by apply keeps_remove|]. intros []. apply Hb; [apply Ha|]. intros []. apply Hret.
    + unfold confirm_delete. apply Hb; [apply Hl|]. intros []; [apply Hret|].
      apply Hb; [apply Hl|]. intros []; [apply Hb; [apply Ha|]; intros []; apply Hret|].
      apply Hb; [apply Hl|]. intros i. apply Hb; [apply Hli|]. intros [].
      apply Hb; [apply Ha|]. intros []. apply Hret.
Qed.

Lemma keeps_erase run class key env : run <> name -> keeps (erase_run_class run class key env).
Proof.
  intros Hr. unfold erase_run_class. apply keeps_bind; [apply keeps_look|]. intros gate.
  apply holds_zoom. intros w Hw. exists (fun _ => True), (fun _ => True), (fun _ _ => True).
  split; [done|]. split; [by intros|].
  assert (forall v, there (put_run_world run v w)) as Hp; [|by split].
  intros v. unfold put_run_world. destruct (d_entries w !! run) as [[]|]; cbn [d_entries]; try done.
  by rewrite lookup_insert_ne.
Qed.

Lemma keeps_expire evaluated_at policy execute key env : str_starts_with "run-" name = false ->
  keeps (expire_blob_classes evaluated_at policy execute key env).
Proof.
  intros Hn. unfold expire_blob_classes. eapply holds_bind; [by apply holds_keep|]. intros [].
  apply (holds_pure (validate_ttl policy = Ok tt)); [by intros w [_ H]|]. intros Hv.
  eapply holds_bind; [by apply holds_look; intros w [H _]|]. intros [[seen eligible] skipped].
  apply (holds_pure (forall c, c ∈ eligible -> xc_run_id c <> name)).
  { intros w [_ H] c Hc Heq. destruct (expiry_fold _ _ _ _ Hv _ _ _ _ _ _ H c Hc) as [Hnil|(i & run & _ & Hs & _)].
    - by apply elem_of_nil in Hnil.
    - congruence. }
  intros He. refine (holds_conseq _ _ _ _ _ _ _ _ (_ : keeps _)); [by intros w [[H _] _]|done|].
  destruct execute; [|apply keeps_ret]. apply keeps_bind; [|intros []; apply keeps_ret].
  refine (holds_fold (fun _ w => there w) _ _ _ _ _ _); [done|]. intros [sk er] c Hc. unfold expire_one.
  apply keeps_bind; [|intros r; apply keeps_ret].
  refine (holds_conseq _ _ _ _ _ _ _ _ (holds_try _ _ _ _ (keeps_erase _ _ _ _ _))); [done|by intros r w [H _]|].
  apply He. unfold sort_by in Hc. by rewrite merge_sort_Permutation in Hc.
Qed.
End Keeps.

Lemma prune_name_other name : str_starts_with ".iorec-prune-" name = true ->
  str_starts_with "run-" name = false /\ forall request_id, delete_quarantine request_id <> name.
Proof.
  intros H. unfold str_starts_with in *. apply starts_with_spec in H as [rest H]. split.
  - rewrite H. done.
  - intros request_id E. rewrite <-E in H. unfold delete_quarantine in H. rewrite as_bytes_app in H.
    by vm_compute in H.
Qed.

(** C39: what an interrupted prune leaves is never cleaned up.  A run that was
    moved to its quarantine name when the process died stays there, whole,
    through any number of later prunes, deletions and expiries; and a request to
    delete that run is refused as if it had never been there, as long as the log
    has neither a completed prune of it nor an earlier request. *)
Theorem interrupted_prune_leaks w w' name e : str_starts_with ".iorec-prune-" name = true ->
  d_entries w !! name = Some e -> rtc upkeep w w' ->
  d_entries w' !! name = Some e /\
  forall run_id request_id key env n, safe_run_name run_id = true ->
    d_entries w' !! run_id = None -> d_entries w' !! delete_quarantine request_id = None ->
    has_request_record (d_audit w') "remote_delete" "complete" (uuid_to_string request_id) = Ok false ->
    has_run_record (d_audit w') "retention_delete" "complete" run_id = Ok false ->
    has_request_record (d_audit w') "remote_delete" "intent" (uuid_to_string request_id) = Ok false ->
    delete_uploaded_run run_id request_id key env (w', n) =
      (Returned (Err "remote delete recording is not present locally"), (w', n)).
Proof.
  intros Hname Hw Hr. destruct (prune_name_other _ Hname) as [Hrun Hq]. split.
  - induction Hr as [w|w w1 w2 Hu _ IH]; [done|]. apply IH. clear IH.
    destruct Hu as [cutoff execute key ru env n out n' H|run_id request_id key env n out n' H
      |evaluated_at policy execute key env n out n' H].
    + destruct (prune_kept _ _ _ _ _ _ _ _ _ _ H) as ([Hk _] & _).
      destruct (Hk _ _ Hw) as [Hs|(identity & run & _ & Hs & _)]; [done|congruence].
    + by apply (keeps_delete name e run_id request_id key env Hrun (Hq _) _ _ _ _ _ Hw H).
    + by apply (keeps_expire name e evaluated_at policy execute key env Hrun _ _ _ _ _ Hw H).
  - intros run_id request_id key env n Hs H1 H2 H3 H4 H5.
    unfold delete_uploaded_run. rewrite Hs. unfold mbind, proc_bind, lift, look. cbn beta iota delta [ensure fst].
    rewrite H2, bool_decide_eq_false_2 by (by intros []). cbn beta iota delta [fst].
    rewrite H1, bool_decide_eq_false_2 by (by intros []). cbv iota. unfold confirm_delete, mbind, proc_bind, lift, look. cbn beta iota zeta delta [fst].
    rewrite H3. cbn beta iota delta [fst]. rewrite H4. cbn beta iota delta [fst]. by rewrite H5.
Qed.
End Expiry.

(** ** Witnesses *)

Module RetentionExamples.
Import Concrete ConcreteSerde CryptoExamples ManifestExamples.
Import (notations) Erasure.
#[local] Existing Instances ErasureExamples.uuid_text ErasureExamples.serde_erasure ErasureExamples.serde_erasure_laws.
#[local] Instance chrono : ChronoText := {| to_rfc3339 z := pretty z |}.
#[local] Instance no_uploads : SerdeUpload := {|
  upload_to_vec _ := None; upload_from_slice _ := None; header_to_vec _ := None |}.
#[local] Instance no_url : UrlCrate := {|
  Url := unit; url_parse _ := None; url_host_str _ := None; url_username _ := ""; url_password _ := None;
  url_query _ := None; url_fragment _ := None; url_path _ := ""; url_scheme _ := "";
  url_set_path u _ := u; url_to_string _ := "";
|}.

(** One finished run of two payloads and a file of its own. *)
Definition run : Run :=
  mkRun (Some (canonical ++ [LF])) ErasureExamples.keyed_dir None [FileNode 40; DirNode [FileNode 2; LinkNode]].
Definition runs : Runs := mkRuns {["run-1" := Directory (1, 2) run]} None.
Definition env : DeleteEnv :=
  mkDeleteEnv 9 ErasureExamples.ctx ErasureExamples.ctx 3
    (fun r => mkRun None (r_dir r) (r_spool r) []) None.

(** The records of its deletions. *)
Definition candidate : PruneCandidate := mkPruneCandidate "run-1" "finished" 5%Z 42 (cc_events (m_counts sample)) (1, 2).
Definition record (sequence : N) (action outcome : string) (details : Value) (previous : option string)
    : AuditRecord :=
  mkAuditRecord 1 sequence 5 7%Z 0 1 action outcome "run-1" (Some details) previous "".
Definition hash_of (i : N) (r : AuditRecord) : option string :=
  Some (a_record_sha256 (AuditExamples.sealed_as r (be_bytes 1 (65 + 2 * i)))).
Definition prune_intent : AuditRecord := record 1 "retention_delete" "intent" (prune_details candidate) None.
Definition prune_complete : AuditRecord :=
  record 2 "retention_delete" "complete" (prune_details candidate) (hash_of 0 prune_intent).
Definition delete_intent : AuditRecord := record 1 "remote_delete" "intent" (remote_details 7 42 false) None.
Definition delete_complete (bytes : N) (recovered : bool) : AuditRecord :=
  record 2 "remote_delete" "complete" (remote_details 7 bytes recovered) (hash_of 2 delete_intent).

Definition table : list (AuditRecord * bytes) :=
  AuditExamples.entries 0 prune_intent ++ AuditExamples.entries 1 prune_complete
  ++ AuditExamples.entries 2 delete_intent ++ AuditExamples.entries 3 (delete_complete 0 true)
  ++ AuditExamples.entries 4 (delete_complete 42 false).
#[local] Instance serde_table : SerdeAudit := AuditExamples.table_serde table.
#[local] Instance serde_table_laws : SerdeAuditLaws.
Proof.
  apply AuditExamples.table_laws. apply (@bool_decide_unpack _ (AuditExamples.table_reads_dec _)).
  vm_compute. exact I.
Qed.

(** Unfold the names of the examples before the operations they run. *)
#[local] Strategy 1000 [prune_runs_inner delete_uploaded_run expire_blob_classes].

Lemma split_run {A} (x : outcome A * (Runs * nat)) : x = (x.1, (x.2.1, x.2.2)).
Proof. by destruct x as [o [w n]]. Qed.

Definition pruned := prune_runs_inner 10%Z true (Some key) false (fun _ => env) (runs, 10%nat).

Lemma prune_only_due_witness :
  d_entries pruned.2.1 !! "run-1" = None /\
  exists identity r, Directory (1, 2) run = Directory identity r /\ str_starts_with "run-" "run-1" = true /\
    prunable 10%Z (Some key) false "run-1" r /\
    on_record (AuditLog.Run "retention_delete" "intent" "run-1") pruned.2.1.
Proof.
  assert (d_entries pruned.2.1 !! "run-1" = None) as Hn by (vm_compute; reflexivity). split; [exact Hn|].
  destruct (prune_only_due 10%Z true (Some key) false (fun _ => env) runs 10 pruned.1 pruned.2.1 pruned.2.2
    (split_run pruned)) as (_ & Hk & _).
  destruct (Hk "run-1" (Directory (1, 2) run) ltac:(vm_compute; reflexivity)) as [H|H]; [|exact H].
  rewrite Hn in H. discriminate.
Defined.

(** A process killed at the removal itself leaves part of the run; one killed
    just before it, all of it. *)
Definition whole : DeleteEnv :=
  mkDeleteEnv 9 ErasureExamples.ctx ErasureExamples.ctx 3 (fun r => r) None.
Definition stopped := prune_runs_inner 10%Z true (Some key) false (fun _ => whole) (runs, 2%nat).
Definition later := prune_runs_inner 10%Z true (Some key) false (fun _ => env) (stopped.2.1, 10%nat).
Definition quarantine : string := ".iorec-prune-run-1-9".

Lemma later_run :
  prune_runs_inner 10%Z true (Some key) false (fun _ => env) (stopped.2.1, 10%nat) =
  (later.1, (later.2.1, later.2.2)).
Proof.
  assert (later = prune_runs_inner 10%Z true (Some key) false (fun _ => env) (stopped.2.1, 10%nat)) as <-
    by reflexivity.
  exact (split_run later).
Qed.

Lemma later_upkeep : rtc upkeep stopped.2.1 later.2.1.
Proof.
  apply rtc_once.
  exact (upkeep_prune stopped.2.1 later.2.1 10%Z true (Some key) false (fun _ => env) 10%nat later.1 later.2.2
    later_run).
Qed.

Lemma interrupted_prune_leaks_witness :
  d_entries stopped.2.1 !! "run-1" = None /\ d_entries later.2.1 !! quarantine = Some (Directory (1, 2) run) /\
  delete_uploaded_run "run-1" 7 (Some key) env (later.2.1, 10%nat) =
    (Returned (Err "remote delete recording is not present locally"), (later.2.1, 10%nat)).
Proof.
  assert (d_entries stopped.2.1 !! "run-1" = None) as H0 by (vm_compute; reflexivity). split; [exact H0|].
  assert (d_entries stopped.2.1 !! quarantine = Some (Directory (1, 2) run)) as Hq by (vm_compute; reflexivity).
  assert (d_entries later.2.1 !! "run-1" = None) as H1 by (vm_compute; reflexivity).
  assert (d_entries later.2.1 !! delete_quarantine 7 = None) as H2 by (vm_compute; reflexivity).
  assert (has_request_record (d_audit later.2.1) "remote_delete" "complete" (uuid_to_string 7) = Ok false) as H3
    by (vm_compute; reflexivity).
  assert (has_run_record (d_audit later.2.1) "retention_delete" "complete" "run-1" = Ok false) as H4
    by (vm_compute; reflexivity).
  assert (has_request_record (d_audit later.2.1) "remote_delete" "intent" (uuid_to_string 7) = Ok false) as H5
    by (vm_compute; reflexivity).
  destruct (interrupted_prune_leaks stopped.2.1 later.2.1 quarantine (Directory (1, 2) run) eq_refl Hq later_upkeep)
    as [Hk Hd].
  split; [exact Hk|]. exact (Hd "run-1" 7 (Some key) env 10%nat eq_refl H1 H2 H3 H4 H5).
Defined.

(** The process dies while it removes the files; the next call finishes. *)
Definition killed := delete_uploaded_run "run-1" 7 (Some key) env (runs, 2%nat).
Definition resumed := delete_uploaded_run "run-1" 7 (Some key) env (killed.2.1, 4%nat).

Lemma env_tears : tears env.
Proof. intros r. apply N.le_0_l. Qed.
Lemma killed_reached : rtc (delete_attempt "run-1" 7 (Some key)) runs killed.2.1.
Proof.
  apply rtc_once. exists env, 2%nat, killed.1, killed.2.2. split; [apply env_tears|]. exact (split_run killed).
Qed.

Lemma delete_crash_safe_witness :
  (exists rest, d_entries killed.2.1 !! delete_quarantine 7 = Some (Directory (1, 2) rest)) /\
  removed "run-1" 7 resumed.2.1 /\
  on_record (Request "remote_delete" "complete" (uuid_to_string 7)) resumed.2.1.
Proof.
  split; [eexists; vm_compute; reflexivity|].
  destruct (delete_crash_safe "run-1" 7 (Some key) runs killed.2.1 (1, 2) run candidate) as [_ H];
    [vm_compute; reflexivity..|exact killed_reached|].
  specialize (H env 4%nat resumed.1 resumed.2.1 resumed.2.2 env_tears (split_run resumed)).
  destruct H as [_ H]. assert (is_Some (match resumed.1 with Returned (Ok r) => Some r | _ => None end)) as [r Hr]
    by (apply (bool_decide_unpack _); vm_compute; exact I).
  destruct resumed.1 as [[]|]; [exact H|discriminate..].
Defined.
End RetentionExamples.

Module ExpiryExamples.
Import Concrete ConcreteSerde CryptoExamples ManifestExamples.
#[local] Existing Instances ErasureExamples.uuid_text ErasureExamples.serde_erasure ErasureExamples.serde_erasure_laws
  ErasureExamples.serde_table ErasureExamples.serde_table_laws RetentionExamples.no_uploads RetentionExamples.no_url.

(** Bodies are kept for one second, captures for an hour. *)
Definition policy : BlobClassTtlPolicy := mkTtlPolicy (Some 1000000000) (Some 3600000000000) None.
Definition now : DateTime := 5000000000%Z.
Definition env (name : string) (class : BlobClass) : ErasureEnv := ErasureExamples.env.
Definition expired := expire_blob_classes now policy true key env (RetentionExamples.runs, 20%nat).

Definition capture : PayloadRef :=
  mkPayloadRef ("sha256:" +:+ ErasureExamples.digest) 7 (Some "application/vnd.tcpdump.pcap") false.
Lemma capture_not_due : ~ class_due now policy RetentionExamples.run (from_media_type (ref_media_type capture)).
Proof.
  intros (m & f & t & Hm & _ & Hf & Ht & _ & Hd & _).
  change (ttl policy (from_media_type (ref_media_type capture))) with (Some 3600000000000) in Ht.
  injection Ht as <-.
  assert (message (read_manifest (r_manifest RetentionExamples.run)) = Ok signed) as Hs by (vm_compute; reflexivity).
  rewrite Hs in Hm. injection Hm as <-. assert (f = 5%Z) as -> by (by injection Hf). unfold now in Hd. lia.
Qed.

Lemma expire_only_due_witness :
  exists run', d_entries expired.2.1 !! "run-1" = Some (Directory (1, 2) run') /\
    envelope (r_dir run') Body = None /\
    read_blob_reference (r_dir run') capture (Some run_key) 7 =
    read_blob_reference (r_dir RetentionExamples.run) capture (Some run_key) 7.
Proof.
  destruct (expire_only_due now policy true key env RetentionExamples.runs 20 expired.1 expired.2.1 expired.2.2)
    as [_ H]; [intros; apply ErasureExamples.proper|exact (RetentionExamples.split_run expired)|].
  destruct (H "run-1" (1, 2) RetentionExamples.run ltac:(vm_compute; reflexivity)) as (run' & Hr & _ & _ & Hread).
  exists run'. split; [exact Hr|]. split.
  - assert (match d_entries expired.2.1 !! "run-1" with
      | Some (Directory _ r) => envelope (r_dir r) Body | _ => Some [] end = None) as He by (vm_compute; reflexivity).
    rewrite Hr in He. exact He.
  - apply Hread. intros _. apply capture_not_due.
Defined.
End ExpiryExamples.
