(* ===== verification/Platform.v ===== *)
(** * The platform client of src/upload.rs

    [PlatformClient]: the requests of an upload, how they are retried, and what
    is accepted as an answer; the collector's report on the configuration it is
    sent.  The other side is any function from requests to answers. *)

From Stdlib Require Import Strings.Byte.
From S2P Require Import Prelude RustStd Proc External Json Input Model ProbePlan Policy Crypto EventLog Manifest Timeline BlobStore UploadState.
From stdpp Require Import pretty options.
Local Open Scope N_scope.
#[local] Unset Default Proof Using.

Definition RECORDER_VERSION : string := "0.1.0".
Definition MAX_RESPONSE_BYTES : N := 1024 * 1024.
Definition CONTENT_TYPE_BATCH : string := "application/vnd.iorec.batch+zstd".

(** [Duration], in nanoseconds. *)
Definition from_secs (n : N) : N := n * 1000000000.
Definition from_millis (n : N) : N := n * 1000000.
Definition HEARTBEAT_INTERVAL : N := from_secs 30.

(** ** Messages *)

Inductive Method := GET | HEAD | POST | PUT.
#[export] Instance Method_eq_dec : EqDecision Method.
Proof. solve_decision. Defined.

(** A request to an endpoint: the origin and the segments of the path. *)
Record Request := mkRequest {
  rq_method : Method;
  rq_origin : string;
  rq_path : list string;
  rq_headers : list (string * string);
  rq_body : bytes;
}.
#[export] Instance Request_eq_dec : EqDecision Request.
Proof. solve_decision. Defined.

(** An answer as it arrives: the chunks of the body, an error among them. *)
Record Response := mkResponse {
  rs_status : N;
  rs_headers : HeaderMap;
  rs_chunks : list (option bytes);
}.

Record HttpResponse := mkHttpResponse {
  hr_status : N;
  hr_headers : HeaderMap;
  hr_body : bytes;
}.

Record CollectorCapabilities := mkCollectorCapabilities {
  ca_schema : string;
  ca_transport : Value;
  ca_sources : Value;
  ca_runtime_inventory : Value;
  ca_limits : Value;
  ca_privilege : Value;
}.

Record RegisterCollector := mkRegisterCollector {
  rc_collector_id : option Uuid;
  rc_name : string;
  rc_version : string;
  rc_hostname : string;
  rc_os : string;
  rc_capabilities : CollectorCapabilities;
}.

Record RegisterResponse := mkRegisterResponse {
  rg_collector_id : Uuid;
  rg_session_token : string;
  rg_expires_at : DateTime;
  rg_config_version : Z;
  rg_config : Value;
}.

(** [acked_lag_seconds] is a [f64] made from a [u32]. *)
Record Heartbeat := mkHeartbeat {
  hb_status : string;
  hb_active_runs : N;
  hb_spool_bytes_used : N;
  hb_acked_lag_seconds : N;
  hb_last_error : option string;
  hb_config_version : Z;
  hb_effective_config : Value;
  hb_rejected : Value;
}.

Record CreateRecording := mkCreateRecording {
  cr_recording_id : string;
  cr_capture_run_id : string;
  cr_segment_no : N;
  cr_sequence_base : N;
  cr_schema_version : N;
  cr_command : string;
  cr_cwd : string;
  cr_agent_kind : option string;
  cr_agent_version : option string;
  cr_started_at : DateTime;
  cr_recorder_version : string;
  cr_runtime : option string;
}.

Record SealRecording := mkSealRecording {
  se_final_seq : N;
  se_manifest : option Manifest;
  se_manifest_sha256 : option string;
  se_incomplete : bool;
  se_run_final : bool;
}.

(** serde_json on the bodies of requests and answers. *)
Class SerdeWire := {
  register_to_vec : RegisterCollector -> option bytes;
  register_from_slice : bytes -> option RegisterResponse;
  heartbeat_to_vec : Heartbeat -> option bytes;
  create_to_vec : CreateRecording -> option bytes;
  seal_to_vec : SealRecording -> option bytes;
  recording_from_slice : bytes -> option RemoteRecording;
  ack_from_slice : bytes -> option BatchAck;
  value_to_vec : Value -> option bytes;
}.

(** What the build and the crates give: the target platform, the validity of a
    header value, the text of an UUID. *)
Class ClientCrates := {
  consts_OS : string;
  consts_ARCH : string;
  header_value_valid : string -> bool;
  uuid_to_string : Uuid -> string;
}.

(** The other side: its state and its answer, if one arrives, to a request. *)
Class Platform := {
  Remote : Type;
  serve : Remote -> Request -> option Response * Remote;
}.

(** The clocks, by the number of the reading: [Utc::now] and [Instant::now]. *)
Class Clock := {
  utc : nat -> DateTime;
  instant : nat -> N;
}.

(** ** Answers *)

Section Answers.
Context {http : Http}.

Definition header_get (name : string) (headers : HeaderMap) : option bytes :=
  match map_get name headers with Some (value :: _) => Some value | _ => None end.

Definition retry_after (response : Response) : option N :=
  value ← header_get "retry-after" (rs_headers response) ≫= header_value_to_str;
  from_secs <$> parse_uint u64_max value.

(** The loop over the body of [read_response]. *)
Definition read_chunk (body : bytes) (chunk : option bytes) : result string bytes :=
  chunk ← ok_or chunk "error reading a body from connection";
  ensure (nlen body + nlen chunk <=? MAX_RESPONSE_BYTES) "platform response exceeds safety limit";;
  Ok (body ++ chunk).

Definition read_response (response : Response) : result string HttpResponse :=
  if (rs_status response =? 204) || (rs_status response =? 304)
  then Ok (mkHttpResponse (rs_status response) (rs_headers response) [])
  else
    body ← try_fold read_chunk [] (rs_chunks response);
    Ok (mkHttpResponse (rs_status response) (rs_headers response) body).

Definition retryable_status (status : N) : bool :=
  bool_decide (status ∈ [408; 425; 429; 500; 502; 503; 504]).

Definition require_status {serde : Serde} (response : HttpResponse) (accepted : list N)
    : result string unit :=
  if bool_decide (hr_status response ∈ accepted) then Ok tt
  else
    let code := default "unclassified"
      (((value_from_slice (hr_body response) ≫= get "error") ≫= get "code") ≫= as_str) in
    Err ("platform returned HTTP " +:+ pretty (hr_status response) +:+ " (" +:+ code +:+ ")").

Definition decode_json {A} (from_slice : bytes -> option A) (body : bytes) : result string A :=
  from_io_message (validate_json_complexity body);;
  ok_or (from_slice body) "decode platform response".
End Answers.

(** The delay before the next attempt, without the limit on the total time. *)
Definition retry_pause (attempt : N) (retry_after : option N) : N :=
  let shift := N.min attempt 7 in
  let exponential := from_millis (N.min u64_max (250 * N.shiftl 1 shift)) in
  let jitter := from_millis (((attempt * 73) mod (u32_max + 1) + 41) mod (u32_max + 1) mod 251) in
  N.min (default (exponential + jitter) retry_after) (from_secs 30).

(** ** What a collector declares *)

Definition body_mode_full (m : Manifest) : bool := bool_decide (body_mode (m_policy m) = Full).

Definition collector_capabilities (m : Manifest) : CollectorCapabilities :=
  let capture_sources := cov_capture_sources (m_coverage m) in
  let proxy := existsb (fun source => str_eqb source "proxy") capture_sources in
  let pcap := existsb (str_starts_with "pcap:") capture_sources in
  let keylog := existsb (fun source => str_eqb source "nss-sslkeylogfile") capture_sources in
  mkCollectorCapabilities "iorec.capabilities.v1"
    (json_object
      [("http_body", JString (if proxy && body_mode_full m then "visible"
                              else if proxy then "headers_only" else "absent"));
       ("sse", JString (if proxy then "visible" else "absent"));
       ("websocket", JString (if proxy then "visible" else "absent"));
       ("http2_decode", JString "absent"); ("http3", JString "detect_only")])
    (json_object
      [("proxy", JBool proxy);
       ("keylog", json_object [("available", JBool keylog)]);
       ("pcap", json_object [("available", JBool pcap)]);
       ("runtime_observer", JBool (existsb (fun source =>
          str_starts_with "runtime:" source || str_starts_with "hook:" source) capture_sources))])
    (json_object
      [("agents_detected", JArray (match agent (m_command m) with
          | Some kind => [json_object [("kind", JString kind);
              ("version", json_option JString (agent_version (m_command m)))]]
          | None => [] end));
       ("tls_surfaces", JArray ((fun surface => json_object [("lib", JString surface);
          ("status", JString "observed")]) <$> executable_tls_surfaces (m_command m)));
       ("unknown_tls_surfaces", json_u64 (cov_unknown_tls_surfaces (m_coverage m)))])
    (json_object
      [("max_blob_bytes", json_u64 (max_blob_bytes (m_policy m)));
       ("spool_bytes", json_u64 (sat_add (max_event_storage_bytes (m_policy m))
          (max_run_blob_storage_bytes (m_policy m))))])
    (json_object [("helper_running", JBool false)]).

(** ** What a collector rejects *)

Definition reason (text : string) (rest : list (string * Value)) : Value :=
  json_object (("reason", JString text) :: rest).

Definition is_object (v : Value) : bool :=
  match v with JObject _ => true | _ => false end.

(** The section [upload] of a configuration. *)
Definition reject_upload (value : Value) (rejected : list (string * Value))
    : result string (list (string * Value)) :=
  upload ← ok_or (as_object value) "upload config is not an object";
  rejected ← match map_get "batch_max_bytes" upload with
    | Some size =>
        size ← ok_or (as_u64 size) "upload.batch_max_bytes is not an unsigned integer";
        ensure (0 <? size) "upload.batch_max_bytes is zero";;
        Ok (if size =? DEFAULT_BATCH_BYTES then rejected
            else map_insert "upload.batch_max_bytes"
                   (reason "fixed local batch plan takes precedence"
                      [("effective", json_u64 DEFAULT_BATCH_BYTES)]) rejected)
    | None => Ok rejected
    end;
  Ok (foldl (fun rejected field =>
        if map_contains_key field upload
        then map_insert ("upload." +:+ field)
               (reason "single-shot finalized-run uploader does not apply this daemon setting" [])
               rejected
        else rejected) rejected ["batch_max_age_ms"; "rate_limit_bytes_per_s"]).

Definition reject_section (m : Manifest) (rejected : list (string * Value))
    (entry : string * Value) : result string (list (string * Value)) :=
  let '(section, value) := entry in
  ensure (negb (str_is_empty section) && (str_len section <=? 128) && str_all is_ascii_graphic section)
    "platform collector configuration has an invalid section name";;
  let refuse text rest := map_insert section (reason text rest) rejected in
  if str_eqb section "content_policy" then
    ensure (is_object value) "content_policy is not an object";;
    Ok (refuse "configuration applies only to new runs; this finalized run retains its authenticated local capture policy"
          [("effective_capture_bodies", JBool (body_mode_full m));
           ("effective_max_body_bytes", json_u64 (max_blob_bytes (m_policy m)))])
  else if str_eqb section "upload" then reject_upload value rejected
  else if str_eqb section "sensitive_tier_upload" then
    ensure (is_object value) "sensitive_tier_upload is not an object";;
    Ok (refuse "sensitive tiers require an explicit local export and are never enabled by upload configuration" [])
  else if str_eqb section "retention_local" then
    ensure (is_object value) "retention_local is not an object";;
    Ok (refuse "automatic remote-configured deletion is not enabled; explicit authenticated prune policy takes precedence" [])
  else if str_eqb section "egress_classification" then
    ensure (is_object value) "egress_classification is not an object";;
    Ok (refuse "egress configuration applies only before a new run starts" [])
  else Ok (refuse "unknown configuration section" []).

Definition config_rejections {wire : SerdeWire} (config : Value) (m : Manifest)
    : result string Value :=
  encoded ← ok_or (value_to_vec config) "serialization";
  from_io_message (validate_json_complexity encoded);;
  object ← ok_or (as_object config) "platform collector configuration is not an object";
  ensure (nlen object <=? 32) "platform collector configuration has too many sections";;
  rejected ← try_fold (reject_section m) [] object;
  Ok (JObject rejected).

(** ** The client *)

Section Client.
Context {dig : Digest} {hx : Hex} {aead : Aead} {http : Http}
  {serde : Serde} {serdem : SerdeManifest} {serdee : SerdeErasure} {wire : SerdeWire}
  {crates : ClientCrates} {platform : Platform} {clock : Clock}.

(** What an upload acts on: the files of the run, its spool and whether
    another process has locked it, the platform, the readings of the clocks so
    far, and the requests sent. *)
Record World := mkWorld {
  w_manifest : option bytes;
  w_events : option bytes;
  w_dir : RunDir;
  w_spool : option Spool;
  w_locked : bool;
  w_remote : Remote;
  w_clock : nat;
  w_sent : list Request;
}.

#[export] Instance World_settable : Settable World := fun w =>
  mkWorld (w_manifest w) (w_events w) (w_dir w) (w_spool w) (w_locked w) (w_remote w) (w_clock w) (w_sent w).

Notation proc := (Proc.proc World).

Record PlatformClient := mkPlatformClient {
  pc_origin : string;
  pc_authorization : string;
  pc_retry_for : N;
}.

Definition utc_now : proc DateTime :=
  advance_world (fun w => (utc (w_clock w), w <| w_clock := S (w_clock w) |>)).
Definition instant_now : proc N :=
  advance_world (fun w => (instant (w_clock w), w <| w_clock := S (w_clock w) |>)).
(** [started.elapsed()] *)
Definition elapsed (started : N) : proc N := now ← instant_now; mret (now - started).

Definition bearer (token : string) : result string string :=
  let value := "Bearer " +:+ token in
  ensure (header_value_valid value) "platform token cannot be represented as an HTTP header";;
  Ok value.

Definition new_client (origin token : string) (retry_for : N) : result string PlatformClient :=
  authorization ← bearer token;
  Ok (mkPlatformClient origin authorization retry_for).

Definition retry_delay (c : PlatformClient) (started attempt : N) (retry_after : option N)
    : proc (option N) :=
  if pc_retry_for c =? 0 then mret None
  else
    let delay := retry_pause attempt retry_after in
    e ← elapsed started;
    mret (if e + delay <=? pc_retry_for c then Some delay else None).

(** One exchange over the network. *)
Definition send (request : Request) : proc (option Response) :=
  exchange (fun w =>
    let '(response, remote) := serve (w_remote w) request in
    (Ok response, w <| w_remote := remote |> <| w_sent ::= fun sent => sent ++ [request] |>)).

(** One iteration of [request]. *)
Definition try_request (c : PlatformClient) (request : Request) (started attempt : N)
    : proc (N + HttpResponse) :=
  result ← send request;
  match result with
  | Some response =>
      let retry := retry_after response in
      response ← lift (read_response response);
      if negb (retryable_status (hr_status response)) then mret (inr response)
      else
        delay ← retry_delay c started attempt retry;
        mret (match delay with
              | Some _ => inl (N.min u32_max (attempt + 1))
              | None => inr response
              end)
  | None =>
      delay ← retry_delay c started attempt None;
      match delay with
      | Some _ => mret (inl (N.min u32_max (attempt + 1)))
      | None => lift (Err "platform request failed after retry budget")
      end
  end.

Definition request (c : PlatformClient) (method : Method) (path : list string)
    (headers : list (string * string)) (body : bytes) : proc HttpResponse :=
  started ← instant_now;
  repeat_until
    (try_request c (mkRequest method (pc_origin c) path
       (("authorization", pc_authorization c) :: headers) body) started) 0.

Definition json_headers : list (string * string) := [("content-type", "application/json")].

Definition check_registration (r : RegisterResponse) (now : DateTime) : result string unit :=
  ensure (negb (uuid_is_nil (rg_collector_id r))) "platform returned a nil collector ID";;
  ensure (0 <=? rg_config_version r)%Z "platform returned an invalid config version";;
  ensure (now <? rg_expires_at r)%Z "platform returned an expired collector session";;
  ensure (is_object (rg_config r)) "platform returned a non-object collector configuration";;
  ensure (negb (str_is_empty (rg_session_token r)) && (str_len (rg_session_token r) <=? MAX_TOKEN_BYTES)
          && str_all is_ascii_graphic (rg_session_token r))
    "platform returned an invalid collector session token".

(** The registration, and the client with the session's token. *)
Definition register (c : PlatformClient) (m : Manifest) (collector_id : option Uuid)
    : proc (RegisterResponse * PlatformClient) :=
  body ← lift (ok_or (register_to_vec
    (mkRegisterCollector collector_id "iorec" ("iorec/" +:+ RECORDER_VERSION) "redacted"
       (consts_OS +:+ "/" +:+ consts_ARCH) (collector_capabilities m))) "serialization");
  response ← request c POST ["v1"; "collectors:register"] json_headers body;
  lift (require_status response [200]);;
  registration ← lift (decode_json register_from_slice (hr_body response));
  now ← utc_now;
  lift (check_registration registration now);;
  authorization ← lift (bearer (rg_session_token registration));
  mret (registration, mkPlatformClient (pc_origin c) authorization (pc_retry_for c)).

(** The configuration in force, for the heartbeat. *)
Definition effective_config (m : Manifest) : Value :=
  json_object
    [("content_policy", json_object
       [("capture_bodies", JBool (body_mode_full m));
        ("max_body_bytes", json_u64 (max_blob_bytes (m_policy m)));
        ("redact_fields", JArray (JString <$> redact_headers (m_policy m)))]);
     ("upload", json_object
       [("batch_max_bytes", json_u64 DEFAULT_BATCH_BYTES);
        ("batch_max_events", json_u64 DEFAULT_BATCH_EVENTS)])].

(** Whole seconds from [finished] to [now], as an [u32]. *)
Definition lag_seconds (now finished : DateTime) : N :=
  N.min u32_max (Z.to_N (Z.max 0 (Z.quot (now - finished) 1000000000))).

Definition acked_lag (s : UploadState) (m : Manifest) (final_seq : N) : proc N :=
  if us_acked_seq s =? final_seq then mret 0
  else match m_finished_at m with
  | None => mret 0
  | Some finished => now ← utc_now; mret (lag_seconds now finished)
  end.

Definition heartbeat (c : PlatformClient) (collector_id : Uuid) (s : UploadState) (m : Manifest)
    (final_seq : N) (rejected_config : Value) : proc unit :=
  lag ← acked_lag s m final_seq;
  body ← lift (ok_or (heartbeat_to_vec
    (mkHeartbeat "healthy" 0
       (sat_add (cc_event_storage_bytes (m_counts m)) (cc_blob_storage_bytes (m_counts m)))
       lag None (us_config_version s) (effective_config m) rejected_config)) "serialization");
  response ← request c POST ["v1"; "collectors"; uuid_to_string collector_id +:+ ":heartbeat"]
               json_headers body;
  lift (require_status response [200]).

Definition create_recording (c : PlatformClient) (m : Manifest) (recording_id : string)
    (segment_no sequence_base : N) : proc unit :=
  let command := m_command m in
  body ← lift (ok_or (create_to_vec
    (mkCreateRecording recording_id (m_run_id m) segment_no sequence_base 1
       (join_fields (argv command)) (cwd command) (agent command) (agent_version command)
       (m_started_at m) (m_recorder_version m) (runtime command))) "serialization");
  response ← request c POST ["v1"; "recordings"] json_headers body;
  lift (require_status response [201; 200]).

Definition get_recording (c : PlatformClient) (recording_id : string) : proc RemoteRecording :=
  response ← request c GET ["v1"; "recordings"; recording_id] [] [];
  lift (require_status response [200]);;
  lift (decode_json recording_from_slice (hr_body response)).

(** The size an answer to HEAD declares. *)
Definition check_length (plan : BlobPlan) (headers : HeaderMap) : result string unit :=
  match header_get "content-length" headers with
  | None => Ok tt
  | Some length =>
      length ← ok_or (header_value_to_str length) "failed to convert header to a str";
      length ← ok_or (parse_uint u64_max length) "invalid digit found in string";
      ensure (length =? bp_size plan) "platform blob size conflicts with local evidence"
  end.

(** Whether the platform has the payload already. *)
Definition blob_present (c : PlatformClient) (plan : BlobPlan) : proc bool :=
  head ← request c HEAD ["v1"; "blobs"; bp_sha256 plan] [] [];
  if hr_status head =? 200 then lift (check_length plan (hr_headers head));; mret true
  else
    lift (ensure (hr_status head =? 404)
            ("platform rejected blob lookup with HTTP " +:+ pretty (hr_status head)));;
    mret false.

Definition ensure_blob (c : PlatformClient) (plan : BlobPlan) (encryption : option EncryptionKey)
    (force : bool) : proc unit :=
  present ← (if force then mret false else blob_present c plan);
  if (present : bool) then mret tt
  else
    content ← look (fun w => from_io_message (read_blob_reference (w_dir w)
      (mkPayloadRef ("sha256:" +:+ bp_sha256 plan) (bp_size plan) (bp_media_type plan) false)
      encryption MAX_SINGLE_BLOB_BYTES));
    let media_type := default "application/octet-stream" (bp_media_type plan) in
    lift (ensure (header_value_valid media_type) "failed to parse header value");;
    response ← request c PUT ["v1"; "blobs"; bp_sha256 plan] [("content-type", media_type)] content;
    lift (require_status response [201; 200]).

Definition upload_batch (c : PlatformClient) (recording_id : string) (plan : BatchPlan) (body : bytes)
    : proc BatchAck :=
  let key := batch_id recording_id plan in
  lift (ensure (header_value_valid key && header_value_valid (ba_sha256 plan))
          "failed to parse header value");;
  response ← request c POST ["v1"; "recordings"; recording_id; "batches"]
    [("content-type", CONTENT_TYPE_BATCH); ("idempotency-key", key); ("x-batch-sha256", ba_sha256 plan)]
    body;
  lift (require_status response [200]);;
  lift (decode_json ack_from_slice (hr_body response)).

Definition seal_recording (c : PlatformClient) (recording_id : string) (final_seq : N) (m : Manifest)
    (run_final : bool) : proc unit :=
  manifest_sha256 ← lift
    (if run_final then
       manifest_bytes ← ok_or (manifest_to_vec m) "serialization";
       Ok (Some (hex_encode (sha256 manifest_bytes)))
     else Ok None);
  body ← lift (ok_or (seal_to_vec
    (mkSealRecording final_seq (if run_final then Some m else None) manifest_sha256 false run_final))
    "serialization");
  response ← request c POST ["v1"; "recordings"; recording_id +:+ ":seal"] json_headers body;
  lift (require_status response [200]).
End Client.

(** ** What the platform documents

    [iorec-platform/api/openapi.yaml]: the events [sequence_base+1..durable_seq]
    of a recording are durably stored when a batch or the recording itself is
    answered with that [durable_seq]; batches arrive by
    [POST /recordings/{id}/batches], or in an import; a payload is stored under
    its digest, which is verified.  None of it is kept for ever: administrators
    erase recordings ([DELETE /recordings/{id}]) and retention expires batches
    and payloads (platform/10, section 6).  The laws are therefore about what
    the platform has received and stored so far, a history no deletion undoes,
    and not about what it still holds. *)

(** A batch that was stored: its range, its lines and the payloads it declares. *)
Record Held := mkHeld {
  hd_first_seq : N;
  hd_last_seq : N;
  hd_raw : bytes;
  hd_blobs : list string;
}.

Record Recording := mkRecording {
  rec_segment_no : N;
  rec_sequence_base : N;
  rec_durable_seq : N;
  rec_state : string;
  rec_final_seq : option N;
  rec_batches : list Held;
}.

Definition held_of (h : BatchHeader) (raw : bytes) : Held :=
  mkHeld (bh_first_seq h) (bh_last_seq h) raw (fst <$> bh_blobs h).

(** The body of a batch request: the header's line and the compressed lines. *)
Definition encodes {zstd : Zstd} {serdeu : SerdeUpload} (body : bytes) (h : BatchHeader) (raw : bytes)
    : Prop :=
  exists header compressed, header_to_vec h = Some header /\ zstd_compress raw = Some compressed /\
    body = header ++ [LF] ++ compressed.

Definition batch_request (q : Request) (id : string) : Prop :=
  rq_method q = POST /\ rq_path q = ["v1"; "recordings"; id; "batches"].

Definition IMPORT_PATH : list string := ["v1"; "recordings:import"].

(** What was received and stored at an origin so far: recordings by their IDs,
    payloads by their digests. *)
Class PlatformView {platform : Platform} := {
  received_recording : Remote -> string -> string -> option Recording;
  received_payload : Remote -> string -> string -> option bytes;
  remote_wf : Remote -> Prop;
}.

(** A later state of a recording. *)
Record extends_recording (r r' : Recording) : Prop := {
  er_segment : rec_segment_no r' = rec_segment_no r;
  er_base : rec_sequence_base r' = rec_sequence_base r;
  er_durable : rec_durable_seq r <= rec_durable_seq r';
  er_batches : forall b, b ∈ rec_batches r -> b ∈ rec_batches r';
  er_sealed : rec_state r = "sealed" -> rec_state r' = "sealed";
}.

(** An answer about a recording says no more than what was received of it.  One
    that is being erased or has expired is in another state than the two. *)
Record reports (rr : RemoteRecording) (r : Recording) : Prop := {
  rp_base : rr_sequence_base rr = rec_sequence_base r;
  rp_durable : rr_durable_seq rr <= rec_durable_seq r;
  rp_sealed : rr_state rr = "sealed" -> rec_state r = "sealed";
}.

Class PlatformLaws {dig : Digest} {hx : Hex} {zstd : Zstd} {serdeu : SerdeUpload} {http : Http}
    {wire : SerdeWire} {platform : Platform} {view : PlatformView} := {
  (** The history grows. *)
  serve_wf : forall r q answer r', remote_wf r -> serve r q = (answer, r') -> remote_wf r';
  serve_keeps : forall r q answer r' o id rec, remote_wf r -> serve r q = (answer, r') ->
    received_recording r o id = Some rec ->
    exists rec', received_recording r' o id = Some rec' /\ extends_recording rec rec';
  serve_keeps_payload : forall r q answer r' o d, remote_wf r -> serve r q = (answer, r') ->
    is_Some (received_payload r o d) -> is_Some (received_payload r' o d);
  (** Outside of an import, batches come from batch requests. *)
  serve_adds : forall r q answer r' o id rec' b, remote_wf r -> serve r q = (answer, r') ->
    rq_path q <> IMPORT_PATH ->
    received_recording r' o id = Some rec' -> b ∈ rec_batches rec' ->
    (exists rec, received_recording r o id = Some rec /\ b ∈ rec_batches rec) \/
    (rq_origin q = o /\ batch_request q id /\
     forall h raw, encodes (rq_body q) h raw -> b = held_of h raw);
  (** The events up to [durable_seq] were stored. *)
  recording_covers : forall r o id rec n, remote_wf r -> received_recording r o id = Some rec ->
    rec_sequence_base rec < n <= rec_durable_seq rec ->
    exists b, b ∈ rec_batches rec /\ hd_first_seq b <= n <= hd_last_seq b;
  payload_digest : forall r o d content, remote_wf r -> received_payload r o d = Some content ->
    hex_encode (sha256 content) = d;
  (** Answers are truthful. *)
  get_answer : forall r q answer r' id response rr, remote_wf r -> serve r q = (Some answer, r') ->
    rq_method q = GET -> rq_path q = ["v1"; "recordings"; id] ->
    read_response answer = Ok response -> hr_status response = 200 ->
    recording_from_slice (hr_body response) = Some rr ->
    rr_state rr = "open" \/ rr_state rr = "sealed" ->
    exists rec, received_recording r' (rq_origin q) id = Some rec /\ reports rr rec;
  batch_answer : forall r q answer r' id response ack, remote_wf r -> serve r q = (Some answer, r') ->
    batch_request q id -> read_response answer = Ok response -> hr_status response = 200 ->
    ack_from_slice (hr_body response) = Some ack ->
    exists rec, received_recording r' (rq_origin q) id = Some rec /\
      ack_durable_seq ack <= rec_durable_seq rec /\ (ack_state ack = "sealed" -> rec_state rec = "sealed");
  head_answer : forall r q answer r' d response, remote_wf r -> serve r q = (Some answer, r') ->
    rq_method q = HEAD -> rq_path q = ["v1"; "blobs"; d] ->
    read_response answer = Ok response -> hr_status response = 200 ->
    is_Some (received_payload r' (rq_origin q) d);
  put_answer : forall r q answer r' d response, remote_wf r -> serve r q = (Some answer, r') ->
    rq_method q = PUT -> rq_path q = ["v1"; "blobs"; d] ->
    read_response answer = Ok response -> hr_status response = 200 \/ hr_status response = 201 ->
    is_Some (received_payload r' (rq_origin q) d);
}.
