(* ===== verification/Upload.v ===== *)
(** * The uploads of src/upload.rs

    [upload_run], the flush and seal of an active run, [backfill_run] and the
    questions asked about a spool, as procedures on the run's files, its spool
    and the platform.  An operation sees the event log as it is when it starts;
    the times stamped on the batches of one plan are one reading; where the
    uploads of finished and of active runs word the same refusal differently,
    one wording is kept.  A state file is replaced by renaming a new file over
    it: what a killed process leaves besides has a name no reader accepts. *)

From Stdlib Require Import Strings.Byte.
From S2P Require Import Prelude RustStd Proc External Json Input Model ProbePlan Policy Crypto EventLog Manifest Timeline BlobStore Inspect UploadState Platform.
From stdpp Require Import pretty options.
Local Open Scope N_scope.
#[local] Unset Default Proof Using.

Section Upload.
Context {dig : Digest} {hx : Hex} {b64 : Base64} {aead : Aead} {zstd : Zstd} {http : Http}
  {serde : Serde} {serdeb : SerdeBlock} {serdem : SerdeManifest} {serdee : SerdeErasure}
  {serdeu : SerdeUpload} {wire : SerdeWire} {url : UrlCrate} {crates : ClientCrates}
  {platform : Platform} {clock : Clock}.

Notation proc := (Proc.proc World).

(** The token file by its permission bits and its content. *)
Record UploadOptions := mkUploadOptions {
  o_api : Url;
  o_token_file : option (N * bytes);
  o_encryption_key : option EncryptionKey;
  o_allow_http : bool;
  o_retry_for : N;
  o_max_batches : option N;
  o_collector_id : option Uuid;
}.

Record UploadReport := mkUploadReport {
  ur_run_id : string;
  ur_recording_id : string;
  ur_api_origin : string;
  ur_events : N;
  ur_batches : N;
  ur_blobs_considered : N;
  ur_acked_seq : N;
  ur_sealed : bool;
  ur_resumed_from_seq : N;
  ur_collector_id : Uuid;
}.

Record BackfillReport := mkBackfillReport {
  br_run_id : string;
  br_recording_id : string;
  br_requested_first_seq : N;
  br_requested_last_seq : N;
  br_resent_first_seq : N;
  br_resent_last_seq : N;
  br_batches_resent : N;
  br_blobs_repaired : N;
  br_collector_id : Uuid;
}.

(** ** The run and its spool *)

(** The manifest, verified, and the key of the run. *)
Definition open_source (o : UploadOptions) : proc (Manifest * option EncryptionKey) :=
  look (fun w =>
    m ← from_io_message (read_manifest (w_manifest w));
    _ ← from_io_message (verify_authentication m (o_encryption_key o));
    key ← from_io_message (effective_encryption_key m (o_encryption_key o));
    Ok (m, key)).

Definition inspect (o : UploadOptions) (verify_blobs : bool) : proc Inspection :=
  look (fun w => storage_message
    (inspect_run_with_key (w_manifest w) (w_events w) (w_dir w) verify_blobs (o_encryption_key o))).

(** What a [RunEventReader] over the log gives. *)
Definition read_stream (events : option bytes) (run_id : string) (key : option EncryptionKey)
    : result string Stream :=
  r ← storage_message (open_run_reader events run_id key);
  Ok (run_reader_collect (S (N.to_nat (valid_events (re_report r)))) r).

Definition open_stream (run_id : string) (key : option EncryptionKey) : proc Stream :=
  look (fun w => read_stream (w_events w) run_id key).

Definition spool (w : World) : Spool := default ∅ (w_spool w).

Definition prepare_spool : proc unit :=
  update (fun w => Ok (w <| w_spool := Some (spool w) |>)).

(** The lock file is created if it is not there. *)
Definition lock_state : proc unit :=
  update (fun w => Ok (w <| w_spool := Some (match spool w !! "upload.lock" with
                                             | Some _ => spool w
                                             | None => <["upload.lock" := []]> (spool w) end) |>));;
  look (fun w => ensure (negb (w_locked w)) "Resource temporarily unavailable").

Definition save (path : string) (s : UploadState) : proc unit :=
  update (fun w => files ← write_state (spool w) path s; Ok (w <| w_spool := Some files |>)).

Definition load_or_create_state (c : SegmentCursor) (run_id api_origin : string) (target_seq : N)
    : proc UploadState :=
  created_at ← utc_now;
  updated_at ← utc_now;
  state ← look (fun w => load_or_new (spool w) (cu_path c) run_id (cu_recording_id c) api_origin
                           (cu_segment_no c) (cu_first_seq c) target_seq created_at updated_at);
  save (cu_path c) state;;
  mret state.

(** [extend_state_to] on the log of the run. *)
Definition extend_state (s : UploadState) (key : option EncryptionKey) (target_seq : N)
    : proc UploadState :=
  if planned_sequence s =? target_seq then mret s
  else
    reader ← open_stream (us_run_id s) key;
    now ← utc_now;
    lift (extend_state_to s reader target_seq now).

(** ** A session with the platform *)

Record Session := mkSession {
  ss_client : PlatformClient;
  ss_registration : RegisterResponse;
  ss_rejected_config : Value;
  ss_manifest : Manifest;
  ss_key : option EncryptionKey;
  ss_api_origin : string;
}.

Definition run_id_of (x : Session) : string := m_run_id (ss_manifest x).

Definition use_collector (o : UploadOptions) (s : UploadState) : UploadState :=
  match o_collector_id o with Some id => s <| us_collector_id := Some id |> | None => s end.

Definition read_token_file (o : UploadOptions) : result string string :=
  '(mode, content) ← ok_or (o_token_file o) "No such file or directory";
  read_token mode content.

Definition connect (o : UploadOptions) (m : Manifest) (key : option EncryptionKey)
    (api_origin : string) (collector_id : option Uuid) : proc Session :=
  token ← lift (read_token_file o);
  client ← lift (new_client api_origin token (o_retry_for o));
  '(registration, client) ← register client m collector_id;
  rejected_config ← lift (config_rejections (rg_config registration) m);
  mret (mkSession client registration rejected_config m key api_origin).

(** The registration is noted in the state. *)
Definition stamp (x : Session) (now : DateTime) (s : UploadState) : UploadState :=
  s <| us_collector_id := Some (rg_collector_id (ss_registration x)) |>
    <| us_config_version := rg_config_version (ss_registration x) |> <| us_updated_at := now |>.

Definition declare_recording (x : Session) (c : SegmentCursor) (s : UploadState)
    : proc UploadState :=
  create_recording (ss_client x) (ss_manifest x) (cu_recording_id c) (cu_segment_no c)
    (sat_sub (cu_first_seq c) 1);;
  remote ← get_recording (ss_client x) (cu_recording_id c);
  now ← utc_now;
  s ← lift (reconcile_remote s remote now);
  save (cu_path c) s;;
  mret s.

(** One iteration of the loop over the segments, for uploads up to [target]. *)
Definition next_open_segment (x : Session) (target : N) (at_segment : SegmentCursor * UploadState)
    : proc ((SegmentCursor * UploadState) + (SegmentCursor * UploadState)) :=
  let '(c, s) := at_segment in
  s ← declare_recording x c s;
  let planned_seq := planned_sequence s in
  if negb (us_sealed s) || (planned_seq =? target) then mret (inr (c, s))
  else
    lift (ensure (planned_seq <? target) "sealed upload segment exceeds the upload boundary");;
    '(segment_no, first_seq) ← lift (next_segment (us_segment_no s) planned_seq);
    let c := segment_cursor (ss_api_origin x) (run_id_of x) segment_no first_seq in
    s ← load_or_create_state c (run_id_of x) (ss_api_origin x) target;
    now ← utc_now;
    let s := stamp x now s in
    save (cu_path c) s;;
    mret (inl (c, s)).

(** From the selected segment to a state planned up to [target]. *)
Definition plan_upload (x : Session) (target : N) (c : SegmentCursor) (s : UploadState)
    : proc (SegmentCursor * UploadState) :=
  now ← utc_now;
  let s := stamp x now s in
  save (cu_path c) s;;
  '(c, s) ← repeat_until (next_open_segment x target) (c, s);
  s ← (if us_sealed s then
         lift (ensure (planned_sequence s =? target)
                 "sealed upload segment does not cover the upload boundary");;
         mret s
       else extend_state s (ss_key x) target);
  lift (validate_state s (run_id_of x) (cu_recording_id c) (ss_api_origin x) target);;
  save (cu_path c) s;;
  mret (c, s).

(** ** Sending the batches *)

(** The variables of the loop over the batches. *)
Record Sending := mkSending {
  sn_state : UploadState;
  sn_reader : Stream;
  sn_uploaded_blobs : gset string;
  sn_batches_uploaded : N;
  sn_last_heartbeat : N;
  sn_stopped : bool;
}.

#[export] Instance Sending_settable : Settable Sending := fun a =>
  mkSending (sn_state a) (sn_reader a) (sn_uploaded_blobs a) (sn_batches_uploaded a)
    (sn_last_heartbeat a) (sn_stopped a).

Definition send_heartbeat (x : Session) (s : UploadState) (final_seq : N) : proc unit :=
  heartbeat (ss_client x) (rg_collector_id (ss_registration x)) s (ss_manifest x) final_seq
    (ss_rejected_config x).

Definition heartbeat_if_due (x : Session) (target : N) (a : Sending) : proc Sending :=
  e ← elapsed (sn_last_heartbeat a);
  if HEARTBEAT_INTERVAL <=? e then
    send_heartbeat x (sn_state a) target;;
    now ← instant_now;
    mret (a <| sn_last_heartbeat := now |>)
  else mret a.

(** The payloads of a batch, those not sent before. *)
Definition send_blobs (x : Session) (force : bool) (sent : gset string) (batch : BatchPlan)
    : proc (gset string) :=
  fold_proc (fun sent blob =>
    if decide (bp_sha256 blob ∈ sent) then mret sent
    else
      ensure_blob (ss_client x) blob (ss_key x) force;;
      mret ({[ bp_sha256 blob ]} ∪ sent)) sent (ba_blobs batch).

(** The state after an acknowledgement; only the upload of a finished run takes
    the platform's word on the seal. *)
Definition acknowledge (final : bool) (target : N) (ack : BatchAck) (now : DateTime) (s : UploadState)
    : UploadState :=
  let s := s <| us_acked_seq := ack_durable_seq ack |> <| us_updated_at := now |> in
  if final
  then s <| us_sealed := str_eqb (ack_state ack) "sealed" && (ack_durable_seq ack =? target) |>
  else s.

(** A batch that is not acknowledged, with its lines. *)
Definition post_batch (x : Session) (o : UploadOptions) (final : bool) (target : N) (path : string)
    (a : Sending) (batch : BatchPlan) (raw : bytes) : proc Sending :=
  let s := sn_state a in
  sent ← send_blobs x false (sn_uploaded_blobs a) batch;
  body ← lift (encode_batch_body (us_recording_id s) batch raw);
  ack ← upload_batch (ss_client x) (us_recording_id s) batch body;
  lift (validate_ack s batch ack);;
  now ← utc_now;
  let s := acknowledge final target ack now s in
  save path s;;
  let count := sn_batches_uploaded a + 1 in
  mret (a <| sn_state := s |> <| sn_uploaded_blobs := sent |> <| sn_batches_uploaded := count |>
          <| sn_stopped := match o_max_batches o with
                           | Some maximum => maximum <=? count
                           | None => false
                           end |>).

Definition send_batch (x : Session) (o : UploadOptions) (final : bool) (target : N) (path : string)
    (a : Sending) (batch : BatchPlan) : proc Sending :=
  if sn_stopped a then mret a
  else
    a ← heartbeat_if_due x target a;
    '(raw, reader) ← lift (read_batch (sn_reader a) batch);
    let a := a <| sn_reader := reader |> in
    if ba_last_seq batch <=? us_acked_seq (sn_state a) then mret a
    else post_batch x o final target path a batch raw.

Definition send_batches (x : Session) (o : UploadOptions) (final : bool) (target : N) (path : string)
    (s : UploadState) : proc Sending :=
  reader ← open_stream (run_id_of x) (ss_key x);
  started ← instant_now;
  fold_proc (send_batch x o final target path) (mkSending s reader ∅ 0 started false) (us_batches s).

Definition report (x : Session) (s : UploadState) (blobs : gset string) (events resumed : N)
    (sealed : bool) : UploadReport :=
  mkUploadReport (us_run_id s) (us_recording_id s) (us_api_origin s) events (nlen (us_batches s))
    (N.of_nat (size blobs)) (us_acked_seq s) sealed resumed (rg_collector_id (ss_registration x)).

(** The platform is asked to seal the segment and to confirm it. *)
Definition seal_segment (x : Session) (path : string) (s : UploadState) (target : N) (run_final : bool)
    : proc UploadState :=
  seal_recording (ss_client x) (us_recording_id s) target (ss_manifest x) run_final;;
  remote ← get_recording (ss_client x) (us_recording_id s);
  lift (ensure (str_eqb (rr_state remote) "sealed" && (rr_durable_seq remote =? target))
          "platform did not confirm a fully durable sealed recording");;
  lift (ensure (bool_decide (rr_final_seq remote = Some target))
          "platform sealed recording has an unexpected final sequence");;
  now ← utc_now;
  let s := s <| us_acked_seq := rr_durable_seq remote |> <| us_sealed := true |> <| us_updated_at := now |> in
  save path s;;
  mret s.

(** ** The uploads *)

(** What the inspection of a finished run must show. *)
Definition uploadable_run (i : Inspection) : result string unit :=
  ensure (negb (str_eqb (m_status (in_manifest i)) "running"))
    "refusing to upload a run that is still being recorded";;
  ensure (discarded_tail_bytes (in_log i) =? 0)
    "run has an incomplete event tail; run iorec recover first";;
  ensure (no_strings (in_missing_blobs i)) "run references missing blobs";;
  ensure (no_strings (in_corrupt_blobs i)) "run contains corrupt blobs";;
  ensure (0 <? valid_events (in_log i)) "run contains no events";;
  ensure (valid_events (in_log i) <=? MAX_PLATFORM_SEQUENCE)
    "run event sequence exceeds the platform protocol limit".

(** The end of [upload_run]: a seal when everything is acknowledged. *)
Definition finish_upload (x : Session) (path : string) (final_seq resumed : N) (a : Sending)
    : proc UploadReport :=
  let s := sn_state a in
  if us_acked_seq s <? final_seq then
    send_heartbeat x s final_seq;;
    mret (report x s (sn_uploaded_blobs a) final_seq resumed false)
  else
    lift (ensure (match sn_reader a with [] => true | _ => false end)
            "upload batch plan does not consume the full event log");;
    lift (ensure (us_acked_seq s =? final_seq) "platform acknowledged an unexpected sequence");;
    s ← seal_segment x path s final_seq true;
    send_heartbeat x s final_seq;;
    mret (report x s (sn_uploaded_blobs a) final_seq resumed (us_sealed s)).

Definition upload_run (o : UploadOptions) : proc UploadReport :=
  lift (validate_api (o_api o) (o_allow_http o));;
  let api_origin := canonical_origin (o_api o) in
  '(_, effective_key) ← open_source o;
  inspection ← inspect o true;
  lift (uploadable_run inspection);;
  let m := in_manifest inspection in
  let final_seq := valid_events (in_log inspection) in
  prepare_spool;;
  lock_state;;
  '(_, c) ← look (fun w => select_segment_cursor (spool w) api_origin (m_run_id m) final_seq);
  s ← load_or_create_state c (m_run_id m) api_origin final_seq;
  _ ← lift (validate_state_prefix s (m_run_id m) (cu_recording_id c) api_origin final_seq);
  let s := use_collector o s in
  x ← connect o m effective_key api_origin (us_collector_id s);
  '(c, s) ← plan_upload x final_seq c s;
  a ← send_batches x o true final_seq (cu_path c) s;
  finish_upload x (cu_path c) final_seq (us_acked_seq s) a.

(** The segment of a request for an active run. *)
Definition active_cursor (m : Manifest) (key : option EncryptionKey) (api_origin : string)
    (durable_boundary : N) (expected_recording_id : option string) : proc SegmentCursor :=
  look (fun w =>
    '(_, c) ← match expected_recording_id with
      | Some expected =>
          '(recovery, _) ← storage_message (recover_events_with_key (w_events w) false key);
          select_expected_segment_cursor (spool w) api_origin (m_run_id m) expected durable_boundary
            (valid_events recovery)
      | None => select_segment_cursor (spool w) api_origin (m_run_id m) durable_boundary
      end;
    Ok c).

Definition upload_active_segment (durable_boundary : N) (o : UploadOptions) (seal : bool)
    (expected_recording_id : option string) : proc UploadReport :=
  lift (ensure (0 <? durable_boundary) "active run has no durable events to flush");;
  lift (ensure (durable_boundary <=? MAX_PLATFORM_SEQUENCE)
          "active durable boundary exceeds the platform protocol limit");;
  lift (validate_api (o_api o) (o_allow_http o));;
  let api_origin := canonical_origin (o_api o) in
  '(m, effective_key) ← open_source o;
  lift (ensure (str_eqb (m_status m) "running"
                || match expected_recording_id with Some _ => true | None => false end)
          "active flush requires a running run or a persisted collector request boundary");;
  prepare_spool;;
  lock_state;;
  c ← active_cursor m effective_key api_origin durable_boundary expected_recording_id;
  s ← load_or_create_state c (m_run_id m) api_origin durable_boundary;
  let s := use_collector o s in
  x ← connect o m effective_key api_origin (us_collector_id s);
  '(c, s) ← plan_upload x durable_boundary c s;
  let resumed := us_acked_seq s in
  a ← send_batches x o false durable_boundary (cu_path c) s;
  let s := sn_state a in
  lift (ensure (us_acked_seq s <=? durable_boundary)
          "platform durable sequence exceeds the active flush boundary");;
  s ← (if seal && (us_acked_seq s =? durable_boundary)
       then seal_segment x (cu_path c) s durable_boundary false else mret s);
  send_heartbeat x s durable_boundary;;
  mret (report x s (sn_uploaded_blobs a) durable_boundary resumed (us_sealed s)).

Definition flush_active_run (durable_boundary : N) (o : UploadOptions) : proc UploadReport :=
  upload_active_segment durable_boundary o false None.
Definition flush_active_run_for (durable_boundary : N) (expected_recording_id : string)
    (o : UploadOptions) : proc UploadReport :=
  upload_active_segment durable_boundary o false (Some expected_recording_id).
Definition seal_active_run (durable_boundary : N) (o : UploadOptions) : proc UploadReport :=
  upload_active_segment durable_boundary o true None.
Definition seal_active_run_for (durable_boundary : N) (expected_recording_id : string)
    (o : UploadOptions) : proc UploadReport :=
  upload_active_segment durable_boundary o true (Some expected_recording_id).

(** ** Backfill *)

(** How much of the log a backfill may count on. *)
Definition backfill_available (o : UploadOptions) (m : Manifest) (last_seq : N) : proc N :=
  if str_eqb (m_status m) "running" then mret u64_max
  else
    i ← inspect o true;
    lift (ensure ((discarded_tail_bytes (in_log i) =? 0) && no_strings (in_missing_blobs i)
                  && no_strings (in_corrupt_blobs i))
            "backfill requires complete authenticated local evidence");;
    lift (ensure (last_seq <=? valid_events (in_log i)) "backfill range exceeds local evidence");;
    mret (valid_events (in_log i)).

Definition intersects (first_seq last_seq : N) (batch : BatchPlan) : bool :=
  (ba_first_seq batch <=? last_seq) && (first_seq <=? ba_last_seq batch).

(** The batches to send again, and the range they cover. *)
Definition select_batches (s : UploadState) (first_seq last_seq : N)
    : result string (list BatchPlan * N * N) :=
  let selected := List.filter (intersects first_seq last_seq) (us_batches s) in
  ensure (negb (bool_decide (selected = []))) "backfill range selects no local batch";;
  let resent_first_seq := match head selected with Some batch => ba_first_seq batch | None => 0 end in
  let resent_last_seq := match last selected with Some batch => ba_last_seq batch | None => 0 end in
  ensure ((resent_first_seq <=? first_seq) && (last_seq <=? resent_last_seq))
    "backfill range is not covered by fixed local batches";;
  Ok (selected, resent_first_seq, resent_last_seq).

(** One batch of the segment: the reader, the payloads and the number of
    batches sent so far. *)
Definition resend_batch (x : Session) (s : UploadState) (selected : list (N * N))
    (acc : Stream * gset string * N) (batch : BatchPlan) : proc (Stream * gset string * N) :=
  let '(reader, repaired, resent) := acc in
  '(raw, reader) ← lift (read_batch reader batch);
  if decide ((ba_first_seq batch, ba_last_seq batch) ∈ selected) then
    repaired ← send_blobs x true repaired batch;
    body ← lift (encode_batch_body (us_recording_id s) batch raw);
    ack ← upload_batch (ss_client x) (us_recording_id s) batch body;
    lift (validate_ack s batch ack);;
    mret (reader, repaired, resent + 1)
  else mret (reader, repaired, resent).

Definition backfill_run (expected_recording_id : string) (first_seq last_seq : N) (o : UploadOptions)
    : proc BackfillReport :=
  lift (ensure ((0 <? first_seq) && (first_seq <=? last_seq) && (last_seq <=? MAX_PLATFORM_SEQUENCE))
          "backfill sequence range is invalid");;
  lift (validate_api (o_api o) (o_allow_http o));;
  let api_origin := canonical_origin (o_api o) in
  '(m, effective_key) ← open_source o;
  available_seq ← backfill_available o m last_seq;
  prepare_spool;;
  lock_state;;
  segments ← look (fun w => load_segment_chain (spool w) api_origin (m_run_id m) available_seq);
  item ← lift (ok_or (List.find (fun item => str_eqb (us_recording_id (sg_state item)) expected_recording_id)
                        segments) "backfill recording ID has no authenticated local upload state");
  let s := sg_state item in
  lift (ensure ((us_first_seq s <=? first_seq) && (last_seq <=? sg_planned_seq item))
          "backfill range exceeds the selected recording segment");;
  let s := use_collector o s in
  x ← connect o m effective_key api_origin (us_collector_id s);
  let s := stamp x (us_updated_at s) s in
  s ← declare_recording x
        (mkSegmentCursor (sg_path item) (us_recording_id s) (us_segment_no s) (us_first_seq s)) s;
  '(selected, resent_first_seq, resent_last_seq) ← lift (select_batches s first_seq last_seq);
  reader ← open_stream (m_run_id m) effective_key;
  '(_, repaired, resent) ←
    fold_proc (resend_batch x s ((fun batch => (ba_first_seq batch, ba_last_seq batch)) <$> selected))
      (reader, ∅, 0) (us_batches s);
  lift (ensure (resent =? nlen selected) "backfill did not resend every selected batch");;
  send_heartbeat x s (sg_planned_seq item);;
  mret (mkBackfillReport (m_run_id m) expected_recording_id first_seq last_seq resent_first_seq
          resent_last_seq resent (N.of_nat (size repaired)) (rg_collector_id (ss_registration x))).

(** ** Questions about a spool *)

(** Whether the current segment of an active run is to be sealed, at time [now]. *)
Definition active_segment_roll_due (w : World) (durable_boundary : N) (o : UploadOptions)
    (max_logical_bytes max_age : N) (now : DateTime) : result string bool :=
  ensure (0 <? max_logical_bytes) "recording segment byte limit is zero";;
  ensure (0 <? max_age) "recording segment age limit is zero";;
  if durable_boundary =? 0 then Ok false
  else
    ensure (durable_boundary <=? MAX_PLATFORM_SEQUENCE)
      "active durable boundary exceeds the platform protocol limit";;
    validate_api (o_api o) (o_allow_http o);;
    m ← from_io_message (read_manifest (w_manifest w));
    _ ← from_io_message (verify_authentication m (o_encryption_key o));
    ensure (str_eqb (m_status m) "running") "recording segment roll check requires an active run";;
    key ← from_io_message (effective_encryption_key m (o_encryption_key o));
    states ← match w_spool w with
             | Some files => load_segment_chain files (canonical_origin (o_api o)) (m_run_id m) durable_boundary
             | None => Ok []
             end;
    if match last states with
       | Some item => us_sealed (sg_state item) && (sg_planned_seq item =? durable_boundary)
       | None => false
       end
    then Ok false
    else
      '(first_seq, planned_seq, opened_at, plans) ←
        match last states with
        | Some item =>
            let s := sg_state item in
            if us_sealed s then
              first_seq ← ok_or (checked_add (sg_planned_seq item) 1) "upload sequence overflow";
              Ok (first_seq, sg_planned_seq item, us_updated_at s, [])
            else Ok (us_first_seq s, sg_planned_seq item, us_created_at s, us_batches s)
        | None => Ok (1, 0, m_started_at m, [])
        end;
      ensure ((first_seq <=? durable_boundary) && (planned_seq <=? durable_boundary))
        "active recording segment boundary precedes its first event";;
      plans ← (if planned_seq <? durable_boundary then
                 next ← ok_or (checked_add planned_seq 1) "upload sequence overflow";
                 reader ← read_stream (w_events w) (m_run_id m) key;
                 additional ← build_batch_plans_range reader next durable_boundary
                                (ba_sha256 <$> last plans) now;
                 Ok (plans ++ additional)
               else Ok plans);
      ensure (match head plans with Some batch => ba_first_seq batch =? first_seq | None => false end
              && match last plans with Some batch => ba_last_seq batch =? durable_boundary | None => false end)
        "active recording segment plan does not cover its durable range";;
      logical_bytes ← segment_logical_bytes plans;
      let age := Z.to_N (Z.max 0 (now - opened_at)) in
      Ok ((max_logical_bytes <=? logical_bytes) || (max_age <=? age)).

Definition active_recording_id_at_boundary (w : World) (durable_boundary : N) (o : UploadOptions)
    : result string string :=
  ensure (0 <? durable_boundary) "active durable boundary is empty";;
  ensure (durable_boundary <=? MAX_PLATFORM_SEQUENCE)
    "active durable boundary exceeds the platform protocol limit";;
  validate_api (o_api o) (o_allow_http o);;
  m ← from_io_message (read_manifest (w_manifest w));
  _ ← from_io_message (verify_authentication m (o_encryption_key o));
  match w_spool w with
  | None => Ok (recording_id_for_segment (m_run_id m) 0)
  | Some files =>
      '(_, c) ← select_segment_cursor files (canonical_origin (o_api o)) (m_run_id m) durable_boundary;
      Ok (cu_recording_id c)
  end.

Definition upload_complete_for (w : World) (o : UploadOptions) : result string bool :=
  validate_api (o_api o) (o_allow_http o);;
  m ← from_io_message (read_manifest (w_manifest w));
  _ ← from_io_message (verify_authentication m (o_encryption_key o));
  i ← storage_message (inspect_run_with_key (w_manifest w) (w_events w) (w_dir w) false (o_encryption_key o));
  if str_eqb (m_status (in_manifest i)) "running" || negb (discarded_tail_bytes (in_log i) =? 0)
  then Ok false
  else match w_spool w with
  | None => Ok false
  | Some files =>
      states ← load_segment_chain files (canonical_origin (o_api o)) (m_run_id (in_manifest i))
                 (valid_events (in_log i));
      if bool_decide (nlen states = 0) then Ok false
      else Ok (segment_chain_complete states (valid_events (in_log i)))
  end.
End Upload.
