(* ===== verification/UploadSpec.v ===== *)
(** * Theorems about uploads

    What the platform documents, as laws; the invariant of the spool and of the
    platform that every step of every upload keeps, also when the process is
    killed; and what follows where the retention gate opens. *)

From Stdlib Require Import Strings.Byte.
From S2P Require Import Prelude RustStd Proc External Json Input Model ProbePlan Policy Crypto EventLog EventLogSpec Manifest Timeline BlobStore BlobStoreSpec Inspect UploadState UploadStateSpec Platform Upload.
From stdpp Require Import pretty options.
Local Open Scope N_scope.
#[local] Unset Default Proof Using.

Section Plans.
Context {dig : Digest} {hx : Hex} {zstd : Zstd} {serde : Serde} {serdeu : SerdeUpload} {url : UrlCrate}.

(** ** Plans and the log *)

Lemma event_range_app_l first last es es' : 0 < first ->
  nlen (event_range first last es) = last + 1 - first ->
  event_range first last (es ++ es') = event_range first last es.
Proof.
  intros Hf Hn. unfold event_range in *. destruct (decide (last + 1 <= first)) as [H|H].
  { replace (N.to_nat (last + 1 - first)) with 0%nat by lia. by rewrite !take_0. }
  unfold nlen in Hn. rewrite length_take, length_drop in Hn.
  rewrite drop_app_le by lia. rewrite take_app_le; [done|]. rewrite length_drop. lia.
Qed.

Lemma plans_log_app es es' s : plans_log es s -> plans_log (es ++ es') s.
Proof.
  intros [Hf (groups & Hp & Hc & Hn)]. split; [done|]. exists groups. split; [done|]. split; [|done].
  rewrite event_range_app_l; [done..|]. by rewrite <-Hc.
Qed.

(** A batch of a plan and the events it stands for. *)
Record batch_of (es : list EventEnvelope) (b : BatchPlan) : Prop := {
  bo_range : 0 < ba_first_seq b <= ba_last_seq b;
  bo_full : nlen (event_range (ba_first_seq b) (ba_last_seq b) es) = ba_last_seq b + 1 - ba_first_seq b;
  bo_plan : exists previous, plan_for previous (event_range (ba_first_seq b) (ba_last_seq b) es) b;
}.

Lemma app_inv_length {A} (l1 l2 k1 k2 : list A) : l1 ++ l2 = k1 ++ k2 -> nlen l1 = nlen k1 ->
  l1 = k1 /\ l2 = k2.
Proof. intros H Hn. apply app_inj_1; [|done]. unfold nlen in Hn. lia. Qed.

Lemma plans_for_batches es previous groups batches first last : sequenced 0 es -> 0 < first ->
  plans_for previous groups batches -> concat groups = event_range first last es ->
  nlen (concat groups) = last + 1 - first ->
  Forall (fun b => batch_of es b /\ first <= ba_first_seq b /\ ba_last_seq b <= last) batches.
Proof.
  intros Hs. revert previous batches first.
  induction groups as [|g groups IH]; intros previous [|b batches] first Hf Hp Hc Hn; try done.
  destruct Hp as [Hg Hp]. cbn [concat] in *. rewrite nlen_app in Hn.
  pose proof Hg as [(e1 & He1 & Hb1) (e2 & He2 & Hb2) _ _ _ _ _].
  assert (0 < nlen g) as Hpos by (destruct g; [done|rewrite nlen_cons; lia]).
  pose (middle := first + nlen g - 1).
  assert (first <= middle + 1 /\ middle <= last) as [Hm1 Hm2] by (subst middle; lia).
  rewrite <-(event_range_app first middle last es) in Hc by lia.
  pose proof (sequenced_range first last es Hs Hf) as Hseq.
  rewrite <-(event_range_app first middle last es), <-Hc in Hseq by lia.
  apply sequenced_app in Hseq as [Hseq _].
  destruct (sequenced_ends _ _ _ _ Hseq He1 He2) as [H1 H2].
  assert (nlen (event_range first middle es) <= nlen g) as Hle.
  { unfold event_range, nlen in *. rewrite length_take. subst middle. lia. }
  assert (nlen (event_range (middle + 1) last es) <= nlen (concat groups)) as Hle'.
  { unfold event_range, nlen in *. rewrite length_take. subst middle. lia. }
  assert (nlen g + nlen (concat groups)
    = nlen (event_range first middle es) + nlen (event_range (middle + 1) last es)) as Hsum
    by (rewrite <-!nlen_app; by rewrite Hc).
  destruct (app_inv_length _ _ _ _ Hc ltac:(lia)) as [Hg' Hrest].
  assert (ba_first_seq b = first /\ ba_last_seq b = middle) as [Hfb Hlb] by (subst middle; lia).
  constructor.
  - split; [|lia]. split; rewrite Hfb, Hlb; [lia|rewrite <-Hg'; subst middle; lia|].
    exists previous. by rewrite <-Hg'.
  - eapply Forall_impl; [apply (IH _ _ (middle + 1) ltac:(lia) Hp Hrest); lia|].
    intros c (Hc1 & Hc2 & Hc3). split; [done|]. lia.
Qed.

Lemma plans_log_batches es s : sequenced 0 es -> plans_log es s ->
  Forall (fun b => batch_of es b /\ us_first_seq s <= ba_first_seq b /\ ba_last_seq b <= planned_sequence s)
    (us_batches s).
Proof. intros Hs [Hf (groups & Hp & Hc & Hn)]. by eapply plans_for_batches. Qed.

(** ** What reading a batch gives, from any point of the log *)

Lemma next_from_sound k es expected e rest : sequenced k es ->
  next_from expected (stream es) = Ok (e, rest) ->
  exists skip es', es = skip ++ e :: es' /\ rest = stream es'.
Proof.
  revert k. induction es as [|x es IH]; intros k Hs H; [done|].
  cbn [stream map next_from storage_message map_err mbind result_bind] in H.
  destruct Hs as (_ & _ & Hs). destruct (expected <=? ev_sequence x).
  - injection H as <- <-. by exists [], es.
  - destruct (IH _ Hs H) as (skip & es' & -> & ->). by exists (x :: skip), es'.
Qed.

Lemma read_events_sound count : forall k es expected raw raw' rest, sequenced k es ->
  read_events count expected raw (stream es) = Ok (raw', rest) -> (0 < count)%nat ->
  exists skip g es' lines, es = skip ++ g ++ es' /\ rest = stream es' /\ length g = count /\
    k + nlen skip + 1 = expected /\ try_map event_line g = Ok lines /\ raw' = raw ++ concat lines.
Proof.
  induction count as [|count IH]; intros k es expected raw raw' rest Hs H Hpos; [lia|].
  cbn [read_events] in H. apply bind_ok in H as ([e st] & He & H). peel H.
  apply bind_ok in H as (line & Hline & H). reflect_N.
  destruct (next_from_sound _ _ _ _ _ Hs He) as (skip & es1 & -> & ->).
  pose proof Hs as Hs'. apply sequenced_app in Hs' as [_ (Hseq & _ & Hs')].
  destruct count as [|count].
  - cbn [read_events] in H. injection H as <- <-. exists skip, [e], es1, [line].
    cbn [try_map concat]. rewrite Hline. cbn [mbind result_bind]. rewrite app_nil_r.
    split_and!; try done. lia.
  - destruct (IH _ _ _ _ _ _ Hs' H ltac:(lia)) as (skip' & g & es' & lines & -> & -> & Hlen & Hexp & Hl & ->).
    assert (skip' = []) as -> by (apply nlen_0; lia).
    exists skip, (e :: g), es', (line :: lines). cbn [try_map concat app length]. rewrite Hline, Hl.
    cbn [mbind result_bind]. rewrite app_assoc. split_and!; try done; [by rewrite Hlen|lia].
Qed.

(** From any point of the log, a planned batch is read as its events. *)
Lemma read_batch_sound es k b raw rest : sequenced 0 es -> batch_of es b ->
  read_batch (stream (drop k es)) b = Ok (raw, rest) ->
  ndjson (event_range (ba_first_seq b) (ba_last_seq b) es) = Ok raw /\
  exists k', rest = stream (drop k' es).
Proof.
  intros Hs [Hr Hn _] H. unfold read_batch in H. apply bind_ok in H as ([raw1 st] & H & H').
  peel H'. peel H'. injection H' as <- <-.
  destruct (decide (k <= length es)%nat) as [Hk|Hk].
  2: { exfalso. rewrite drop_ge in H by lia. replace (N.to_nat _) with
         (S (N.to_nat (ba_last_seq b - ba_first_seq b))) in H by lia. done. }
  assert (sequenced (N.of_nat k) (drop k es)) as Hsk.
  { pose proof Hs as Hs'. rewrite <-(take_drop k es) in Hs'. apply sequenced_app in Hs' as [_ Hs'].
    unfold nlen in Hs'. rewrite length_take_le in Hs' by lia. by rewrite N.add_0_l in Hs'. }
  destruct (read_events_sound _ _ _ _ _ _ _ Hsk H ltac:(lia))
    as (skip & g & es' & lines & Hes & -> & Hlen & Hexp & Hl & ->).
  assert (drop (length skip) (drop k es) = g ++ es') as Hg by (by rewrite Hes, drop_app_length).
  rewrite drop_drop in Hg. split.
  - unfold event_range. replace (N.to_nat (ba_first_seq b - 1)) with (k + length skip)%nat
      by (unfold nlen in Hexp; lia).
    rewrite Hg, take_app_length' by lia. unfold ndjson. rewrite Hl. done.
  - exists (length g + (k + length skip))%nat.
    replace (length g + (k + length skip))%nat with ((k + length skip) + length g)%nat by lia.
    by rewrite <-drop_drop, Hg, drop_app_length.
Qed.

(** ** No sensitive payload is planned *)

Lemma plan_for_ordinary previous g b : plan_for previous g b ->
  Forall (fun blob => exists e r, e ∈ g /\ ev_raw e = Some r /\ plan_of r blob) (ba_blobs b).
Proof.
  intros [_ _ _ _ _ (blobs & Hb & ->) _]. destruct (blob_plans_exact _ _ Hb) as [Hf _].
  apply Forall_fmap. eapply Forall_impl; [exact Hf|]. by intros [sha blob] [_ H].
Qed.

Lemma filter_all {A} (f : A -> bool) l : Forall (fun x => f x = true) l -> List.filter f l = l.
Proof. induction 1 as [|x l Hx _ IH]; [done|]. cbn. by rewrite Hx, IH. Qed.

Lemma plans_log_omit es s : sequenced 0 es -> plans_log es s -> omit_sensitive_blob_plans s = s.
Proof.
  intros Hs Hp. pose proof (plans_log_batches _ _ Hs Hp) as Hb.
  assert (omit_blobs <$> us_batches s = us_batches s) as Heq.
  { induction Hb as [|b l ([_ _ (previous & Hpl)] & _) _ IH]; [done|].
    rewrite fmap_cons, IH. f_equal. unfold omit_blobs. cbn [set_field].
    rewrite filter_all; [by destruct b|]. eapply Forall_impl; [by eapply plan_for_ordinary|].
    intros blob (e & r & _ & _ & Hn & _ & _ & Hm). cbn. by rewrite Hm, Hn. }
  unfold omit_sensitive_blob_plans. destruct s; cbn in *. by rewrite Heq.
Qed.
End Plans.

(** ** The invariant *)

(** A later state of the platform has received at least as much. *)
Record advances {platform : Platform} {view : PlatformView} (r r' : Remote) : Prop := {
  adv_recording : forall o id rec, received_recording r o id = Some rec ->
    exists rec', received_recording r' o id = Some rec' /\ extends_recording rec rec';
  adv_payload : forall o d, is_Some (received_payload r o d) -> is_Some (received_payload r' o d);
}.

Section Invariant.
Context {dig : Digest} {hx : Hex} {b64 : Base64} {aead : Aead} {zstd : Zstd} {http : Http}
  {serde : Serde} {serdeb : SerdeBlock} {serdem : SerdeManifest} {serdee : SerdeErasure}
  {serdeu : SerdeUpload} {wire : SerdeWire} {url : UrlCrate} {crates : ClientCrates}
  {platform : Platform} {clock : Clock} {view : PlatformView} {laws : PlatformLaws}
  {serdelaws : SerdeUploadLaws}.

(** A run: its manifest file, its ID, its log and the events in it. *)
Context (manifest events : option bytes) (run_id : string) (es : list EventEnvelope).

(** The reference names a payload that is uploaded. *)
Definition ordinary (r : PayloadRef) (d : string) : Prop :=
  is_sensitive_upload_media_type (ref_media_type r) = false /\
  str_strip_prefix "sha256:" (ref_sha256 r) = Some d.

(** The payloads of a range of the log were received at the origin. *)
Definition received_payloads (r : Remote) (o : string) (first last : N) : Prop :=
  forall e ref d, e ∈ event_range first last es -> ev_raw e = Some ref -> ordinary ref d ->
    is_Some (received_payload r o d).

(** A batch the platform received is a range of the log, with its payloads. *)
Record held_ok (r : Remote) (o : string) (b : Held) : Prop := {
  ho_range : 0 < hd_first_seq b <= hd_last_seq b;
  ho_full : nlen (event_range (hd_first_seq b) (hd_last_seq b) es) = hd_last_seq b + 1 - hd_first_seq b;
  ho_raw : ndjson (event_range (hd_first_seq b) (hd_last_seq b) es) = Ok (hd_raw b);
  ho_payloads : received_payloads r o (hd_first_seq b) (hd_last_seq b);
}.

(** The platform has received what a state says is acknowledged. *)
Record acked_at (r : Remote) (s : UploadState) : Prop := {
  ak_acked : us_first_seq s <= us_acked_seq s ->
    exists rec, received_recording r (us_api_origin s) (us_recording_id s) = Some rec /\
      rec_sequence_base rec = us_first_seq s - 1 /\ us_acked_seq s <= rec_durable_seq rec;
  ak_sealed : us_sealed s = true ->
    exists rec, received_recording r (us_api_origin s) (us_recording_id s) = Some rec /\ rec_state rec = "sealed";
}.

Definition good (r : Remote) (s : UploadState) : Prop := plans_log es s /\ acked_at r s.

(** Nothing is imported. *)
Definition request_ok (q : Request) : Prop := rq_path q <> IMPORT_PATH.

Record inv (w : World) : Prop := {
  iv_manifest : w_manifest w = manifest;
  iv_events : w_events w = events;
  iv_wf : remote_wf (w_remote w);
  iv_remote : forall o k rec b,
    received_recording (w_remote w) o (recording_id_for_segment run_id k) = Some rec ->
    b ∈ rec_batches rec -> held_ok (w_remote w) o b;
  iv_spool : forall path s, parse_state (spool w) path = Ok s -> good (w_remote w) s;
}.

Lemma serve_advances r q answer r' : remote_wf r -> serve r q = (answer, r') -> advances r r'.
Proof.
  intros Hwf Hs. split; intros.
  - by eapply serve_keeps.
  - by eapply serve_keeps_payload.
Qed.

Lemma payloads_at_advances r r' o first last : advances r r' -> received_payloads r o first last ->
  received_payloads r' o first last.
Proof. intros Ha H e ref d He Hr Ho. apply Ha. by eapply H. Qed.

Lemma held_ok_advances r r' o b : advances r r' -> held_ok r o b -> held_ok r' o b.
Proof. intros Ha []. split; try done. by eapply payloads_at_advances. Qed.

Lemma good_advances r r' s : advances r r' -> good r s -> good r' s.
Proof.
  intros Ha [Hp [Hk Hs]]. split; [done|]. split; intros H.
  - destruct (Hk H) as (rec & Hr & Hb & Hd).
    destruct (adv_recording _ _ Ha _ _ _ Hr) as (rec' & Hr' & [_ Hb' Hd' _ _]).
    exists rec'. split; [done|]. split; [congruence|lia].
  - destruct (Hs H) as (rec & Hr & Hst).
    destruct (adv_recording _ _ Ha _ _ _ Hr) as (rec' & Hr' & [_ _ _ _ Hs']).
    exists rec'. split; [done|]. by apply Hs'.
Qed.

(** The world after a request. *)
Definition served (w : World) (q : Request) (r' : Remote) : World :=
  w <| w_remote := r' |> <| w_sent ::= fun sent => sent ++ [q] |>.

Lemma inv_served w q answer r' : inv w -> serve (w_remote w) q = (answer, r') -> request_ok q ->
  (forall id, batch_request q id -> exists h raw, encodes (rq_body q) h raw /\
    held_ok (w_remote w) (rq_origin q) (held_of h raw)) ->
  inv (served w q r').
Proof.
  intros [] Hs Hq Hb. pose proof (serve_advances _ _ _ _ iv_wf0 Hs) as Ha.
  split; cbn [served set_field w_manifest w_events w_remote w_spool w_sent]; try done.
  - by eapply serve_wf.
  - intros o k rec b Hr Hin.
    destruct (serve_adds _ _ _ _ _ _ _ _ iv_wf0 Hs Hq Hr Hin) as [(rec0 & Hr0 & Hin0)|(<- & Hbr & Hh)].
    + eapply held_ok_advances; [done|]. by eapply iv_remote0.
    + destruct (Hb _ Hbr) as (h & raw & He & Hok). rewrite (Hh h raw He). by eapply held_ok_advances.
  - intros path s Hp. eapply good_advances; [done|]. by eapply iv_spool0.
Qed.

Lemma inv_clock w k : inv w -> inv (w <| w_clock := k |>).
Proof. by intros []. Qed.

(** ** Triples over the invariant

    What is known besides the invariant is a property of the platform's state
    that its later states keep. *)

Class Mono (F : Remote -> Prop) : Prop := mono : forall r r', advances r r' -> F r -> F r'.

#[local] Instance mono_pure (phi : Prop) : Mono (fun _ => phi).
Proof. by intros r r'. Qed.
#[local] Instance mono_and F G : Mono F -> Mono G -> Mono (fun r => F r /\ G r).
Proof. intros HF HG r r' Ha [H1 H2]. split; [by eapply HF|by eapply HG]. Qed.
#[local] Instance mono_good s : Mono (fun r => good r s).
Proof. intros r r'. apply good_advances. Qed.
#[local] Instance mono_payloads o first last : Mono (fun r => received_payloads r o first last).
Proof. intros r r'. apply payloads_at_advances. Qed.

Definition spec {A} (F : Remote -> Prop) (c : Proc.proc World A) (G : A -> Remote -> Prop) : Prop :=
  holds (fun w => inv w /\ F (w_remote w)) c inv (fun a w => inv w /\ G a (w_remote w)).

Lemma spec_ret {A} F (G : A -> Remote -> Prop) a : (forall r, F r -> G a r) -> spec F (mret a) G.
Proof. intros H. apply holds_ret. intros w [Hi HF]. split; [done|]. by split; [|apply H]. Qed.

Lemma spec_bind {A B} F (R : A -> Remote -> Prop) (G : B -> Remote -> Prop) c (k : A -> Proc.proc World B) :
  spec F c R -> (forall a, spec (R a) (k a) G) -> spec F (c ≫= k) G.
Proof. intros Hc Hk. eapply holds_bind; [exact Hc|exact Hk]. Qed.

Lemma spec_conseq {A} F F' (G G' : A -> Remote -> Prop) c :
  (forall r, F r -> F' r) -> (forall a r, G' a r -> G a r) -> spec F' c G' -> spec F c G.
Proof.
  intros HF HG. apply holds_conseq; [intros w []|intros a w []]; split; auto.
Qed.

Lemma spec_pre {A} F F' (G : A -> Remote -> Prop) c :
  (forall r, F r -> F' r) -> spec F' c G -> spec F c G.
Proof. intros HF. by apply spec_conseq. Qed.

Lemma spec_post {A} F (G G' : A -> Remote -> Prop) c :
  spec F c G' -> (forall a r, G' a r -> G a r) -> spec F c G.
Proof. intros H HG. by eapply spec_conseq. Qed.

Lemma spec_pure {A} (phi : Prop) F (G : A -> Remote -> Prop) c :
  (forall r, F r -> phi) -> (phi -> spec F c G) -> spec F c G.
Proof. intros Hphi H. apply (holds_pure phi); [|done]. intros w [_ HF]. by eapply Hphi. Qed.

Lemma spec_lift {A} F (G : A -> Remote -> Prop) x :
  (forall r a, F r -> x = Ok a -> G a r) -> spec F (lift x) G.
Proof.
  intros H. apply holds_lift. intros w [Hi HF]. split; [done|]. intros a Ha. split; [done|]. by eapply H.
Qed.

(** A check. *)
Lemma spec_check F b message :
  spec F (lift (ensure b message)) (fun _ r => F r /\ b = true).
Proof. apply spec_lift. intros r [] HF H%ensure_ok. done. Qed.

Lemma spec_look {A} F (G : A -> Remote -> Prop) f :
  (forall w a, inv w -> F (w_remote w) -> f w = Ok a -> G a (w_remote w)) -> spec F (look f) G.
Proof.
  intros H. eapply (holds_conseq _ (fun w => inv w /\ F (w_remote w)));
    [done| |apply holds_look; by intros w []]. cbn beta.
  intros a w [[Hi HF] Ha]. split; [done|]. by eapply H.
Qed.

Lemma spec_utc F : spec F utc_now (fun _ => F).
Proof.
  apply holds_advance. intros w t w' [Hi HF] [= _ <-]. split; [by apply inv_clock|].
  split; [by apply inv_clock|done].
Qed.

Lemma spec_instant F : spec F instant_now (fun _ => F).
Proof.
  apply holds_advance. intros w t w' [Hi HF] [= _ <-]. split; [by apply inv_clock|].
  split; [by apply inv_clock|done].
Qed.

Lemma spec_elapsed F started : spec F (elapsed started) (fun _ => F).
Proof. eapply spec_bind; [apply spec_instant|]. intros now. by apply spec_ret. Qed.

(** A file of the spool is replaced. *)
Lemma spec_save F path s : (forall r, F r -> good r s) -> spec F (save path s) (fun _ => F).
Proof.
  intros Hg. apply (holds_update _ _ (fun w => inv w /\ F (w_remote w))); [by intros w []|].
  intros w w' [Hi HF] H.
  apply bind_ok in H as (files & Hf & [= <-]). cut (inv (w <| w_spool := Some files |>)); [done|].
  unfold write_state in Hf. apply bind_ok in Hf as (text & Ht & [= <-]). apply ok_or_ok in Ht.
  destruct Hi. split; try done. intros path' s' Hp. unfold parse_state, read_regular_limited in Hp.
  cbn [spool w_spool set_field default from_option id] in Hp.
  destruct (decide (path' = path)) as [->|Hne].
  - rewrite lookup_insert_eq in Hp. apply bind_ok in Hp as (content & Hc & Hp).
    unfold from_io_message in Hc. apply map_err_ok in Hc. cbn [ok_or mbind result_bind] in Hc.
    case_match; [done|]. injection Hc as <-. apply bind_ok in Hp as ([] & _ & Hp).
    apply ok_or_ok in Hp. rewrite (upload_roundtrip _ _ Ht) in Hp. injection Hp as <-. by apply Hg.
  - rewrite lookup_insert_ne in Hp by done. by apply (iv_spool0 path').
Qed.

(** ** Requests *)

(** A batch that is sent is a range of the log whose payloads are there. *)
Definition sends_log (F : Remote -> Prop) (q : Request) : Prop :=
  forall r id, F r -> batch_request q id -> exists h raw, encodes (rq_body q) h raw /\
    held_ok r (rq_origin q) (held_of h raw).

Lemma spec_send F (G : option Response -> Remote -> Prop) q : Mono F -> request_ok q -> sends_log F q ->
  (forall r answer r', remote_wf r -> F r -> serve r q = (answer, r') -> G answer r') ->
  spec F (send q) (fun answer r => F r /\ G answer r).
Proof.
  intros HF Hq Hb HG. apply holds_exchange; [by intros w []|]. intros w x w' [Hi Hw] H.
  destruct (serve (w_remote w) q) as [answer r'] eqn:E. injection H as <- <-.
  assert (inv (served w q r')) as Hi' by (eapply inv_served; eauto).
  split; [exact Hi'|]. intros a [= <-]. split; [exact Hi'|]. cbn.
  assert (remote_wf (w_remote w)) as Hwf by apply Hi. split; [|by eapply HG].
  eapply HF; [|exact Hw]. by eapply serve_advances.
Qed.

Lemma spec_retry_delay F c started attempt after :
  spec F (retry_delay c started attempt after) (fun _ => F).
Proof.
  unfold retry_delay. destruct (pc_retry_for c =? 0); [by apply spec_ret|].
  eapply spec_bind; [apply spec_elapsed|]. intros e. by apply spec_ret.
Qed.

Lemma spec_try_request F (G : HttpResponse -> Remote -> Prop) c q started attempt : Mono F ->
  request_ok q -> sends_log F q ->
  (forall r answer r' hr, remote_wf r -> F r -> serve r q = (Some answer, r') ->
    read_response answer = Ok hr -> G hr r') ->
  spec F (try_request c q started attempt)
    (fun next r => match next with inl _ => F r | inr hr => F r /\ G hr r end).
Proof.
  intros HF Hq Hb HG. unfold try_request. eapply spec_bind.
  { apply (spec_send F (fun answer r => forall a hr, answer = Some a -> read_response a = Ok hr -> G hr r));
      try done. intros r answer r' Hwf Hr Hs a hr -> Hread. by eapply HG. }
  intros [answer|].
  - eapply spec_bind.
    { apply (spec_lift _ (fun hr r => F r /\ G hr r)). intros r hr [Hr Hg] Hread. split; [done|].
      by eapply Hg. }
    intros hr. destruct (negb _); [by apply spec_ret|].
    eapply spec_bind; [apply spec_retry_delay|]. intros [delay|]; apply spec_ret; [by intros r []|done].
  - eapply spec_bind; [apply spec_retry_delay|]. intros [delay|].
    + apply spec_ret. by intros r [].
    + apply spec_lift. done.
Qed.

Lemma spec_repeat {St A} (F : St -> Remote -> Prop) (G : A -> Remote -> Prop)
    (body : St -> Proc.proc World (St + A)) s :
  (forall s, spec (F s) (body s) (fun x r => match x with inl s' => F s' r | inr a => G a r end)) ->
  spec (F s) (repeat_until body s) G.
Proof.
  intros H. apply (holds_repeat (fun s w => inv w /\ F s (w_remote w))); [by intros ? w []|].
  intros s'. refine (holds_conseq _ _ _ _ _ _ _ _ (H s')); [done|]. by intros [s1|a] w.
Qed.

Lemma spec_request F (G : HttpResponse -> Remote -> Prop) c method path headers body : Mono F ->
  let q := mkRequest method (pc_origin c) path (("authorization", pc_authorization c) :: headers) body in
  request_ok q -> sends_log F q ->
  (forall r answer r' hr, remote_wf r -> F r -> serve r q = (Some answer, r') ->
    read_response answer = Ok hr -> G hr r') ->
  spec F (request c method path headers body) (fun hr r => F r /\ G hr r).
Proof.
  intros HF q Hq Hb HG. unfold request. eapply spec_bind; [apply spec_instant|]. intros started.
  apply (spec_repeat (fun _ => F)). intros attempt. by apply spec_try_request.
Qed.

(** A request that is neither a batch nor a payload. *)
Lemma spec_quiet F c method path headers body : Mono F -> path <> IMPORT_PATH ->
  (method = POST -> length path <> 4%nat) ->
  spec F (request c method path headers body) (fun _ => F).
Proof.
  intros HF Hm Hp. eapply spec_conseq; [done| |apply (spec_request F (fun _ _ => True))]; try done.
  - by intros hr r [].
  - intros r id _ [H1 H2]. cbn in H1, H2. exfalso. apply (Hp H1). by rewrite H2.
Qed.

(** ** The client's operations *)

Lemma spec_lift_any {A} F (x : result string A) : spec F (lift x) (fun a r => F r /\ x = Ok a).
Proof. by apply spec_lift. Qed.

Lemma spec_register F c m id : Mono F ->
  spec F (register c m id) (fun '(_, c') r => F r /\ pc_origin c' = pc_origin c).
Proof.
  intros HF. unfold register. eapply spec_bind; [apply spec_lift_any|]. intros body.
  eapply spec_bind; [by apply spec_quiet; [apply _| |]|]. intros hr.
  eapply spec_bind; [apply spec_lift_any|]. intros [].
  eapply spec_bind; [apply spec_lift_any|]. intros registration.
  eapply spec_bind; [apply spec_utc|]. intros now.
  eapply spec_bind; [apply spec_lift_any|]. intros [].
  eapply spec_bind; [apply spec_lift_any|]. intros authorization.
  apply spec_ret. cbn. tauto.
Qed.

Lemma spec_heartbeat F c id s m final rejected : Mono F ->
  spec F (heartbeat c id s m final rejected) (fun _ => F).
Proof.
  intros HF. unfold heartbeat. eapply spec_bind.
  { instantiate (1 := fun _ => F). unfold acked_lag. case_match; [by apply spec_ret|].
    case_match; [|by apply spec_ret]. eapply spec_bind; [apply spec_utc|]. intros. by apply spec_ret. }
  intros lag. eapply spec_bind; [apply spec_lift_any|]. intros body.
  eapply spec_bind; [by apply spec_quiet; [apply _| |]|]. intros hr.
  apply spec_lift. tauto.
Qed.

Lemma spec_create F c m id segment base : Mono F ->
  spec F (create_recording c m id segment base) (fun _ => F).
Proof.
  intros HF. unfold create_recording. eapply spec_bind; [apply spec_lift_any|]. intros body.
  eapply spec_bind; [by apply spec_quiet; [apply _| |]|]. intros hr. apply spec_lift. tauto.
Qed.

Lemma spec_get F c id : Mono F -> spec F (get_recording c id) (fun rr r => F r /\
  (rr_state rr = "open" \/ rr_state rr = "sealed" ->
   exists rec, received_recording r (pc_origin c) id = Some rec /\ reports rr rec)).
Proof.
  intros HF. unfold get_recording. eapply spec_bind.
  { apply (spec_request F (fun hr r => forall rr, hr_status hr = 200 ->
      recording_from_slice (hr_body hr) = Some rr -> rr_state rr = "open" \/ rr_state rr = "sealed" ->
      exists rec, received_recording r (pc_origin c) id = Some rec /\ reports rr rec)); try done.
    - intros r k _ [H _]. done.
    - intros r answer r' hr Hwf HFr Hs Hread rr H200 Hrr.
      exact (get_answer _ _ _ _ id _ _ Hwf Hs eq_refl eq_refl Hread H200 Hrr). }
  intros hr. eapply spec_bind; [apply spec_lift_any|]. intros []. apply spec_lift.
  intros r rr [[HFr Hg] Hst] Hd. split; [done|]. unfold decode_json in Hd.
  apply bind_ok in Hd as ([] & _ & Hd). apply ok_or_ok in Hd. apply Hg; [|done].
  unfold require_status in Hst. case_bool_decide as H; [|done]. set_solver.
Qed.

Lemma require_status_in hr accepted : require_status hr accepted = Ok tt -> hr_status hr ∈ accepted.
Proof. unfold require_status. by case_bool_decide. Qed.

Definition present (c : PlatformClient) (d : string) (r : Remote) : Prop :=
  is_Some (received_payload r (pc_origin c) d).

Lemma spec_blob_present F c plan : Mono F ->
  spec F (blob_present c plan)
    (fun found r => F r /\ (found = true -> present c (bp_sha256 plan) r)).
Proof.
  intros HF. unfold blob_present. eapply spec_bind.
  { apply (spec_request F (fun hr r => hr_status hr = 200 -> present c (bp_sha256 plan) r)); try done.
    - intros r k _ [H _]. done.
    - intros r answer r' hr Hwf HFr Hs Hread H200.
      exact (head_answer _ _ _ _ _ _ Hwf Hs eq_refl eq_refl Hread H200). }
  intros hr. destruct (hr_status hr =? 200) eqn:E; reflect_N.
  - eapply spec_bind; [apply spec_lift_any|]. intros []. apply spec_ret. intros r [[HFr H] _]. auto.
  - eapply spec_bind; [apply spec_check|]. intros []. apply spec_ret. intros r [[HFr _] _]. done.
Qed.

Lemma spec_ensure_blob F c plan key force : Mono F ->
  spec F (ensure_blob c plan key force) (fun _ r => F r /\ present c (bp_sha256 plan) r).
Proof.
  intros HF. unfold ensure_blob. eapply spec_bind.
  { instantiate (1 := fun found r => F r /\ (found = true -> present c (bp_sha256 plan) r)).
    destruct force; [by apply spec_ret|by apply spec_blob_present]. }
  intros found. destruct found; [apply spec_ret; intros r [H1 H2]; auto|].
  apply (spec_pre _ F); [by intros r []|]. eapply spec_bind.
  { apply (spec_look F (fun _ => F)). by intros. }
  intros content.
  eapply spec_bind; [apply spec_check|]. intros []. eapply spec_bind.
  { apply (spec_request (fun r => F r /\ _) (fun hr r => hr_status hr = 200 \/ hr_status hr = 201 ->
      present c (bp_sha256 plan) r)); [apply _|..].
    - done.
    - intros r k _ [H _]. done.
    - intros r answer r' hr Hwf HFr Hs Hread Hst.
      exact (put_answer _ _ _ _ _ _ Hwf Hs eq_refl eq_refl Hread Hst). }
  intros hr. apply spec_lift. intros r [] [[HFr _] Hg] Hst. split; [done|]. apply Hg.
  apply require_status_in in Hst. set_solver.
Qed.

Lemma spec_upload_batch F c id b h raw body : Mono F -> encodes body h raw ->
  (forall r, F r -> held_ok r (pc_origin c) (held_of h raw)) ->
  spec F (upload_batch c id b body) (fun ack r => F r /\
    exists rec, received_recording r (pc_origin c) id = Some rec /\
      ack_durable_seq ack <= rec_durable_seq rec /\ (ack_state ack = "sealed" -> rec_state rec = "sealed")).
Proof.
  intros HF He Hh. unfold upload_batch. cbn zeta. eapply spec_bind; [apply spec_check|]. intros [].
  apply (spec_pre _ F); [by intros r []|]. eapply spec_bind.
  { apply (spec_request F (fun hr r => forall ack, hr_status hr = 200 ->
      ack_from_slice (hr_body hr) = Some ack -> exists rec, received_recording r (pc_origin c) id = Some rec /\
      ack_durable_seq ack <= rec_durable_seq rec /\ (ack_state ack = "sealed" -> rec_state rec = "sealed")));
      try done.
    - intros r k HFr _. exists h, raw. split; [done|]. by apply Hh.
    - intros r answer r' hr Hwf HFr Hs Hread ack H200 Hack.
      refine (batch_answer _ _ _ _ id _ _ Hwf Hs _ Hread H200 Hack). by split. }
  intros hr. eapply spec_bind; [apply spec_lift_any|]. intros []. apply spec_lift.
  intros r ack [[HFr Hg] Hst] Hd. split; [done|]. unfold decode_json in Hd.
  apply bind_ok in Hd as ([] & _ & Hd). apply ok_or_ok in Hd. apply Hg; [|done].
  apply require_status_in in Hst. set_solver.
Qed.

Lemma spec_seal F c id final m run_final : Mono F ->
  spec F (seal_recording c id final m run_final) (fun _ => F).
Proof.
  intros HF. unfold seal_recording. eapply spec_bind; [apply spec_lift_any|]. intros sha.
  eapply spec_bind; [apply spec_lift_any|]. intros body.
  eapply spec_bind; [by apply spec_quiet; [apply _| |]|]. intros hr. apply spec_lift. tauto.
Qed.

(** ** States *)

Context (Hseq : sequenced 0 es).

(** The recording of the state exists, for its segment. *)
Definition declared (r : Remote) (s : UploadState) : Prop :=
  exists rec, received_recording r (us_api_origin s) (us_recording_id s) = Some rec /\
    rec_sequence_base rec = us_first_seq s - 1.

#[local] Instance mono_declared s : Mono (fun r => declared r s).
Proof.
  intros r r' Ha (rec & Hr & Hb). destruct (adv_recording _ _ Ha _ _ _ Hr) as (rec' & Hr' & [_ Hb' _ _ _]).
  exists rec'. split; [done|]. congruence.
Qed.

(** The state belongs to the run, the platform and the recording. *)
Record belongs (o id : string) (s : UploadState) : Prop := {
  bl_origin : us_api_origin s = o;
  bl_run : us_run_id s = run_id;
  bl_recording : us_recording_id s = id;
}.

Lemma plans_log_new run id o segment first created updated : 0 < first ->
  plans_log es (new_state run id o segment first created updated).
Proof.
  intros Hf. split; [done|]. exists []. split; [done|]. cbn. unfold sat_sub, event_range.
  replace (N.to_nat (first - 1 + 1 - first)) with 0%nat by lia. rewrite take_0, nlen_nil.
  split; [done|lia].
Qed.

Lemma validate_first s run id o available planned :
  validate_state_prefix s run id o available = Ok planned ->
  0 < us_first_seq s /\ us_api_origin s = o /\ us_run_id s = run /\ us_recording_id s = id.
Proof. intros H. apply validate_state_prefix_ok in H as (_ & [] & _). split_and!; try done. lia. Qed.

Lemma load_or_new_good w c o target created updated s : inv w ->
  load_or_new (spool w) (cu_path c) run_id (cu_recording_id c) o (cu_segment_no c) (cu_first_seq c) target
    created updated = Ok s ->
  good (w_remote w) s /\ belongs o (cu_recording_id c) s.
Proof.
  intros Hi H. unfold load_or_new in H. apply bind_ok in H as (s0 & H0 & H). cbn zeta in H. peel H.
  apply bind_ok in H as (planned & Hv & [= <-]).
  pose proof (validate_first _ _ _ _ _ _ Hv) as (Hf & Ho & Hr & Hid).
  split; [|by split]. destruct (spool w !! cu_path c) as [content|] eqn:E.
  - pose proof (iv_spool _ Hi _ _ H0) as Hg. by rewrite (plans_log_omit es s0 Hseq (proj1 Hg)).
  - injection H0 as <-. cbn in Hf.
    split; [apply (plans_log_new _ _ _ _ _ created updated Hf)|]. split; cbn; unfold sat_sub; [lia|done].
Qed.

Lemma spec_load_or_create F c o target : Mono F ->
  spec F (load_or_create_state c run_id o target)
    (fun s r => F r /\ good r s /\ belongs o (cu_recording_id c) s).
Proof.
  intros HF. unfold load_or_create_state. eapply spec_bind; [apply spec_utc|]. intros created.
  eapply spec_bind; [apply spec_utc|]. intros updated. eapply spec_bind.
  { apply (spec_look F (fun s r => F r /\ good r s /\ belongs o (cu_recording_id c) s)).
    intros w s Hi HFw Hl. split; [done|]. by eapply load_or_new_good. }
  intros s. eapply spec_bind; [apply spec_save; by intros r (_ & Hg & _)|]. intros []. by apply spec_ret.
Qed.

Lemma reconcile_good s rr now s' r o rec : reconcile_remote s rr now = Ok s' -> plans_log es s ->
  us_api_origin s = o -> received_recording r o (us_recording_id s) = Some rec -> reports rr rec ->
  good r s' /\ declared r s' /\ us_batches s' = us_batches s /\
  us_api_origin s' = us_api_origin s /\ us_run_id s' = us_run_id s /\
  us_recording_id s' = us_recording_id s.
Proof.
  intros H Hp <- Hr [Hbase Hdur Hsl]. unfold reconcile_remote in H. cbn zeta in H. peel H. peel H. peel H.
  apply bind_ok in H as ([] & _ & [= <-]). reflect_N. unfold sat_sub in *.
  split; [|split; [exists rec; split; [done|cbn; congruence]|done]]. split; [by destruct Hp|].
  split; cbn; intros Hx.
  - exists rec. split; [done|]. split; [congruence|lia].
  - exists rec. split; [done|]. apply andb_true_iff in Hx as [Hx _]. by apply Hsl, str_eqb_true.
Qed.

Lemma reconcile_state s rr now s' : reconcile_remote s rr now = Ok s' -> rr_state rr = "open" \/ rr_state rr = "sealed".
Proof.
  unfold reconcile_remote. cbn zeta. intros H. peel H. peel H. peel H. apply bind_ok in H as ([] & H & _).
  destruct (str_eqb (rr_state rr) "sealed") eqn:E; [right; by apply str_eqb_true|].
  apply ensure_ok, str_eqb_true in H. by left.
Qed.

(** ** Sessions *)

Record session_ok (x : Session) : Prop := {
  so_origin : pc_origin (ss_client x) = ss_api_origin x;
  so_run : run_id_of x = run_id;
  so_log : forall st, read_stream events run_id (ss_key x) = Ok st -> st = stream es;
}.

Lemma spec_declare F x c s : Mono F -> session_ok x -> plans_log es s ->
  belongs (ss_api_origin x) (cu_recording_id c) s ->
  spec F (declare_recording x c s) (fun s' r => F r /\ good r s' /\ declared r s' /\
    belongs (ss_api_origin x) (cu_recording_id c) s' /\ us_batches s' = us_batches s).
Proof.
  intros HF Hx Hp Hb. unfold declare_recording.
  eapply spec_bind; [by apply spec_create|]. intros [].
  eapply spec_bind; [by apply spec_get|]. intros rr.
  eapply spec_bind; [apply spec_utc|]. intros now. eapply spec_bind.
  { apply (spec_lift _ (fun s' r => F r /\ good r s' /\ declared r s' /\
      belongs (ss_api_origin x) (cu_recording_id c) s' /\ us_batches s' = us_batches s)).
    intros r s' [HFr Hgot] Hre. destruct (Hgot (reconcile_state _ _ _ _ Hre)) as (rec & Hrec & Hrr). destruct Hb as [Ho Hr Hid]. rewrite (so_origin _ Hx) in Hrec.
    rewrite <-Hid in Hrec.
    destruct (reconcile_good _ _ _ _ _ _ _ Hre Hp Ho Hrec Hrr) as (Hg & Hd & Hbt & Ho' & Hr' & Hid').
    split_and!; try done. split; congruence. }
  intros s'. eapply spec_bind; [apply spec_save; by intros r (_ & Hg & _)|]. intros []. by apply spec_ret.
Qed.

Lemma good_stamp r x now s : good r s -> good r (stamp x now s).
Proof. intros [[H1 H2] [H3 H4]]. by repeat split. Qed.
Lemma belongs_stamp o id x now s : belongs o id s -> belongs o id (stamp x now s).
Proof. by intros []. Qed.

Definition segment_at (x : Session) (at_segment : SegmentCursor * UploadState) (r : Remote) : Prop :=
  good r at_segment.2 /\ belongs (ss_api_origin x) (cu_recording_id at_segment.1) at_segment.2.

Definition ready (x : Session) (at_segment : SegmentCursor * UploadState) (r : Remote) : Prop :=
  segment_at x at_segment r /\ declared r at_segment.2.

#[local] Instance mono_segment_at x a : Mono (segment_at x a).
Proof. apply mono_and; apply _. Qed.
#[local] Instance mono_ready x a : Mono (ready x a).
Proof. apply mono_and; apply _. Qed.

Lemma spec_next_open_segment F x target a : Mono F -> session_ok x ->
  spec (fun r => F r /\ segment_at x a r) (next_open_segment x target a)
    (fun next r => match next with
                   | inl a' => F r /\ segment_at x a' r
                   | inr a' => F r /\ ready x a' r end).
Proof.
  intros HF Hx. destruct a as [c s]. unfold next_open_segment.
  apply (spec_pure (plans_log es s /\ belongs (ss_api_origin x) (cu_recording_id c) s));
    [by intros r (_ & [[Hp _] Hb])|]. intros [Hp Hb].
  apply (spec_pre _ F); [by intros r []|].
  eapply spec_bind; [by apply spec_declare|]. intros s1. cbn zeta.
  destruct (_ || _). { apply spec_ret. intros r (HFr & Hg & Hd & Hb1 & _). by repeat split; try apply Hg; try apply Hb1. }
  eapply (spec_pre _ F); [by intros r []|].
  eapply spec_bind; [apply spec_check|]. intros []. eapply (spec_pre _ F); [by intros r []|].
  eapply spec_bind; [apply spec_lift_any|]. intros [segment first]. eapply (spec_pre _ F); [by intros r []|].
  rewrite (so_run _ Hx). eapply spec_bind; [by apply spec_load_or_create|]. intros s2.
  eapply spec_bind; [apply spec_utc|]. intros now.
  eapply spec_bind; [apply spec_save; intros r (_ & Hg & _); by apply good_stamp|]. intros [].
  apply spec_ret. intros r (HFr & Hg & Hb2). split; [done|].
  split; [by apply good_stamp|by apply belongs_stamp].
Qed.

Lemma spec_extend F x o id s target : Mono F -> session_ok x -> target < u64_max ->
  spec (fun r => F r /\ good r s /\ declared r s /\ belongs o id s) (extend_state s (ss_key x) target)
    (fun s' r => F r /\ good r s' /\ declared r s' /\ belongs o id s').
Proof.
  intros HF Hx Ht. unfold extend_state. destruct (_ =? _); [by apply spec_ret|].
  apply (spec_pure (belongs o id s)); [by intros r (_ & _ & _ & Hb)|]. intros Hb.
  eapply spec_bind.
  { apply (spec_look _ (fun st r => (F r /\ good r s /\ declared r s) /\ st = stream es)).
    intros w st Hi (H1 & H2 & H3 & _) Hst. split; [done|]. rewrite (iv_events _ Hi), (bl_run _ _ _ Hb) in Hst.
    by apply (so_log _ Hx). }
  intros st. apply (spec_pure (st = stream es)); [by intros r []|]. intros ->.
  eapply spec_bind; [apply spec_utc|]. intros now. apply spec_lift.
  intros r s' [(HFr & [Hp Hk] & Hd) _] Hs'.
  destruct (extend_state_sound _ _ _ _ _ Hseq Ht Hp Hs') as (Hp' & _ & additional & time & -> & _).
  destruct Hb, Hk. split; [done|]. split; [split; [done|by split]|]. split; [exact Hd|by split].
Qed.

Lemma spec_plan_upload F x target c s : Mono F -> session_ok x -> target < u64_max ->
  spec (fun r => F r /\ segment_at x (c, s) r) (plan_upload x target c s) (fun a r => F r /\ ready x a r).
Proof.
  intros HF Hx Ht. unfold plan_upload. eapply spec_bind; [apply spec_utc|]. intros now. cbn zeta.
  eapply spec_bind.
  { apply spec_save. intros r (_ & Hg & _). by apply good_stamp. }
  intros []. eapply spec_bind.
  { eapply (spec_pre _ (fun r => F r /\ segment_at x (c, stamp x now s) r)).
    - intros r (HFr & Hg & Hb). split; [done|]. split; [by apply good_stamp|by apply belongs_stamp].
    - apply (spec_repeat (fun a r => F r /\ segment_at x a r) (fun a r => F r /\ ready x a r)).
      intros a. by apply spec_next_open_segment. }
  intros [c1 s1]. eapply spec_bind.
  { instantiate (1 := fun s2 r => F r /\ good r s2 /\ declared r s2 /\
      belongs (ss_api_origin x) (cu_recording_id c1) s2).
    apply (spec_pre _ (fun r => F r /\ good r s1 /\ declared r s1 /\
      belongs (ss_api_origin x) (cu_recording_id c1) s1)); [intros r (HFr & [Hg Hb] & Hd); done|].
    destruct (us_sealed s1); [|by apply spec_extend].
    eapply spec_bind; [apply spec_check|]. intros []. apply spec_ret. by intros r []. }
  intros s2. eapply spec_bind; [apply spec_lift_any|]. intros [].
  eapply spec_bind; [apply spec_save; by intros r ((_ & Hg & _) & _)|]. intros [].
  apply spec_ret. intros r ((HFr & Hg & Hd & Hb) & _). by split_and!.
Qed.

(** ** Sending *)

Definition all_present (c : PlatformClient) (sent : gset string) (r : Remote) : Prop :=
  forall d, d ∈ sent -> present c d r.

#[local] Instance mono_all_present c sent : Mono (all_present c sent).
Proof. intros r r' Ha H d Hd. apply Ha. by apply H. Qed.

Definition blobs_present (c : PlatformClient) (b : BatchPlan) (r : Remote) : Prop :=
  forall blob, blob ∈ ba_blobs b -> present c (bp_sha256 blob) r.

#[local] Instance mono_blobs_present c b : Mono (blobs_present c b).
Proof. intros r r' Ha H blob Hb. apply Ha. by apply H. Qed.

Lemma spec_send_blobs F x force sent batch : Mono F ->
  spec (fun r => F r /\ all_present (ss_client x) sent r) (send_blobs x force sent batch)
    (fun sent' r => F r /\ all_present (ss_client x) sent' r /\ blobs_present (ss_client x) batch r).
Proof.
  intros HF. unfold send_blobs, blobs_present. generalize (ba_blobs batch) as blobs. intros blobs. revert sent.
  cut (forall sent, spec (fun r => F r /\ all_present (ss_client x) sent r)
    (fold_proc (fun sent blob =>
      if decide (bp_sha256 blob ∈ sent) then mret sent
      else ensure_blob (ss_client x) blob (ss_key x) force;; mret ({[ bp_sha256 blob ]} ∪ sent)) sent blobs)
    (fun sent' r => F r /\ all_present (ss_client x) sent' r /\ sent ⊆ sent' /\
      forall blob, blob ∈ blobs -> bp_sha256 blob ∈ sent')).
  { intros H sent. eapply spec_post; [apply H|]. intros sent' r (H1 & H2 & _ & H4).
    split_and!; try done. intros blob Hb. by apply H2, H4. }
  induction blobs as [|blob blobs IH]; intros sent; cbn [fold_proc].
  { apply spec_ret. intros r [H1 H2]. split_and!; try done. by intros blob ?%elem_of_nil. }
  eapply spec_bind.
  { instantiate (1 := fun sent1 r => (F r /\ all_present (ss_client x) sent1 r) /\
      sent ⊆ sent1 /\ bp_sha256 blob ∈ sent1).
    case_decide; [by apply spec_ret|]. eapply spec_bind; [apply spec_ensure_blob, _|].
    intros []. apply spec_ret. intros r ([H1 H2] & H3). split_and!; [done| |set_solver|set_solver].
    intros d [->%elem_of_singleton|Hd]%elem_of_union; [done|]. by apply H2. }
  intros sent1. apply (spec_pure (sent ⊆ sent1 /\ bp_sha256 blob ∈ sent1)); [by intros r []|].
  intros [Hs1 Hs2]. eapply spec_pre; [|eapply spec_post; [apply IH|]]; [by intros r [H _]|].
  intros sent' r (H1 & H2 & H3 & H4). split_and!; try done; [set_solver|].
  intros b [->|Hin]%elem_of_cons; [set_solver|by apply H4].
Qed.

(** A planned batch with its lines, once its payloads are at the platform. *)
Lemma encoded_batch_ok c id b raw body : batch_of es b ->
  ndjson (event_range (ba_first_seq b) (ba_last_seq b) es) = Ok raw ->
  encode_batch_body id b raw = Ok body ->
  exists h, encodes body h raw /\ bh_first_seq h = ba_first_seq b /\ bh_last_seq h = ba_last_seq b /\
    forall r, blobs_present c b r -> held_ok r (pc_origin c) (held_of h raw).
Proof.
  intros [Hr Hf (previous & Hp)] Hraw H. unfold encode_batch_body in H.
  apply bind_ok in H as (compressed & Hz & H). apply bind_ok in H as (header & Hh & H). peel H.
  injection H as <-. apply ok_or_ok in Hz, Hh. eexists. split; [by exists header, compressed|].
  split; [done|]. split; [done|]. intros r Hpres.
  split; cbn [held_of hd_first_seq hd_last_seq hd_raw bh_first_seq bh_last_seq]; try done.
  intros e ref d He Hev [Hn Hs]. destruct Hp as [_ _ _ _ _ (blobs & Hb & Heq) _].
  destruct (blob_plans_exact _ _ Hb) as [Hfrom Hall].
  destruct (Hall e ref d He Hev Hn Hs) as (blob & Hget & _). apply map_get_elem in Hget.
  unfold blobs_from in Hfrom. rewrite Forall_forall in Hfrom. destruct (Hfrom _ Hget) as [<- _].
  apply Hpres. rewrite Heq. apply list_elem_of_fmap. by exists (bp_sha256 blob, blob).
Qed.

(** What is known in the loop over the batches. *)
Record sending (x : Session) (id : string) (batches : list BatchPlan) (a : Sending) (r : Remote) : Prop := {
  sd_good : good r (sn_state a);
  sd_declared : declared r (sn_state a);
  sd_belongs : belongs (ss_api_origin x) id (sn_state a);
  sd_batches : us_batches (sn_state a) = batches;
  sd_reader : exists k, sn_reader a = stream (drop k es);
  sd_present : all_present (ss_client x) (sn_uploaded_blobs a) r;
}.

#[local] Instance mono_sending x id batches a : Mono (sending x id batches a).
Proof.
  intros r r' Ha []. split; try done.
  - by eapply good_advances.
  - by eapply mono_declared.
  - by eapply mono_all_present.
Qed.

Lemma spec_heartbeat_if_due F x target id batches a : Mono F ->
  spec (fun r => F r /\ sending x id batches a r) (heartbeat_if_due x target a)
    (fun a' r => F r /\ sending x id batches a' r).
Proof.
  intros HF. unfold heartbeat_if_due. eapply spec_bind; [apply spec_elapsed|]. intros e.
  destruct (_ <=? _); [|by apply spec_ret].
  eapply spec_bind; [by apply spec_heartbeat; apply _|]. intros [].
  eapply spec_bind; [apply spec_instant|]. intros now. apply spec_ret. intros r [HFr []]. split; [done|by split].
Qed.

Lemma acknowledge_good r s rec final target ack now : good r s -> declared r s ->
  received_recording r (us_api_origin s) (us_recording_id s) = Some rec ->
  ack_durable_seq ack <= rec_durable_seq rec -> (ack_state ack = "sealed" -> rec_state rec = "sealed") ->
  good r (acknowledge final target ack now s) /\ declared r (acknowledge final target ack now s).
Proof.
  intros [Hp [_ Hs]] (rec' & Hr' & Hb) Hr Hd Hst. rewrite Hr in Hr'. injection Hr' as <-.
  split; [|destruct final; by exists rec]. split; [by destruct Hp, final|].
  split; destruct final; cbn; intros H.
  - by exists rec.
  - by exists rec.
  - exists rec. split; [done|]. apply andb_true_iff in H as [H _]. by apply Hst, str_eqb_true.
  - by apply Hs.
Qed.

Lemma spec_post_batch F x o final target path id batches a b raw : Mono F -> session_ok x ->
  batch_of es b -> ndjson (event_range (ba_first_seq b) (ba_last_seq b) es) = Ok raw ->
  spec (fun r => F r /\ sending x id batches a r) (post_batch x o final target path a b raw)
    (fun a' r => F r /\ sending x id batches a' r).
Proof.
  intros HF Hx Hb Hraw. unfold post_batch. cbn zeta.
  apply (spec_pure (belongs (ss_api_origin x) id (sn_state a))); [by intros r [_ []]|]. intros Hbl.
  eapply spec_bind.
  { eapply spec_pre; [|apply (spec_send_blobs (fun r => F r /\ sending x id batches a r)), _].
    intros r [HFr Hsd]. split; [done|]. apply Hsd. }
  intros sent. eapply spec_bind; [apply spec_lift_any|]. intros body.
  apply (spec_pure (encode_batch_body (us_recording_id (sn_state a)) b raw = Ok body)); [by intros r []|].
  intros Hbody. destruct (encoded_batch_ok (ss_client x) _ _ _ _ Hb Hraw Hbody) as (h & He & _ & _ & Hh).
  eapply spec_pre; [intros r [H _]; exact H|]. eapply spec_bind.
  { apply (spec_upload_batch (fun r => (F r /\ sending x id batches a r) /\
      all_present (ss_client x) sent r /\ blobs_present (ss_client x) b r)
      (ss_client x) (us_recording_id (sn_state a)) b h raw body); [apply _|done|].
    intros r (_ & _ & Hp). by apply Hh. }
  intros ack. eapply spec_bind; [apply spec_lift_any|]. intros [].
  eapply spec_bind; [apply spec_utc|]. intros now.
  set (s' := acknowledge final target ack now (sn_state a)).
  apply (spec_pre _ (fun r => (F r /\ sending x id batches a r) /\ all_present (ss_client x) sent r /\
    good r s' /\ declared r s')).
  { intros r ((((HFr & Hsd) & Hall & _) & rec & Hrec & Hd & Hst) & _). split; [done|]. split; [done|].
    rewrite (so_origin _ Hx), <-(bl_origin _ _ _ Hbl) in Hrec.
    destruct Hsd. by apply (acknowledge_good _ _ rec). }
  eapply spec_bind; [apply spec_save; by intros r (_ & _ & Hg & _)|]. intros [].
  apply spec_ret. intros r ((HFr & []) & Hall & Hg & Hd). split; [done|]. split; try done.
  - destruct Hbl. unfold s', acknowledge. by destruct final.
  - unfold s', acknowledge. by destruct final.
Qed.

Lemma spec_send_batch F x o final target path id batches a b : Mono F -> session_ok x ->
  Forall (batch_of es) batches -> b ∈ batches ->
  spec (fun r => F r /\ sending x id batches a r) (send_batch x o final target path a b)
    (fun a' r => F r /\ sending x id batches a' r).
Proof.
  intros HF Hx Hbs Hb. rewrite Forall_forall in Hbs. specialize (Hbs _ Hb) as Hbo.
  unfold send_batch. destruct (sn_stopped a); [by apply spec_ret|].
  eapply spec_bind; [by apply spec_heartbeat_if_due|]. intros a1.
  eapply spec_bind; [apply spec_lift_any|]. intros [raw reader].
  apply (spec_pure (ndjson (event_range (ba_first_seq b) (ba_last_seq b) es) = Ok raw /\
    exists k, reader = stream (drop k es))).
  { intros r ((_ & Hsd) & Hread). destruct (sd_reader _ _ _ _ _ Hsd) as [k Hk]. rewrite Hk in Hread.
    by eapply read_batch_sound. }
  intros [Hraw Hreader]. cbn zeta.
  apply (spec_pre _ (fun r => F r /\ sending x id batches (a1 <| sn_reader := reader |>) r)).
  { intros r ((HFr & []) & _). split; [done|by split]. }
  destruct (_ <=? _); [by apply spec_ret|by apply spec_post_batch].
Qed.

Lemma spec_fold {A B} (F : A -> Remote -> Prop) (f : A -> B -> Proc.proc World A) l a :
  (forall a b, b ∈ l -> spec (F a) (f a b) F) -> spec (F a) (fold_proc f a l) F.
Proof.
  intros H. apply (holds_fold (fun a w => inv w /\ F a (w_remote w))); [by intros ? w []|]. exact H.
Qed.

Lemma spec_send_batches F x o final target path id s : Mono F -> session_ok x ->
  plans_log es s -> belongs (ss_api_origin x) id s ->
  spec (fun r => F r /\ good r s /\ declared r s) (send_batches x o final target path s)
    (fun a r => F r /\ sending x id (us_batches s) a r).
Proof.
  intros HF Hx Hp Hb. unfold send_batches. eapply spec_bind.
  { apply (spec_look _ (fun st r => (F r /\ good r s /\ declared r s) /\ st = stream es)).
    intros w st Hi HFw Hst. split; [done|]. rewrite (iv_events _ Hi), (so_run _ Hx) in Hst.
    by apply (so_log _ Hx). }
  intros st. apply (spec_pure (st = stream es)); [by intros r []|]. intros ->.
  eapply spec_bind; [apply spec_instant|]. intros started.
  eapply spec_pre; [|apply (spec_fold (fun a r => F r /\ sending x id (us_batches s) a r))].
  - intros r ((HFr & Hg & Hd) & _). split; [done|]. split; try done. by exists 0%nat.
  - intros a b Hin. apply spec_send_batch; try done.
    eapply Forall_impl; [by apply plans_log_batches|]. by intros c [H _].
Qed.

Lemma spec_seal_segment F x path id s target run_final : Mono F -> session_ok x ->
  belongs (ss_api_origin x) id s ->
  spec (fun r => F r /\ good r s /\ declared r s) (seal_segment x path s target run_final) (fun _ => F).
Proof.
  intros HF Hx Hb. unfold seal_segment.
  eapply spec_bind; [by apply spec_seal; apply _|]. intros [].
  eapply spec_bind; [by apply spec_get; apply _|]. intros rr.
  eapply spec_bind; [apply spec_check|]. intros [].
  eapply spec_bind; [apply spec_check|]. intros [].
  eapply spec_bind; [apply spec_utc|]. intros now. cbn zeta.
  eapply spec_bind; [apply spec_save|intros []; apply spec_ret; tauto].
  intros r ((((HFr & [Hp _] & rec' & Hr' & Hbase) & Hgot) & Hst) & _).
  apply andb_true_iff in Hst as [Hst Hdur]. apply str_eqb_true in Hst.
  destruct (Hgot (or_intror Hst)) as (rec & Hrec & [_ Hd Hsl]).
  rewrite (so_origin _ Hx), <-(bl_origin _ _ _ Hb) in Hrec. rewrite Hrec in Hr'. injection Hr' as <-.
  split; [by destruct Hp|]. split; cbn; intros _; exists rec; [by split_and!|]. split; [done|by apply Hsl].
Qed.

(** ** The operations *)

(** The manifest names the run, and the key it selects opens the log. *)
Context (Hrun : forall m, read_manifest manifest = Ok m -> m_run_id m = run_id).
Context (Hlog : forall m provided key st, read_manifest manifest = Ok m ->
  effective_encryption_key m provided = Ok key -> read_stream events run_id key = Ok st -> st = stream es).

Lemma inspected_run_id mf ev d verify key i : inspect_run_with_key mf ev d verify key = Ok i ->
  exists m, read_manifest mf = Ok m /\ m_run_id (in_manifest i) = m_run_id m.
Proof.
  unfold inspect_run_with_key. intros H. apply bind_ok in H as (m & Hm & H).
  do 7 (apply bind_ok in H as (? & _ & H)). apply bind_ok in H as ([log rest] & _ & H).
  cbn zeta in H. injection H as <-. unfold from_io in Hm. apply map_err_ok in Hm. by exists m.
Qed.

Lemma spec_open_source F o : spec F (open_source o) (fun mk r => F r /\
  m_run_id mk.1 = run_id /\ forall st, read_stream events run_id mk.2 = Ok st -> st = stream es).
Proof.
  apply spec_look. intros w [m key] Hi HFw H. rewrite (iv_manifest _ Hi) in H.
  apply bind_ok in H as (m' & Hm & H). apply map_err_ok in Hm. apply bind_ok in H as (? & _ & H).
  apply bind_ok in H as (key' & Hk & [= -> ->]). apply map_err_ok in Hk. cbn.
  split; [done|]. split; [by apply Hrun|]. intros st. by eapply Hlog.
Qed.

Lemma spec_inspect F o verify :
  spec F (inspect o verify) (fun i r => F r /\ m_run_id (in_manifest i) = run_id).
Proof.
  apply spec_look. intros w i Hi HFw H. rewrite (iv_manifest _ Hi) in H. apply map_err_ok in H.
  destruct (inspected_run_id _ _ _ _ _ _ H) as (m & Hm & ->). split; [done|]. by apply Hrun.
Qed.

Lemma parse_lock files : parse_state (<["upload.lock" := []]> files) "upload.lock"
  = Err "parse upload state".
Proof.
  unfold parse_state, read_regular_limited. rewrite lookup_insert_eq. cbn [ok_or mbind result_bind].
  replace (MAX_STATE_BYTES <? nlen ([] : bytes)) with false by done.
  replace (validate_json_complexity []) with (Ok tt : io_result unit) by done.
  cbn [from_io_message map_err mbind result_bind]. by rewrite upload_empty.
Qed.

Lemma inv_lock w : inv w -> inv (w <| w_spool := Some (<["upload.lock" := []]> (spool w)) |>).
Proof.
  intros []. split; try done. intros path s Hp. cbn [spool w_spool set_field default from_option id] in Hp.
  destruct (decide (path = "upload.lock")) as [->|Hne]; [by rewrite parse_lock in Hp|].
  apply (iv_spool0 path). unfold parse_state, read_regular_limited in *.
  by rewrite lookup_insert_ne in Hp by done.
Qed.

Lemma inv_spool_same w : inv w -> inv (w <| w_spool := Some (spool w) |>).
Proof. by intros []. Qed.

Lemma spec_prepare_spool F : spec F prepare_spool (fun _ => F).
Proof.
  apply (holds_update _ _ (fun w => inv w /\ F (w_remote w))); [by intros w []|].
  intros w w' [Hi HF] [= <-]. cut (inv (w <| w_spool := Some (spool w) |>)); [done|]. by apply inv_spool_same.
Qed.

Lemma spec_lock_state F : spec F lock_state (fun _ => F).
Proof.
  unfold lock_state. eapply spec_bind.
  { apply (holds_update _ _ (fun w => inv w /\ F (w_remote w))); [by intros w []|].
    intros w w' [Hi HF] [= <-]. destruct (spool w !! "upload.lock").
    - cut (inv (w <| w_spool := Some (spool w) |>)); [done|]. by apply inv_spool_same.
    - cut (inv (w <| w_spool := Some (<["upload.lock" := []]> (spool w)) |>)); [done|]. by apply inv_lock. }
  intros []. apply spec_look. intros w [] _ HFw _. exact HFw.
Qed.

Lemma spec_connect F o m key api collector : Mono F ->
  spec F (connect o m key api collector) (fun x r => F r /\
    pc_origin (ss_client x) = api /\ ss_manifest x = m /\ ss_key x = key /\ ss_api_origin x = api).
Proof.
  intros HF. unfold connect. eapply spec_bind; [apply spec_lift_any|]. intros token.
  eapply spec_bind; [apply spec_lift_any|]. intros client.
  apply (spec_pure (pc_origin client = api)).
  { intros r [_ Hc]. unfold new_client in Hc. by apply bind_ok in Hc as (a & _ & [= <-]). }
  intros Hc. eapply spec_pre; [intros r [[HFr _] _]; exact HFr|].
  eapply spec_bind; [by apply spec_register|]. intros [registration client'].
  eapply spec_bind; [apply spec_lift_any|]. intros rejected.
  apply spec_ret. intros r [[HFr Ho] _]. cbn. by rewrite Ho, Hc.
Qed.

Definition anything (r : Remote) : Prop := True.
#[local] Instance mono_anything : Mono anything.
Proof. done. Qed.

Lemma spec_any {A} F (G : A -> Remote -> Prop) c : spec anything c G -> spec F c G.
Proof. by apply spec_pre. Qed.

Lemma platform_sequence n : n <= MAX_PLATFORM_SEQUENCE -> n < u64_max.
Proof. unfold MAX_PLATFORM_SEQUENCE, u64_max. lia. Qed.

Lemma good_collector r o s : good r s -> good r (use_collector o s).
Proof.
  unfold use_collector. destruct (o_collector_id o); [|done]. intros [[H1 H2] [H3 H4]]. by repeat split.
Qed.
Lemma belongs_collector api id o s : belongs api id s -> belongs api id (use_collector o s).
Proof. unfold use_collector. destruct (o_collector_id o); [|done]. by intros []. Qed.

Lemma spec_finish_upload x path final resumed id batches a : session_ok x ->
  spec (sending x id batches a) (finish_upload x path final resumed a) (fun _ => anything).
Proof.
  intros Hx. unfold finish_upload. cbn zeta. destruct (_ <? _).
  { eapply spec_bind; [by apply spec_heartbeat; apply _|]. intros []. by apply spec_ret. }
  eapply spec_bind; [apply spec_check|]. intros []. eapply spec_bind; [apply spec_check|]. intros [].
  apply (spec_pure (belongs (ss_api_origin x) id (sn_state a))); [by intros r ((Hs & _) & _); apply Hs|].
  intros Hb. eapply spec_bind.
  { eapply spec_pre; [|by apply (spec_seal_segment anything x path id)].
    intros r ((Hs & _) & _). split; [done|]. split; apply Hs. }
  intros s. eapply spec_bind; [by apply spec_heartbeat; apply _|]. intros []. by apply spec_ret.
Qed.

(** Sending the batches of a planned state. *)
Lemma spec_send_ready x o final target path c s : session_ok x ->
  spec (fun r => anything r /\ ready x (c, s) r) (send_batches x o final target path s)
    (fun a => sending x (cu_recording_id c) (us_batches s) a).
Proof.
  intros Hx. apply (spec_pure (plans_log es s /\ belongs (ss_api_origin x) (cu_recording_id c) s));
    [by intros r (_ & [[[Hp _] Hb] _])|]. intros [Hp Hb].
  eapply spec_pre; [|eapply spec_post; [by apply (spec_send_batches anything)|]].
  - intros r (_ & [[Hg _] Hd]). done.
  - by intros a r [].
Qed.

(** The session an operation opens. *)
Lemma spec_session o m key api c s : m_run_id m = run_id ->
  (forall st, read_stream events run_id key = Ok st -> st = stream es) ->
  spec (fun r => good r s /\ belongs api (cu_recording_id c) s)
    (connect o m key api (us_collector_id (use_collector o s)))
    (fun x r => session_ok x /\ segment_at x (c, use_collector o s) r).
Proof.
  intros Hm Hk. eapply spec_post; [apply spec_connect; apply _|].
  intros x r ((Hg & Hb) & H1 & H2 & H3 & H4). split.
  - split; [congruence| |by rewrite H3]. unfold run_id_of. by rewrite H2.
  - split; [by apply good_collector|]. rewrite H4. by apply belongs_collector.
Qed.

Lemma spec_upload_run o : spec anything (upload_run o) (fun _ => anything).
Proof.
  unfold upload_run. eapply spec_bind; [apply spec_lift_any|]. intros []. cbn zeta.
  eapply spec_bind; [apply spec_open_source|]. intros [m0 key].
  apply (spec_pure (forall st, read_stream events run_id key = Ok st -> st = stream es));
    [by intros r (_ & _ & H)|]. intros Hk.
  eapply spec_bind; [apply spec_inspect|]. intros i.
  apply (spec_pure (m_run_id (in_manifest i) = run_id)); [by intros r []|]. intros Hid. rewrite Hid.
  eapply spec_bind; [apply spec_lift_any|]. intros [].
  apply (spec_pure (valid_events (in_log i) < u64_max)).
  { intros r [_ Hu]. unfold uploadable_run in Hu. do 5 (peel Hu). reflect_N.
    by apply platform_sequence. }
  intros Ht. apply spec_any.
  eapply spec_bind; [apply spec_prepare_spool|]. intros [].
  eapply spec_bind; [apply spec_lock_state|]. intros [].
  eapply spec_bind; [by apply (spec_look _ (fun _ => anything))|]. intros [states c].
  eapply spec_bind; [by apply spec_load_or_create; apply _|]. intros s.
  eapply spec_bind; [apply spec_lift_any|]. intros planned.
  eapply spec_bind.
  { eapply spec_pre; [|by apply (spec_session o (in_manifest i) key _ c s)]. intros r ((_ & Hg) & _). done. }
  intros x. apply (spec_pure (session_ok x)); [by intros r []|]. intros Hx.
  eapply spec_bind.
  { eapply spec_pre; [|by apply (spec_plan_upload anything)]. by intros r []. }
  intros [c1 s1]. eapply spec_bind; [by apply spec_send_ready|]. intros a. by eapply spec_finish_upload.
Qed.

Lemma spec_upload_active boundary o seal expected :
  spec anything (upload_active_segment boundary o seal expected) (fun _ => anything).
Proof.
  unfold upload_active_segment. eapply spec_bind; [apply spec_check|]. intros [].
  eapply spec_bind; [apply spec_check|]. intros [].
  apply (spec_pure (boundary < u64_max)).
  { intros r [_ Hb]. reflect_N. by apply platform_sequence. }
  intros Ht. apply spec_any. eapply spec_bind; [apply spec_lift_any|]. intros []. cbn zeta.
  eapply spec_bind; [apply spec_open_source|]. intros [m key].
  apply (spec_pure (m_run_id m = run_id /\
    forall st, read_stream events run_id key = Ok st -> st = stream es)); [by intros r (_ & H)|].
  intros [Hid Hk]. eapply spec_bind; [apply spec_check|]. intros []. apply spec_any.
  eapply spec_bind; [apply spec_prepare_spool|]. intros [].
  eapply spec_bind; [apply spec_lock_state|]. intros [].
  eapply spec_bind; [by apply (spec_look _ (fun _ => anything))|]. intros c.
  rewrite Hid. eapply spec_bind; [by apply spec_load_or_create; apply _|]. intros s.
  eapply spec_bind.
  { eapply spec_pre; [|by apply (spec_session o m key _ c s)]. by intros r (_ & Hg). }
  intros x. apply (spec_pure (session_ok x)); [by intros r []|]. intros Hx.
  eapply spec_bind.
  { eapply spec_pre; [|by apply (spec_plan_upload anything)]. by intros r []. }
  intros [c1 s1]. eapply spec_bind; [by apply spec_send_ready|]. intros a.
  eapply spec_bind; [apply spec_check|]. intros [].
  apply (spec_pure (belongs (ss_api_origin x) (cu_recording_id c1) (sn_state a)));
    [by intros r (Hs & _); apply Hs|]. intros Hb.
  eapply spec_bind.
  { instantiate (1 := fun _ => anything). destruct (_ && _); [|by apply spec_ret].
    eapply spec_pre; [|by apply (spec_seal_segment anything x _ (cu_recording_id c1))].
    intros r (Hs & _). split; [done|]. split; apply Hs. }
  intros s2. eapply spec_bind; [by apply spec_heartbeat; apply _|]. intros []. by apply spec_ret.
Qed.

(** ** Backfill *)

Definition resending (x : Session) (acc : Stream * gset string * N) (r : Remote) : Prop :=
  (exists k, acc.1.1 = stream (drop k es)) /\ all_present (ss_client x) acc.1.2 r.

#[local] Instance mono_resending x acc : Mono (resending x acc).
Proof. apply mono_and; apply _. Qed.

Lemma spec_resend_batch x s selected acc b : session_ok x -> batch_of es b ->
  spec (resending x acc) (resend_batch x s selected acc b) (resending x).
Proof.
  intros Hx Hb. destruct acc as [[reader repaired] resent]. unfold resend_batch.
  eapply spec_bind; [apply spec_lift_any|]. intros [raw reader'].
  apply (spec_pure (ndjson (event_range (ba_first_seq b) (ba_last_seq b) es) = Ok raw /\
    exists k, reader' = stream (drop k es))).
  { intros r (((k & Hk) & _) & Hread). cbn in Hk. rewrite Hk in Hread. by eapply read_batch_sound. }
  intros [Hraw Hreader]. case_decide; [|apply spec_ret; by intros r ((_ & Hp) & _)].
  eapply spec_bind.
  { eapply spec_pre; [|apply (spec_send_blobs anything x true repaired b), _]. by intros r ((_ & Hp) & _). }
  intros sent. eapply spec_bind; [apply spec_lift_any|]. intros body.
  apply (spec_pure (encode_batch_body (us_recording_id s) b raw = Ok body)); [by intros r []|].
  intros Hbody. destruct (encoded_batch_ok (ss_client x) _ _ _ _ Hb Hraw Hbody) as (h & He & _ & _ & Hh).
  eapply spec_pre; [intros r [H' _]; exact H'|]. eapply spec_bind.
  { apply (spec_upload_batch (fun r => anything r /\
      all_present (ss_client x) sent r /\ blobs_present (ss_client x) b r)
      (ss_client x) (us_recording_id s) b h raw body); [apply _|done|].
    intros r (_ & _ & Hp). by apply Hh. }
  intros ack. eapply spec_bind; [apply spec_lift_any|]. intros [].
  apply spec_ret. intros r (((_ & Hp & _) & _) & _). by split.
Qed.

Lemma chain_good w api available segments item : inv w ->
  load_segment_chain (spool w) api run_id available = Ok segments -> item ∈ segments ->
  good (w_remote w) (sg_state item) /\ belongs api (us_recording_id (sg_state item)) (sg_state item).
Proof.
  intros Hi Hl Hin. apply load_segment_chain_ok in Hl as [Hf _]. rewrite Forall_forall in Hf.
  destruct (Hf _ Hin) as [(st & Hst & Heq) _ Hv].
  pose proof (iv_spool _ Hi _ _ Hst) as Hg.
  assert (sg_state item = st) as Hs by (rewrite Heq; exact (plans_log_omit es st Hseq (proj1 Hg))).
  apply validate_first in Hv as (_ & Ho & Hr & _). split; [by rewrite Hs|by split].
Qed.

Lemma find_elem {A} (f : A -> bool) l a : List.find f l = Some a -> a ∈ l /\ f a = true.
Proof. intros H. apply find_some in H as [H1 H2]. split; [by apply list_elem_of_In|done]. Qed.

Lemma spec_backfill_available F o m last_seq : spec F (backfill_available o m last_seq) (fun _ => F).
Proof.
  unfold backfill_available. case_match; [by apply spec_ret|].
  eapply spec_bind; [apply spec_inspect|]. intros i.
  eapply spec_bind; [apply spec_check|]. intros []. eapply spec_bind; [apply spec_check|]. intros [].
  apply spec_ret. tauto.
Qed.

Lemma spec_backfill_run id first last_seq o : spec anything (backfill_run id first last_seq o) (fun _ => anything).
Proof.
  unfold backfill_run. eapply spec_bind; [apply spec_check|]. intros [].
  eapply spec_bind; [apply spec_lift_any|]. intros []. cbn zeta.
  eapply spec_bind; [apply spec_open_source|]. intros [m key].
  apply (spec_pure (m_run_id m = run_id /\
    forall st, read_stream events run_id key = Ok st -> st = stream es)); [by intros r (_ & H)|].
  intros [Hid Hk]. rewrite Hid. eapply spec_bind; [apply spec_backfill_available|]. intros available.
  eapply spec_bind; [apply spec_prepare_spool|]. intros [].
  eapply spec_bind; [apply spec_lock_state|]. intros []. apply spec_any. eapply spec_bind.
  { apply (spec_look _ (fun segments r => forall item, item ∈ segments -> good r (sg_state item) /\
      belongs (canonical_origin (o_api o)) (us_recording_id (sg_state item)) (sg_state item))).
    intros w segments Hi _ Hl item Hin. by eapply chain_good. }
  intros segments. eapply spec_bind; [apply spec_lift_any|]. intros item.
  set (s := sg_state item). pose (c := mkSegmentCursor (sg_path item) (us_recording_id s) (us_segment_no s) (us_first_seq s)).
  apply (spec_pre _ (fun r => good r s /\ belongs (canonical_origin (o_api o)) (us_recording_id s) s)).
  { intros r [Hall Hf]. apply ok_or_ok, find_elem in Hf as [Hin _]. by apply Hall. }
  eapply spec_bind; [apply spec_check|]. intros [].
  eapply spec_bind.
  { eapply spec_pre; [|by apply (spec_session o m key (canonical_origin (o_api o)) c s)]. by intros r []. }
  intros x. apply (spec_pure (session_ok x /\ plans_log es (use_collector o s) /\
    belongs (ss_api_origin x) (us_recording_id s) (use_collector o s))).
  { intros r (Hx & [Hp _] & Hb). done. }
  intros (Hx & Hp & Hb). apply spec_any. set (s1 := stamp x _ _).
  assert (plans_log es s1) as Hp1 by (by destruct Hp).
  eapply spec_bind.
  { eapply (spec_declare anything x _ s1); [apply _|done|done|]. destruct Hb as [Ho Hr _]. by split. }
  intros s2. apply (spec_pure (Forall (batch_of es) (us_batches s2))).
  { intros r (_ & [Hp2 _] & _). eapply Forall_impl; [by apply plans_log_batches|]. by intros b [H _]. }
  intros Hbs. apply spec_any.
  eapply spec_bind; [apply spec_lift_any|]. intros [[selected resent_first] resent_last].
  eapply spec_bind.
  { apply (spec_look _ (fun st _ => st = stream es)). intros w st Hi _ Hst.
    rewrite (iv_events _ Hi) in Hst. by apply Hk. }
  intros st. apply (spec_pure (st = stream es)); [by intros r|]. intros ->.
  eapply spec_bind.
  { eapply spec_pre; [|apply (spec_fold (resending x))].
    - intros r _. split; [by exists 0%nat|]. intros d Hd. cbn in Hd. set_solver.
    - intros acc b Hin. rewrite Forall_forall in Hbs. apply spec_resend_batch; [done|by apply Hbs]. }
  intros [[reader repaired] resent]. eapply spec_bind; [apply spec_check|]. intros [].
  eapply spec_bind; [by apply spec_heartbeat; apply _|]. intros []. by apply spec_ret.
Qed.
End Invariant.

(** ** Histories *)

Section History.
Context {dig : Digest} {hx : Hex} {b64 : Base64} {aead : Aead} {zstd : Zstd} {http : Http}
  {serde : Serde} {serdeb : SerdeBlock} {serdem : SerdeManifest} {serdee : SerdeErasure}
  {serdeu : SerdeUpload} {wire : SerdeWire} {url : UrlCrate} {crates : ClientCrates}
  {platform : Platform} {clock : Clock} {view : PlatformView} {laws : PlatformLaws}
  {serdelaws : SerdeUploadLaws}.
Context (run_id : string).

(** The operations on a run, as its tools call them. *)
Inductive Operation :=
| UploadRun (o : UploadOptions)
| UploadActive (durable_boundary : N) (o : UploadOptions) (seal : bool) (expected : option string)
| Backfill (id : string) (first_seq last_seq : N) (o : UploadOptions).

Definition perform (op : Operation) : Proc.proc World unit :=
  match op with
  | UploadRun o => _ ← upload_run o; mret tt
  | UploadActive boundary o seal expected => _ ← upload_active_segment boundary o seal expected; mret tt
  | Backfill id first_seq last_seq o => _ ← backfill_run id first_seq last_seq o; mret tt
  end.

(** The files of the run hold the events [es]. *)
Record recorded (w : World) (es : list EventEnvelope) : Prop := {
  rd_sequenced : sequenced 0 es;
  rd_run : forall m, read_manifest (w_manifest w) = Ok m -> m_run_id m = run_id;
  rd_log : forall m provided key st, read_manifest (w_manifest w) = Ok m ->
    effective_encryption_key m provided = Ok key -> read_stream (w_events w) run_id key = Ok st ->
    st = stream es;
}.

(** Operations run one after another and may be killed at any effect; between
    them the recorder appends events and rewrites the manifest, payload files
    come and go, and the clocks go on; and the platform serves others and
    expires or erases what it holds, the run included, as long as nobody else
    writes into the run's recordings. *)
Inductive evolves : World * list EventEnvelope -> World * list EventEnvelope -> Prop :=
| evolves_refl w es : evolves (w, es) (w, es)
| evolves_operation w es op n out w1 n' w2 es2 :
    perform op (w, n) = (out, (w1, n')) -> evolves (w1, es) (w2, es2) -> evolves (w, es) (w2, es2)
| evolves_recorder w es more w1 w2 es2 :
    recorded w1 (es ++ more) -> w_spool w1 = w_spool w -> w_remote w1 = w_remote w ->
    evolves (w1, es ++ more) (w2, es2) -> evolves (w, es) (w2, es2)
| evolves_platform w es r w2 es2 :
    remote_wf r -> advances (w_remote w) r ->
    (forall o k, received_recording r o (recording_id_for_segment run_id k) =
       received_recording (w_remote w) o (recording_id_for_segment run_id k)) ->
    evolves (w <| w_remote := r |>, es) (w2, es2) -> evolves (w, es) (w2, es2).

(** Before the first upload of the run. *)
Record pristine (w : World) : Prop := {
  fr_spool : w_spool w = None;
  fr_wf : remote_wf (w_remote w);
  fr_remote : forall o k, received_recording (w_remote w) o (recording_id_for_segment run_id k) = None;
}.

Definition inv_of (w : World) (es : list EventEnvelope) : Prop :=
  recorded w es /\ inv (w_manifest w) (w_events w) run_id es w.

Lemma pristine_inv w es : recorded w es -> pristine w -> inv_of w es.
Proof.
  intros Hr []. split; [done|]. split; try done.
  - intros o k rec b H. by rewrite fr_remote0 in H.
  - intros path s H. unfold spool in H. rewrite fr_spool0 in H. done.
Qed.

Lemma perform_keeps es op w n out w' n' : inv_of w es -> perform op (w, n) = (out, (w', n')) ->
  inv_of w' es.
Proof.
  intros [[Hs Hrun Hlog] Hi] H.
  assert (inv (w_manifest w) (w_events w) run_id es w') as Hi'.
  { assert (spec (w_manifest w) (w_events w) run_id es anything (perform op) (fun _ => anything)) as Hsp.
    { destruct op; cbn [perform]; (eapply spec_bind; [|intros x; by apply spec_ret]).
      - by apply spec_upload_run.
      - by apply spec_upload_active.
      - by apply spec_backfill_run. }
    destruct (Hsp w n out w' n') as [Hi' _]; [by split|exact H|exact Hi']. }
  destruct Hi' as [Hm He ? ? ?]. split; [by split; rewrite ?Hm, ?He|].
  rewrite Hm, He. by split.
Qed.

Lemma held_ok_app es more r o b : held_ok es r o b -> held_ok (es ++ more) r o b.
Proof.
  intros [Hr Hf Hraw Hp].
  assert (event_range (hd_first_seq b) (hd_last_seq b) (es ++ more)
    = event_range (hd_first_seq b) (hd_last_seq b) es) as Heq by (apply event_range_app_l; [lia|done]).
  split; [done|by rewrite Heq|by rewrite Heq|]. unfold received_payloads. by rewrite Heq.
Qed.

Lemma recorder_keeps es more w w' : inv_of w es -> recorded w' (es ++ more) ->
  w_spool w' = w_spool w -> w_remote w' = w_remote w -> inv_of w' (es ++ more).
Proof.
  intros [_ []] Hr Hs Hm. split; [done|]. split; try done; rewrite ?Hm; try done.
  - intros o k rec b H1 H2. apply held_ok_app. by eapply iv_remote0.
  - intros path s Hp. unfold spool in Hp. rewrite Hs in Hp. destruct (iv_spool0 path s Hp) as [H1 H2].
    split; [by apply plans_log_app|done].
Qed.

Lemma platform_keeps es w r : inv_of w es -> remote_wf r -> advances (w_remote w) r ->
  (forall o k, received_recording r o (recording_id_for_segment run_id k) =
     received_recording (w_remote w) o (recording_id_for_segment run_id k)) ->
  inv_of (w <| w_remote := r |>) es.
Proof.
  intros [[] []] Hwf Ha Hsame. split; [done|].
  split; cbn [set_field w_manifest w_events w_remote w_spool]; try done.
  - intros o k rec b Hr Hb. rewrite Hsame in Hr. eapply held_ok_advances; [done|]. by eapply iv_remote0.
  - intros path s Hp. eapply good_advances; [done|]. by eapply iv_spool0.
Qed.

Lemma evolves_inv a b : evolves a b -> inv_of a.1 a.2 -> inv_of b.1 b.2.
Proof.
  induction 1 as [|w es op n out w1 n' w2 es2 Hp _ IH|w es more w1 w2 es2 Hr Hs Hm _ IH
    |w es r w2 es2 Hwf Ha Hsame _ IH]; intros Hi.
  - done.
  - apply IH. by eapply perform_keeps.
  - apply IH. by eapply recorder_keeps.
  - apply IH. by apply platform_keeps.
Qed.

(** ** What follows *)

(** The platform at origin [o] has received and stored event [n] of the run, in
    a recording that it sealed: the exact lines of a range that contains it, and
    every ordinary payload these events refer to. *)
Definition uploaded (r : Remote) (o : string) (es : list EventEnvelope) (n : N) : Prop :=
  exists k rec b, received_recording r o (recording_id_for_segment run_id k) = Some rec /\
    rec_state rec = "sealed" /\ n <= rec_durable_seq rec /\ b ∈ rec_batches rec /\
    hd_first_seq b <= n <= hd_last_seq b /\ hd_last_seq b <= nlen es /\
    ndjson (event_range (hd_first_seq b) (hd_last_seq b) es) = Ok (hd_raw b) /\
    forall e ref d, e ∈ event_range (hd_first_seq b) (hd_last_seq b) es -> ev_raw e = Some ref ->
      ordinary ref d -> exists content, received_payload r o d = Some content /\ hex_encode (sha256 content) = d.

Lemma chain_uploaded w es api available segments item n : inv_of w es ->
  load_segment_chain (spool w) api run_id available = Ok segments -> item ∈ segments ->
  us_sealed (sg_state item) = true -> us_first_seq (sg_state item) <= n <= us_acked_seq (sg_state item) ->
  uploaded (w_remote w) api es n.
Proof.
  intros [[Hseq _ _] Hi] Hl Hin Hsealed Hn.
  destruct (chain_good _ _ run_id es Hseq _ _ _ _ _ Hi Hl Hin) as [[Hp [Hk Hs]] [Ho _ _]].
  apply load_segment_chain_ok in Hl as [Hf _]. rewrite Forall_forall in Hf.
  destruct (Hf _ Hin) as [_ _ Hv]. apply validate_first in Hv as (_ & _ & _ & Hid).
  destruct (Hk ltac:(lia)) as (rec & Hr & Hb & Hd). destruct (Hs Hsealed) as (rec' & Hr' & Hst).
  rewrite Hr in Hr'. injection Hr' as <-. rewrite Ho, Hid in Hr. pose proof (pg_first _ _ Hp) as Hfirst.
  destruct (recording_covers _ _ _ _ n (iv_wf _ _ _ _ _ Hi) Hr ltac:(lia)) as (b & Hbin & Hbn).
  destruct (iv_remote _ _ _ _ _ Hi _ _ _ _ Hr Hbin) as [Hrange Hfull Hraw Hpay].
  eexists _, rec, b. split; [exact Hr|]. split; [done|]. split; [lia|]. split; [done|]. split; [done|]. split.
  { unfold event_range, nlen in *. rewrite length_take, length_drop in Hfull. lia. }
  split; [done|]. intros e ref d He Hr' Ho'. destruct (Hpay e ref d He Hr' Ho') as [content Hc].
  exists content. split; [done|]. by eapply payload_digest; [apply (iv_wf _ _ _ _ _ Hi)|].
Qed.

(** C2: when the retention gate opens for a run whose uploads went through any
    sequence of uploads, flushes, seals and backfills, each possibly killed at
    any point, every platform named in the spool has received and acknowledged
    as durably stored every event of the run, byte for byte, in sealed
    recordings, together with the ordinary payloads the events refer to.  What
    the platform later expires or erases on its own account is not covered: the
    gate is about what was delivered.  Nobody else writes into the run's
    recordings, by an import or otherwise. *)
Theorem retention_gate_sound w0 es0 w es final files : recorded w0 es0 -> pristine w0 ->
  evolves (w0, es0) (w, es) -> w_spool w = Some files ->
  verify_retention_gate (Some files) run_id final = Ok tt ->
  exists origins, list_upload_origins files run_id = Ok origins /\ origins <> [] /\
    forall o, o ∈ origins -> forall n, 1 <= n <= final -> uploaded (w_remote w) o es n.
Proof.
  intros Hr Hf He Hs Hg. apply evolves_inv in He; [|by apply pristine_inv]. cbn [fst snd] in He.
  destruct (gate_covers _ _ _ Hg) as (origins & Ho & Hne & Hall). exists origins.
  split; [done|]. split; [done|]. intros o Hin n Hn.
  destruct (Hall o Hin) as (states & Hl & Hcov). destruct (Hcov n Hn) as (item & Hitem & Hsealed & Hrange).
  assert (spool w = files) as Hsp by (unfold spool; by rewrite Hs). rewrite <-Hsp in Hl.
  by eapply chain_uploaded.
Qed.
End History.
