(* ===== verification/UploadExamples.v ===== *)
(** * An upload against a concrete platform

    A small platform that keeps recordings and payloads and answers truthfully,
    serializers for what is exchanged with it, and the seal of an active run of
    four events: the hypotheses of the theorems about uploads hold of it. *)

From Stdlib Require Import Strings.Byte.
From S2P Require Import Prelude RustStd Proc External Json Input Model ProbePlan Policy Crypto EventLog Manifest Timeline BlobStore BlobStoreSpec Inspect InspectSpec UploadState UploadStateSpec Platform Upload UploadSpec.
From stdpp Require Import pretty options.
Local Open Scope N_scope.
#[local] Unset Default Proof Using.

Module UploadExamples.
Import Concrete ManifestExamples ConcreteSerde.

(** ** Serializers *)

#[export] Instance BlobPlan_countable : Countable BlobPlan.
Proof.
  refine (inj_countable' (fun b => (bp_sha256 b, bp_size b, bp_media_type b))
    (fun '(a, b, c) => mkBlobPlan a b c) _). by intros [].
Defined.
#[export] Instance BatchPlan_countable : Countable BatchPlan.
Proof.
  refine (inj_countable' (fun b => (ba_first_seq b, ba_last_seq b, ba_event_count b, ba_byte_length b,
      ba_sha256 b, ba_prev_sha256 b, ba_blobs b, ba_created_at b))
    (fun '(a, b, c, d, e, f, g, h) => mkBatchPlan a b c d e f g h) _). by intros [].
Defined.
#[export] Instance UploadState_countable : Countable UploadState.
Proof.
  refine (inj_countable' (fun s => (us_schema_version s, us_api_origin s, us_run_id s, us_recording_id s,
      us_segment_no s, us_first_seq s, us_batch_max_events s, us_batch_max_bytes s,
      (us_acked_seq s, us_sealed s, us_collector_id s, us_config_version s, us_batches s, us_created_at s,
       us_updated_at s)))
    (fun '(a, b, c, d, e, f, g, h, (i, j, k, l, m, n, o)) => mkUploadState a b c d e f g h i j k l m n o) _).
  by intros [].
Defined.
#[export] Instance BatchHeader_countable : Countable BatchHeader.
Proof.
  refine (inj_countable' (fun h => (bh_batch_id h, bh_recording_id h, bh_schema_version h, bh_first_seq h,
      bh_last_seq h, bh_event_count h,
      (bh_byte_length h, bh_sha256 h, bh_prev_sha256 h, bh_encoding h, bh_blobs h, bh_created_at h)))
    (fun '(a, b, c, d, e, f, (g, h, i, j, k, l)) => mkBatchHeader a b c d e f g h i j k l) _).
  by intros [].
Defined.
#[export] Instance RemoteRecording_eq_dec : EqDecision RemoteRecording.
Proof. solve_decision. Defined.
#[export] Instance RemoteRecording_countable : Countable RemoteRecording.
Proof.
  refine (inj_countable' (fun r => (rr_state r, rr_segment_no r, rr_sequence_base r, rr_durable_seq r,
      rr_final_seq r))
    (fun '(a, b, c, d, e) => mkRemoteRecording a b c d e) _). by intros [].
Defined.
#[export] Instance BatchAck_eq_dec : EqDecision BatchAck.
Proof. solve_decision. Defined.
#[export] Instance BatchAck_countable : Countable BatchAck.
Proof.
  refine (inj_countable' (fun a => (ack_recording_id a, ack_durable_seq a, ack_state a, ack_missing_blobs a))
    (fun '(a, b, c, d) => mkBatchAck a b c d) _). by intros [].
Defined.

(** A state file: as many commas as the text of the state has structural
    tokens, then the state. *)
Fixpoint skip_commas (l : bytes) : option bytes :=
  match l with
  | [] => None
  | b :: l' => if beqb b x2c then skip_commas l' else Some l'
  end.
#[export] Instance serde_upload : SerdeUpload := {|
  upload_to_vec s := Some (replicate (N.to_nat (state_tokens s)) x2c ++ x75 :: digits (encode s));
  upload_from_slice l := l ← skip_commas l; decode (of_digits l);
  header_to_vec h := Some (write x68 h);
|}.

Lemma skip_commas_app n b l : b <> x2c -> skip_commas (replicate n x2c ++ b :: l) = Some l.
Proof.
  intros Hb. induction n as [|n IH]; cbn; [|done]. destruct (beqb b x2c) eqn:E; [|done].
  apply beqb_true in E. done.
Qed.

Lemma scan_free_commas n d t : foldl scan_free_byte (mkScan false false d t) (replicate n x2c)
  = mkScan false false d (t + N.of_nat n).
Proof.
  revert t. induction n as [|n IH]; intros t; cbn [replicate foldl]; [f_equal; lia|].
  change (scan_free_byte (mkScan false false d t) x2c) with (mkScan false false d (t + 1)).
  rewrite IH. f_equal. lia.
Qed.

Lemma scan_free_digits p s : in_string s = false -> foldl scan_free_byte s (digits p) = s.
Proof.
  intros Hs. induction p as [p IH|p IH|]; cbn [digits foldl]; [..|done];
    (replace (scan_free_byte s _) with s; [done|]);
    destruct s as [[] e d t]; try done; unfold scan_free_byte; cbn; f_equal; lia.
Qed.

#[export] Instance serde_upload_laws : SerdeUploadLaws.
Proof.
  split; cbn [upload_to_vec upload_from_slice serde_upload]; [intros s text [= <-]..|done].
  - rewrite <-app_assoc, <-app_comm_cons, skip_commas_app by done. cbn [mbind option_bind].
    rewrite of_digits_digits by (by right). apply decode_encode.
  - unfold scan_free. rewrite !foldl_app. change scan_start with (mkScan false false 0 0).
    rewrite scan_free_commas. cbn [foldl].
    match goal with |- context [scan_free_byte (mkScan ?a ?b ?c ?d) x75] =>
      replace (scan_free_byte (mkScan a b c d) x75) with (mkScan a b c d) by (unfold scan_free_byte; cbn; f_equal; lia) end.
    rewrite scan_free_digits by done. unfold scan_free_byte. cbn -[state_tokens].
    rewrite N2Nat.id. by destruct (state_tokens s).
Qed.

#[export] Instance serde_wire : SerdeWire := {|
  register_to_vec _ := Some [];
  register_from_slice _ := Some (mkRegisterResponse 1 "session" 1000000%Z 0%Z (JObject []));
  heartbeat_to_vec _ := Some [];
  create_to_vec c := Some (write x64 (cr_recording_id c, cr_segment_no c, cr_sequence_base c));
  seal_to_vec s := Some (write x65 (se_final_seq s));
  recording_from_slice := read x66;
  ack_from_slice := read x67;
  value_to_vec _ := Some [];
|}.
#[export] Instance crates : ClientCrates := {|
  consts_OS := "linux"; consts_ARCH := "x86_64"; header_value_valid _ := true; uuid_to_string _ := "u";
|}.
#[export] Instance clock : Clock := {| utc n := Z.of_nat n; instant n := N.of_nat n |}.

(** ** The platform *)

Notation Records := (gmap (string * string) Recording).
Notation Payloads := (gmap (string * string) bytes).

Definition answer (status : N) (body : bytes) : option Response := Some (mkResponse status [] [Some body]).

(** The header and the lines of a batch request. *)
Fixpoint split_line (l : bytes) : bytes * bytes :=
  match l with
  | [] => ([], [])
  | b :: l' => if beqb b LF then ([], l') else let '(line, rest) := split_line l' in (b :: line, rest)
  end.
Definition decode_batch (body : bytes) : option Held :=
  let '(line, raw) := split_line body in
  h ← read (A := BatchHeader) x68 line;
  Some (held_of h raw).

Definition create (c : string * N * N) (o : string) (records : Records) : Records :=
  let '(id, segment_no, base) := c in
  match records !! (o, id) with
  | Some _ => records
  | None => <[(o, id) := mkRecording segment_no base base "open" None []]> records
  end.

(** A batch is taken where it continues the recording. *)
Definition add_batch (b : Held) (rec : Recording) : Recording :=
  if str_eqb (rec_state rec) "open" && (hd_first_seq b =? rec_durable_seq rec + 1)
     && (hd_first_seq b <=? hd_last_seq b)
  then mkRecording (rec_segment_no rec) (rec_sequence_base rec) (hd_last_seq b) (rec_state rec)
         (rec_final_seq rec) (rec_batches rec ++ [b])
  else rec.

Definition seal_at (final : N) (rec : Recording) : Recording :=
  if str_eqb (rec_state rec) "open" && (rec_durable_seq rec =? final)
  then mkRecording (rec_segment_no rec) (rec_sequence_base rec) (rec_durable_seq rec) "sealed" (Some final)
         (rec_batches rec)
  else rec.

Definition sealed_id (name : string) : option string := 
  id ← RustStd.strip_suffix (as_bytes ":seal") (as_bytes name);
  Some (of_bytes id).

Definition remote_of (r : Recording) : RemoteRecording :=
  mkRemoteRecording (rec_state r) (rec_segment_no r) (rec_sequence_base r) (rec_durable_seq r)
    (rec_final_seq r).

Definition serve_get (records : Records) (o id : string) : option Response :=
  match records !! (o, id) with
  | Some rec => answer 200 (write x66 (remote_of rec))
  | None => answer 404 []
  end.

Definition serve_batch (records : Records) (o id : string) (body : bytes) : option Response * Records :=
  match records !! (o, id), decode_batch body with
  | Some rec, Some b =>
      let rec := add_batch b rec in
      (answer 200 (write x67 (mkBatchAck id (rec_durable_seq rec) (rec_state rec) [])),
       <[(o, id) := rec]> records)
  | _, _ => (answer 409 [], records)
  end.

Definition serve_seal (records : Records) (o name : string) (body : bytes) : Records :=
  match sealed_id name with
  | Some id =>
      match records !! (o, id), read (A := N) x65 body with
      | Some rec, Some final => <[(o, id) := seal_at final rec]> records
      | _, _ => records
      end
  | None => records
  end.

Definition serve_put (payloads : Payloads) (o d : string) (body : bytes) : option Response * Payloads :=
  if str_eqb (hex_encode (sha256 body)) d
  then (answer 201 [], match payloads !! (o, d) with
                       | Some _ => payloads | None => <[(o, d) := body]> payloads end)
  else (answer 422 [], payloads).

(** The rest of a path under [/v1/kind]. *)
Definition under (kind : string) (path : list string) : option (list string) :=
  match path with
  | v :: k :: rest => if str_eqb v "v1" && str_eqb k kind then Some rest else None
  | _ => None
  end.

Definition ledger_serve (r : Records * Payloads) (q : Request) : option Response * (Records * Payloads) :=
  let '(records, payloads) := r in
  let o := rq_origin q in
  match rq_method q, under "recordings" (rq_path q), under "blobs" (rq_path q) with
  | POST, Some [], _ =>
      match read (A := string * N * N) x64 (rq_body q) with
      | Some c => (answer 201 [], (create c o records, payloads))
      | None => (answer 400 [], r)
      end
  | GET, Some [id], _ => (serve_get records o id, r)
  | POST, Some [id; part], _ =>
      if str_eqb part "batches" then
        let '(response, records) := serve_batch records o id (rq_body q) in (response, (records, payloads))
      else (answer 404 [], r)
  | POST, Some [name], _ => (answer 200 [], (serve_seal records o name (rq_body q), payloads))
  | HEAD, _, Some [d] =>
      (match payloads !! (o, d) with Some _ => answer 200 [] | None => answer 404 [] end, r)
  | PUT, _, Some [d] =>
      let '(response, payloads) := serve_put payloads o d (rq_body q) in (response, (records, payloads))
  | _, _, _ => (answer 200 [], r)
  end.

(** What was received, and whether any of it is still held: an administrator can
    have all of it erased, after which nothing is served. *)
Definition platform_serve (r : Records * Payloads * bool) (q : Request)
    : option Response * (Records * Payloads * bool) :=
  let '(received, held) := r in
  if (held : bool) then let '(response, received) := ledger_serve received q in (response, (received, true))
  else (answer 410 [], r).
Definition erase_all (r : Records * Payloads * bool) : Records * Payloads * bool := (r.1, false).
Definition still_held (r : Records * Payloads * bool) (o id : string) : option Recording :=
  if r.2 then r.1.1 !! (o, id) else None.

#[export] Instance ledger : Platform := {| Remote := Records * Payloads * bool; serve := platform_serve |}.

(** The batches of a recording follow one another. *)
Definition covered (rec : Recording) : Prop :=
  forall n, rec_sequence_base rec < n <= rec_durable_seq rec ->
    exists b, b ∈ rec_batches rec /\ hd_first_seq b <= n <= hd_last_seq b.
Definition ledger_wf (r : Records * Payloads) : Prop :=
  (forall k rec, r.1 !! k = Some rec -> covered rec) /\
  (forall o d content, r.2 !! (o, d) = Some content -> hex_encode (sha256 content) = d).

#[export] Instance ledger_view : PlatformView := {|
  received_recording r o id := r.1.1 !! (o, id);
  received_payload r o d := r.1.2 !! (o, d);
  remote_wf r := ledger_wf r.1;
|}.

(** ** Its laws *)

Lemma recording_extends_refl rec : extends_recording rec rec.
Proof. by split. Qed.

Lemma add_batch_extends b rec : extends_recording rec (add_batch b rec).
Proof.
  unfold add_batch. destruct (_ && _) eqn:E; [|apply recording_extends_refl]. reflect_N.
  split; cbn; try done; [lia|]. intros x Hx. apply elem_of_app. by left.
Qed.
Lemma add_batch_covered b rec : covered rec -> covered (add_batch b rec).
Proof.
  unfold add_batch. destruct (_ && _) eqn:E; [|done]. reflect_N. intros Hc n Hn. cbn in *.
  destruct (decide (n <= rec_durable_seq rec)) as [Hl|Hl].
  - destruct (Hc n ltac:(lia)) as (x & Hx & Hr). exists x. split; [|done]. apply elem_of_app. by left.
  - exists b. split; [|lia]. apply elem_of_app. right. by apply list_elem_of_singleton.
Qed.
Lemma add_batch_new b rec x : x ∈ rec_batches (add_batch b rec) -> x ∈ rec_batches rec \/ x = b.
Proof.
  unfold add_batch. destruct (_ && _); [|by left]. cbn. intros [H|H]%elem_of_app; [by left|].
  right. by apply list_elem_of_singleton in H.
Qed.
Lemma seal_at_extends final rec : extends_recording rec (seal_at final rec).
Proof.
  unfold seal_at. destruct (_ && _) eqn:E; [|apply recording_extends_refl]. by split.
Qed.
Lemma seal_at_same final rec : rec_sequence_base (seal_at final rec) = rec_sequence_base rec /\
  rec_durable_seq (seal_at final rec) = rec_durable_seq rec /\ rec_batches (seal_at final rec) = rec_batches rec.
Proof. unfold seal_at. by destruct (_ && _). Qed.

Lemma decode_encodes body h raw : encodes body h raw -> decode_batch body = Some (held_of h raw).
Proof.
  intros (header & compressed & [= <-] & [= <-] & ->). unfold decode_batch.
  assert (split_line (write x68 h ++ [LF] ++ raw) = (write x68 h, raw)) as ->.
  { pose proof (write_no_LF x68 h ltac:(done)) as Hn. revert Hn. generalize (write x68 h). clear. intros line.
    induction line as [|b l IH]; intros Hn; [done|]. cbn.
    destruct (beqb b LF) eqn:E; [apply beqb_true in E; subst; by destruct Hn; left|].
    cbn in IH. rewrite IH; [done|]. intros H. apply Hn. by right. }
  pose proof (read_write x68 h [] ltac:(by left)) as Hr. rewrite app_nil_r in Hr. by rewrite Hr.
Qed.

(** What a request changes: nothing, one recording, or one payload. *)
Inductive change (r : Records * Payloads) (q : Request) : Records * Payloads -> Prop :=
| change_none : change r q r
| change_new id rec : r.1 !! (rq_origin q, id) = None -> covered rec -> rec_batches rec = [] ->
    change r q (<[(rq_origin q, id) := rec]> r.1, r.2)
| change_batch id rec b : r.1 !! (rq_origin q, id) = Some rec -> batch_request q id ->
    decode_batch (rq_body q) = Some b -> change r q (<[(rq_origin q, id) := add_batch b rec]> r.1, r.2)
| change_seal id rec final : r.1 !! (rq_origin q, id) = Some rec ->
    change r q (<[(rq_origin q, id) := seal_at final rec]> r.1, r.2)
| change_payload d : r.2 !! (rq_origin q, d) = None -> hex_encode (sha256 (rq_body q)) = d ->
    change r q (r.1, <[(rq_origin q, d) := rq_body q]> r.2).

Lemma under_some kind path rest : under kind path = Some rest -> path = "v1" :: kind :: rest.
Proof.
  destruct path as [|v [|k path]]; cbn; try done. destruct (_ && _) eqn:E; [|done]. intros [= <-].
  apply andb_prop in E as [Hv Hk]. apply str_eqb_true in Hv, Hk. by subst.
Qed.

Lemma serve_change r q a r' : ledger_serve r q = (a, r') -> change r q r'.
Proof.
  destruct r as [records payloads]. unfold ledger_serve, serve_batch, serve_seal, serve_put, create. intros H.
  repeat (case_match; simplify_eq; try by constructor).
  - apply (change_new (records, payloads)); [done| |done]. intros m Hm. cbn in Hm. lia.
  - apply (change_batch (records, payloads)); [done| |done].
    match goal with E : str_eqb _ "batches" = true |- _ => apply str_eqb_true in E; subst end.
    split; [done|]. by apply under_some.
  - match goal with E : str_eqb _ _ = true |- _ => apply str_eqb_true in E; subst end.
    by apply (change_payload (records, payloads)).
Qed.

Lemma change_wf r q r' : ledger_wf r -> change r q r' -> ledger_wf r'.
Proof.
  intros [Hr Hp] Hc. destruct Hc as [|id rec Hn Hcov He|id rec b Hs Hq Hb|id rec final Hs|d Hn Hd]; [done|..].
  4: { split; [done|]. cbn [fst snd]. intros o x content. rewrite lookup_insert_Some. intros [[[= <- <-] <-]|[_ H]]; [done|].
       by eapply Hp. }
  all: split; [|done]; cbn [fst snd]; intros k x; rewrite lookup_insert_Some; intros [[<- <-]|[_ H]]; try by eapply Hr.
  - done.
  - apply add_batch_covered. by eapply Hr.
  - destruct (seal_at_same final rec) as (Hb & Hd & Hl). unfold covered. rewrite Hb, Hd, Hl. by eapply Hr.
Qed.

Lemma change_keeps r q r' k rec : change r q r' -> r.1 !! k = Some rec ->
  exists rec', r'.1 !! k = Some rec' /\ extends_recording rec rec'.
Proof.
  intros Hc Hk. destruct Hc as [|id x Hn Hcov He|id x b Hs Hq Hb|id x final Hs|d Hn Hd]; cbn [fst snd];
    try (by exists rec; split; [|apply recording_extends_refl]);
    (destruct (decide ((rq_origin q, id) = k)) as [<-|Hne];
     [rewrite lookup_insert_eq|rewrite lookup_insert_ne by done;
      by exists rec; split; [|apply recording_extends_refl]]); rewrite Hk in *; simplify_eq.
  - eexists. split; [done|]. apply add_batch_extends.
  - eexists. split; [done|]. apply seal_at_extends.
Qed.

Lemma change_adds r q r' o id rec' b : change r q r' -> r'.1 !! (o, id) = Some rec' ->
  b ∈ rec_batches rec' ->
  (exists rec, r.1 !! (o, id) = Some rec /\ b ∈ rec_batches rec) \/
  (rq_origin q = o /\ batch_request q id /\ decode_batch (rq_body q) = Some b).
Proof.
  intros Hc Hk Hb. destruct Hc as [|i x Hn Hcov He|i x y Hs Hq Hy|i x final Hs|d Hn Hd];
    cbn [fst snd] in Hk; try (by left; exists rec');
    rewrite lookup_insert_Some in Hk; destruct Hk as [[[= <- <-] <-]|[_ Hk]]; try (by left; exists rec').
  - by rewrite He in Hb; apply elem_of_nil in Hb.
  - destruct (add_batch_new _ _ _ Hb) as [H| ->]; [left; by exists x|by right].
  - left. exists x. destruct (seal_at_same final x) as (_ & _ & Hl). by rewrite Hl in Hb.
Qed.

Lemma answer_read status body response : (status =? 204) || (status =? 304) = false ->
  read_response (mkResponse status [] [Some body]) = Ok response ->
  response = mkHttpResponse status [] body.
Proof.
  intros Hs. unfold read_response. cbn [rs_status rs_headers rs_chunks try_fold]. rewrite Hs.
  intros H. apply bind_ok in H as (x & H & [= <-]). apply bind_ok in H as (y & H & [= <-]).
  unfold read_chunk in H. cbn [ok_or mbind result_bind] in H. apply bind_ok in H as ([] & _ & [= <-]). done.
Qed.

Lemma wire_read_written {A} `{Countable A} tag (a b : A) : read tag (write tag a) = Some b -> b = a.
Proof.
  pose proof (read_write tag a [] ltac:(by left)) as Hr. rewrite app_nil_r in Hr. rewrite Hr. by intros [= ->].
Qed.

Lemma platform_change r q a r' : platform_serve r q = (a, r') ->
  change r.1 q r'.1 /\ (r.2 = false -> a = answer 410 []) /\ (r.2 = true -> ledger_serve r.1 q = (a, r'.1)).
Proof.
  destruct r as [received []]; cbn.
  - destruct (ledger_serve received q) as [response received'] eqn:E. intros [= <- <-].
    split; [by eapply serve_change|done].
  - intros [= <- <-]. split; [constructor|done].
Qed.

(** A truthful answer comes while the records are held. *)
Lemma answered r q ans r' response : platform_serve r q = (Some ans, r') -> read_response ans = Ok response ->
  hr_status response <> 410 -> ledger_serve r.1 q = (Some ans, r'.1).
Proof.
  intros (_ & Hf & Ht)%platform_change Hr Hs. destruct r.2; [by apply Ht|]. injection (Hf eq_refl) as ->.
  by apply answer_read in Hr as ->.
Qed.

#[export] Instance ledger_laws : PlatformLaws.
Proof.
  split; cbn [received_recording received_payload remote_wf ledger_view serve ledger].
  - intros r q a r' Hw [H _]%platform_change. by eapply change_wf.
  - intros r q a r' o id rec _ [H _]%platform_change. by apply change_keeps with (q := q).
  - intros r q a r' o d _ [H _]%platform_change [content Hd]. destruct H; cbn [fst snd]; try by exists content.
    rewrite lookup_insert_is_Some'. right. by exists content.
  - intros r q a r' o id rec' b _ [H _]%platform_change _ Hr Hb.
    destruct (change_adds _ _ _ _ _ _ _ H Hr Hb) as [?|(Ho & Hq & Hd)]; [by left|right].
    split; [done|]. split; [done|]. intros h raw He%decode_encodes. congruence.
  - intros r o id rec n [Hc _] Hr. by apply Hc with (k := (o, id)).
  - intros r o d content [_ Hp] Hd. by eapply Hp.
  - intros r q ans r' id response rr _ H Hm Hp Hr Hs Hrr _.
    eapply answered in H; [|done|by rewrite Hs]. destruct r.1 as [records payloads], r'.1 as [records' payloads'].
    unfold ledger_serve in H. rewrite Hm, Hp in H.
    change (under "recordings" ["v1"; "recordings"; id]) with (Some [id]) in H. injection H as H <- <-.
    unfold serve_get in H. cbn [fst]. destruct (records !! _) as [rec|]; injection H as <-;
      apply answer_read in Hr as ->; try done. exists rec. split; [done|].
    rewrite (wire_read_written x66 _ _ Hrr). by split.
  - intros r q ans r' id response ack _ H [Hm Hp] Hr Hs Hack.
    eapply answered in H; [|done|by rewrite Hs]. destruct r.1 as [records payloads], r'.1 as [records' payloads'].
    unfold ledger_serve, serve_batch in H. rewrite Hm, Hp in H.
    change (under "recordings" ["v1"; "recordings"; id; "batches"]) with (Some [id; "batches"]) in H.
    change (str_eqb "batches" "batches") with true in H. cbv iota in H. cbn [fst].
    destruct (records !! _) as [rec|]; [destruct (decode_batch _) as [b|]|]; injection H as <- <- <-;
      apply answer_read in Hr as ->; try done.
    exists (add_batch b rec). cbn [fst]. rewrite lookup_insert_eq. split; [done|].
    rewrite (wire_read_written x67 _ _ Hack). done.
  - intros r q ans r' d response _ H Hm Hp Hr Hs.
    eapply answered in H; [|done|by rewrite Hs]. destruct r.1 as [records payloads], r'.1 as [records' payloads'].
    unfold ledger_serve in H. rewrite Hm, Hp in H.
    change (under "blobs" ["v1"; "blobs"; d]) with (Some [d]) in H.
    injection H as H <- <-; cbn [snd];
      (destruct (payloads !! _); [done|]); injection H as <-;
      (apply answer_read in Hr as ->; [|done]); by cbn in Hs.
  - intros r q ans r' d response _ H Hm Hp Hr Hs.
    eapply answered in H; [|done|by destruct Hs as [-> | ->]].
    destruct r.1 as [records payloads], r'.1 as [records' payloads'].
    unfold ledger_serve, serve_put in H. rewrite Hm, Hp in H.
    change (under "blobs" ["v1"; "blobs"; d]) with (Some [d]) in H.
    assert (forall o, is_Some ((match payloads !! (o, d) with
      | Some _ => payloads | None => <[(o, d) := rq_body q]> payloads end) !! (o, d))) as Hin.
    { intros o. destruct (payloads !! _) eqn:E; [by rewrite E|]. by rewrite lookup_insert_eq. }
    cbv iota in H. destruct (str_eqb _ d); injection H as <- <- <-;
      try apply Hin; (apply answer_read in Hr as ->; [|done]); by destruct Hs.
Qed.

(** ** The seal of an active run *)

Definition lines : list bytes := InspectExamples.call_lines.
Definition events : list EventEnvelope := InspectExamples.call.

(** The four events of the run and their lines. *)
#[export] Instance serde_call : Serde := {|
  encrypted_event_to_vec _ := None;
  encrypted_event_from_slice _ := None;
  envelope_to_vec e := lines !! pred (N.to_nat (ev_sequence e));
  envelope_from_slice b :=
    snd <$> List.find (fun entry => bool_decide (entry.1 ++ [LF] = b)) (zip lines events);
  value_from_slice _ := None;
|}.
#[export] Instance serde_blocks : SerdeBlock := {| block_to_vec _ := None; block_from_slice _ := None |}.
#[export] Instance serde_erasures : SerdeErasure := {| erasure_to_vec _ := None; erasure_from_slice _ := None |}.
#[export] Instance url_crate : UrlCrate := {|
  Url := unit; url_parse _ := Some tt; url_host_str _ := Some "api"; url_username _ := "";
  url_password _ := None; url_query _ := None; url_fragment _ := None; url_path _ := "/";
  url_scheme _ := "https"; url_set_path u _ := u; url_to_string _ := "https://api/";
|}.

Definition before : World :=
  mkWorld InspectExamples.manifest_file InspectExamples.call_log InspectExamples.dir None false (∅, ∅, true) 0 [].
Definition options : UploadOptions :=
  mkUploadOptions tt (Some (384, as_bytes "0123456789abcdef0123456789abcdef")) None false 0 None None.
Definition seal : Operation := UploadActive 4 options true None.

Definition run_seal : outcome unit * (World * nat) := perform seal (before, 100%nat).
Definition sealed : World := run_seal.2.1.

(** After the seal the platform erases all of it. *)
Definition after : World := sealed <| w_remote ::= erase_all |>.

Lemma triple_eta {A B C} (p : A * (B * C)) : p = (p.1, (p.2.1, p.2.2)).
Proof. by destruct p as [? []]. Qed.
Lemma before_manifest : read_manifest (w_manifest before) = Ok plain.
Proof. vm_compute. reflexivity. Qed.
Lemma before_stream : read_stream (w_events before) "run" None = Ok (stream events).
Proof. vm_compute. reflexivity. Qed.

Lemma before_recorded : recorded "run" before events.
Proof.
  split; [by vm_compute|intros m Hm|intros m provided key st Hm Hk Hst];
    rewrite before_manifest in Hm; injection Hm as <-; [reflexivity|].
  injection Hk as <-. rewrite before_stream in Hst. by injection Hst as <-.
Qed.

Lemma before_pristine : pristine "run" before.
Proof.
  split; [reflexivity..| |intros o k; apply lookup_empty].
  split; intros *; cbn [fst snd before w_remote]; by rewrite lookup_empty.
Qed.

Lemma sealed_reached : evolves "run" (before, events) (sealed, events).
Proof.
  exact (evolves_operation _ _ _ seal _ _ _ _ _ _ (triple_eta run_seal) (evolves_refl _ _ _)).
Qed.
Lemma reached_wf w es : evolves "run" (before, events) (w, es) -> remote_wf (w_remote w).
Proof.
  intros H. destruct (evolves_inv _ _ _ H (pristine_inv _ _ _ before_recorded before_pristine)) as [_ Hi].
  exact (iv_wf _ _ _ _ _ Hi).
Qed.
Lemma after_reached : evolves "run" (before, events) (after, events).
Proof.
  refine (evolves_operation _ _ _ seal _ _ _ _ _ _ (triple_eta run_seal)
    (evolves_platform _ _ _ (erase_all (w_remote sealed)) _ _ (reached_wf _ _ sealed_reached) _ (fun _ _ => eq_refl) (evolves_refl _ _ _))).
  split; [|done]. intros o id rec Hr. exists rec. split; [exact Hr|apply recording_extends_refl].
Qed.

Definition files : Spool := default ∅ (w_spool after).
Lemma after_spool : w_spool after = Some files.
Proof.
  assert (bool_decide (is_Some (w_spool after)) = true) as H by (vm_compute; reflexivity).
  apply bool_decide_eq_true in H as [f Hf]. unfold files. by rewrite Hf.
Qed.

(** The gate opens on what was delivered, although nothing of it is held. *)
Lemma retention_gate_sound_witness :
  (forall o id, still_held (w_remote after) o id = None) /\
  exists origins, list_upload_origins files "run" = Ok origins /\ origins <> [] /\
    forall o, o ∈ origins -> forall n, 1 <= n <= 4 -> uploaded "run" (w_remote after) o events n.
Proof.
  split; [intros; reflexivity|].
  refine (retention_gate_sound "run" before events after events 4 files before_recorded before_pristine
    after_reached after_spool _).
  vm_compute. reflexivity.
Defined.
End UploadExamples.
