(* ===== verification/UploadPrivacy.v ===== *)
(** * What uploads send

    That no upload, flush, seal or backfill sends a packet capture or a TLS
    secret, whatever the spool holds when it starts and whatever the platform
    answers: the plans of earlier versions are cleared of them before any
    request, and new plans leave them out. *)

From Stdlib Require Import Strings.Byte.
From S2P Require Import Prelude RustStd Proc External Json Input Model ProbePlan Policy Crypto EventLog EventLogSpec Manifest Timeline BlobStore BlobStoreSpec Inspect InspectSpec UploadState UploadStateSpec Platform Upload UploadSpec UploadExamples.
From stdpp Require Import pretty options.
Local Open Scope N_scope.
#[local] Unset Default Proof Using.

(** ** Plans *)

Definition ordinary_plan (p : BlobPlan) : Prop := is_sensitive_upload_media_type (bp_media_type p) = false.
Definition ordinary_batch (b : BatchPlan) : Prop := Forall ordinary_plan (ba_blobs b).
Definition ordinary_state (s : UploadState) : Prop := Forall ordinary_batch (us_batches s).

Lemma omit_ordinary s : ordinary_state (omit_sensitive_blob_plans s).
Proof.
  unfold ordinary_state, omit_sensitive_blob_plans. cbn. apply Forall_fmap, Forall_true. intros b.
  apply Forall_forall. intros p Hp. cbn in Hp. apply list_elem_of_In, List.filter_In in Hp as [_ Hp].
  by apply negb_true_iff.
Qed.

Section Plans.
Context {dig : Digest} {hx : Hex} {zstd : Zstd} {serde : Serde} {serdeu : SerdeUpload} {url : UrlCrate}.

Lemma load_or_new_ordinary files path run_id id o segment first target created updated s :
  load_or_new files path run_id id o segment first target created updated = Ok s -> ordinary_state s.
Proof.
  unfold load_or_new. intros (s0 & _ & H)%bind_ok. cbn zeta in H. apply bind_ok in H as ([] & _ & H).
  apply bind_ok in H as (planned & _ & [= <-]). apply omit_ordinary.
Qed.

Lemma load_chain_ordinary files o run_id available segments : load_segment_chain files o run_id available = Ok segments ->
  Forall (fun item => ordinary_state (sg_state item)) segments.
Proof.
  intros [Hl _]%load_segment_chain_ok. eapply Forall_impl; [exact Hl|]. intros item [(s & _ & ->) _ _].
  apply omit_ordinary.
Qed.

(** The plans being made. *)
Definition ordinary_planning (p : Planning) : Prop :=
  Forall ordinary_batch (pl_batches p) /\ Forall (fun entry => ordinary_plan entry.2) (pl_blobs p).

Lemma add_blob_plan_ordinary blobs r blobs' : add_blob_plan blobs r = Ok blobs' ->
  Forall (fun entry => ordinary_plan entry.2) blobs -> Forall (fun entry => ordinary_plan entry.2) blobs'.
Proof.
  unfold add_blob_plan. destruct r as [r|]; [|by intros [= <-]].
  destruct (is_sensitive_upload_media_type (ref_media_type r)) eqn:E; [by intros [= <-]|].
  intros (sha & _ & H)%bind_ok Hb. destruct (map_get sha blobs).
  - by apply bind_ok in H as ([] & _ & [= <-]).
  - injection H as <-. by apply map_insert_Forall.
Qed.

Lemma finish_plan_ordinary first last count raw blobs previous now b :
  finish_plan first last count raw blobs previous now = Ok b ->
  Forall (fun entry => ordinary_plan entry.2) blobs -> ordinary_batch b.
Proof.
  unfold finish_plan. intros ([] & _ & H)%bind_ok Hb. apply bind_ok in H as ([] & _ & [= <-]).
  by apply Forall_fmap.
Qed.

Lemma plan_event_ordinary now p e p' : plan_event now p e = Ok p' -> ordinary_planning p -> ordinary_planning p'.
Proof.
  unfold plan_event. intros ([] & _ & H)%bind_ok Hp. apply bind_ok in H as (expected & _ & H).
  apply bind_ok in H as (line & _ & H). apply bind_ok in H as ([] & _ & H).
  apply bind_ok in H as (p1 & Hp1 & H). apply bind_ok in H as (blobs & Hb & [= <-]).
  assert (ordinary_planning p1) as [H1 H2]; [|by split; [|eapply add_blob_plan_ordinary]].
  destruct (_ && _); [|by injection Hp1 as <-]. unfold close_batch in Hp1.
  apply bind_ok in Hp1 as (b & Hfin & Hp1). apply bind_ok in Hp1 as ([] & _ & [= <-]). destruct Hp as [H1 H2].
  split; [|constructor]. apply Forall_app. split; [done|]. constructor; [|done]. by eapply finish_plan_ordinary.
Qed.

Lemma plan_events_ordinary first last now reader : forall p p',
  plan_events first last now p reader = Ok p' -> ordinary_planning p -> ordinary_planning p'.
Proof.
  induction reader as [|event reader IH]; intros p p' H Hp; [by injection H as <-|].
  cbn [plan_events] in H. apply bind_ok in H as (e & _ & H). destruct (_ <? first); [by eapply IH|].
  destruct (last <? _); [by injection H as <-|]. apply bind_ok in H as (p1 & Hp1 & H).
  eapply IH; [done|]. by eapply plan_event_ordinary.
Qed.

Lemma extend_ordinary s reader target now s' : extend_state_to s reader target now = Ok s' ->
  ordinary_state s -> ordinary_state s'.
Proof.
  unfold extend_state_to. cbn zeta. destruct (_ =? target); [by intros [= <-]|].
  intros ([] & _ & H)%bind_ok Hs. apply bind_ok in H as ([] & _ & H). apply bind_ok in H as (first & _ & H).
  apply bind_ok in H as (more & Hm & H). apply bind_ok in H as ([] & _ & [= <-]).
  unfold build_batch_plans_range in Hm. apply bind_ok in Hm as ([] & _ & Hm). apply bind_ok in Hm as (p & Hp & Hm).
  apply plan_events_ordinary in Hp as [H1 H2]; [|by split].
  apply bind_ok in Hm as (batches & Hf & Hm). do 3 apply bind_ok in Hm as ([] & _ & Hm). injection Hm as <-.
  apply Forall_app. split; [done|]. unfold finish_planning in Hf. destruct (0 <? _); [|by injection Hf as <-].
  apply bind_ok in Hf as (b & Hb & [= <-]). apply Forall_app. split; [done|]. constructor; [|done].
  by eapply finish_plan_ordinary.
Qed.

Lemma reconcile_ordinary s rr now s' : reconcile_remote s rr now = Ok s' -> ordinary_state s -> ordinary_state s'.
Proof.
  unfold reconcile_remote. cbn zeta. intros H Hs. do 4 apply bind_ok in H as ([] & _ & H). by injection H as <-.
Qed.
End Plans.

(** ** Requests *)

Section Requests.
Context {dig : Digest} {hx : Hex} {b64 : Base64} {aead : Aead} {zstd : Zstd} {http : Http}
  {serde : Serde} {serdeb : SerdeBlock} {serdem : SerdeManifest} {serdee : SerdeErasure}
  {serdeu : SerdeUpload} {wire : SerdeWire} {url : UrlCrate} {crates : ClientCrates}
  {platform : Platform} {clock : Clock}.

(** The payload files of the run and the requests sent before. *)
Context (dir : RunDir) (before : list Request).

(** A payload in a request was read as one that is neither a packet capture nor
    a TLS secret, and is sent under the digest of its content. *)
Definition payload_ok (q : Request) : Prop :=
  rq_method q = PUT -> exists d size media key,
    media <> Some PCAP_MEDIA_TYPE /\ media <> Some TLS_SECRETS_MEDIA_TYPE /\ from_media_type media = Body /\
    rq_path q = ["v1"; "blobs"; d] /\ hex_encode (sha256 (rq_body q)) = d /\
    read_blob_reference dir (mkPayloadRef ("sha256:" +:+ d) size media false) key MAX_SINGLE_BLOB_BYTES
      = Ok (rq_body q).

Definition safe (w : World) : Prop :=
  w_dir w = dir /\ exists sent, w_sent w = before ++ sent /\ Forall payload_ok sent.

(** From a safe world the procedure leaves safe ones, and [Q] holds of its
    result. *)
Definition sends {A} (c : Proc.proc World A) (Q : A -> Prop) : Prop :=
  holds safe c safe (fun a w => safe w /\ Q a).

Lemma sends_bind {A B} (R : A -> Prop) (Q : B -> Prop) (c : Proc.proc World A) (k : A -> Proc.proc World B) :
  sends c R -> (forall a, R a -> sends (k a) Q) -> sends (c ≫= k) Q.
Proof.
  intros Hc Hk. eapply holds_bind; [exact Hc|]. intros a. apply (holds_pure (R a)); [by intros w []|].
  intros HR. eapply holds_before; [|by apply Hk]. by intros w [].
Qed.

Lemma sends_weaken {A} (R Q : A -> Prop) c : sends c R -> (forall a, R a -> Q a) -> sends c Q.
Proof. intros H HR. eapply holds_conseq; [done| |exact H]. intros a w [Hw Ha]. auto. Qed.

Lemma sends_ret {A} (Q : A -> Prop) a : Q a -> sends (mret a) Q.
Proof. intros H. by apply holds_ret. Qed.

Lemma sends_lift {A} (r : result string A) : sends (lift r) (fun a => r = Ok a).
Proof. by apply holds_lift. Qed.

Lemma sends_look {A} (f : World -> result string A) : sends (look f) (fun a => exists w, safe w /\ f w = Ok a).
Proof. eapply holds_conseq; [done| |by apply (holds_look safe)]. cbn. intros a w [Hw Ha]. split; [done|]. by exists w. Qed.

Lemma sends_any {A} (Q : A -> Prop) c : sends c Q -> sends c (fun _ => True).
Proof. intros H. by eapply sends_weaken. Qed.

Lemma sends_spool f : (forall w w', f w = Ok w' -> w_dir w' = w_dir w /\ w_sent w' = w_sent w) ->
  sends (update f) (fun _ => True).
Proof.
  intros Hf. apply (holds_update safe safe (fun w => safe w /\ True)); [done|]. intros w w' [Hd Hs] H. destruct (Hf _ _ H) as [Hd' Hs'].
  assert (safe w') as Hw; [|done]. unfold safe. by rewrite Hd', Hs'.
Qed.

Lemma sends_advance {A} (f : World -> A * World) :
  (forall w, w_dir (f w).2 = w_dir w /\ w_sent (f w).2 = w_sent w) -> sends (advance_world f) (fun _ => True).
Proof.
  intros Hf. apply holds_advance. intros w a w' [Hd Hs] H. destruct (Hf w) as [Hd' Hs']. rewrite H in Hd', Hs'.
  assert (safe w') as Hw; [|done]. unfold safe. cbn in *. by rewrite Hd', Hs'.
Qed.

Lemma sends_utc : sends utc_now (fun _ => True).
Proof. by apply sends_advance. Qed.
Lemma sends_instant : sends instant_now (fun _ => True).
Proof. by apply sends_advance. Qed.

Lemma sends_repeat {St A} (P : St -> Prop) (Q : A -> Prop) (body : St -> Proc.proc World (St + A)) s :
  (forall s, P s -> sends (body s) (fun x => match x with inl s' => P s' | inr a => Q a end)) -> P s ->
  sends (repeat_until body s) Q.
Proof.
  intros H HP. eapply holds_before; [|apply (holds_repeat (fun s w => safe w /\ P s)); [by intros ? w []|]].
  - by intros w Hw.
  - intros s'. apply (holds_pure (P s')); [by intros w []|]. intros Hs.
    eapply holds_conseq; [| |exact (H s' Hs)]; [by intros w []|]. by intros [].
Qed.

Lemma sends_fold {A B} (P : A -> Prop) (f : A -> B -> Proc.proc World A) l a :
  (forall a b, b ∈ l -> P a -> sends (f a b) P) -> P a -> sends (fold_proc f a l) P.
Proof.
  intros H HP. eapply holds_before; [|apply (holds_fold (fun a w => safe w /\ P a)); [by intros ? w []|]].
  - by intros w Hw.
  - intros a' b Hb. apply (holds_pure (P a')); [by intros w []|]. intros Ha.
    eapply holds_before; [|by apply H]. by intros w [].
Qed.

(** What goes on without regard to its result. *)
Ltac go := repeat lazymatch goal with
  | |- sends (mret _) _ => by apply sends_ret
  | |- sends (lift _ ≫= _) _ => eapply sends_bind; [|let H := fresh "R" in intros ? H]
  | |- sends (look _ ≫= _) _ => eapply sends_bind; [|let H := fresh "R" in intros ? H]
  | |- sends (_ ≫= _) _ => eapply (sends_bind (fun _ => True)); [|intros ? _]
  | |- sends (lift _) (fun _ => True) => eapply sends_any, sends_lift
  | |- sends (lift _) _ => apply sends_lift
  | |- sends (look _) (fun _ => True) => eapply sends_any, sends_look
  | |- sends (look _) _ => apply sends_look
  | |- sends utc_now _ => apply sends_utc
  | |- sends instant_now _ => apply sends_instant
  | |- sends (if _ then _ else _) _ => case_match
  | |- sends (match ?x with _ => _ end) _ => destruct x
  | |- sends (let _ := _ in _) _ => cbv zeta
  end.

Lemma sends_send q : payload_ok q -> sends (send q) (fun _ => True).
Proof.
  intros Hq. apply holds_exchange; [done|]. intros w x w' [Hd (sent & Hs & Hf)] H.
  destruct (serve (w_remote w) q) as [answer r']. injection H as <- <-.
  assert (safe (w <| w_remote := r' |> <| w_sent ::= fun sent => sent ++ [q] |>)) as Hw; [|by split].
  split; [done|]. exists (sent ++ [q]). cbn. rewrite Hs, app_assoc. split; [done|]. apply Forall_app. by split; [|constructor].
Qed.

Lemma sends_retry_delay c started attempt after : sends (retry_delay c started attempt after) (fun _ => True).
Proof. unfold retry_delay, elapsed. go. Qed.

Lemma sends_request c method path headers body :
  payload_ok (mkRequest method (pc_origin c) path (("authorization", pc_authorization c) :: headers) body) ->
  sends (request c method path headers body) (fun _ => True).
Proof.
  intros Hq. unfold request. eapply sends_bind; [apply sends_instant|]. intros started _.
  apply (sends_repeat (fun _ => True)); [|done]. intros attempt _. unfold try_request.
  eapply sends_bind; [by apply sends_send|]. intros [response|] _; cbv zeta.
  - eapply sends_bind; [apply sends_lift|]. intros hr _. destruct (negb _); [by apply sends_ret|].
    eapply sends_bind; [apply sends_retry_delay|]. intros [delay|] _; by apply sends_ret.
  - eapply sends_bind; [apply sends_retry_delay|]. intros [delay|] _; [by apply sends_ret|].
    eapply sends_weaken; [apply sends_lift|done].
Qed.

(** A request with another method. *)
Lemma sends_other c method path headers body : method <> PUT ->
  sends (request c method path headers body) (fun _ => True).
Proof. intros Hm. apply sends_request. intros E. by destruct Hm. Qed.

Lemma sends_register c m id : sends (register c m id) (fun _ => True).
Proof. unfold register. go. by apply sends_other. Qed.

Lemma sends_heartbeat c id s m final rejected : sends (heartbeat c id s m final rejected) (fun _ => True).
Proof. unfold heartbeat, acked_lag. go; try by apply sends_other. Qed.

Lemma sends_create c m id segment base : sends (create_recording c m id segment base) (fun _ => True).
Proof. unfold create_recording. go. by apply sends_other. Qed.

Lemma sends_get c id : sends (get_recording c id) (fun _ => True).
Proof. unfold get_recording. go. by apply sends_other. Qed.

Lemma sends_batch c id b body : sends (upload_batch c id b body) (fun _ => True).
Proof. unfold upload_batch. go. by apply sends_other. Qed.

Lemma sends_seal c id final m run_final : sends (seal_recording c id final m run_final) (fun _ => True).
Proof. unfold seal_recording. go. by apply sends_other. Qed.

(** The payload of an ordinary plan. *)
Lemma sends_ensure_blob c plan key force : ordinary_plan plan ->
  sends (ensure_blob c plan key force) (fun _ => True).
Proof.
  intros Hp. unfold ensure_blob. eapply (sends_bind (fun _ => True)).
  { destruct force; [by apply sends_ret|]. unfold blob_present. go. by apply sends_other. }
  intros [] _; [by apply sends_ret|]. eapply sends_bind; [apply sends_look|].
  intros content (w & [Hd _] & Hread). apply map_err_ok in Hread. rewrite Hd in Hread. cbv zeta.
  eapply sends_bind; [apply sends_lift|]. intros [] _.
  eapply sends_bind; [apply sends_request|intros hr _; eapply sends_any, sends_lift].
  intros _. exists (bp_sha256 plan), (bp_size plan), (bp_media_type plan), key.
  unfold ordinary_plan, is_sensitive_upload_media_type in Hp.
  assert (from_media_type (bp_media_type plan) = Body) as Hb.
  { unfold from_media_type. destruct (bp_media_type plan) as [t|]; [|done].
    apply orb_false_iff in Hp as [H1 H2]. unfold PCAP_MEDIA_TYPE, TLS_SECRETS_MEDIA_TYPE in *. by rewrite H1, H2. }
  split_and!; try done; try (intros E; rewrite E in Hb; by vm_compute in Hb).
  destruct (read_blob_checked _ _ _ _ _ Hread) as [_ Hsha].
  assert (str_strip_prefix "sha256:" ("sha256:" +:+ bp_sha256 plan) = Some (bp_sha256 plan)) as Hpre
    by (by apply str_strip_prefix_spec).
  cbn [ref_sha256] in Hsha. rewrite Hpre in Hsha. by injection Hsha.
Qed.

(** ** States *)

Lemma sends_save path s : sends (save path s) (fun _ => True).
Proof. apply sends_spool. intros w w' H. by apply bind_ok in H as (files & _ & [= <-]). Qed.
Lemma sends_prepare : sends prepare_spool (fun _ => True).
Proof. apply sends_spool. by intros w w' [= <-]. Qed.
Lemma sends_lock : sends lock_state (fun _ => True).
Proof. unfold lock_state. go. apply sends_spool. by intros w w' [= <-]. Qed.

Lemma sends_load c run_id o target : sends (load_or_create_state c run_id o target) ordinary_state.
Proof.
  unfold load_or_create_state. eapply sends_bind; [apply sends_utc|]. intros created _.
  eapply sends_bind; [apply sends_utc|]. intros updated _. eapply sends_bind; [apply sends_look|].
  intros s (w & _ & Hs%load_or_new_ordinary). eapply sends_bind; [apply sends_save|]. intros [] _. by apply sends_ret.
Qed.

Lemma sends_extend s key target : ordinary_state s -> sends (extend_state s key target) ordinary_state.
Proof.
  intros Hs. unfold extend_state, open_stream. destruct (_ =? target); [by apply sends_ret|].
  eapply sends_bind; [apply sends_look|]. intros reader _. eapply sends_bind; [apply sends_utc|]. intros now _.
  eapply sends_weaken; [apply sends_lift|]. cbn. intros s' H. by eapply extend_ordinary.
Qed.

Lemma sends_declare x c s : ordinary_state s -> sends (declare_recording x c s) ordinary_state.
Proof.
  intros Hs. unfold declare_recording. eapply sends_bind; [apply sends_create|]. intros [] _.
  eapply sends_bind; [apply sends_get|]. intros rr _. eapply sends_bind; [apply sends_utc|]. intros now _.
  eapply sends_bind; [apply sends_lift|]. intros s' H. eapply sends_bind; [apply sends_save|]. intros [] _.
  apply sends_ret. eapply reconcile_ordinary; [exact H|done].
Qed.

Lemma sends_next_segment x target a : ordinary_state a.2 -> sends (next_open_segment x target a)
  (fun next => match next with inl a' => ordinary_state a'.2 | inr a' => ordinary_state a'.2 end).
Proof.
  destruct a as [c s]. cbn. intros Hs. unfold next_open_segment.
  eapply sends_bind; [by apply sends_declare|]. intros s1 Hs1. cbv zeta. destruct (_ || _); [by apply sends_ret|].
  eapply sends_bind; [apply sends_lift|]. intros [] _. eapply sends_bind; [apply sends_lift|].
  intros [segment first] _. eapply sends_bind; [apply sends_load|]. intros s2 Hs2.
  eapply sends_bind; [apply sends_utc|]. intros now _. eapply sends_bind; [apply sends_save|]. intros [] _.
  by apply sends_ret.
Qed.

Lemma sends_plan x target c s : ordinary_state s -> sends (plan_upload x target c s) (fun a => ordinary_state a.2).
Proof.
  intros Hs. unfold plan_upload. eapply sends_bind; [apply sends_utc|]. intros now _. cbv zeta.
  eapply sends_bind; [apply sends_save|]. intros [] _. eapply sends_bind.
  { apply (sends_repeat (fun a => ordinary_state a.2) (fun a => ordinary_state a.2)); [|done].
    intros a Ha. by apply sends_next_segment. }
  intros [c1 s1] Hs1. cbn in Hs1. eapply (sends_bind ordinary_state).
  { destruct (us_sealed s1); [|by apply sends_extend].
    eapply sends_bind; [apply sends_lift|]. intros [] _. by apply sends_ret. }
  intros s2 Hs2. eapply sends_bind; [apply sends_lift|]. intros [] _.
  eapply sends_bind; [apply sends_save|]. intros [] _. by apply sends_ret.
Qed.

(** ** The loops over the batches *)

Lemma sends_blobs x force sent b : ordinary_batch b -> sends (send_blobs x force sent b) (fun _ => True).
Proof.
  intros Hb. apply (sends_fold (fun _ => True)); [|done]. intros sent' blob Hin _. case_decide; [by apply sends_ret|].
  eapply sends_bind; [apply sends_ensure_blob|intros [] _; by apply sends_ret].
  unfold ordinary_batch in Hb. rewrite Forall_forall in Hb. by apply Hb.
Qed.

Lemma sends_send_batch x o final target path a b : ordinary_batch b ->
  sends (send_batch x o final target path a b) (fun _ => True).
Proof.
  intros Hb. unfold send_batch, heartbeat_if_due, post_batch, send_heartbeat, elapsed.
  go; first [apply sends_heartbeat|by apply sends_blobs|apply sends_batch|apply sends_save].
Qed.

Lemma sends_send_batches x o final target path s : ordinary_state s ->
  sends (send_batches x o final target path s) (fun _ => True).
Proof.
  intros Hs. unfold send_batches, open_stream. go. apply (sends_fold (fun _ => True)); [|done].
  intros a' b Hin _. apply sends_send_batch. unfold ordinary_state in Hs. rewrite Forall_forall in Hs. by apply Hs.
Qed.

Lemma sends_seal_segment x path s target run_final : sends (seal_segment x path s target run_final) (fun _ => True).
Proof. unfold seal_segment. go; first [apply sends_seal|apply sends_get|apply sends_save]. Qed.

Lemma sends_resend x s selected acc b : ordinary_batch b -> sends (resend_batch x s selected acc b) (fun _ => True).
Proof.
  intros Hb. destruct acc as [[reader repaired] resent]. unfold resend_batch.
  go; first [by apply sends_blobs|apply sends_batch].
Qed.

(** ** The operations *)

Lemma sends_connect o m key origin id : sends (connect o m key origin id) (fun _ => True).
Proof. unfold connect. go. apply sends_register. Qed.

Lemma use_collector_ordinary o s : ordinary_state s -> ordinary_state (use_collector o s).
Proof. unfold use_collector. by destruct (o_collector_id o). Qed.

Lemma sends_upload_run o : sends (upload_run o) (fun _ => True).
Proof.
  unfold upload_run, open_source, inspect. cbv zeta.
  eapply sends_bind; [apply sends_lift|]. intros [] _. eapply sends_bind; [apply sends_look|]. intros [m key] _.
  eapply sends_bind; [apply sends_look|]. intros i _. eapply sends_bind; [apply sends_lift|]. intros [] _.
  eapply sends_bind; [apply sends_prepare|]. intros [] _. eapply sends_bind; [apply sends_lock|]. intros [] _.
  eapply sends_bind; [apply sends_look|]. intros [states c] _. eapply sends_bind; [apply sends_load|]. intros s Hs.
  eapply sends_bind; [apply sends_lift|]. intros planned _. eapply sends_bind; [apply sends_connect|]. intros x _.
  eapply sends_bind; [by apply sends_plan, use_collector_ordinary|]. intros [c1 s1] Hs1. cbn in Hs1.
  eapply sends_bind; [by apply sends_send_batches|]. intros a _. unfold finish_upload, send_heartbeat.
  go; first [apply sends_heartbeat|apply sends_seal_segment].
Qed.

Lemma sends_upload_active boundary o seal expected : sends (upload_active_segment boundary o seal expected) (fun _ => True).
Proof.
  unfold upload_active_segment, open_source, active_cursor. cbv zeta.
  do 3 (eapply sends_bind; [apply sends_lift|intros [] _]). eapply sends_bind; [apply sends_look|]. intros [m key] _.
  eapply sends_bind; [apply sends_lift|]. intros [] _.
  eapply sends_bind; [apply sends_prepare|]. intros [] _. eapply sends_bind; [apply sends_lock|]. intros [] _.
  eapply sends_bind; [apply sends_look|]. intros c _. eapply sends_bind; [apply sends_load|]. intros s Hs.
  eapply sends_bind; [apply sends_connect|]. intros x _.
  eapply sends_bind; [by apply sends_plan, use_collector_ordinary|]. intros [c1 s1] Hs1. cbn in Hs1.
  eapply sends_bind; [by apply sends_send_batches|]. intros a _. unfold send_heartbeat.
  eapply sends_bind; [apply sends_lift|]. intros [] _.
  eapply (sends_bind (fun _ => True)); [destruct (_ && _); [apply sends_seal_segment|by apply sends_ret]|].
  intros s2 _. go. apply sends_heartbeat.
Qed.

Lemma sends_backfill id first last o : sends (backfill_run id first last o) (fun _ => True).
Proof.
  unfold backfill_run, open_source. cbv zeta.
  do 2 (eapply sends_bind; [apply sends_lift|intros [] _]). eapply sends_bind; [apply sends_look|]. intros [m key] _.
  eapply (sends_bind (fun _ => True)); [unfold backfill_available, inspect; go|]. intros available _.
  eapply sends_bind; [apply sends_prepare|]. intros [] _. eapply sends_bind; [apply sends_lock|]. intros [] _.
  eapply sends_bind; [apply sends_look|]. intros segments (w & _ & Hl%load_chain_ordinary).
  eapply sends_bind; [apply sends_lift|]. intros item Hi. apply ok_or_ok, List.find_some in Hi as [Hi _].
  rewrite Forall_forall in Hl. specialize (Hl item (proj2 (list_elem_of_In _ _) Hi)).
  eapply sends_bind; [apply sends_lift|]. intros [] _. eapply sends_bind; [apply sends_connect|]. intros x _.
  eapply sends_bind; [by apply sends_declare, (use_collector_ordinary o)|]. intros s Hs.
  eapply sends_bind; [apply sends_lift|]. intros [[selected f] l] _. eapply sends_bind; [apply sends_look|].
  intros reader _. eapply sends_bind.
  { apply (sends_fold (fun _ => True)); [|done]. intros acc b Hin _. apply sends_resend.
    unfold ordinary_state in Hs. rewrite Forall_forall in Hs. by apply Hs. }
  intros [[reader' repaired] resent] _. unfold send_heartbeat. go. apply sends_heartbeat.
Qed.
End Requests.

Section Operations.
Context {dig : Digest} {hx : Hex} {b64 : Base64} {aead : Aead} {zstd : Zstd} {http : Http}
  {serde : Serde} {serdeb : SerdeBlock} {serdem : SerdeManifest} {serdee : SerdeErasure}
  {serdeu : SerdeUpload} {wire : SerdeWire} {url : UrlCrate} {crates : ClientCrates}
  {platform : Platform} {clock : Clock}.

(** C12: an upload, a flush, a seal or a backfill, started on any spool, the
    plans of earlier versions included, against any platform, and killed at any
    point, sends no packet capture and no TLS secret: every payload among its
    requests was read from the run's files by a reference whose media type is
    neither of the two, so that in a run with class keys it is of the class of
    bodies, and it is sent under the digest of its content. *)
Theorem sensitive_payloads_stay op w n out w' n' : perform op (w, n) = (out, (w', n')) ->
  exists sent, w_sent w' = w_sent w ++ sent /\ forall q, q ∈ sent -> rq_method q = PUT ->
    exists d size media key,
      media <> Some PCAP_MEDIA_TYPE /\ media <> Some TLS_SECRETS_MEDIA_TYPE /\ from_media_type media = Body /\
      rq_path q = ["v1"; "blobs"; d] /\ hex_encode (sha256 (rq_body q)) = d /\
      read_blob_reference (w_dir w) (mkPayloadRef ("sha256:" +:+ d) size media false) key MAX_SINGLE_BLOB_BYTES
        = Ok (rq_body q).
Proof.
  intros H. assert (sends (w_dir w) (w_sent w) (perform op) (fun _ => True)) as Hs.
  { destruct op; cbn [perform]; (eapply sends_bind; [|intros x _; by apply sends_ret]).
    - apply sends_upload_run.
    - apply sends_upload_active.
    - apply sends_backfill. }
  destruct (Hs w n out w' n') as [[_ (sent & Hsent & Hall)] _]; [|exact H|].
  { split; [done|]. exists []. by rewrite app_nil_r. }
  exists sent. split; [done|]. intros q Hq. rewrite Forall_forall in Hall. by apply Hall.
Qed.
End Operations.

(** ** Witness *)

Module PrivacyExamples.
Import Concrete ManifestExamples ConcreteSerde UploadExamples.

(** A spool whose state plans to send a packet capture, and the run with the
    capture among its payloads. *)
Definition capture : bytes := as_bytes "capture".
Definition capture_plan : BlobPlan := mkBlobPlan (hex_encode (sha256 capture)) 7 (Some PCAP_MEDIA_TYPE).
Definition path : string := segment_state_path "https://api/" 0.
Definition with_capture (s : UploadState) : UploadState :=
  s <| us_batches ::= fmap (fun b => b <| ba_blobs ::= cons capture_plan |>) |>
    <| us_acked_seq := 0 |> <| us_sealed := false |>.
Definition legacy : UploadState :=
  with_capture (default (new_state "run" "" "" 0 1 0%Z 0%Z) (ok (parse_state files path))).
Definition start : World :=
  before <| w_spool := Some {[ path := default [] (upload_to_vec legacy) ++ [LF] ]} |>
         <| w_dir ::= fun d => mkRunDir (<["sha256-" +:+ hex_encode (sha256 capture) := capture]> (rd_blobs d))
              (rd_keys d) (rd_retention d) |>.
Definition finished : outcome unit * (World * nat) := perform seal (start, 100%nat).

(** The plan is there, the upload succeeds and sends another payload, and no
    request carries the capture. *)
Lemma sensitive_payloads_stay_witness :
  (exists s, parse_state (default ∅ (w_spool start)) path = Ok s /\ bool_decide (omit_sensitive_blob_plans s = s) = false) /\
  (exists r, finished.1 = Returned (Ok r)) /\
  forallb (fun q => negb (bool_decide (rq_body q = capture))) (w_sent finished.2.1) = true /\
  exists q d, q ∈ w_sent finished.2.1 /\ rq_method q = PUT /\ rq_path q = ["v1"; "blobs"; d] /\
    hex_encode (sha256 (rq_body q)) = d.
Proof.
  split; [exists legacy; split; vm_compute; reflexivity|]. split; [exists tt; vm_compute; reflexivity|].
  split; [vm_compute; reflexivity|].
  destruct (sensitive_payloads_stay seal start 100 finished.1 finished.2.1 finished.2.2 (triple_eta finished))
    as (sent & Hsent & Hall).
  assert (existsb (fun q => bool_decide (rq_method q = PUT)) (w_sent finished.2.1) = true) as H
    by (vm_compute; reflexivity).
  apply existsb_exists in H as (q & Hin & Hq). apply bool_decide_eq_true in Hq. apply list_elem_of_In in Hin.
  rewrite Hsent in Hin. change (w_sent start) with (@nil Request) in Hin. cbn [app] in Hin.
  destruct (Hall q Hin Hq) as (d & _ & _ & _ & _ & _ & _ & Hp & Hd & _). exists q, d.
  split; [by rewrite Hsent|]. split; [exact Hq|]. split; [exact Hp|exact Hd].
Defined.
End PrivacyExamples.
