(* ===== verification/Replay.v ===== *)
(** * src/replay.rs

    The export of a run as a bundle with which its requests can be sent again:
    what the log has of each attempt, the bytes of its request and of its
    response put together from the captured chunks, and a description without
    credentials.  The export is a procedure on the run, the audit log and the
    directory the bundle is put into; it may be killed at any write. *)

From Stdlib Require Import Strings.Byte.
From S2P Require Import Prelude RustStd Proc External Json Input Model Policy Crypto EventLog Manifest Tasks BlobStore AuditLog Erasure Inspect UploadState.
From stdpp Require Import pretty options.
Local Open Scope N_scope.
#[local] Unset Default Proof Using.

Definition MAX_ATTEMPTS : N := 100000.
Definition MAX_EVIDENCE_ITEMS_PER_ATTEMPT : N := 100000.

Record ChunkEvidence := mkChunkEvidence {
  ch_sequence : N;
  ch_reference : option PayloadRef;
  ch_observed_size : option N;
  ch_captured_size : option N;
}.

Record AttemptEvidence := mkAttemptEvidence {
  at_inference_id : option string;
  at_attempt_id : string;
  at_logical_task_id : option string;
  at_task_id : option string;
  at_session_id : option string;
  at_turn_id : option string;
  at_protocol : option string;
  at_method : option string;
  at_target : option string;
  at_headers : list (string * Value);
  at_excluded_header_names : list string;
  at_request_chunks : list ChunkEvidence;
  at_response_chunks : list ChunkEvidence;
  at_request_terminal : option TerminalState;
  at_response_terminal : option TerminalState;
  at_response_status : option N;
  at_state_references : list (string * string);
  at_evidence_sequences : list N;
  at_first_sequence : N;
}.

#[export] Instance AttemptEvidence_settable : Settable AttemptEvidence := fun a =>
  mkAttemptEvidence (at_inference_id a) (at_attempt_id a) (at_logical_task_id a) (at_task_id a)
    (at_session_id a) (at_turn_id a) (at_protocol a) (at_method a) (at_target a) (at_headers a)
    (at_excluded_header_names a) (at_request_chunks a) (at_response_chunks a) (at_request_terminal a)
    (at_response_terminal a) (at_response_status a) (at_state_references a) (at_evidence_sequences a)
    (at_first_sequence a).

(** [AttemptEvidence { attempt_id, ..default() }] *)
Definition new_attempt (attempt_id : string) : AttemptEvidence :=
  mkAttemptEvidence None attempt_id None None None None None None None [] [] [] [] None None None [] [] 0.

Record ReplayPayload := mkReplayPayload {
  rp_file : string;
  rp_bytes : N;
  rp_sha256 : string;
  rp_media_types : list string;
  rp_complete : bool;
  rp_chunks : N;
}.

Record ReplayAttempt := mkReplayAttempt {
  ra_ordinal : N;
  ra_inference_id : option string;
  ra_attempt_id : string;
  ra_logical_task_id : option string;
  ra_task_id : option string;
  ra_session_id : option string;
  ra_turn_id : option string;
  ra_protocol : option string;
  ra_method : option string;
  ra_target : option string;
  ra_headers : list (string * Value);
  ra_excluded_header_names : list string;
  ra_request : ReplayPayload;
  ra_expected_response : ReplayPayload;
  ra_response_status : option N;
  ra_terminal_state : option TerminalState;
  ra_state_references : list (string * string);
  ra_request_replayable : bool;
  ra_response_oracle_complete : bool;
  ra_limitations : list string;
  ra_evidence_sequences : list N;
}.

Record ReplayBundle := mkReplayBundle {
  rb_schema_version : N;
  rb_format : string;
  rb_run_id : string;
  rb_created_at : DateTime;
  rb_manifest_claim : string;
  rb_client_replay_complete : bool;
  rb_credentials_included : bool;
  rb_external_dependencies_verified : bool;
  rb_requirements : list string;
  rb_limitations : list string;
  rb_attempts : list ReplayAttempt;
}.

Record ReplayExportReport := mkReplayExportReport {
  er_run_id : string;
  er_output : list string;
  er_format : string;
  er_attempts : N;
  er_request_replayable_attempts : N;
  er_response_oracle_complete_attempts : N;
  er_client_replay_complete : bool;
}.

(** serde_json on the bundle, indented. *)
Class SerdeReplay := { bundle_to_vec_pretty : ReplayBundle -> option bytes }.

(** The setters of the [url] crate, as the URL they leave: one that fails
    leaves it as it was. *)
Class UrlEditing `{!UrlCrate} := {
  url_set_username : Url -> string -> Url;
  url_set_password : Url -> option string -> Url;
  url_set_query : Url -> option string -> Url;
  url_set_fragment : Url -> option string -> Url;
}.

(** What the crate documents: each setter sets its part and no other part, and a
    URL that can have no user information has none; a URL is parsed from its
    text. *)
Class UrlLaws `{!UrlCrate, !UrlEditing} := {
  set_username_empty : forall u, url_username (url_set_username u "") = "";
  set_username_parts : forall u n, url_password (url_set_username u n) = url_password u /\
    url_query (url_set_username u n) = url_query u /\ url_fragment (url_set_username u n) = url_fragment u;
  set_password_none : forall u, url_password (url_set_password u None) = None;
  set_password_parts : forall u p, url_username (url_set_password u p) = url_username u /\
    url_query (url_set_password u p) = url_query u /\ url_fragment (url_set_password u p) = url_fragment u;
  set_query_none : forall u, url_query (url_set_query u None) = None;
  set_query_parts : forall u q, url_username (url_set_query u q) = url_username u /\
    url_password (url_set_query u q) = url_password u /\ url_fragment (url_set_query u q) = url_fragment u;
  set_fragment_none : forall u, url_fragment (url_set_fragment u None) = None;
  set_fragment_parts : forall u f, url_username (url_set_fragment u f) = url_username u /\
    url_password (url_set_fragment u f) = url_password u /\ url_query (url_set_fragment u f) = url_query u;
  url_text : forall u, url_parse (url_to_string u) = Some u;
}.

(** ** Headers *)

Definition header_value_is_redacted (value : Value) : bool :=
  match as_array value with
  | Some values => existsb (fun value => bool_decide (as_str value = Some "[REDACTED]")) values
  | None => false
  end.

Definition is_sensitive_header (name : string) : bool := is_secret_header name.

(** The names the connection header lists. *)
Definition connection_nominated (headers : list (string * Value)) : list string :=
  let values := default [] (map_get "connection" headers ≫= as_array) in
  let names := omap as_str values ≫= fun value => str_trim <$> str_split x2c value in
  to_ascii_lowercase <$> List.filter (fun name => negb (str_is_empty name)) names.

Definition HOP_BY_HOP : list string :=
  ["connection"; "content-length"; "host"; "keep-alive"; "proxy-connection"; "te"; "trailer";
   "transfer-encoding"; "upgrade"].

Definition excludes (nominated : list string) (lowercase : string) (value : Value) : bool :=
  is_sensitive_header lowercase || header_value_is_redacted value
  || bool_decide (lowercase ∈ nominated) || bool_decide (lowercase ∈ HOP_BY_HOP).

Definition replay_headers (headers : list (string * Value)) : list (string * Value) * list string :=
  let nominated := connection_nominated headers in
  let '(safe, excluded) :=
    foldl (fun '(safe, excluded) '(name, value) =>
      let lowercase := to_ascii_lowercase name in
      if excludes nominated lowercase value then (safe, excluded ++ [lowercase])
      else (map_insert lowercase value safe, excluded)) ([], []) headers in
  (safe, set_of_list excluded).

(** ** Targets *)

Definition string_field (value : option Value) (field : string) : option string :=
  (value ≫= get field) ≫= as_str.

Definition status_field (value : option Value) : option N :=
  status ← (value ≫= get "status") ≫= as_u64;
  if status <=? u16_max then Some status else None.

Section Targets.
Context {url : UrlCrate} {editing : UrlEditing}.

Definition sanitize_target (value : string) : string :=
  match url_parse value with
  | Some u =>
      url_to_string (url_set_fragment (url_set_query (url_set_password (url_set_username u "") None)
                                         None) None)
  | None => "invalid-target"
  end.

Definition target_field (value : option Value) : option string :=
  upstream ← value ≫= get "upstream";
  match as_str upstream with
  | Some target => Some target
  | None =>
      upstream ← as_object upstream;
      scheme ← map_get "scheme" upstream ≫= as_str;
      if negb (bool_decide (scheme ∈ ["http"; "https"])) then None
      else
        host ← map_get "host" upstream ≫= as_str;
        if str_is_empty host || str_has_control host then None
        else
          let authority_host := if str_any (fun b => beqb b x3a) host then "[" +:+ host +:+ "]" else host in
          let authority := match map_get "port" upstream ≫= as_u64 with
                           | Some port => authority_host +:+ ":" +:+ pretty port
                           | None => authority_host
                           end in
          target ← url_parse (scheme +:+ "://" +:+ authority);
          Some (url_to_string (url_set_path target (default "/" (map_get "path" upstream ≫= as_str))))
  end.
End Targets.

(** ** The attempts of the log *)

Definition push_bounded {T} (output : list T) (value : T) (operation : string) : storage_result (list T) :=
  if MAX_EVIDENCE_ITEMS_PER_ATTEMPT <=? nlen output
  then Err (AnalysisLimitExceeded operation MAX_EVIDENCE_ITEMS_PER_ATTEMPT)
  else Ok (output ++ [value]).

Definition chunk_evidence (e : EventEnvelope) : ChunkEvidence :=
  mkChunkEvidence (ev_sequence e) (ev_raw e) ((ev_normalized e ≫= get "observed_size") ≫= as_u64)
    ((ev_normalized e ≫= get "captured_size") ≫= as_u64).

(** [new.or_else(|| old.take())] *)
Definition or_keep {T} (new old : option T) : option T := match new with Some _ => new | None => old end.

Definition STATE_POINTERS : list (string * list string) :=
  [("previous_response_id", ["summary"; "previous_response_id"]);
   ("conversation", ["summary"; "conversation"]);
   ("cached_content", ["summary"; "cached_content"])].

Section Attempts.
Context {dig : Digest} {hx : Hex} {aead : Aead} {b64 : Base64} {zstd : Zstd} {http : Http}
  {serde : Serde} {serdeb : SerdeBlock} {url : UrlCrate} {editing : UrlEditing}.

Definition note_request_started (a : AttemptEvidence) (normalized : option Value) : AttemptEvidence :=
  let a := a <| at_method ::= or_keep (string_field normalized "method") |>
             <| at_target ::= or_keep (sanitize_target <$>
                  or_keep (target_field normalized) (string_field normalized "uri")) |>
             <| at_protocol ::= or_keep (string_field normalized "protocol") |> in
  match (normalized ≫= get "headers") ≫= as_object with
  | Some headers =>
      let '(safe, excluded) := replay_headers headers in
      a <| at_headers := safe |> <| at_excluded_header_names := excluded |>
  | None => a
  end.

Definition note_logical_request (a : AttemptEvidence) (normalized : option Value) : AttemptEvidence :=
  let a := match at_target a with
           | Some _ => a
           | None => a <| at_target := string_field normalized "path" |>
           end in
  foldl (fun a '(name, path) =>
    match (normalized ≫= pointer path) ≫= as_str with
    | Some value => a <| at_state_references ::= map_insert name value |>
    | None => a
    end) a STATE_POINTERS.

Definition push_request (a : AttemptEvidence) (e : EventEnvelope) (operation : string)
    : storage_result AttemptEvidence :=
  chunks ← push_bounded (at_request_chunks a) (chunk_evidence e) operation;
  Ok (a <| at_request_chunks := chunks |>).
Definition push_response (a : AttemptEvidence) (e : EventEnvelope) (operation : string)
    : storage_result AttemptEvidence :=
  chunks ← push_bounded (at_response_chunks a) (chunk_evidence e) operation;
  Ok (a <| at_response_chunks := chunks |>).

Definition update_attempt (a : AttemptEvidence) (e : EventEnvelope) : storage_result AttemptEvidence :=
  let normalized := ev_normalized e in
  let event := ev_event e in
  if str_eqb event "transport_request_started" then Ok (note_request_started a normalized)
  else if str_eqb event "logical_inference_request" then Ok (note_logical_request a normalized)
  else if str_eqb event "request_body_chunk" then push_request a e "replay request chunk evidence"
  else if str_eqb event "response_body_chunk" then push_response a e "replay response chunk evidence"
  else if str_eqb event "request_body_finished" then Ok (a <| at_request_terminal := ev_terminal_state e |>)
  else if str_eqb event "transport_response_started"
  then Ok (a <| at_response_status ::= or_keep (status_field normalized) |>)
  else if str_eqb event "transport_attempt_finished"
  then Ok (a <| at_response_terminal := ev_terminal_state e |>
             <| at_response_status ::= or_keep (status_field normalized) |>)
  else if str_eqb event "websocket_frame" then
    let direction := string_field normalized "direction" in
    if bool_decide (direction = Some "client_to_upstream")
    then push_request a e "replay request WebSocket frame evidence"
    else if bool_decide (direction = Some "upstream_to_client")
    then push_response a e "replay response WebSocket frame evidence"
    else Ok a
  else Ok a.

Definition note_identity (a : AttemptEvidence) (e : EventEnvelope) : AttemptEvidence :=
  a <| at_inference_id ::= or_keep (inference_id (ev_ids e)) |>
    <| at_logical_task_id ::= or_keep (logical_task_id (ev_ids e)) |>
    <| at_task_id ::= or_keep (task_id (ev_ids e)) |>
    <| at_session_id ::= or_keep (session_id (ev_ids e)) |>
    <| at_turn_id ::= or_keep (turn_id (ev_ids e)) |>.

(** One event of the attempt. *)
Definition note_attempt_event (a : AttemptEvidence) (e : EventEnvelope) : storage_result AttemptEvidence :=
  let a := if at_first_sequence a =? 0 then a <| at_first_sequence := ev_sequence e |> else a in
  sequences ← push_bounded (at_evidence_sequences a) (ev_sequence e) "replay attempt event sequence";
  update_attempt (note_identity (a <| at_evidence_sequences := sequences |>) e) e.

(** The visitor closure. *)
Definition collect_attempt (attempts : list (string * AttemptEvidence)) (e : EventEnvelope)
    : storage_result (list (string * AttemptEvidence)) :=
  if negb (str_eqb (ev_source e) "proxy") then Ok attempts
  else match attempt_id (ev_ids e) with
  | None => Ok attempts
  | Some id =>
      if (MAX_ATTEMPTS <=? nlen attempts) && negb (map_contains_key id attempts)
      then Err (AnalysisLimitExceeded "replay attempt index" MAX_ATTEMPTS)
      else
        a ← note_attempt_event (default (new_attempt id) (map_get id attempts)) e;
        Ok (map_insert id a attempts)
  end.

Definition collect_attempts (events : option bytes) (run_id : string) (key : option EncryptionKey)
    : storage_result (list (string * AttemptEvidence)) :=
  '(_, attempts) ← for_each_run_event_with_key events run_id key collect_attempt [];
  Ok attempts.
End Attempts.

(** ** The export *)

(** The directory of a bundle: the payload files and the description. *)
Record ExportDir := mkExportDir {
  xd_attempts : option (gmap string bytes);
  xd_replay : option bytes;
}.
#[export] Instance ExportDir_settable : Settable ExportDir := fun d =>
  mkExportDir (xd_attempts d) (xd_replay d).

Inductive OutputEntry :=
| Bundle (dir : ExportDir)
| DanglingLink
| OtherEntry.

(** [try_exists], which follows links. *)
Definition try_exists (entry : option OutputEntry) : bool :=
  match entry with None | Some DanglingLink => false | Some _ => true end.

(** The source run, the audit log of the directory of the runs, and the directory
    the bundle is put into.  The last is outside of the run, which the export
    checks on the canonical paths before anything else. *)
Record Exporting := mkExporting {
  ew_manifest : option bytes;
  ew_events : option bytes;
  ew_dir : RunDir;
  ew_audit : option bytes;
  ew_parent : gmap string OutputEntry;
}.
#[export] Instance Exporting_settable : Settable Exporting := fun w =>
  mkExporting (ew_manifest w) (ew_events w) (ew_dir w) (ew_audit w) (ew_parent w).

Notation proc := (Proc.proc Exporting).

Definition set_export_audit (w : Exporting) (file : bytes) : Exporting := w <| ew_audit := Some file |>.

(** What the environment gives one export: the process and the identifier in the
    temporary name, the time, the contexts of the audit records, and how far a
    write or a removal got when the process is killed at it. *)
Record ReplayEnv := mkReplayEnv {
  re_pid : N;
  re_uuid : Uuid;
  re_now : DateTime;
  re_intent_ctx : AuditContext;
  re_complete_ctx : AuditContext;
  re_torn : N;
  re_tear : ExportDir -> ExportDir;
}.

(** A change of the temporary directory. *)
Definition on_temporary (temporary : string) (f : ExportDir -> result string ExportDir) (w : Exporting)
    : result string Exporting :=
  match ew_parent w !! temporary with
  | Some (Bundle d) => d' ← f d; Ok (w <| ew_parent ::= insert temporary (Bundle d') |>)
  | _ => Err "No such file or directory"
  end.

(** [fs::create_dir] of the temporary directory. *)
Definition create_temporary (temporary : string) : proc unit :=
  update (fun w => match ew_parent w !! temporary with
                   | Some _ => Err "File exists"
                   | None => Ok (w <| ew_parent ::= insert temporary (Bundle (mkExportDir None None)) |>)
                   end).

Definition create_attempts_dir (temporary : string) : proc unit :=
  update (on_temporary temporary (fun d => match xd_attempts d with
    | Some _ => Err "File exists"
    | None => Ok (d <| xd_attempts := Some ∅ |>)
    end)).

(** [OpenOptions::create_new] of a payload file. *)
Definition create_payload (temporary name : string) : proc unit :=
  update (on_temporary temporary (fun d => match xd_attempts d with
    | Some files => match files !! name with
                    | Some _ => Err "File exists"
                    | None => Ok (d <| xd_attempts := Some (<[name := []]> files) |>)
                    end
    | None => Err "No such file or directory"
    end)).

Definition extend_payload (name : string) (data : bytes) (d : ExportDir) : result string ExportDir :=
  match xd_attempts d with
  | Some files => match files !! name with
                  | Some content => Ok (d <| xd_attempts := Some (<[name := content ++ data]> files) |>)
                  | None => Err "No such file or directory"
                  end
  | None => Err "No such file or directory"
  end.

(** A failed change leaves the world. *)
Definition or_same (f : Exporting -> result string Exporting) (w : Exporting) : Exporting :=
  match f w with Ok w' => w' | Err _ => w end.

(** [file.write_all] *)
Definition write_chunk (temporary name : string) (data : bytes) (torn : N) : proc unit :=
  update_or (on_temporary temporary (extend_payload name data))
    (or_same (on_temporary temporary (extend_payload name (ntake torn data)))).

Definition remove_temporary (temporary : string) (tear : ExportDir -> ExportDir) : proc unit :=
  update_or
    (fun w => match ew_parent w !! temporary with
              | Some (Bundle _) => Ok (w <| ew_parent ::= delete temporary |>)
              | _ => Err "No such file or directory"
              end)
    (or_same (on_temporary temporary (fun d => Ok (tear d)))).

(** [commit_path_noreplace] *)
Definition publish (temporary output : string) : proc unit :=
  update (fun w => match ew_parent w !! temporary, ew_parent w !! output with
                   | Some entry, None => Ok (w <| ew_parent ::= fun m => <[output := entry]> (delete temporary m) |>)
                   | Some _, Some _ => Err "File exists"
                   | None, _ => Err "No such file or directory"
                   end).

Section Bundles.
Context {dig : Digest} {hx : Hex} {b64 : Base64} {aead : Aead} {zstd : Zstd} {http : Http}
  {serde : Serde} {serdeb : SerdeBlock} {serdem : SerdeManifest} {serdee : SerdeErasure}
  {serdea : SerdeAudit} {uuid : UuidDisplay} {url : UrlCrate} {editing : UrlEditing}
  {serder : SerdeReplay}.

Definition load_blob (d : RunDir) (r : PayloadRef) (key : option EncryptionKey) : result string bytes :=
  message (read_blob_reference d r key MAX_SINGLE_BLOB_BYTES).

(** A chunk all of whose bytes were captured. *)
Definition chunk_complete (c : ChunkEvidence) : bool :=
  match ch_observed_size c, ch_captured_size c with
  | Some observed, Some captured =>
      (observed =? captured) &&
      (if captured =? 0 then match ch_reference c with None => true | Some _ => false end
       else match ch_reference c with
            | Some r => negb (ref_truncated r) && (ref_size r =? captured)
            | None => false
            end)
  | _, _ => false
  end.

(** The content and the number of its bytes, whether it is complete, and the
    media types so far. *)
Definition write_next_chunk (key : option EncryptionKey) (temporary name : string) (torn : N)
    (acc : bytes * N * bool * list string) (c : ChunkEvidence) : proc (bytes * N * bool * list string) :=
  let '(content, bytes, complete, media_types) := acc in
  let complete := complete && chunk_complete c in
  match ch_reference c with
  | None => mret (content, bytes, complete, media_types)
  | Some r =>
      let media_types := match ref_media_type r with
                         | Some t => if bool_decide (t ∈ media_types) then media_types else media_types ++ [t]
                         | None => media_types
                         end in
      plaintext ← look (fun w => load_blob (ew_dir w) r key);
      write_chunk temporary name plaintext torn;;
      mret (content ++ plaintext, sat_add bytes (nlen plaintext), complete, media_types)
  end.

Definition write_payload (key : option EncryptionKey) (temporary name : string) (chunks : list ChunkEvidence)
    (terminal_complete : bool) (torn : N) : proc ReplayPayload :=
  let chunks := sort_by_key ch_sequence chunks in
  create_payload temporary name;;
  '(content, bytes, complete, media_types) ←
    fold_proc (write_next_chunk key temporary name torn) ([], 0, terminal_complete, []) chunks;
  mret (mkReplayPayload ("attempts/" +:+ name) bytes ("sha256:" +:+ hex_encode (sha256 content)) media_types
          complete (nlen chunks)).

Definition attempt_limitations (a : AttemptEvidence) (is_http request_complete response_oracle_complete : bool)
    : list string :=
  let when (b : bool) (text : string) := if b then [text] else [] in
  when (negb is_http) "only HTTP/1.1 attempts are directly replayable"
  ++ when (bool_decide (at_method a = None) || bool_decide (at_target a = None))
       "request method or target is missing"
  ++ when (negb request_complete) "captured request bytes are incomplete"
  ++ when (negb response_oracle_complete) "expected response bytes or status are incomplete"
  ++ when (negb (bool_decide (at_state_references a = [])))
       "request references provider-side state that this bundle does not recreate".

Definition request_name (ordinal : N) : string := format_padded 6 ordinal +:+ "-request.bin".
Definition response_name (ordinal : N) : string := format_padded 6 ordinal +:+ "-response.bin".

Definition is_complete (s : option TerminalState) : bool := bool_decide (s = Some Complete).

(** The description of an attempt with these payloads. *)
Definition replay_attempt (ordinal : N) (a : AttemptEvidence) (request response : ReplayPayload) : ReplayAttempt :=
  let is_http := bool_decide (at_protocol a = Some "http/1.1") in
  let request_replayable := is_http && bool_decide (is_Some (at_method a))
                            && bool_decide (is_Some (at_target a)) && rp_complete request in
  let response_oracle_complete := rp_complete response && bool_decide (is_Some (at_response_status a)) in
  mkReplayAttempt ordinal (at_inference_id a) (at_attempt_id a) (at_logical_task_id a) (at_task_id a)
    (at_session_id a) (at_turn_id a) (at_protocol a) (at_method a) (at_target a) (at_headers a)
    (at_excluded_header_names a) request response (at_response_status a) (at_response_terminal a)
    (at_state_references a) request_replayable response_oracle_complete
    (attempt_limitations a is_http (rp_complete request) response_oracle_complete) (at_evidence_sequences a).

(** One attempt: its two files and its description. *)
Definition write_attempt (key : option EncryptionKey) (temporary : string) (torn : N)
    (acc : list ReplayAttempt * N * N) (entry : nat * AttemptEvidence) : proc (list ReplayAttempt * N * N) :=
  let '(output, replayable, oracles) := acc in
  let '(index, a) := entry in
  let ordinal := sat_add (N.of_nat index) 1 in
  request ← write_payload key temporary (request_name ordinal) (at_request_chunks a)
              (is_complete (at_request_terminal a)) torn;
  response ← write_payload key temporary (response_name ordinal) (at_response_chunks a)
               (is_complete (at_response_terminal a)) torn;
  let r := replay_attempt ordinal a request response in
  mret (output ++ [r], sat_add replayable (if ra_request_replayable r then 1 else 0),
        sat_add oracles (if ra_response_oracle_complete r then 1 else 0)).

Definition bundle_limitations (c : Coverage) : list string :=
  ["provider credentials are deliberately excluded and must be injected at replay time";
   "model generation is not made deterministic; complete responses are comparison oracles";
   "external resources referenced by URL are not independently snapshotted"]
  ++ (if 0 <? cov_capture_drops c
      then ["the source run reports " +:+ pretty (cov_capture_drops c) +:+ " capture drops"] else [])
  ++ (if 0 <? cov_unresolved_state_references c
      then ["the source run reports " +:+ pretty (cov_unresolved_state_references c) +:+
            " unresolved state references"] else [])
  ++ (if 0 <? cov_unresolved_payload_references c
      then ["the source run reports " +:+ pretty (cov_unresolved_payload_references c) +:+
            " unresolved external payload references"] else []).

Definition REQUIREMENTS : list string :=
  ["inject provider credentials outside the bundle";
   "review the target host before sending captured content";
   "treat expected responses as byte comparison oracles, not deterministic outputs"].

Definition FORMAT : string := "iorec-replay-bundle-v1".

(** The description of the bundle and the report, from the attempts written. *)
Definition assemble (i : Inspection) (now : DateTime) (output : list ReplayAttempt) (replayable oracles : N)
    : ReplayBundle * ReplayExportReport :=
  let count := nlen output in
  let c := m_coverage (in_manifest i) in
  let client_replay_complete :=
    (0 <? count) && (replayable =? count) && (oracles =? count) && (cov_capture_drops c =? 0)
    && (cov_unresolved_state_references c =? 0) && (cov_unresolved_payload_references c =? 0)
    && forallb (fun a => bool_decide (ra_state_references a = [])) output in
  let run_id := m_run_id (in_manifest i) in
  (mkReplayBundle 1 FORMAT run_id now (cov_claim c) client_replay_complete false false REQUIREMENTS
     (bundle_limitations c) output,
   mkReplayExportReport run_id [] FORMAT count replayable oracles client_replay_complete).

Definition write_bundle (key : option EncryptionKey) (temporary : string) (i : Inspection)
    (attempts : list (string * AttemptEvidence)) (now : DateTime) (torn : N)
    : proc (ReplayBundle * ReplayExportReport) :=
  create_attempts_dir temporary;;
  let attempts := sort_by_key at_first_sequence (snd <$> attempts) in
  '(output, replayable, oracles) ←
    fold_proc (write_attempt key temporary torn) ([], 0, 0) (imap pair attempts);
  mret (assemble i now output replayable oracles).

(** [write_private_json]: the file is created, then written. *)
Definition create_replay_json (temporary : string) : proc unit :=
  update (on_temporary temporary (fun d => match xd_replay d with
    | Some _ => Err "File exists"
    | None => Ok (d <| xd_replay := Some [] |>)
    end)).

Definition write_private_json (temporary : string) (bundle : ReplayBundle) (torn : N) : proc unit :=
  create_replay_json temporary;;
  text ← lift (ok_or (bundle_to_vec_pretty bundle) "serialization");
  let put (content : bytes) := on_temporary temporary (fun d => Ok (d <| xd_replay := Some content |>)) in
  update_or (put (text ++ [LF])) (or_same (put (ntake torn (text ++ [LF])))).

Definition replay_details : Value := json_object [("format", JString "replay")].
Definition replay_complete_details (r : ReplayExportReport) : Value :=
  json_object [("format", JString "replay"); ("attempts", json_u64 (er_attempts r));
               ("client_replay_complete", JBool (er_client_replay_complete r))].

Definition append_export_audit (outcome run_id : string) (details : Value) (ctx : AuditContext) (torn : N)
    : proc unit :=
  append_record ew_audit set_export_audit "export" outcome run_id details ctx torn.

Definition temporary_export (env : ReplayEnv) : string :=
  ".iorec-replay-" +:+ pretty (re_pid env) +:+ "-" +:+ uuid_to_string (re_uuid env).

(** The checks before anything is written: the inspection and the key. *)
Definition check_source (w : Exporting) (key : option EncryptionKey)
    : result string (Inspection * option EncryptionKey) :=
  i ← storage_message (inspect_run_with_key (ew_manifest w) (ew_events w) (ew_dir w) true key);
  effective ← message (effective_encryption_key (in_manifest i) key);
  ensure (negb (str_eqb (m_status (in_manifest i)) "running"))
    "refusing to export a run that is still being recorded";;
  ensure ((discarded_tail_bytes (in_log i) =? 0) && no_strings (in_missing_blobs i)
          && no_strings (in_corrupt_blobs i))
    "source run must pass event and blob integrity checks before replay export";;
  Ok (i, effective).

(** What is prepared in the temporary directory. *)
Definition prepare_bundle (key : option EncryptionKey) (temporary : string) (i : Inspection)
    (attempts : list (string * AttemptEvidence)) (env : ReplayEnv) : proc ReplayExportReport :=
  '(bundle, report) ← write_bundle key temporary i attempts (re_now env) (re_torn env);
  write_private_json temporary bundle (re_torn env);;
  mret report.

(** An error after which the temporary directory is removed, if it can be. *)
Definition or_clean_up {A} (temporary : string) (env : ReplayEnv) (c : proc A) : proc A :=
  r ← try_proc c;
  match r with
  | Ok a => mret a
  | Err error =>
      _ ← try_proc (remove_temporary temporary (re_tear env));
      lift (Err error)
  end.

(** The canonical paths of the run and of the directory for the bundle, as their
    components. *)
Definition export_replay_with_key (run_path parent_path : list string) (output : string)
    (key : option EncryptionKey) (env : ReplayEnv) : proc ReplayExportReport :=
  lift (ensure (negb (bool_decide (run_path `prefix_of` parent_path ++ [output])))
          "replay export must be outside the source run");;
  look (fun w => ensure (negb (try_exists (ew_parent w !! output))) "refusing to overwrite existing replay export");;
  '(i, effective) ← look (fun w => check_source w key);
  let run_id := m_run_id (in_manifest i) in
  append_export_audit "intent" run_id replay_details (re_intent_ctx env) (re_torn env);;
  attempts ← look (fun w => storage_message (collect_attempts (ew_events w) run_id effective));
  let temporary := temporary_export env in
  create_temporary temporary;;
  report ← or_clean_up temporary env (prepare_bundle effective temporary i attempts env);
  or_clean_up temporary env (publish temporary output);;
  append_export_audit "complete" run_id (replay_complete_details report) (re_complete_ctx env) (re_torn env);;
  mret (mkReplayExportReport (er_run_id report) (parent_path ++ [output]) (er_format report)
          (er_attempts report) (er_request_replayable_attempts report)
          (er_response_oracle_complete_attempts report) (er_client_replay_complete report)).
End Bundles.
