(* ===== verification/ReplaySpec.v ===== *)
(** * What a replay bundle holds

    The bundle src/replay.rs exports: its payload files are the captured bytes of
    each attempt in order, a request is offered for replay only if all of its
    bytes were captured, no credential of a header or a target is in it, and
    however the export ends the run is as it was and the output is absent or
    whole. *)

From Stdlib Require Import Strings.Byte.
From S2P Require Import Prelude RustStd Proc External Json Input Model Policy Crypto EventLog EventLogSpec Manifest Tasks BlobStore BlobStoreSpec AuditLog Erasure Inspect InspectSpec UploadState Replay.
From stdpp Require Import pretty sorting options.
Local Open Scope N_scope.
#[local] Unset Default Proof Using.

(** ** The evidence of an attempt *)

Section Evidence.
Context {url : UrlCrate} {editing : UrlEditing}.

(** The direction in which an event carries bytes. *)
Definition carries_request (e : EventEnvelope) : bool :=
  str_eqb (ev_event e) "request_body_chunk"
  || str_eqb (ev_event e) "websocket_frame"
     && bool_decide (string_field (ev_normalized e) "direction" = Some "client_to_upstream").
Definition carries_response (e : EventEnvelope) : bool :=
  str_eqb (ev_event e) "response_body_chunk"
  || str_eqb (ev_event e) "websocket_frame"
     && bool_decide (string_field (ev_normalized e) "direction" = Some "upstream_to_client").

(** The events of an attempt. *)
Definition members (id : string) (es : list EventEnvelope) : list EventEnvelope :=
  List.filter (fun e => bool_decide (attempt_of e = Some id)) es.
Definition attempt_ids (es : list EventEnvelope) : list string := set_of_list (omap attempt_of es).

Definition request_chunks (id : string) (es : list EventEnvelope) : list ChunkEvidence :=
  chunk_evidence <$> List.filter carries_request (members id es).
Definition response_chunks (id : string) (es : list EventEnvelope) : list ChunkEvidence :=
  chunk_evidence <$> List.filter carries_response (members id es).

Definition last_state (kind : string) (ms : list EventEnvelope) : option TerminalState :=
  match last (List.filter (fun e => str_eqb (ev_event e) kind) ms) with
  | Some e => ev_terminal_state e
  | None => None
  end.

(** A target from which credentials were taken. *)
Definition clean_target (target : string) : Prop :=
  target = "invalid-target" \/
  exists u, url_parse target = Some u /\ url_username u = "" /\ url_password u = None /\
    url_query u = None /\ url_fragment u = None.

(** A name that the connection header of a request lists. *)
Definition nominates (raw : list (string * Value)) (name : string) : Prop :=
  name <> "" /\ exists values value part, map_get "connection" raw = Some (JArray values) /\
    JString value ∈ values /\ part ∈ str_split x2c value /\ name = to_ascii_lowercase (str_trim part).

(** A header of a request that may leave, by its lowercase name. *)
Definition may_leave (raw : list (string * Value)) (name : string) (value : Value) : Prop :=
  (exists spelled, (spelled, value) ∈ raw /\ name = to_ascii_lowercase spelled) /\
  is_secret_header name = false /\ header_value_is_redacted value = false /\
  name ∉ HOP_BY_HOP /\ ~ nominates raw name.

(** Headers of a request that was started, all of which may leave. *)
Definition clean_headers (ms : list EventEnvelope) (headers : list (string * Value)) : Prop :=
  headers = [] \/
  exists e raw, e ∈ ms /\ ev_event e = "transport_request_started" /\
    (ev_normalized e ≫= get "headers") ≫= as_object = Some raw /\
    Forall (fun '(name, value) => may_leave raw name value) headers.

(** What the evidence of an attempt is, given its events. *)
Record evidence_of (id : string) (ms : list EventEnvelope) (a : AttemptEvidence) : Prop := {
  eo_id : at_attempt_id a = id;
  eo_request : at_request_chunks a = chunk_evidence <$> List.filter carries_request ms;
  eo_response : at_response_chunks a = chunk_evidence <$> List.filter carries_response ms;
  eo_request_terminal : at_request_terminal a = last_state "request_body_finished" ms;
  eo_response_terminal : at_response_terminal a = last_state "transport_attempt_finished" ms;
  eo_sequences : at_evidence_sequences a = ev_sequence <$> ms;
  eo_first : at_first_sequence a = default 0 (List.find (fun n => negb (n =? 0)) (ev_sequence <$> ms));
  eo_headers : clean_headers ms (at_headers a);
  eo_target : forall target, at_target a = Some target -> clean_target target \/
    exists e, e ∈ ms /\ ev_event e = "logical_inference_request" /\ string_field (ev_normalized e) "path" = Some target;
}.

Context {laws : UrlLaws}.

Lemma sanitize_target_clean value : clean_target (sanitize_target value).
Proof.
  unfold sanitize_target, clean_target. destruct (url_parse value) as [u|]; [right|by left].
  set (u1 := url_set_username u ""). set (u2 := url_set_password u1 None). set (u3 := url_set_query u2 None).
  exists (url_set_fragment u3 None). split; [apply url_text|].
  destruct (set_fragment_parts u3 None) as (-> & -> & ->). rewrite set_fragment_none.
  destruct (set_query_parts u2 None) as (Hu & Hp & _). unfold u3. rewrite Hu, Hp, set_query_none.
  destruct (set_password_parts u1 None) as (Hu' & _). unfold u2. rewrite Hu', set_password_none.
  unfold u1. by rewrite set_username_empty.
Qed.

Lemma connection_nominated_exact raw name : name ∈ connection_nominated raw <-> nominates raw name.
Proof.
  unfold connection_nominated, nominates. rewrite list_elem_of_fmap.
  assert (forall s, negb (str_is_empty s) = true <-> to_ascii_lowercase s <> "") as Hempty by (by intros []). split.
  - intros (s & -> & Hs). apply list_elem_of_In, List.filter_In in Hs as [Hin Hs%Hempty].
    apply list_elem_of_In, list_elem_of_bind in Hin as (value & Hpart & Hv).
    apply list_elem_of_fmap in Hpart as (part & -> & Hpart). apply list_elem_of_omap in Hv as (v & Hv & Hstr).
    split; [done|]. destruct (map_get "connection" raw) as [[]|]; cbn in Hv; try by apply elem_of_nil in Hv.
    destruct v; try done. injection Hstr as ->. eauto 10.
  - intros (Hne & values & value & part & Hget & Hv & Hpart & ->). exists (str_trim part). split; [done|].
    apply list_elem_of_In, List.filter_In. split; [|by apply Hempty]. apply list_elem_of_In, list_elem_of_bind.
    exists value. split; [apply list_elem_of_fmap; eauto|]. apply list_elem_of_omap. exists (JString value).
    by rewrite Hget.
Qed.

Lemma replay_headers_clean raw : Forall (fun '(name, value) => may_leave raw name value) (replay_headers raw).1.
Proof.
  unfold replay_headers.
  assert (forall l acc, l ⊆ raw -> Forall (fun '(name, value) => may_leave raw name value) acc.1 ->
    Forall (fun '(name, value) => may_leave raw name value) (foldl (fun '(safe, excluded) '(name, value) =>
      let lowercase := to_ascii_lowercase name in
      if excludes (connection_nominated raw) lowercase value then (safe, excluded ++ [lowercase])
      else (map_insert lowercase value safe, excluded)) acc l).1) as H.
  { induction l as [|[name value] l IH]; intros [safe excluded] Hl Hacc; [done|]. cbn [foldl].
    apply IH; [by intros x Hx; apply Hl; right|]. cbn zeta.
    destruct (excludes _ (to_ascii_lowercase name) value) eqn:E; [done|]. cbn [fst] in *.
    apply map_insert_Forall; [|done]. unfold excludes, is_sensitive_header in E.
    rewrite !orb_false_iff, !bool_decide_eq_false, connection_nominated_exact in E.
    split; [exists name; split; [apply Hl; left|done]|tauto]. }
  specialize (H raw ([], []) ltac:(done) (Forall_nil_2 _)). by destruct (foldl _ _ _).
Qed.

Lemma push_bounded_ok {T} (l : list T) v op l' : push_bounded l v op = Ok l' -> l' = l ++ [v].
Proof. unfold push_bounded. destruct (_ <=? _); [done|]. by intros [= <-]. Qed.

Lemma last_state_snoc kind ms e : last_state kind (ms ++ [e]) =
  if str_eqb (ev_event e) kind then ev_terminal_state e else last_state kind ms.
Proof.
  unfold last_state. rewrite List.filter_app. cbn. destruct (str_eqb _ _); [by rewrite last_snoc|by rewrite app_nil_r].
Qed.

Lemma chunks_snoc p ms e : chunk_evidence <$> List.filter p (ms ++ [e]) =
  (chunk_evidence <$> List.filter p ms) ++ (if p e then [chunk_evidence e] else []).
Proof. rewrite List.filter_app, fmap_app. cbn. by destruct (p e). Qed.

Lemma first_snoc l n : default 0 (List.find (fun n => negb (n =? 0)) (l ++ [n])) =
  (if default 0 (List.find (fun n => negb (n =? 0)) l) =? 0 then n
   else default 0 (List.find (fun n => negb (n =? 0)) l)).
Proof.
  induction l as [|x l IH]; cbn.
  - by destruct (N.eqb_spec n 0) as [->|].
  - destruct (N.eqb_spec x 0) as [->|Hx]; cbn; [exact IH|]. by rewrite (proj2 (N.eqb_neq _ _)).
Qed.

(** What [update_attempt] leaves alone. *)
Definition identity_parts (a : AttemptEvidence) := (at_attempt_id a, at_evidence_sequences a, at_first_sequence a).

Definition target_from (ms : list EventEnvelope) (o : option string) : Prop :=
  forall target, o = Some target -> clean_target target \/
    exists e, e ∈ ms /\ ev_event e = "logical_inference_request" /\
      string_field (ev_normalized e) "path" = Some target.

Lemma target_from_longer ms e o : target_from ms o -> target_from (ms ++ [e]) o.
Proof.
  intros H target Ht. destruct (H target Ht) as [Hc|(x & Hx & Hp)]; [by left|right].
  exists x. split; [|done]. apply elem_of_app. by left.
Qed.

Lemma clean_headers_longer ms e headers : clean_headers ms headers -> clean_headers (ms ++ [e]) headers.
Proof.
  intros [?|(x & raw & Hx & Hp)]; [by left|right]. exists x, raw. split; [|done]. apply elem_of_app. by left.
Qed.

Lemma note_request_started_spec a ms e : ev_event e = "transport_request_started" ->
  clean_headers ms (at_headers a) -> target_from ms (at_target a) ->
  let a' := note_request_started a (ev_normalized e) in
  identity_parts a' = identity_parts a /\ at_request_chunks a' = at_request_chunks a /\
  at_response_chunks a' = at_response_chunks a /\ at_request_terminal a' = at_request_terminal a /\
  at_response_terminal a' = at_response_terminal a /\ clean_headers (ms ++ [e]) (at_headers a') /\
  target_from (ms ++ [e]) (at_target a').
Proof.
  intros He Hh%(clean_headers_longer _ e) Ht%(target_from_longer _ e). unfold note_request_started.
  set (target := or_keep (target_field _) (string_field _ "uri")). clearbody target.
  assert (target_from (ms ++ [e]) (or_keep (sanitize_target <$> target) (at_target a))) as Ht'.
  { destruct target as [s|]; [|done]. intros x [= <-]. left. apply sanitize_target_clean. }
  destruct (_ ≫= as_object) as [headers|] eqn:Eh; [|by destruct a].
  pose proof (replay_headers_clean headers) as Hc. destruct (replay_headers headers) as [safe excluded].
  split_and!; try by destruct a. right. exists e, headers. split_and!; [|done..]. apply elem_of_app. right. by left.
Qed.

Lemma note_logical_request_spec a ms e : ev_event e = "logical_inference_request" -> target_from ms (at_target a) ->
  let a' := note_logical_request a (ev_normalized e) in
  identity_parts a' = identity_parts a /\ at_request_chunks a' = at_request_chunks a /\
  at_response_chunks a' = at_response_chunks a /\ at_request_terminal a' = at_request_terminal a /\
  at_response_terminal a' = at_response_terminal a /\ at_headers a' = at_headers a /\
  target_from (ms ++ [e]) (at_target a').
Proof.
  intros He Ht. unfold note_logical_request. set (a1 := match at_target a with Some _ => _ | None => _ end).
  assert (identity_parts a1 = identity_parts a /\ at_request_chunks a1 = at_request_chunks a /\
    at_response_chunks a1 = at_response_chunks a /\ at_request_terminal a1 = at_request_terminal a /\
    at_response_terminal a1 = at_response_terminal a /\ at_headers a1 = at_headers a /\
    target_from (ms ++ [e]) (at_target a1)) as H.
  { unfold a1. destruct (at_target a) as [target|] eqn:E.
    - split_and!; try done. rewrite E. by apply target_from_longer.
    - split_and!; try done. cbn. intros target Htarget. right. exists e. split; [|done].
      apply elem_of_app. right. by left. }
  clearbody a1. revert H. generalize STATE_POINTERS. intros l. revert a1.
  induction l as [|[name path] l IH]; intros a1 H; [done|]. cbn [foldl]. apply IH.
  destruct (_ ≫= as_str); [|done]. by destruct a1.
Qed.

Lemma update_attempt_ok a ms e a' : clean_headers ms (at_headers a) -> target_from ms (at_target a) ->
  update_attempt a e = Ok a' ->
  identity_parts a' = identity_parts a /\
  at_request_chunks a' = at_request_chunks a ++ (if carries_request e then [chunk_evidence e] else []) /\
  at_response_chunks a' = at_response_chunks a ++ (if carries_response e then [chunk_evidence e] else []) /\
  at_request_terminal a' =
    (if str_eqb (ev_event e) "request_body_finished" then ev_terminal_state e else at_request_terminal a) /\
  at_response_terminal a' =
    (if str_eqb (ev_event e) "transport_attempt_finished" then ev_terminal_state e else at_response_terminal a) /\
  clean_headers (ms ++ [e]) (at_headers a') /\ target_from (ms ++ [e]) (at_target a').
Proof.
  intros Hh Ht. pose proof (target_from_longer ms e _ Ht) as Ht'. pose proof (clean_headers_longer ms e _ Hh) as Hh'.
  unfold update_attempt, carries_request, carries_response, push_request, push_response.
  event_cases e ["transport_request_started"; "logical_inference_request"; "request_body_chunk"; "response_body_chunk";
    "request_body_finished"; "transport_response_started"; "transport_attempt_finished"; "websocket_frame"];
    rewrite ?app_nil_r.
  - intros [= <-]. by apply note_request_started_spec.
  - intros [= <-]. destruct (note_logical_request_spec a ms e) as (? & ? & ? & ? & ? & Hhh & ?); [done..|].
    rewrite Hhh. by split_and!.
  - intros (l & Hl%push_bounded_ok & [= <-])%bind_ok. by subst.
  - intros (l & Hl%push_bounded_ok & [= <-])%bind_ok. by subst.
  - by intros [= <-].
  - by intros [= <-].
  - by intros [= <-].
  - destruct (bool_decide (_ = Some "client_to_upstream")) eqn:E1.
    + apply bool_decide_eq_true in E1. rewrite E1, (bool_decide_eq_false_2 (Some _ = Some _)) by done.
      rewrite app_nil_r. intros (l & Hl%push_bounded_ok & [= <-])%bind_ok. by subst.
    + destruct (bool_decide (_ = Some "upstream_to_client")); rewrite ?app_nil_r.
      * intros (l & Hl%push_bounded_ok & [= <-])%bind_ok. by subst.
      * by intros [= <-].
  - by intros [= <-].
Qed.

Lemma note_attempt_event_ok id ms a e a' : evidence_of id ms a -> note_attempt_event a e = Ok a' ->
  evidence_of id (ms ++ [e]) a'.
Proof.
  intros [H1 H2 H3 H4 H5 H6 H7 H8 H9] H. unfold note_attempt_event in H.
  apply bind_ok in H as (sequences & Hs%push_bounded_ok & H).
  set (a1 := if at_first_sequence a =? 0 then _ else a) in *.
  assert (at_headers a1 = at_headers a /\ at_target a1 = at_target a /\ at_request_chunks a1 = at_request_chunks a /\
    at_response_chunks a1 = at_response_chunks a /\ at_request_terminal a1 = at_request_terminal a /\
    at_response_terminal a1 = at_response_terminal a /\ at_attempt_id a1 = at_attempt_id a /\
    at_evidence_sequences a1 = at_evidence_sequences a) as (E1 & E2 & E3 & E4 & E5 & E6 & E7 & E8)
    by (unfold a1; by destruct (_ =? _)).
  apply (update_attempt_ok _ ms) in H as (Hi & Hr & Hp & Hrt & Hpt & Hh & Ht); cbn in *;
    [|by rewrite E1|by rewrite E2].
  injection Hi as Hi1 Hi2 Hi3. split.
  - by rewrite Hi1, E7.
  - by rewrite Hr, E3, H2, chunks_snoc.
  - by rewrite Hp, E4, H3, chunks_snoc.
  - by rewrite Hrt, E5, H4, last_state_snoc.
  - by rewrite Hpt, E6, H5, last_state_snoc.
  - by rewrite Hi2, Hs, E8, H6, fmap_app.
  - rewrite Hi3, fmap_app. change (ev_sequence <$> [e]) with [ev_sequence e].
    rewrite first_snoc, <-H7. unfold a1. by destruct (at_first_sequence a =? 0).
  - done.
  - exact Ht.
Qed.

Lemma new_attempt_evidence id : evidence_of id [] (new_attempt id).
Proof. split; try done. by left. Qed.

Lemma attempt_members_snoc id es e : members id (es ++ [e]) =
  members id es ++ (if bool_decide (attempt_of e = Some id) then [e] else []).
Proof. unfold members. rewrite List.filter_app. cbn. by destruct (bool_decide _). Qed.

Lemma attempt_ids_snoc es e : attempt_ids (es ++ [e]) =
  match attempt_of e with Some id => set_insert id (attempt_ids es) | None => attempt_ids es end.
Proof.
  unfold attempt_ids. rewrite omap_snoc. destruct (attempt_of e); cbn; [apply set_of_list_snoc|by rewrite app_nil_r].
Qed.

(** The attempts collected from a log are those of its events, each with its
    evidence. *)
Lemma collect_fold_ok es attempts : try_fold collect_attempt [] es = Ok attempts ->
  exists f, attempts = (fun id => (id, f id)) <$> attempt_ids es /\
    (forall id, evidence_of id (members id es) (f id)) /\
    forall id, id ∉ attempt_ids es -> f id = new_attempt id.
Proof.
  revert attempts. induction es as [|e es IH] using rev_ind; intros attempts.
  { intros [= <-]. exists new_attempt. split; [done|]. split; [apply new_attempt_evidence|done]. }
  rewrite try_fold_app. intros (before & Hb & H)%bind_ok. destruct (IH _ Hb) as (f & -> & Hf & Hnew). clear IH.
  cbn [try_fold] in H. apply bind_ok in H as (x & H & [= ->]).
  rewrite attempt_ids_snoc. unfold collect_attempt in H. unfold attempt_of in *.
  destruct (str_eqb (ev_source e) "proxy") eqn:Hs; cbn [negb] in H.
  2: { injection H as <-. exists f. split; [done|]. split; [|done]. intros id. rewrite attempt_members_snoc. unfold attempt_of.
       rewrite Hs, bool_decide_eq_false_2, app_nil_r by done. apply Hf. }
  destruct (attempt_id (ev_ids e)) as [id|] eqn:Hid.
  2: { injection H as <-. exists f. split; [done|]. split; [|done]. intros id. rewrite attempt_members_snoc. unfold attempt_of.
       rewrite Hs, Hid, bool_decide_eq_false_2, app_nil_r by done. apply Hf. }
  destruct (_ && _); [done|]. apply bind_ok in H as (a & Ha & [= <-]).
  assert (default (new_attempt id) (map_get id ((fun x => (x, f x)) <$> attempt_ids es)) = f id) as E.
  { rewrite (map_get_fmap f). case_decide as Hin; [done|]. by rewrite Hnew. }
  rewrite E in Ha. exists (fun x => if decide (x = id) then a else f x).
  rewrite (map_insert_fmap f) by apply set_of_list_sorted. split; [done|]. split.
  - intros x. rewrite attempt_members_snoc. unfold attempt_of. rewrite Hs, Hid. case_decide as Hx.
    + subst x. rewrite bool_decide_eq_true_2 by done. by eapply note_attempt_event_ok.
    + rewrite bool_decide_eq_false_2, app_nil_r by congruence. apply Hf.
  - intros x Hx. rewrite set_insert_elem in Hx. rewrite decide_False by tauto. apply Hnew. tauto.
Qed.
End Evidence.

(** ** The files of the bundle *)

Section Writing.
Context {dig : Digest} {hx : Hex} {b64 : Base64} {aead : Aead} {zstd : Zstd} {http : Http}
  {serde : Serde} {serdeb : SerdeBlock} {serdem : SerdeManifest} {serdee : SerdeErasure}
  {serdea : SerdeAudit} {uuid : UuidDisplay} {url : UrlCrate} {editing : UrlEditing}
  {serder : SerdeReplay}.

(** The bytes of chunks: their payloads, one after the other. *)
Definition bytes_of (d : RunDir) (key : option EncryptionKey) (chunks : list ChunkEvidence) (content : bytes) : Prop :=
  exists parts, Forall2 (fun r p => load_blob d r key = Ok p) (omap ch_reference chunks) parts /\
    content = concat parts.

Definition add_media_type (types : list string) (c : ChunkEvidence) : list string :=
  match ch_reference c ≫= ref_media_type with
  | Some t => if bool_decide (t ∈ types) then types else types ++ [t]
  | None => types
  end.

(** The description of a payload file with this content. *)
Definition described (name : string) (chunks : list ChunkEvidence) (terminal_complete : bool) (content : bytes)
    : ReplayPayload :=
  mkReplayPayload ("attempts/" +:+ name) (N.min u64_max (nlen content))
    ("sha256:" +:+ hex_encode (sha256 content)) (foldl add_media_type [] chunks)
    (terminal_complete && forallb chunk_complete chunks) (nlen chunks).

Section Temporary.
Context (w0 : Exporting) (temporary : string).

(** The world while the bundle is prepared. *)
Definition holding (D : ExportDir) (w : Exporting) : Prop := w = w0 <| ew_parent ::= insert temporary (Bundle D) |>.
Definition partial (w : Exporting) : Prop := exists D, holding D w.

Lemma holding_partial D w : holding D w -> partial w.
Proof. by exists D. Qed.

Lemma on_temporary_holding D w f : holding D w ->
  on_temporary temporary f w = (D' ← f D; Ok (w0 <| ew_parent ::= insert temporary (Bundle D') |>)).
Proof.
  intros ->. unfold on_temporary. cbn. rewrite lookup_insert_eq. destruct (f D) as [D'|]; [|done]. cbn.
  by rewrite insert_insert_eq.
Qed.

Lemma on_temporary_or D f g (Q : ExportDir -> Prop) :
  (forall D', f D = Ok D' -> Q D') ->
  holds (holding D) (update_or (on_temporary temporary f) (or_same (on_temporary temporary g))) partial
    (fun _ w => exists D', holding D' w /\ f D = Ok D' /\ Q D').
Proof.
  intros HQ. apply holds_update_or; [intros w; apply holding_partial|]. intros w w' Hw H.
  rewrite (on_temporary_holding _ _ _ Hw) in H. apply bind_ok in H as (D' & Hf & [= <-]).
  split; [by exists D'|]. split; [exists D'; split; [done|split; [done|by apply HQ]]|]. unfold or_same. rewrite (on_temporary_holding _ _ _ Hw).
  destruct (g D) as [D2|]; [by exists D2|]. by eapply holding_partial.
Qed.

Lemma on_temporary_holds D f :
  holds (holding D) (update (on_temporary temporary f)) partial (fun _ w => exists D', holding D' w /\ f D = Ok D').
Proof.
  apply holds_update; [intros w; apply holding_partial|]. intros w w' Hw H.
  rewrite (on_temporary_holding _ _ _ Hw) in H. apply bind_ok in H as (D' & Hf & [= <-]).
  split; [by exists D'|]. by exists D'.
Qed.

(** The payload files so far. *)
Definition with_files (D : ExportDir) (files : gmap string bytes) : ExportDir := D <| xd_attempts := Some files |>.

Lemma write_chunk_holds D files name content data torn : files !! name = Some content ->
  holds (holding (with_files D files)) (write_chunk temporary name data torn) partial
    (fun _ => holding (with_files D (<[name := content ++ data]> files))).
Proof.
  intros Hf. unfold write_chunk. eapply holds_conseq; [done| |apply (on_temporary_or _ _ _ (fun _ => True)); done].
  intros [] w (D' & Hw & HD & _). unfold extend_payload in HD. cbn in HD. rewrite Hf in HD. by injection HD as <-.
Qed.

Lemma bytes_of_app d key c c' x y : bytes_of d key c x -> bytes_of d key c' y -> bytes_of d key (c ++ c') (x ++ y).
Proof.
  intros (p & Hp & ->) (q & Hq & ->). exists (p ++ q). rewrite omap_app, concat_app. split; [|done].
  by apply Forall2_app.
Qed.

(** What the loop over the chunks has after some of them. *)
Definition writing (D : ExportDir) (files : gmap string bytes) (name : string) (key : option EncryptionKey)
    (terminal : bool) (done : list ChunkEvidence) (acc : bytes * N * bool * list string) (w : Exporting) : Prop :=
  let '(content, bytes, complete, types) := acc in
  bytes_of (ew_dir w0) key done content /\ bytes = N.min u64_max (nlen content) /\
  complete = terminal && forallb chunk_complete done /\ types = foldl add_media_type [] done /\
  holding (with_files D (<[name := content]> files)) w.

Lemma write_next_chunk_holds D files name key torn terminal done acc c :
  holds (writing D files name key terminal done acc) (write_next_chunk key temporary name torn acc c)
    partial (writing D files name key terminal (done ++ [c])).
Proof.
  destruct acc as [[[content bytes] complete] types]. unfold write_next_chunk, writing.
  apply (holds_pure (bytes_of (ew_dir w0) key done content /\ bytes = N.min u64_max (nlen content) /\
    complete = terminal && forallb chunk_complete done /\ types = foldl add_media_type [] done)); [by intros w H; tauto|].
  intros (Hb & -> & -> & ->). rewrite forallb_app, foldl_app, !andb_assoc. cbn [forallb foldl]. rewrite !andb_true_r.
  destruct (ch_reference c) as [r|] eqn:Er.
  - eapply holds_bind; [apply holds_look; intros w H; eapply holding_partial; apply H|]. intros plaintext.
    apply (holds_pure (load_blob (ew_dir w0) r key = Ok plaintext)).
    { intros w [(_ & _ & _ & _ & ->) H]. exact H. }
    intros Hl. eapply holds_bind.
    { eapply holds_conseq; [|done|apply (write_chunk_holds D (<[name := content]> files) name content); apply lookup_insert_eq].
      intros w [H _]. apply H. }
    intros []. apply holds_ret. intros w Hw. split; [by eapply holding_partial|].
    rewrite insert_insert_eq in Hw. split_and!; try done.
    + apply bytes_of_app; [done|]. exists [plaintext]. cbn. rewrite Er, app_nil_r. by repeat constructor.
    + unfold sat_add. rewrite nlen_app. lia.
    + unfold add_media_type. by rewrite Er.
  - apply holds_ret. intros w (_ & _ & _ & _ & Hw). split; [by eapply holding_partial|]. split_and!; try done.
    + rewrite <-(app_nil_r content). apply bytes_of_app; [done|]. exists []. cbn. by rewrite Er.
    + unfold add_media_type. by rewrite Er.
Qed.

Lemma write_chunks_holds D files name key torn terminal chunks done acc :
  holds (writing D files name key terminal done acc) (fold_proc (write_next_chunk key temporary name torn) acc chunks)
    partial (writing D files name key terminal (done ++ chunks)).
Proof.
  revert done acc. induction chunks as [|c chunks IH]; intros done acc; cbn [fold_proc].
  - apply holds_ret. intros w Hw. rewrite app_nil_r. split; [|exact Hw]. destruct acc as [[[? ?] ?] ?].
    eapply holding_partial, Hw.
  - eapply holds_bind; [apply write_next_chunk_holds|]. intros acc'.
    replace (done ++ c :: chunks) with ((done ++ [c]) ++ chunks) by (by rewrite <-app_assoc). apply IH.
Qed.

Lemma write_payload_holds D files key name chunks terminal torn :
  holds (holding (with_files D files)) (write_payload key temporary name chunks terminal torn) partial
    (fun p w => files !! name = None /\ exists content,
       bytes_of (ew_dir w0) key (sort_by_key ch_sequence chunks) content /\
       p = described name (sort_by_key ch_sequence chunks) terminal content /\
       holding (with_files D (<[name := content]> files)) w).
Proof.
  unfold write_payload. eapply holds_bind; [apply on_temporary_holds|]. intros []. cbn [with_files xd_attempts].
  apply (holds_pure (files !! name = None)).
  { intros w (D' & _ & H). cbn in H. by destruct (files !! name). }
  intros Hn. eapply holds_bind.
  { eapply holds_conseq; [|done|apply (write_chunks_holds D files name key torn terminal _ [] ([], 0, terminal, []))].
    intros w (D' & Hw & H). cbn in H. rewrite Hn in H. injection H as <-. split; [by exists []|].
    rewrite andb_true_r. by split_and!. }
  intros [[[content bytes] complete] types]. apply holds_ret. cbn [app writing].
  intros w (Hb & -> & -> & -> & Hw). split; [by eapply holding_partial|]. split; [done|]. by exists content.
Qed.

(** An attempt whose files are in the bundle. *)
Definition written_as (key : option EncryptionKey) (files : gmap string bytes) (entry : nat * AttemptEvidence)
    (r : ReplayAttempt) : Prop :=
  let '(index, a) := entry in
  let ordinal := sat_add (N.of_nat index) 1 in
  let request := sort_by_key ch_sequence (at_request_chunks a) in
  let response := sort_by_key ch_sequence (at_response_chunks a) in
  exists sent received,
    files !! request_name ordinal = Some sent /\ bytes_of (ew_dir w0) key request sent /\
    files !! response_name ordinal = Some received /\ bytes_of (ew_dir w0) key response received /\
    r = replay_attempt ordinal a
          (described (request_name ordinal) request (is_complete (at_request_terminal a)) sent)
          (described (response_name ordinal) response (is_complete (at_response_terminal a)) received).

Lemma written_as_grows key files files' entry r : files ⊆ files' -> written_as key files entry r -> written_as key files' entry r.
Proof.
  intros Hs. destruct entry as [index a]. intros (sent & received & H1 & H2 & H3 & H4 & H5).
  exists sent, received. split_and!; try done; by eapply lookup_weaken.
Qed.

Definition count_if (p : ReplayAttempt -> bool) (l : list ReplayAttempt) : N := nlen (List.filter p l).

(** What the loop over the attempts has after some of them. *)
Definition describing (D : ExportDir) (key : option EncryptionKey) (done : list (nat * AttemptEvidence))
    (acc : list ReplayAttempt * N * N) (w : Exporting) : Prop :=
  let '(output, replayable, oracles) := acc in
  replayable = N.min u64_max (count_if ra_request_replayable output) /\
  oracles = N.min u64_max (count_if ra_response_oracle_complete output) /\
  exists files, holding (with_files D files) w /\ Forall2 (written_as key files) done output.

Lemma count_if_snoc p l r : count_if p (l ++ [r]) = count_if p l + (if p r then 1 else 0).
Proof. unfold count_if. rewrite List.filter_app, nlen_app. cbn. by destruct (p r). Qed.

Lemma write_attempt_holds D key torn done acc entry :
  holds (describing D key done acc) (write_attempt key temporary torn acc entry) partial
    (describing D key (done ++ [entry])).
Proof.
  destruct acc as [[output replayable] oracles], entry as [index a]. unfold write_attempt, describing at 1.
  apply holds_given. intros ->. apply holds_given. intros ->. apply holds_exists. intros files.
  eapply holds_before; [intros w H; exact (conj (proj2 H) (proj1 H))|]. apply holds_given. intros Hdone.
  eapply holds_bind; [apply write_payload_holds|]. intros request. apply holds_given. intros Hn1.
  apply holds_exists. intros sent. apply holds_given. intros Hs. apply holds_given. intros ->.
  eapply holds_bind; [apply write_payload_holds|]. intros response. apply holds_given. intros Hn2.
  apply holds_exists. intros received. apply holds_given. intros Hr. apply holds_given. intros ->.
  apply holds_ret. intros w Hw. split; [by eapply holding_partial|]. unfold describing. rewrite !count_if_snoc.
  split; [unfold sat_add; lia|]. split; [unfold sat_add; lia|]. eexists. split; [exact Hw|].
  assert (files ⊆ <[response_name (sat_add (N.of_nat index) 1) := received]>
    (<[request_name (sat_add (N.of_nat index) 1) := sent]> files)) as Hsub.
  { etrans; [by apply insert_subseteq|by apply insert_subseteq]. }
  apply Forall2_app; [by eapply Forall2_impl; [exact Hdone|]; intros ??; apply written_as_grows|].
  constructor; [|constructor]. exists sent, received. split_and!; try done.
  - rewrite lookup_insert_ne; [apply lookup_insert_eq|]. intros E. by rewrite E, lookup_insert_eq in Hn2.
  - apply lookup_insert_eq.
Qed.

Lemma write_attempts_holds D key torn entries done acc :
  holds (describing D key done acc) (fold_proc (write_attempt key temporary torn) acc entries) partial
    (describing D key (done ++ entries)).
Proof.
  revert done acc. induction entries as [|entry entries IH]; intros done acc; cbn [fold_proc].
  - apply holds_ret. intros w Hw. rewrite app_nil_r. split; [|exact Hw]. destruct acc as [[? ?] ?].
    destruct Hw as (_ & _ & files & Hw & _). by eapply holding_partial.
  - eapply holds_bind; [apply write_attempt_holds|]. intros acc'.
    replace (done ++ entry :: entries) with ((done ++ [entry]) ++ entries) by (by rewrite <-app_assoc). apply IH.
Qed.

(** A whole bundle: the files of all attempts and the description of them. *)
Definition whole (key : option EncryptionKey) (i : Inspection) (attempts : list (string * AttemptEvidence))
    (D : ExportDir) (bundle : ReplayBundle) (report : ReplayExportReport) : Prop :=
  exists now files output text,
    D = mkExportDir (Some files) (Some (text ++ [LF])) /\ bundle_to_vec_pretty bundle = Some text /\
    Forall2 (written_as key files) (imap pair (sort_by_key at_first_sequence (snd <$> attempts))) output /\
    (bundle, report) = assemble i now output (N.min u64_max (count_if ra_request_replayable output))
                         (N.min u64_max (count_if ra_response_oracle_complete output)).

Lemma write_bundle_holds key i attempts now torn :
  holds (holding (mkExportDir None None)) (write_bundle key temporary i attempts now torn) partial
    (fun '(bundle, report) w => exists files output, holding (mkExportDir (Some files) None) w /\
       Forall2 (written_as key files) (imap pair (sort_by_key at_first_sequence (snd <$> attempts))) output /\
       (bundle, report) = assemble i now output (N.min u64_max (count_if ra_request_replayable output))
                            (N.min u64_max (count_if ra_response_oracle_complete output))).
Proof.
  unfold write_bundle. eapply holds_bind; [apply on_temporary_holds|]. intros []. cbn [xd_attempts].
  eapply holds_bind.
  { eapply holds_conseq; [|done|apply (write_attempts_holds (mkExportDir None None) key torn _ [] ([], 0, 0))].
    intros w (D & Hw & [= <-]). split; [done|]. split; [done|]. exists ∅. split; [done|constructor]. }
  intros [[output replayable] oracles]. apply holds_ret. cbn [app]. intros w (-> & -> & files & Hw & Hf).
  split; [by eapply holding_partial|]. exists files, output. done.
Qed.

Lemma write_private_json_holds files bundle torn :
  holds (holding (mkExportDir (Some files) None)) (write_private_json temporary bundle torn) partial
    (fun _ w => exists text, bundle_to_vec_pretty bundle = Some text /\
       holding (mkExportDir (Some files) (Some (text ++ [LF]))) w).
Proof.
  unfold write_private_json. eapply holds_bind; [apply on_temporary_holds|]. intros [].
  apply holds_exists. intros D.
  eapply holds_before; [intros w [H1 H2]; exact (conj H2 H1)|]. apply holds_given. intros [= <-].
  eapply holds_bind; [apply holds_keep; intros w; apply holding_partial|]. intros text.
  eapply holds_before; [intros w [H1 H2]; exact (conj H2 H1)|]. apply holds_given. intros Ht%ok_or_ok.
  eapply holds_conseq; [done| |apply (on_temporary_or _ _ _ (fun _ => True)); done].
  intros [] w (D & Hw & [= <-] & _). by exists text.
Qed.

Lemma prepare_bundle_holds key i attempts env :
  holds (holding (mkExportDir None None)) (prepare_bundle key temporary i attempts env) partial
    (fun report w => exists D bundle, holding D w /\ whole key i attempts D bundle report).
Proof.
  unfold prepare_bundle. eapply holds_bind; [apply write_bundle_holds|]. intros [bundle report].
  apply holds_exists. intros files. apply holds_exists. intros output.
  eapply holds_before; [intros w (H1 & H2 & H3); exact (conj (conj H2 H3) H1)|].
  apply holds_given. intros [Hf Ha]. eapply holds_bind; [apply write_private_json_holds|].
  intros []. apply holds_ret. intros w (text & Ht & Hw). split; [by eapply holding_partial|].
  eexists _, bundle. split; [exact Hw|]. by exists (re_now env), files, output, text.
Qed.
End Temporary.
End Writing.

(** ** The export *)

Section Exports.
Context {dig : Digest} {hx : Hex} {b64 : Base64} {aead : Aead} {zstd : Zstd} {http : Http}
  {serde : Serde} {serdeb : SerdeBlock} {serdem : SerdeManifest} {serdee : SerdeErasure}
  {serdea : SerdeAudit} {uuid : UuidDisplay} {url : UrlCrate} {editing : UrlEditing}
  {serder : SerdeReplay}.
Context {hxl : HexLaws} {serdeal : SerdeAuditLaws}.

Definition exported (outcome run_id : string) (w : Exporting) : Prop :=
  exists file, file `prefix_of` default [] (ew_audit w) /\ logged file (AuditLog.Run "export" outcome run_id).

(** The output: a whole bundle of the attempts of the run, exported with the
    intent on record. *)
Definition bundled (w0 : Exporting) (key : option EncryptionKey) (entry : OutputEntry) (bundle : ReplayBundle)
    (report : ReplayExportReport) (w : Exporting) : Prop :=
  exists i effective attempts D, entry = Bundle D /\ check_source w0 key = Ok (i, effective) /\
    collect_attempts (ew_events w0) (m_run_id (in_manifest i)) effective = Ok attempts /\
    whole w0 effective i attempts D bundle report /\ exported "intent" (m_run_id (in_manifest i)) w.

(** Whatever happened, the run is as it was, the audit log has only been extended,
    no entry was changed, and a new one is a temporary directory or the output. *)
Record untouched (w0 : Exporting) (key : option EncryptionKey) (temporary output : string) (w : Exporting) : Prop := {
  un_manifest : ew_manifest w = ew_manifest w0;
  un_events : ew_events w = ew_events w0;
  un_dir : ew_dir w = ew_dir w0;
  un_audit : default [] (ew_audit w0) `prefix_of` default [] (ew_audit w);
  un_kept : ew_parent w0 ⊆ ew_parent w;
  un_new : forall name entry, ew_parent w !! name = Some entry -> ew_parent w0 !! name = None ->
    name = temporary \/ name = output /\ exists bundle report, bundled w0 key entry bundle report w;
}.

Section One.
Context (w0 : Exporting) (key : option EncryptionKey) (env : ReplayEnv) (output : string).
Context (i : Inspection) (effective : option EncryptionKey) (attempts : list (string * AttemptEvidence)).
Hypothesis Hsource : check_source w0 key = Ok (i, effective).
Hypothesis Hattempts : collect_attempts (ew_events w0) (m_run_id (in_manifest i)) effective = Ok attempts.

Notation temporary := (temporary_export env).
Notation run_id := (m_run_id (in_manifest i)).
Hypothesis Hfree : output <> temporary.
Notation safe := (untouched w0 key temporary output).

(** After the intent was logged. *)
Context (file : bytes).
Hypothesis Hprefix : default [] (ew_audit w0) `prefix_of` file.
Hypothesis Hlogged : logged file (AuditLog.Run "export" "intent" run_id).
Notation w1 := (set_export_audit w0 file).

Lemma intent_safe : safe w1.
Proof. split; try done. cbn. intros name entry H1 H2. congruence. Qed.

Hypothesis Habsent : ew_parent w0 !! temporary = None.

Lemma partial_safe w : partial w1 temporary w -> safe w.
Proof.
  intros [D ->]. split; try done; cbn.
  - by apply insert_subseteq.
  - intros name entry H1 H2. left. destruct (decide (name = temporary)) as [->|Hne]; [done|].
    rewrite lookup_insert_ne in H1 by done. congruence.
Qed.

Definition published (D : ExportDir) (file' : bytes) (w : Exporting) : Prop :=
  w = set_export_audit w0 file' <| ew_parent := <[output := Bundle D]> (ew_parent w0) |> /\ file `prefix_of` file' /\
  ew_parent w0 !! output = None.

Lemma published_safe D bundle report file' w : whole w0 effective i attempts D bundle report ->
  published D file' w -> safe w.
Proof.
  intros Hw (-> & Hp & Ho). split; try done; cbn.
  - by etrans.
  - by apply insert_subseteq.
  - intros name entry H1 H2. right. destruct (decide (name = output)) as [->|Hne].
    + rewrite lookup_insert_eq in H1. injection H1 as <-. split; [done|]. exists bundle, report, i, effective, attempts, D.
      do 4 (split; [done|]). by exists file.
    + rewrite lookup_insert_ne in H1 by done. congruence.
Qed.

(** The worlds in which an error can leave the preparation and the publication. *)
Definition working (w : Exporting) : Prop :=
  partial w1 temporary w \/
  exists D bundle report, whole w0 effective i attempts D bundle report /\ published D file w.

Lemma working_safe w : working w -> safe w.
Proof. intros [H|(D & bundle & report & Hw & H)]; [by apply partial_safe|by eapply published_safe]. Qed.

Lemma remove_temporary_safe :
  holds working (remove_temporary temporary (re_tear env)) safe (fun _ _ => True).
Proof.
  apply holds_update_or; [apply working_safe|]. intros w w' Hw H.
  destruct Hw as [[D Hw]|(D & bundle & report & _ & Hw & _)]; unfold holding in Hw; subst w; cbn in H.
  - rewrite lookup_insert_eq in H. injection H as <-. cbn. rewrite delete_insert_id by done.
    split; [exact intent_safe|]. split; [done|]. unfold or_same.
    rewrite (on_temporary_holding w1 temporary D) by done. cbn. apply partial_safe. by eexists.
  - by rewrite lookup_insert_ne, Habsent in H.
Qed.

Lemma or_clean_up_safe {A} P (c : proc A) Q : holds P c working Q -> holds P (or_clean_up temporary env c) safe Q.
Proof.
  intros Hc. unfold or_clean_up. eapply holds_bind.
  { intros w n out w' n' HP H. destruct (holds_try _ _ _ _ Hc _ _ _ _ _ HP H) as [H1 H2].
    split; [by apply working_safe|exact H2]. }
  intros [a|error].
  - apply holds_ret. intros w [Hw H]. split; [by apply working_safe|by apply H].
  - eapply holds_bind; [eapply holds_before; [intros w [H _]; exact H|apply holds_try, remove_temporary_safe]|].
    intros r. apply holds_lift. intros w [Hw _]. by split.
Qed.

Lemma publish_holds D bundle report : whole w0 effective i attempts D bundle report ->
  holds (holding w1 temporary D) (publish temporary output) working (fun _ => published D file).
Proof.
  intros Hw. apply holds_update; [intros w H; left; by exists D|]. intros w w' Hd H. unfold holding in Hd. subst w. cbn in H.
  rewrite lookup_insert_eq, lookup_insert_ne in H by done. destruct (ew_parent w0 !! output) eqn:Ho; [done|].
  injection H as <-. cbn.
  assert (published D file (w0 <| ew_audit := Some file |> <| ew_parent :=
    <[output := Bundle D]> (delete temporary (<[temporary := Bundle D]> (ew_parent w0))) |>)) as Hp.
  { split; [by rewrite delete_insert_id|done]. }
  split; [right; by exists D, bundle, report|exact Hp].
Qed.

(** The report with the place of the bundle. *)
Definition located (parent_path : list string) (r : ReplayExportReport) : ReplayExportReport :=
  mkReplayExportReport (er_run_id r) (parent_path ++ [output]) (er_format r) (er_attempts r)
    (er_request_replayable_attempts r) (er_response_oracle_complete_attempts r) (er_client_replay_complete r).

(** What an export that returns has done. *)
Definition finished (parent_path : list string) (report : ReplayExportReport) (w : Exporting) : Prop :=
  exists D bundle r file', whole w0 effective i attempts D bundle r /\ published D file' w /\
    logged file' (AuditLog.Run "export" "complete" run_id) /\ report = located parent_path r.

Lemma append_complete_holds D bundle r details ctx torn parent_path : whole w0 effective i attempts D bundle r ->
  holds (published D file) (append_export_audit "complete" run_id details ctx torn) safe
    (fun _ => finished parent_path (located parent_path r)).
Proof.
  intros Hw. apply holds_update_or; [intros w; by eapply published_safe|]. intros w w' (-> & _ & Ho) H. cbn in H.
  destruct (append _ _ _ _ _ _ None) as [[record|e] file'] eqn:E; [|done]. injection H as <-.
  destruct (append_logged_as _ _ _ _ _ _ _ _ E) as (Hp & Hl & _).
  assert (forall f, file `prefix_of` f -> published D f (set_export_audit
    (set_export_audit w0 file <| ew_parent := <[output := Bundle D]> (ew_parent w0) |>) f)) as Hpub by done.
  split; [by eapply published_safe, Hpub|]. split.
  - exists D, bundle, r, file'. split; [done|]. split; [by apply Hpub|]. split; [|done].
    apply Hl. intros x <- <- <- _. cbn [matches]. by rewrite !(proj2 (str_eqb_true _ _)).
  - eapply published_safe, Hpub; [done|]. apply torn_append_prefix.
Qed.

Lemma completing_holds parent_path :
  holds (holding w1 temporary (mkExportDir None None))
    (report ← or_clean_up temporary env (prepare_bundle effective temporary i attempts env);
     or_clean_up temporary env (publish temporary output);;
     append_export_audit "complete" run_id (replay_complete_details report) (re_complete_ctx env) (re_torn env);;
     mret (located parent_path report))
    safe (finished parent_path).
Proof.
  eapply holds_bind.
  { apply or_clean_up_safe. intros w n out w' n' HP H.
    destruct (prepare_bundle_holds w1 temporary effective i attempts env _ _ _ _ _ HP H) as [H1 H2].
    split; [by left|exact H2]. }
  intros report. apply holds_exists. intros D. apply holds_exists. intros bundle.
  eapply holds_before; [intros w [H1 H2]; exact (conj H2 H1)|]. apply holds_given. intros Hw.
  eapply holds_bind; [apply or_clean_up_safe; by eapply publish_holds|]. intros [].
  eapply holds_bind; [by eapply append_complete_holds|]. intros []. apply holds_ret. intros w Hf.
  split; [|exact Hf]. destruct Hf as (D' & b' & r' & f' & H1 & H2 & _). by eapply published_safe.
Qed.
End One.

(** After the checks: from the record of the intent to the end. *)
Lemma exporting_holds w0 key env output i effective parent_path :
  check_source w0 key = Ok (i, effective) -> output <> temporary_export env ->
  holds (eq w0)
    (append_export_audit "intent" (m_run_id (in_manifest i)) replay_details (re_intent_ctx env) (re_torn env);;
     attempts ← look (fun w => storage_message (collect_attempts (ew_events w) (m_run_id (in_manifest i)) effective));
     create_temporary (temporary_export env);;
     report ← or_clean_up (temporary_export env) env
                (prepare_bundle effective (temporary_export env) i attempts env);
     or_clean_up (temporary_export env) env (publish (temporary_export env) output);;
     append_export_audit "complete" (m_run_id (in_manifest i)) (replay_complete_details report) (re_complete_ctx env)
       (re_torn env);;
     mret (located output parent_path report))
    (untouched w0 key (temporary_export env) output)
    (fun report w => exists attempts file,
       collect_attempts (ew_events w0) (m_run_id (in_manifest i)) effective = Ok attempts /\
       logged file (AuditLog.Run "export" "intent" (m_run_id (in_manifest i))) /\
       finished w0 output i effective attempts file parent_path report w).
Proof.
  intros Hs Hne. set (run_id := m_run_id (in_manifest i)).
  set (safe := untouched w0 key (temporary_export env) output).
  apply (holds_bind _ _ (fun _ w => exists file, (default [] (ew_audit w0) `prefix_of` file /\
    logged file (AuditLog.Run "export" "intent" run_id)) /\ w = set_export_audit w0 file)).
  { apply holds_update_or; [intros w <-; split; try done; congruence|]. intros w w' <- H.
    destruct (append _ _ _ _ _ _ None) as [[record|e] file] eqn:E; [|done]. injection H as <-.
    destruct (append_logged_as _ _ _ _ _ _ _ _ E) as (Hp & Hl & _). split; [by apply intent_safe|]. split.
    - exists file. split; [|done]. split; [done|]. apply Hl. intros x <- <- <- _. cbn [matches].
      by rewrite !(proj2 (str_eqb_true _ _)).
    - apply intent_safe, torn_append_prefix. }
  intros []. apply holds_exists. intros file. apply holds_given. intros [Hp Hl].
  eapply holds_bind; [apply holds_look; intros w ->; by apply intent_safe|]. intros attempts.
  apply (holds_before _ (fun w => storage_message (collect_attempts (ew_events w0) run_id effective) = Ok attempts /\
    w = set_export_audit w0 file)); [by intros w [-> H]|].
  apply holds_given. intros Ha%map_err_ok.
  apply (holds_bind _ _ (fun _ w => ew_parent w0 !! temporary_export env = None /\
    holding (set_export_audit w0 file) (temporary_export env) (mkExportDir None None) w)).
  { apply holds_update; [intros w ->; by apply intent_safe|]. intros w w' -> H. cbn in H.
    destruct (ew_parent w0 !! temporary_export env) eqn:Ht; [done|]. injection H as <-.
    split; [|by split]. eapply partial_safe; [done..|]. by eexists. }
  intros []. apply holds_given. intros Ht. eapply holds_conseq; [done| |by eapply completing_holds].
  intros report w Hf. by exists attempts, file.
Qed.

(** What the end of an export leaves. *)
Definition delivered (w0 : Exporting) (parent_path : list string) (output : string) (key : option EncryptionKey)
    (report : ReplayExportReport) (w : Exporting) : Prop :=
  exists i effective attempts D bundle r,
    check_source w0 key = Ok (i, effective) /\
    collect_attempts (ew_events w0) (m_run_id (in_manifest i)) effective = Ok attempts /\
    whole w0 effective i attempts D bundle r /\ report = located output parent_path r /\
    ew_parent w0 !! output = None /\ ew_parent w = <[output := Bundle D]> (ew_parent w0) /\
    exported "intent" (m_run_id (in_manifest i)) w /\ exported "complete" (m_run_id (in_manifest i)) w.

Lemma delivered_whole w0 parent_path output key report w i effective attempts :
  delivered w0 parent_path output key report w -> check_source w0 key = Ok (i, effective) ->
  collect_attempts (ew_events w0) (m_run_id (in_manifest i)) effective = Ok attempts ->
  exists D bundle r, whole w0 effective i attempts D bundle r /\ length (rb_attempts bundle) = length attempts.
Proof.
  intros (i' & e' & l & D & bundle & r & Hs & Ha & Hw & _) Hs' Ha'. rewrite Hs' in Hs. injection Hs as <- <-.
  rewrite Ha' in Ha. injection Ha as <-. exists D, bundle, r. split; [exact Hw|].
  destruct Hw as (now & files & out & text & _ & _ & Hf & Hb). injection Hb as -> _.
  apply Forall2_length in Hf. rewrite length_imap in Hf. cbn [rb_attempts]. rewrite <-Hf.
  unfold sort_by_key, sort_by. by rewrite merge_sort_Permutation, length_fmap.
Qed.

Lemma export_replay_holds w0 run_path parent_path output key env : output <> temporary_export env ->
  holds (eq w0) (export_replay_with_key run_path parent_path output key env)
    (untouched w0 key (temporary_export env) output) (delivered w0 parent_path output key).
Proof.
  intros Hfree. unfold export_replay_with_key.
  assert (forall w, w0 = w -> untouched w0 key (temporary_export env) output w) as Hstart.
  { intros w <-. split; try done. congruence. }
  eapply holds_bind; [by apply holds_keep|]. intros [].
  eapply holds_bind; [apply holds_look; intros w [H _]; by apply Hstart|]. intros [].
  eapply holds_bind; [apply holds_look; intros w [[H _] _]; by apply Hstart|]. intros [i effective].
  apply (holds_before _ (fun w => check_source w0 key = Ok (i, effective) /\ w0 = w)); [by intros w [[[<- _] _] Hs]|].
  apply holds_given. intros Hs.
  eapply holds_conseq; [intros w H; exact H| |exact (exporting_holds _ _ _ _ _ _ parent_path Hs Hfree)].
  intros report w (attempts & file & Ha & Hl & D & bundle & r & file' & Hw & (-> & Hp & Ho) & Hc & ->).
  exists i, effective, attempts, D, bundle, r. do 6 (split; [done|]). split; [by exists file|by exists file'].
Qed.
(** C15: However the export of a replay bundle ends, killed at any write, failed or
    finished, the run is as it was, the audit log was only extended, no entry of
    the output directory was changed, and a new entry is the temporary directory
    or the whole bundle, with the intent on record.  An export that returns has
    put the bundle there, left no temporary directory and logged the completion;
    the files of the bundle are the payloads of each attempt's chunks in the
    order of the log, and the description gives their sizes, digests and whether
    every byte was captured. *)
Theorem replay_export_exact w0 run_path parent_path output key env n out w n'
    (Hfree : output <> temporary_export env)
    (Hrun : export_replay_with_key run_path parent_path output key env (w0, n) = (out, (w, n'))) :
  untouched w0 key (temporary_export env) output w /\
  forall report, out = Returned (Ok report) -> delivered w0 parent_path output key report w.
Proof. exact (export_replay_holds w0 run_path parent_path output key env Hfree w0 n out w n' eq_refl Hrun). Qed.
End Exports.

(** ** The contents of a bundle *)

Section Contents.
Context {dig : Digest} {hx : Hex} {b64 : Base64} {aead : Aead} {zstd : Zstd} {http : Http}
  {serde : Serde} {serdeb : SerdeBlock} {serdem : SerdeManifest} {serdee : SerdeErasure}
  {url : UrlCrate} {editing : UrlEditing} {urll : UrlLaws} {serder : SerdeReplay}.
Context {aeadl : AeadLaws}.

Definition observed_size (e : EventEnvelope) : option N := (ev_normalized e ≫= get "observed_size") ≫= as_u64.

(** The bytes the events refer to, one payload after the other. *)
Definition payload_of (d : RunDir) (key : option EncryptionKey) (es : list EventEnvelope) (content : bytes) : Prop :=
  exists parts, Forall2 (fun r p => load_blob d r key = Ok p) (omap ev_raw es) parts /\ content = concat parts.

(** Every byte that passed is in the content. *)
Definition fully_captured (es : list EventEnvelope) (content : bytes) : Prop :=
  Forall (fun e => is_Some (observed_size e)) es /\
  nlen content = foldr (fun e n => default 0 (observed_size e) + n) 0 es.

Lemma chunks_payload d key es content :
  bytes_of d key (chunk_evidence <$> es) content <-> payload_of d key es content.
Proof.
  unfold bytes_of, payload_of. replace (omap ch_reference (chunk_evidence <$> es)) with (omap ev_raw es); [done|].
  induction es as [|e es IH]; [done|]. cbn. by rewrite IH.
Qed.

Lemma load_blob_size d r key p : load_blob d r key = Ok p -> nlen p = ref_size r.
Proof. unfold load_blob, message. intros H%map_err_ok. by apply read_blob_checked in H as [H _]. Qed.

Lemma complete_captured d key es content : payload_of d key es content ->
  forallb chunk_complete (chunk_evidence <$> es) = true -> fully_captured es content.
Proof.
  intros (parts & Hp & ->). revert parts Hp. induction es as [|e es IH]; intros parts Hp Hc.
  { inversion Hp. subst. by split. }
  cbn [fmap list_fmap forallb] in Hc. apply andb_true_iff in Hc as [He Hc].
  unfold chunk_complete, chunk_evidence in He. cbn in He. cbn in Hp.
  unfold fully_captured. rewrite Forall_cons. cbn [foldr]. unfold observed_size at 1 3.
  destruct (_ ≫= as_u64) as [observed|]; [|done]. destruct (_ ≫= as_u64) as [captured|]; [|done].
  apply andb_true_iff in He as [->%N.eqb_eq He]. cbn [default].
  destruct (N.eqb_spec captured 0) as [Hz|Hne], (ev_raw e) as [r|]; try done.
  - destruct (IH _ Hp Hc) as [H1 H2]. by rewrite H2, Hz.
  - apply andb_true_iff in He as [_ Hr%N.eqb_eq]. inversion Hp as [|? p ? parts' Hl Hp']; subst.
    destruct (IH _ Hp' Hc) as [H1 H2]. cbn [concat]. rewrite nlen_app, H2, (load_blob_size _ _ _ _ Hl). done.
Qed.

Lemma collect_attempts_ok events run_id key attempts es :
  collect_attempts events run_id key = Ok attempts -> run_events events run_id key = Ok es ->
  exists f, attempts = (fun id => (id, f id)) <$> attempt_ids es /\
    forall id, evidence_of id (members id es) (f id).
Proof.
  unfold collect_attempts. intros ([report l] & (es' & Hes & Hfold & _)%for_each_fold & [= <-])%bind_ok He.
  rewrite Hes in He. injection He as ->. destruct (collect_fold_ok _ _ Hfold) as (f & H1 & H2 & _). by exists f.
Qed.

(** Every attempt of a whole bundle is one of the log, with its evidence. *)
Lemma whole_attempts w0 key i attempts D bundle report es :
  run_events (ew_events w0) (m_run_id (in_manifest i)) key = Ok es ->
  collect_attempts (ew_events w0) (m_run_id (in_manifest i)) key = Ok attempts ->
  whole w0 key i attempts D bundle report ->
  exists files sorted, xd_attempts D = Some files /\ at_attempt_id <$> sorted ≡ₚ attempt_ids es /\
    StronglySorted (fun a b => at_first_sequence a <= at_first_sequence b) sorted /\
    Forall (fun a => evidence_of (at_attempt_id a) (members (at_attempt_id a) es) a) sorted /\
    Forall2 (written_as w0 key files) (imap pair sorted) (rb_attempts bundle).
Proof.
  intros Hes Ha (now & files & output & text & -> & _ & Hf & Hb).
  destruct (collect_attempts_ok _ _ _ _ _ Ha Hes) as (f & -> & Hev). injection Hb as -> _.
  set (evidence := snd <$> _) in Hf. assert (evidence = f <$> attempt_ids es) as E.
  { unfold evidence. rewrite <-list_fmap_compose. by apply list_fmap_ext. }
  assert (sort_by_key at_first_sequence evidence ≡ₚ f <$> attempt_ids es) as Hp.
  { unfold sort_by_key, sort_by. by rewrite merge_sort_Permutation, E. }
  exists files, (sort_by_key at_first_sequence evidence). split; [done|]. split_and!.
  - rewrite Hp, <-list_fmap_compose. rewrite (list_fmap_ext _ id); [by rewrite list_fmap_id|].
    intros k id _. apply Hev.
  - eapply StronglySorted_weaken; [|apply StronglySorted_merge_sort; apply _]. intros a b. apply not_after_key.
  - rewrite Hp. apply Forall_fmap, Forall_true. intros id. cbn. destruct (Hev id) as [H1 H2 H3 H4 H5 H6 H7 H8 H9].
    rewrite H1. by split.
  - done.
Qed.

(** An attempt of the bundle, with the events of the log it stands for. *)
Record replayed (w0 : Exporting) (key : option EncryptionKey) (es : list EventEnvelope)
    (files : gmap string bytes) (r : ReplayAttempt) : Prop := {
  ry_sequences : ra_evidence_sequences r = ev_sequence <$> members (ra_attempt_id r) es;
  ry_request : exists sent, files !! request_name (ra_ordinal r) = Some sent /\
    payload_of (ew_dir w0) key (List.filter carries_request (members (ra_attempt_id r) es)) sent /\
    rp_bytes (ra_request r) = N.min u64_max (nlen sent) /\
    rp_sha256 (ra_request r) = "sha256:" +:+ hex_encode (sha256 sent) /\
    (ra_request_replayable r = true -> ra_protocol r = Some "http/1.1" /\
       is_Some (ra_method r) /\ is_Some (ra_target r) /\
       last_state "request_body_finished" (members (ra_attempt_id r) es) = Some Complete /\
       fully_captured (List.filter carries_request (members (ra_attempt_id r) es)) sent);
  ry_response : exists received, files !! response_name (ra_ordinal r) = Some received /\
    payload_of (ew_dir w0) key (List.filter carries_response (members (ra_attempt_id r) es)) received /\
    rp_bytes (ra_expected_response r) = N.min u64_max (nlen received) /\
    rp_sha256 (ra_expected_response r) = "sha256:" +:+ hex_encode (sha256 received) /\
    (ra_response_oracle_complete r = true -> is_Some (ra_response_status r) /\
       last_state "transport_attempt_finished" (members (ra_attempt_id r) es) = Some Complete /\
       fully_captured (List.filter carries_response (members (ra_attempt_id r) es)) received);
}.

(** The events of a log in sequence are in order for the payloads. *)
Lemma chunks_in_order p id es : sequenced 0 es ->
  sort_by_key ch_sequence (chunk_evidence <$> List.filter p (members id es)) =
  chunk_evidence <$> List.filter p (members id es).
Proof.
  intros [_ Hs]%sequenced_increasing. apply sort_by_key_sorted.
  apply (StronglySorted_fmap_iff (fun c c' => ch_sequence c < ch_sequence c')). by do 2 apply StronglySorted_filter.
Qed.

Definition begins (r : ReplayAttempt) : N := default 0 (head (ra_evidence_sequences r)).

Lemma first_is_head ms : Forall (fun e => 0 < ev_sequence e) ms ->
  default 0 (List.find (fun n => negb (n =? 0)) (ev_sequence <$> ms)) = default 0 (head (ev_sequence <$> ms)).
Proof. intros [|e ms' He _]; [done|]. cbn. by rewrite (proj2 (N.eqb_neq _ _)) by lia. Qed.

Lemma members_positive id es : sequenced 0 es -> Forall (fun e => 0 < ev_sequence e) (members id es).
Proof.
  intros [Hf _]%sequenced_increasing. rewrite Forall_forall in Hf |- *.
  intros e He%list_elem_of_In%filter_In. apply Hf, list_elem_of_In, He.
Qed.

Lemma written_replayed w0 key es files index a r : sequenced 0 es ->
  evidence_of (at_attempt_id a) (members (at_attempt_id a) es) a ->
  written_as w0 key files (index, a) r ->
  replayed w0 key es files r /\ ra_attempt_id r = at_attempt_id a /\ begins r = at_first_sequence a.
Proof.
  intros Hs [_ H2 H3 H4 H5 H6 H7 H8 H9] (sent & received & F1 & B1 & F2 & B2 & ->).
  rewrite H2, H3, H4, H5, !chunks_in_order in * by done. apply chunks_payload in B1, B2.
  split; [|split; [done|unfold begins; cbn; rewrite H6, H7; symmetry; by apply first_is_head, members_positive]].
  split; cbn -[described]; [done| |].
  - exists sent. do 4 (split; [done|]). rewrite !andb_true_iff, !bool_decide_eq_true.
    intros [[[Hproto Hm] Ht] [Hd Hc]%andb_true_iff]. unfold is_complete in Hd. apply bool_decide_eq_true in Hd.
    do 4 (split; [done|]). by eapply complete_captured.
  - exists received. do 4 (split; [done|]). rewrite !andb_true_iff, bool_decide_eq_true.
    intros [[Hd Hc]%andb_true_iff Hst]. unfold is_complete in Hd. apply bool_decide_eq_true in Hd.
    do 2 (split; [done|]). by eapply complete_captured.
Qed.

Lemma replayed_all w0 key es files sorted output : sequenced 0 es ->
  Forall (fun a => evidence_of (at_attempt_id a) (members (at_attempt_id a) es) a) sorted ->
  Forall2 (written_as w0 key files) (imap pair sorted) output ->
  Forall (replayed w0 key es files) output /\
  ra_attempt_id <$> output = at_attempt_id <$> sorted /\ begins <$> output = at_first_sequence <$> sorted.
Proof.
  intros Hs. revert output. induction sorted as [|a sorted IH] using rev_ind; intros output Hev Hf.
  { inversion Hf. by split. }
  apply Forall_app in Hev as [Hev Ha]. rewrite Forall_singleton in Ha. rewrite imap_app in Hf.
  apply Forall2_app_inv_l in Hf as (o1 & o2 & H1 & H2 & ->). inversion H2 as [|? r ? ? Hr Hnil]; subst.
  inversion Hnil; subst. destruct (IH _ Hev H1) as (H3 & H4 & H5).
  destruct (written_replayed _ _ _ _ _ _ _ Hs Ha Hr) as (H6 & H7 & H8).
  rewrite Forall_app, Forall_singleton, !fmap_app, H4, H5. cbn. by rewrite H7, H8.
Qed.

(** Only if every attempt counts is the count the number of them. *)
Lemma count_if_all p l : N.min u64_max (count_if p l) = nlen l -> Forall (fun r => p r = true) l.
Proof.
  intros H. assert (count_if p l = nlen l) as Hc.
  { assert (count_if p l <= nlen l); [|lia]. unfold count_if, nlen. pose proof (List.filter_length_le p l). lia. }
  clear H. unfold count_if, nlen in Hc. induction l as [|r l IH]; [constructor|]. cbn in Hc.
  pose proof (List.filter_length_le p l). destruct (p r) eqn:E; cbn in Hc; [|lia]. constructor; [done|]. apply IH. lia.
Qed.

(** C16: The attempts of a bundle are those of the log, in the order in which they
    began.  The files of an attempt are the payloads its events refer to, in the
    order of the log, with the size and digest the description gives; an attempt
    is offered for replay only if its request ended and every byte that passed is
    in the file, its response serves as an oracle only if that holds of it, and a
    bundle is called complete only if all of this holds of every attempt and none
    refers to state the provider keeps. *)
Theorem replay_bundle_faithful w0 key i attempts D bundle report es
    (Hlog : run_events (ew_events w0) (m_run_id (in_manifest i)) key = Ok es)
    (Hsequenced : sequenced 0 es)
    (Hattempts : collect_attempts (ew_events w0) (m_run_id (in_manifest i)) key = Ok attempts)
    (Hwhole : whole w0 key i attempts D bundle report) :
  ra_attempt_id <$> rb_attempts bundle ≡ₚ attempt_ids es /\
  StronglySorted (fun r r' => begins r <= begins r') (rb_attempts bundle) /\
  (exists files, xd_attempts D = Some files /\ Forall (replayed w0 key es files) (rb_attempts bundle)) /\
  (rb_client_replay_complete bundle = true ->
     rb_attempts bundle <> [] /\
     Forall (fun r => ra_request_replayable r = true) (rb_attempts bundle) /\
     Forall (fun r => ra_response_oracle_complete r = true) (rb_attempts bundle) /\
     Forall (fun r => ra_state_references r = []) (rb_attempts bundle)).
Proof.
  destruct (whole_attempts _ _ _ _ _ _ _ _ Hlog Hattempts Hwhole) as (files & sorted & Hd & Hids & Hord & Hev & Hf).
  destruct (replayed_all _ _ _ _ _ _ Hsequenced Hev Hf) as (Hr & Hn & Hb). split; [by rewrite Hn|]. split.
  { apply (StronglySorted_fmap_iff N.le). rewrite Hb. by apply StronglySorted_fmap_iff. }
  split; [by exists files|]. destruct Hwhole as (now & files' & output & text & _ & _ & _ & Ha). injection Ha as -> _.
  cbn. rewrite !andb_true_iff, !N.eqb_eq, N.ltb_lt. intros ((((((H0 & H1) & H2) & _) & _) & _) & H3).
  split; [by intros ->|]. split; [by apply count_if_all|]. split; [by apply count_if_all|].
  apply Forall_forall. intros r Hin. rewrite forallb_forall in H3.
  by apply (bool_decide_eq_true (ra_state_references r = [])), H3, list_elem_of_In.
Qed.

(** C30: No credential the log still has leaves with a bundle: every header of an
    attempt is a header of a request the attempt started, by its lowercase name,
    and is neither secret, nor redacted, nor one of the connection (by the fixed
    list or because the connection header names it), and its target has no user information, no query and no fragment, unless it
    is the path a logical request was logged with. *)
Theorem replay_no_credentials w0 key i attempts D bundle report es r
    (Hlog : run_events (ew_events w0) (m_run_id (in_manifest i)) key = Ok es)
    (Hattempts : collect_attempts (ew_events w0) (m_run_id (in_manifest i)) key = Ok attempts)
    (Hwhole : whole w0 key i attempts D bundle report)
    (Hr : r ∈ rb_attempts bundle) :
  clean_headers (members (ra_attempt_id r) es) (ra_headers r) /\
  forall target, ra_target r = Some target -> clean_target target \/
    exists e, e ∈ members (ra_attempt_id r) es /\ ev_event e = "logical_inference_request" /\
      string_field (ev_normalized e) "path" = Some target.
Proof.
  destruct (whole_attempts _ _ _ _ _ _ _ _ Hlog Hattempts Hwhole) as (files & sorted & _ & _ & _ & Hev & Hf).
  apply list_elem_of_lookup in Hr as [k Hk]. destruct (Forall2_lookup_r _ _ _ _ _ Hf Hk) as ([index a] & Ha & Hw).
  rewrite list_lookup_imap in Ha. destruct (sorted !! k) as [a'|] eqn:E; [|done]. injection Ha as <- <-.
  rewrite Forall_lookup in Hev. destruct (Hev _ _ E) as [_ _ _ _ _ _ _ H8 H9].
  destruct Hw as (sent & received & _ & _ & _ & _ & ->). by split.
Qed.
End Contents.

(** ** Witnesses *)

Module ReplayExamples.
Import Concrete ManifestExamples.

(** URLs of one host, with or without a user, a password, a query and a
    fragment. *)
Definition parts : Type := bool * bool * bool * bool.
Definition text_of (u : parts) : string :=
  let '(user, password, query, fragment) := u in
  let when (b : bool) (s : string) := if b then s else "" in
  "https://" +:+ when user "u" +:+ when password ":p" +:+ when (user || password) "@" +:+ "api/v1"
  +:+ when query "?q" +:+ when fragment "#f".
Definition all_parts : list parts :=
  user ← [true; false]; password ← [true; false]; query ← [true; false]; fragment ← [true; false];
  [(user, password, query, fragment)].
Definition part (b : bool) (s : string) : option string := if b then Some s else None.

#[local] Instance one_host : UrlCrate := {|
  Url := parts;
  url_parse s := List.find (fun u => str_eqb (text_of u) s) all_parts;
  url_host_str _ := Some "api";
  url_username '(user, _, _, _) := if user : bool then "u" else "";
  url_password '(_, password, _, _) := part password "p";
  url_query '(_, _, query, _) := part query "q";
  url_fragment '(_, _, _, fragment) := part fragment "f";
  url_path _ := "/v1";
  url_scheme _ := "https";
  url_set_path u _ := u;
  url_to_string := text_of;
|}.
#[local] Instance one_host_editing : UrlEditing := {|
  url_set_username '(_, password, query, fragment) s := (negb (str_is_empty s), password, query, fragment);
  url_set_password '(user, _, query, fragment) s := (user, bool_decide (is_Some s), query, fragment);
  url_set_query '(user, password, _, fragment) s := (user, password, bool_decide (is_Some s), fragment);
  url_set_fragment '(user, password, query, _) s := (user, password, query, bool_decide (is_Some s));
|}.
#[local] Instance one_host_laws : UrlLaws.
Proof. split; intros [[[[] []] []] []]; by vm_compute. Qed.

(** A finished run with one call: its start with credentials in the target and
    the headers, a body of one chunk, a response without a body. *)
Definition called : list EventEnvelope :=
  [InspectExamples.of_call 1 "transport_request_started" None
     [("headers", JObject [("Authorization", JArray [JString "Bearer key"]);
                           ("connection", JArray [JString "close, X-Route"]);
                           ("content-type", JArray [JString "application/json"]);
                           ("x-route", JArray [JString "east"])]);
      ("method", JString "POST"); ("protocol", JString "http/1.1");
      ("uri", JString "https://u:p@api/v1?q")] None;
   InspectExamples.of_call 2 "request_body_chunk" (Some InspectExamples.reference)
     [("captured_size", JNumber (PosInt 6)); ("observed_size", JNumber (PosInt 6))] None;
   InspectExamples.of_call 3 "request_body_finished" None [] (Some Complete);
   InspectExamples.of_call 4 "transport_attempt_finished" None [("status", JNumber (PosInt 200))] (Some Complete)].

#[local] Instance called_serde : Serde := {|
  encrypted_event_to_vec _ := None;
  encrypted_event_from_slice _ := None;
  envelope_to_vec _ := None;
  envelope_from_slice b :=
    snd <$> List.find (fun entry => bool_decide (entry.1 ++ [LF] = b)) (zip InspectExamples.call_lines called);
  value_from_slice _ := None;
|}.
#[local] Instance called_blocks : SerdeBlock := {| block_to_vec _ := None; block_from_slice _ := None |}.
#[local] Instance called_erasures : SerdeErasure := {| erasure_to_vec _ := None; erasure_from_slice _ := None |}.
#[local] Instance called_uuid : UuidDisplay := {| uuid_to_string u := pretty u |}.

#[local] Existing Instance serde_over.
#[local] Instance called_replay : SerdeReplay := {| bundle_to_vec_pretty _ := Some (as_bytes "{}") |}.

Definition ctx : AuditContext := mkAuditContext 5 7%Z 0 1.
Definition audit_record (sequence : N) (outcome : string) (details : Value) (previous : option string) : AuditRecord :=
  mkAuditRecord 1 sequence 5 7%Z 0 1 "export" outcome "run" (Some details) previous "".
Definition intent_record : AuditRecord := audit_record 1 "intent" replay_details None.
Definition complete_record : AuditRecord :=
  audit_record 2 "complete" (replay_complete_details (mkReplayExportReport "run" [] FORMAT 1 1 1 true))
    (Some (a_record_sha256 (AuditExamples.sealed_as intent_record (be_bytes 1 65)))).
Definition table : list (AuditRecord * bytes) :=
  AuditExamples.entries 0 intent_record ++ AuditExamples.entries 1 complete_record.
#[local] Instance called_audit : SerdeAudit := AuditExamples.table_serde table.
#[local] Instance called_audit_laws : SerdeAuditLaws.
Proof. apply AuditExamples.table_laws. apply (@bool_decide_unpack _ (AuditExamples.table_reads_dec _)). vm_compute. exact I. Qed.

Definition before : Exporting :=
  mkExporting (Some (plain_text ++ [LF])) (Some (join_log InspectExamples.call_lines)) InspectExamples.dir None
    {["notes" := OtherEntry]}.
Definition env : ReplayEnv := mkReplayEnv 9 3 11%Z ctx ctx 2 id.
Definition export (n : nat) : outcome ReplayExportReport * (Exporting * nat) :=
  export_replay_with_key ["runs"; "run"] ["exports"] "bundle" None env (before, n).

Lemma separate : "bundle" <> temporary_export env.
Proof. by vm_compute. Qed.
Lemma export_split n : export n = ((export n).1, ((export n).2.1, (export n).2.2)).
Proof. by destruct (export n) as [out [w n']]. Qed.
Definition report : ReplayExportReport := mkReplayExportReport "run" ["exports"; "bundle"] FORMAT 1 1 1 true.
Lemma export_returns : (export 100).1 = Returned (Ok report).
Proof. vm_compute. reflexivity. Qed.

(** One that is killed after its seventh step, and one that returns. *)
Lemma replay_export_exact_witness :
  (export 7).1 = Killed /\ untouched before None (temporary_export env) "bundle" (export 7).2.1 /\
  delivered before ["exports"] "bundle" None report (export 100).2.1.
Proof.
  split; [vm_compute; reflexivity|]. split.
  - exact (proj1 (replay_export_exact before _ _ _ _ _ 7 _ _ _ separate (export_split 7))).
  - exact (proj2 (replay_export_exact before _ _ _ _ _ 100 _ _ _ separate (export_split 100)) _ export_returns).
Defined.

Definition inspected : Inspection :=
  default InspectExamples.inspected (fst <$> ok (check_source before None)).
Definition attempts : list (string * AttemptEvidence) :=
  default [] (ok (collect_attempts (ew_events before) (m_run_id (in_manifest inspected)) None)).
Lemma called_logged : run_events (ew_events before) (m_run_id (in_manifest inspected)) None = Ok called.
Proof. vm_compute. reflexivity. Qed.
Lemma attempts_collected : collect_attempts (ew_events before) (m_run_id (in_manifest inspected)) None = Ok attempts.
Proof. vm_compute. reflexivity. Qed.

Lemma source_checked : check_source before None = Ok (inspected, None).
Proof. vm_compute. reflexivity. Qed.
Lemma one_attempt : length attempts = 1%nat.
Proof. vm_compute. reflexivity. Qed.

Lemma exported_whole : exists D bundle r, whole before None inspected attempts D bundle r /\
  exists a, rb_attempts bundle = [a].
Proof.
  destruct (delivered_whole _ _ _ _ _ _ _ _ _
    (proj2 (export_replay_holds _ _ _ _ _ _ separate _ _ _ _ _ eq_refl (export_split 100)) _ export_returns)
    source_checked attempts_collected) as (D & bundle & r & Hw & Hl). exists D, bundle, r. split; [exact Hw|].
  rewrite one_attempt in Hl. destruct (rb_attempts bundle) as [|a [|? ?]]; try done. by exists a.
Qed.

Lemma replay_bundle_faithful_witness : exists D bundle,
  ra_attempt_id <$> rb_attempts bundle ≡ₚ ["a1"] /\
  exists files, xd_attempts D = Some files /\ Forall (replayed before None called files) (rb_attempts bundle).
Proof.
  destruct exported_whole as (D & bundle & r & Hw & _). exists D, bundle.
  destruct (replay_bundle_faithful before None inspected attempts D bundle r called called_logged
              ltac:(by vm_compute) attempts_collected Hw) as (H1 & _ & H2 & _).
  split; [exact H1|exact H2].
Defined.

Lemma replay_no_credentials_witness : exists bundle a, rb_attempts bundle = [a] /\
  clean_headers (members (ra_attempt_id a) called) (ra_headers a).
Proof.
  destruct exported_whole as (D & bundle & r & Hw & a & Ha). exists bundle, a. split; [exact Ha|].
  refine (proj1 (replay_no_credentials before None inspected attempts D bundle r called a called_logged
                   attempts_collected Hw _)). rewrite Ha. by left.
Defined.
End ReplayExamples.
